(* ===== verification/_CoqProject ===== *)
-Q . S2P
Prelude.v
Names.v
BackendState.v
Types.v
Encoding.v
Database.v
Keys.v
Backends.v
Nodes.v
Connect.v
Invariant.v
Scenario.v
Changes.v
Safety.v
BackendProps.v
NodeProps.v
ConnectProps.v
Takeover.v
Controller.v
ControllerProps.v
StateStore.v
KeyManager.v
OverWire.v
Drone.v
DroneProps.v
Proxy.v
ProxyProps.v
Sse.v
Dns.v
DockerConfig.v
Docker.v
Config.v
ConfigFile.v
CertPair.v
Interaction.v
CertManager.v
Subscribe.v
UnixSocket.v
TypedSocket.v
Api.v
Forward.v
Sockets.v
SocketProps.v
Admin.v
Lifecycle.v
Teardown.v
Exclusion.v
ControllerProcess.v
DroneProcess.v
ProxyProcess.v
