(* ===== verification/Prelude.v ===== *)
(** * Plane: verification development (root file and prelude)

    Plane runs interactive sessions ("backends", one container each) on a fleet of
    machines. Its parts and how they interact:

    - the controllers ([plane/src/controller], [plane/src/database]) keep all shared state
      in one Postgres database, serve the API and hold a socket to every node;
    - a drone ([plane/src/drone]) runs backends: it gets spawn and terminate actions,
      reports the states of its backends, and renews the keys they hold;
    - a proxy ([plane/src/proxy]) forwards requests to backends: it asks the controller for
      the route of a token, and reports which backends are in use;
    - a DNS server ([plane/src/dns]) answers certificate challenges.

    A key is the lock that makes a backend the only one running for a document. The
    central promises are that a key has one holder, that a holder which loses contact
    stops before its key is given away, and that clients are routed to the holder.

    ** Files

    - [Prelude]: results, strings, lists, sorted lists, time, automation.
    - [Names], [BackendState], [Types]: [common/src/{names,util,protocol,lib}.rs] and
      [common/src/types]: validated names, the states of a backend and their transitions,
      requests, responses, tokens and messages. [Types.Externals] and
      [Types.ExternalLaws] are the third-party functions used (URL hosts, socket address
      printing, Unicode classes, base64), with the laws relied on and an instance.
    - [Encoding]: [common/src/{serialization,log_types}.rs] and the serde attributes of the
      types: the JSON form of every request, response and message, read and written as the
      derives do. [serde_json] is the class [Serde] with its laws and an instance.
    - [OverWire]: the renewal of keys and the sweep of a drone with their messages encoded
      and decoded between the two ends.
    - [Database]: the tables as a record [DB], transactions ([txn]), the event log and
      notifications ([database/subscribe.rs], the migrations).
    - [Keys], [Backends], [Nodes], [Connect]: the queries of [plane/src/database], a module
      per Rust file. A query is a function from the database to a new database and a
      [result]; [connect.rs] is several transactions, a program ([Connect.prog]) that is
      run with arbitrary interference between its steps ([run_env]).
    - [Invariant]: [step], one transaction of anybody on the database, the reachable
      databases, and the invariant [wf]. [Changes]: what a step can do to a row, a key,
      an action. [Scenario]: a concrete execution used by the witnesses.
    - [Safety], [BackendProps], [NodeProps], [ConnectProps], [Takeover]: theorems about the database.
    - [Controller], [ControllerProps]: the handlers of [plane/src/controller] and
      [cleanup.rs].
    - [StateStore], [KeyManager], [Drone], [DroneProps]: [plane/src/drone]: the SQLite
      store, the key renewal task, the state machine of a backend, the executor and the
      message loop.
    - [Proxy], [ProxyProps]: [plane/src/proxy] and [dynamic-proxy/src/request.rs]: the cache
      of routes, keepalives, request checks and rewriting. The [lru] and [http] crates are
      the classes [LruCache] and [Http], with laws and instances.
    - [Sse]: [common/src/{exponential_backoff,sse}.rs]: backoff, the parser of server-sent
      events and the client that reconnects, composed with the status stream of the
      controller.
    - [Dns]: [plane/src/dns]: the lookups, composed with the controller and the database.
    - [DockerConfig], [Docker]: [plane/src/drone/runtime/docker]: the configuration of a
      container ([std::path] and the floating-point quota included), and the runtime
      against a class [Docker] of the daemon's calls with their documented effects.
    - [Config], [ConfigFile]: the options of the commands, the configuration files of the
      processes as JSON, and [plane/src/main.rs].
    - [CertPair], [CertManager]: [plane/src/proxy/cert_*.rs]: certificate files, the watcher
      of the TLS server and the refresh task. [Interaction] is the logic used for that
      task: programs that call their surroundings, and monitors of their calls.
    - [Subscribe]: [plane/src/database/subscribe.rs]: the task that listens to the database,
      composed with it, and the fan-out to subscriptions.
    - [UnixSocket]: [plane/src/typed_unix_socket] and [drone/runtime/unix_socket]: both ends
      of the socket and the runtime on it.
    - [TypedSocket]: [common/src/typed_socket]: the two loops of a websocket connection.
    - [Api]: [common/src/{lib,controller_address}.rs] against the routes, the authorization
      layer and the heartbeats of [plane/src/controller/{mod,forward_auth}.rs].
    - [Forward]: [dynamic-proxy/src]: the forwarded headers, the redirect to HTTPS, requests and
      upgrades, the graceful shutdown of connections and the two listening loops.
    - [Sockets], [SocketProps]: the tasks at both ends of the connections between controllers
      and nodes ([controller/{drone,proxy,dns}.rs], [drone/mod.rs], [drone/heartbeat.rs],
      [proxy/proxy_connection.rs]), and [System], any number of them on one database.
    - [Admin]: [bin/db-cli.rs], [admin.rs] and the durations they print ([util.rs]).
    - [Lifecycle], [Teardown]: the parts put together, from a pending spawn to a route, and from a
      request for termination to a free key.
    - [Exclusion]: the fleet: the controllers' handlers and the database, any number of drones
      ([drone/mod.rs], [drone/key_manager.rs]) with their clocks, and all messages ever sent.
    - [ControllerProcess], [DroneProcess], [ProxyProcess]: the processes from their start to their
      shutdown: [controller/mod.rs] with its background tasks and the database, [Drone::run] over
      the files of its machine, [run_proxy] with its certificates and servers, [run_dns].

    ** What the theorems show

    - The lock. [Safety]: every step refines an abstract lease lock; a lease protects its
      holder; a lost key is not regained. [ConnectProps]: two spawns for a key exclude each
      other, a connect request ends and its answer is backed by the database, all under
      interference. [KeyManager]: the drone's task always ends in a hard termination, in
      time for the end of the lease, also with the truncation of times by the wire ([OverWire]).
      [Exclusion]: across the whole fleet at most one drone may run a backend for a key, and one
      backend, whatever happens to the messages, until the database knows that a backend is over.
      [Takeover]: when a lease is over, a connect request for its key succeeds at once.
    - States. [Safety] and [DroneProps]: statuses only advance, in the database and in the
      drone's machine; the machine is never stuck; [BackendProps]: reports may be repeated
      and reordered; [DroneProps]: drone and controller converge; [StateStore]: reports
      survive until acknowledged. Status streams miss and repeat nothing ([BackendProps]),
      also across reconnections ([ControllerProps]).
    - Actions. Pending actions are kept until acknowledged ([NodeProps]); a spawn does not
      replace a live backend ([DroneProps]); a restart terminates everything.
    - Routing. The answer for a token follows the backend ([BackendProps]), a waiting
      request is answered ([ControllerProps]), the proxy's cache refines an unbounded one,
      requests reach only the route's address and carry only its verified headers, and
      connected backends are kept alive ([ProxyProps]).
    - The whole. The tasks of all connections refine the steps of the database, pending
      actions drain, a stale route is forgotten after one request ([SocketProps]); a session
      comes up, and goes down when a client asks for it: the handlers, the controller's task, the
      drone, its container runtime, the queries and the route of a proxy composed ([Lifecycle],
      [Teardown]).
    - Processes. A controller serves only while the database knows it and stays offline once it has
      left; a drone that is started again reports what its last process did not; a proxy opens its
      HTTPS port with a certificate, and then forwards only what came over TLS
      ([ControllerProcess], [DroneProcess], [ProxyProcess]).
    - Forwarding. Requests carry the address and the scheme of their connection, a shutdown
      tells each connection once and ends ([Forward]).
    - Tools. The command-line tools only make steps of the database; a backend is marked lost
      only after a confirmation ([Admin]).
    - Nodes. Identities, late disconnections, DNS leases, the choice of a drone
      ([NodeProps]); cleanup ([Safety]); a controller that beats stays fresh ([Api]).
    - Messages. Every message is read back as it was written, times in whole milliseconds
      ([Encoding]). Events reach every subscription once and in order across lost database
      connections ([Subscribe]); websocket messages are neither reordered nor repeated
      ([TypedSocket]); responses belong to their requests ([UnixSocket]); SSE streams are
      read back as written and resumed without gaps ([Sse]); the client's calls reach their
      handlers ([Api]).
    - Containers. A mount stays under its base, limits are in range ([DockerConfig]); spawning
      and terminating touch one container and report what happened, waiting ends
      ([Docker]).
    - Certificates. DNS answers are what the database held ([Dns]); the refresh task follows
      its protocol and the server gets the latest certificate ([CertManager]); files
      round-trip ([CertPair]).

    Several theorems show defects of the code: an event dropped with the rest of its chunk,
    a DNS lookup overwritten by another, an executor whose events end for a drone that lags once, a
    key name that escapes the mount base, a request that waits forever, a route that does not exist, a
    backend whose name stops the sweeps of its drone, a configuration file that needs a deprecated
    option, a controller that is online again after it has left. They are stated as what the code does.

    ** Conventions and bounds

    Instants and durations are integers in microseconds. A Rust string is its bytes. An
    [i32]/[i64] is a [Z] without a bound, since none is computed near its limits; the
    [u32] counter of connections wraps ([ConnectionMonitor.wrap_u32]), and so do the [u64]
    counters of metrics and the casts of container limits. Fuel: [set_state] recurses at most
    twice; [connect] makes at most three attempts, as many as the code does; the key loop
    gets four passes plus one for each failed action, which [renew_key_loop_ends] proves
    enough; a tick of a drone's connection sends at most fifty actions; the admin tool's loop
    over a spawn ends after nine passes; the SSE client gets the [work] left in its connections ([next_total]); waiting
    for a backend gets 3001 attempts of at least ten milliseconds for its timeout of thirty
    seconds. Loops that never end are step relations or bounded by a number of passes that
    the theorem quantifies over. Random tokens do not repeat (a premise of the step that
    makes one), nor do the ids of backends in [Exclusion], where all clocks run at the same rate,
    each with an offset of its own. Broadcast channels hold at least their capacity; a receiver that falls
    further behind loses the oldest messages. JSON numbers are integers; handlers and tables
    take messages as values, and [Encoding], [OverWire] and [Sse] say what the wire makes of
    them. When several fields of a document are bad, the first in the order of the
    declaration decides the error.

    ** Not modelled

    Postgres and SQLite themselves (a query is its meaning; serialisation failures are not),
    TLS, the HTTP server and client, the websocket protocol, the Docker daemon and the ACME
    library: they are parameters with the laws relied on. Logging, tracing and metrics
    export; what the tools print; the handlers of signals themselves.
*)

From stdpp Require Export base gmap strings list fin_maps sorting.
From Stdlib Require Export ZifyBool ZifyN.
From Stdlib Require Ascii.
Export Stdlib.Strings.Ascii (ascii(..)).
Export (notations) Stdlib.Strings.Ascii.

(** ** Results

    Rust's [Result<T, E>]; the error type comes first so that a partially
    applied [result E] is a functor in the value. *)

Inductive result (E T : Type) : Type :=
| Ok (t : T)
| Err (e : E).
Arguments Ok {E T} t.
Arguments Err {E T} e.

Definition is_ok {E T} (r : result E T) : bool :=
  match r with Ok _ => true | Err _ => false end.

Definition result_bind {E T U} (r : result E T) (k : T → result E U) : result E U :=
  match r with Ok t => k t | Err e => Err e end.

Definition map_err {E F T} (f : E → F) (r : result E T) : result F T :=
  match r with Ok t => Ok t | Err e => Err (f e) end.

(** Rust's [Option::ok_or]. *)
Definition ok_or {E T} (o : option T) (e : E) : result E T :=
  match o with Some t => Ok t | None => Err e end.

(** [opt.map(f).transpose()] for a fallible [f]. *)
Definition transpose_map {E T U} (f : T → result E U) (o : option T) : result E (option U) :=
  match o with
  | None => Ok None
  | Some t => match f t with Ok u => Ok (Some u) | Err e => Err e end
  end.

(** Decoding a list of rows, stopping at the first row that fails (a [for] loop
    with [?] in its body). *)
Fixpoint map_result {E T U} (f : T → result E U) (l : list T) : result E (list U) :=
  match l with
  | [] => Ok []
  | x :: l =>
      match f x with
      | Err e => Err e
      | Ok y => match map_result f l with Err e => Err e | Ok ys => Ok (y :: ys) end
      end
  end.

Declare Scope plane_scope.
Delimit Scope plane_scope with plane.
Notation "'let?' x ':=' r 'in' k" := (result_bind r (λ x, k))
  (at level 10, x pattern, r at level 100, k at level 200) : plane_scope.
Open Scope plane_scope.

(** ** Automation *)

Create HintDb plane.

(** Case analysis on every [match] and [if] of the goal or of the hypotheses. *)
Ltac crush_match :=
  repeat (case_match || case_decide || case_bool_decide); simplify_eq/=.

Ltac plane := simplify_eq/=; eauto with plane; try naive_solver; try lia.

(** ** Time

    Instants and durations are integers in microseconds: Postgres' [timestamptz]
    resolution. Every duration constant of the code is a whole number of
    milliseconds or more. *)

Definition from_millis (n : Z) : Z := (n * 1000)%Z.
Definition from_secs (n : Z) : Z := (n * 1000000)%Z.
Definition from_days (n : Z) : Z := (n * 86400000000)%Z.

(** ** Strings

    A Rust [str] is its UTF-8 byte sequence, a [string] of 8-bit characters. *)

Fixpoint strip_prefix (p s : string) : option string :=
  match p, s with
  | EmptyString, _ => Some s
  | String a p', String b s' => if Ascii.eqb a b then strip_prefix p' s' else None
  | String _ _, EmptyString => None
  end.

Definition starts_with (p s : string) : bool :=
  match strip_prefix p s with Some _ => true | None => false end.

Fixpoint strip_suffix (p s : string) : option string :=
  if decide (s = p) then Some ""
  else match s with
       | EmptyString => None
       | String a s' => String a <$> strip_suffix p s'
       end.

Definition ends_with (p s : string) : bool :=
  match strip_suffix p s with Some _ => true | None => false end.

(** [str::split_once] at a one-byte separator. *)
Fixpoint split_once (c : ascii) (s : string) : option (string * string) :=
  match s with
  | EmptyString => None
  | String a s' =>
      if Ascii.eqb a c then Some ("", s')
      else match split_once c s' with
           | Some (l, r) => Some (String a l, r)
           | None => None
           end
  end.

Fixpoint string_has (c : ascii) (s : string) : bool :=
  match s with
  | EmptyString => false
  | String a s' => Ascii.eqb a c || string_has c s'
  end.

Fixpoint string_forallb (f : ascii → bool) (s : string) : bool :=
  match s with
  | EmptyString => true
  | String a s' => f a && string_forallb f s'
  end.

(** *** Lemmas on strings *)

Lemma append_cons a s t : String a s +:+ t = String a (s +:+ t).
Proof. done. Qed.

Lemma append_nil_l t : "" +:+ t = t.
Proof. done. Qed.

Lemma append_nil_r s : s +:+ "" = s.
Proof. induction s as [|a s IH]; [done|]. rewrite append_cons. by rewrite IH. Qed.

Lemma append_assoc s t u : (s +:+ t) +:+ u = s +:+ (t +:+ u).
Proof. induction s as [|a s IH]; [done|]. rewrite !append_cons. by rewrite IH. Qed.

Lemma append_length s t : String.length (s +:+ t) = String.length s + String.length t.
Proof. induction s as [|a s IH]; [done|]. rewrite append_cons. simpl. lia. Qed.

Lemma append_inj_l s t u : s +:+ t = s +:+ u → t = u.
Proof. apply String.app_inj. Qed.

Lemma append_inj_r s t u : s +:+ u = t +:+ u → s = t.
Proof.
  revert t. induction s as [|a s IH]; intros [|b t] H.
  - done.
  - apply (f_equal String.length) in H. rewrite append_cons in H. simpl in H.
    rewrite !append_length in H. simpl in H. lia.
  - apply (f_equal String.length) in H. rewrite append_cons in H. simpl in H.
    rewrite !append_length in H. simpl in H. lia.
  - rewrite !append_cons in H. simplify_eq. f_equal. by apply IH.
Qed.

Lemma strip_prefix_spec p s t : strip_prefix p s = Some t ↔ s = p +:+ t.
Proof.
  revert s. induction p as [|a p IH]; intros s; simpl.
  - split; [by intros [= ->]|by intros ->].
  - rewrite append_cons. destruct s as [|b s]; [done|].
    destruct (Ascii.eqb_spec a b) as [->|Hne].
    + rewrite IH. split; [by intros ->|by intros [= ->]].
    + split; [done|by intros [= ]].
Qed.

Lemma strip_suffix_spec p s t : strip_suffix p s = Some t ↔ s = t +:+ p.
Proof.
  revert t. induction s as [|a s IH]; intros t; simpl.
  - case_decide as Hp.
    + subst p. split; [by intros [= <-]|].
      destruct t; [done|]. by rewrite append_cons.
    + split; [done|]. destruct t; [naive_solver|by rewrite append_cons].
  - case_decide as Hp.
    + subst p. split; [by intros [= <-]|].
      intros H. f_equal. apply (append_inj_r _ _ (String a s)). by rewrite append_nil_l.
    + rewrite fmap_Some. split.
      * intros (t' & Ht & ->). apply IH in Ht. subst. by rewrite append_cons.
      * destruct t as [|b t]; [naive_solver|]. rewrite append_cons. intros [= -> H].
        exists t. split; [by apply IH|done].
Qed.

Lemma starts_with_spec p s : starts_with p s = true ↔ ∃ t, s = p +:+ t.
Proof.
  unfold starts_with. destruct (strip_prefix p s) as [t|] eqn:E.
  - apply strip_prefix_spec in E. naive_solver.
  - split; [done|]. intros [t ->].
    by rewrite (proj2 (strip_prefix_spec p (p +:+ t) t) eq_refl) in E.
Qed.

Lemma starts_with_append p t : starts_with p (p +:+ t) = true.
Proof. apply starts_with_spec. by exists t. Qed.

Lemma split_once_spec c s l r :
  split_once c s = Some (l, r) ↔ s = l +:+ String c r ∧ string_has c l = false.
Proof.
  revert l r. induction s as [|a s IH]; intros l r; simpl.
  { split; [done|]. destruct l; rewrite ?append_nil_l, ?append_cons; naive_solver. }
  destruct (Ascii.eqb_spec a c) as [->|Hne].
  - split.
    + intros [= <- <-]. done.
    + destruct l as [|b l]; [by intros [[= ->] _]|].
      rewrite append_cons. simpl. intros [[= -> _] Hf].
      by rewrite Ascii.eqb_refl in Hf.
  - destruct (split_once c s) as [[l' r']|] eqn:E.
    + destruct (proj1 (IH l' r') eq_refl) as [-> Hl']. split.
      * intros [= <- <-]. rewrite append_cons. simpl.
        destruct (Ascii.eqb_spec a c); naive_solver.
      * destruct l as [|b l]; [rewrite append_nil_l; naive_solver|].
        rewrite append_cons. simpl. intros [[= -> Hs] Hf].
        apply orb_false_iff in Hf as [_ Hf].
        by assert (Some (l', r') = Some (l, r)) as [= -> ->] by by apply IH.
    + split; [done|]. destruct l as [|b l]; [rewrite append_nil_l; naive_solver|].
      rewrite append_cons. simpl. intros [[= -> Hs] Hf].
      apply orb_false_iff in Hf as [_ Hf].
      by assert (None = Some (l, r)) by by apply IH.
Qed.

Lemma split_once_None c s : split_once c s = None ↔ string_has c s = false.
Proof.
  induction s as [|a s IH]; simpl; [done|].
  destruct (Ascii.eqb_spec a c); simpl; [done|].
  destruct (split_once c s) as [[]|]; naive_solver.
Qed.

Lemma string_has_append c s t : string_has c (s +:+ t) = string_has c s || string_has c t.
Proof.
  induction s as [|a s IH]; [done|]. rewrite append_cons. simpl.
  by rewrite IH, orb_assoc.
Qed.

Lemma string_forallb_append f s t :
  string_forallb f (s +:+ t) = string_forallb f s && string_forallb f t.
Proof.
  induction s as [|a s IH]; [done|]. rewrite append_cons. simpl.
  by rewrite IH, andb_assoc.
Qed.

Create Rewrite HintDb plane_str.
#[export] Hint Rewrite append_nil_l append_nil_r append_assoc append_length : plane_str.
#[export] Hint Resolve starts_with_append : plane.

(** ** Unicode scalar values of a UTF-8 string ([str::chars]) *)

Definition byte_N (a : ascii) : N := Ascii.N_of_ascii a.

(** One pass over the bytes: a leading byte starts a scalar, a continuation byte
    (0b10xxxxxx) extends the pending one. Rust strings are valid UTF-8, so every
    sequence met here is complete. *)
Fixpoint utf8_chars_go (pending : option N) (s : string) : list N :=
  match s with
  | EmptyString => option_list pending
  | String a s' =>
      let b := byte_N a in
      if (b <? 128)%N then option_list pending ++ b :: utf8_chars_go None s'
      else if (b <? 192)%N then
        utf8_chars_go (Some (default 0%N pending * 64 + (b - 128))%N) s'
      else if (b <? 224)%N then option_list pending ++ utf8_chars_go (Some (b - 192)%N) s'
      else if (b <? 240)%N then option_list pending ++ utf8_chars_go (Some (b - 224)%N) s'
      else option_list pending ++ utf8_chars_go (Some (b - 240)%N) s'
  end.

Definition chars (s : string) : list N := utf8_chars_go None s.

Definition is_ascii_lowercase (c : N) : bool := ((97 <=? c) && (c <=? 122))%N.
Definition is_ascii_uppercase (c : N) : bool := ((65 <=? c) && (c <=? 90))%N.
Definition is_ascii_digit (c : N) : bool := ((48 <=? c) && (c <=? 57))%N.

(** The bytes of an all-ASCII string are its characters. *)
Definition is_ascii_str (s : string) : bool := string_forallb (λ a, (byte_N a <? 128)%N) s.

Lemma chars_ascii_cons a s :
  (byte_N a <? 128)%N = true → chars (String a s) = byte_N a :: chars s.
Proof. unfold chars. simpl. by intros ->. Qed.

Lemma chars_forall_ascii (f : N → bool) s :
  (∀ c, f c = true → (c <? 128)%N = true) →
  string_forallb (λ a, f (byte_N a)) s = true → forallb f (chars s) = true.
Proof.
  intros Hf. induction s as [|a s IH]; [done|]. simpl.
  intros [Ha Hs]%andb_true_iff. rewrite chars_ascii_cons by by apply Hf.
  simpl. rewrite Ha. auto.
Qed.

(** ** Lists *)

Lemma map_result_Ok {E T U} (f : T → result E U) l ys :
  map_result f l = Ok ys → Forall2 (λ x y, f x = Ok y) l ys.
Proof.
  revert ys. induction l as [|x l IH]; intros ys; simpl; [intros [= <-]; constructor|].
  destruct (f x) eqn:Hf; [|done]. destruct (map_result f l); [|done]. intros [= <-].
  constructor; auto.
Qed.

Lemma map_result_total {E T U} (f : T → result E U) l :
  (∀ x, x ∈ l → ∃ y, f x = Ok y) → ∃ ys, map_result f l = Ok ys.
Proof.
  induction l as [|x l IH]; intros Hf; simpl; [by eexists|].
  destruct (Hf x) as [y ->]; [set_solver|]. destruct IH as [ys ->]; [set_solver|]. by eexists.
Qed.

(** [Iterator::min_by_key]: the first element of minimal key. *)
Definition min_by_key {A} (key : A → Z) (l : list A) : option A :=
  match l with
  | [] => None
  | x :: l => Some (fold_left (λ best y, if (key y <? key best)%Z then y else best) l x)
  end.

Lemma min_by_key_fold {A} (key : A → Z) l x :
  let m := fold_left (λ best y, if (key y <? key best)%Z then y else best) l x in
  m ∈ x :: l ∧ ∀ y, y ∈ x :: l → (key m ≤ key y)%Z.
Proof.
  revert x. induction l as [|z l IH]; intros x; simpl.
  { split; [set_solver|]. intros y Hy. assert (y = x) as -> by set_solver. lia. }
  destruct (IH (if (key z <? key x)%Z then z else x)) as [Hin Hmin]. split.
  - revert Hin. case_match; set_solver.
  - intros y Hy. pose proof (Hmin _ (list_elem_of_here _ _)) as Hb.
    assert (y = x ∨ y = z ∨ y ∈ l) as [->|[->|Hl]] by set_solver;
      [..|apply Hmin; set_solver];
      revert Hb; destruct (Z.ltb_spec (key z) (key x)); lia.
Qed.

Lemma min_by_key_Some {A} (key : A → Z) l m :
  min_by_key key l = Some m → m ∈ l ∧ ∀ y, y ∈ l → (key m ≤ key y)%Z.
Proof. destruct l as [|x l]; [done|]. intros [= <-]. apply min_by_key_fold. Qed.

Lemma min_by_key_None {A} (key : A → Z) l : min_by_key key l = None → l = [].
Proof. by destruct l. Qed.

(** *** Sorted lists *)

Lemma StronglySorted_filter {A} (R : relation A) (P : A → Prop) `{∀ x, Decision (P x)} l :
  StronglySorted R l → StronglySorted R (filter P l).
Proof.
  induction 1 as [|x l Hs IH Hf]; [constructor|]. rewrite filter_cons.
  case_decide; [|done]. constructor; [done|].
  rewrite Forall_forall in Hf |- *. intros y [? ?]%list_elem_of_filter. auto.
Qed.

Lemma StronglySorted_snoc {A} (R : relation A) l x :
  StronglySorted R (l ++ [x]) ↔ StronglySorted R l ∧ ∀ y, y ∈ l → R y x.
Proof.
  rewrite StronglySorted_app. split.
  - intros (H & ? & _). split; [done|]. intros y Hy. apply H; set_solver.
  - intros [? H]. split_and!; [|done|repeat constructor].
    intros y z Hy Hz. assert (z = x) as -> by set_solver. auto.
Qed.

Lemma StronglySorted_drop {A} (R : relation A) n l : StronglySorted R l → StronglySorted R (drop n l).
Proof. rewrite <- (take_drop n l) at 1. rewrite StronglySorted_app. tauto. Qed.

(** In an increasing list the last element bounds the others. *)
Lemma sorted_last_bound (R : relation Z) (l : list Z) m y :
  (∀ a b, R a b → (a ≤ b)%Z) → StronglySorted R l → last l = Some m → y ∈ l → (y ≤ m)%Z.
Proof.
  intros HR. destruct l as [|x l _] using rev_ind; [done|].
  rewrite last_snoc, StronglySorted_snoc. intros [_ H] [= ->].
  rewrite elem_of_app. intros [Hy|Hy]; [by apply HR, H|].
  apply list_elem_of_singleton in Hy as ->. lia.
Qed.

Lemma sorted_last_max (l : list Z) m y :
  StronglySorted Z.lt l → last l = Some m → y ∈ l → (y ≤ m)%Z.
Proof. apply sorted_last_bound. lia. Qed.

(** Sorting by a key a list whose keys are already strictly increasing. *)
Lemma merge_sort_id {A} (f : A → Z) (R : relation A) `{!RelDecision R} l :
  (∀ a b, R a b ↔ (f a ≤ f b)%Z) →
  StronglySorted (λ a b, (f a < f b)%Z) l → merge_sort R l = l.
Proof.
  intros HR Hl.
  assert (Transitive R) by (intros a b c; rewrite !HR; lia).
  assert (Total R) by (intros a b; rewrite !HR; lia).
  apply (StronglySorted_unique_strong R).
  - assert (∀ a b, a ∈ l → b ∈ l → f a = f b → a = b) as Hinj.
    { clear -Hl. induction Hl as [|x l Hs IH Hf]; [set_solver|].
      rewrite Forall_forall in Hf. intros a b Ha Hb Hab.
      rewrite elem_of_cons in Ha, Hb.
      destruct Ha as [->|Ha], Hb as [->|Hb]; [done|..|auto];
        [specialize (Hf _ Hb)|specialize (Hf _ Ha)]; simpl in Hf; lia. }
    intros a b Ha Hb. rewrite (merge_sort_Permutation R) in Ha. rewrite !HR.
    intros ??. apply Hinj; [done..|lia].
  - by apply StronglySorted_merge_sort.
  - clear -Hl HR. induction Hl as [|x l Hs IH Hf]; constructor; [done|].
    eapply Forall_impl; [exact Hf|]. intros y Hy. apply HR. simpl in Hy. lia.
  - apply merge_sort_Permutation.
Qed.

(** *** Filters *)

Lemma filter_all {A} (P : A → Prop) `{∀ x, Decision (P x)} (l : list A) : (∀ x, x ∈ l → P x) → filter P l = l.
Proof.
  induction l as [|x l IH]; [done|]. intros Hl. rewrite filter_cons_True by (apply Hl; set_solver).
  f_equal. apply IH. set_solver.
Qed.

Lemma filter_none {A} (P : A → Prop) `{∀ x, Decision (P x)} (l : list A) : (∀ x, x ∈ l → ¬ P x) → filter P l = [].
Proof.
  induction l as [|x l IH]; [done|]. intros Hl. rewrite filter_cons_False by (apply Hl; set_solver).
  apply IH. set_solver.
Qed.

(** *** Finite maps *)

Lemma head_elem {A} (l : list A) x : head l = Some x → x ∈ l.
Proof. destruct l; naive_solver set_solver. Qed.

Lemma filter_lookup_inv {K A} `{Countable K} (P : K * A → Prop) `{∀ x, Decision (P x)}
    (m : gmap K A) k a :
  filter P m !! k = Some a → m !! k = Some a ∧ P (k, a).
Proof. by rewrite map_lookup_filter_Some. Qed.
