(* ===== verification/Names.v ===== *)
(** * Entity names

    [common/src/names.rs], [common/src/util.rs] and the container identifiers of
    [plane/src/drone/runtime/docker/types.rs]: the validated string newtypes that
    identify controllers, backends, proxies, drones, DNS servers and actions,
    their random generation, and the mapping between backend names and Docker
    container names. *)

From S2P Require Import Prelude.

Module Names.

Definition MAX_NAME_LENGTH : nat := 45.

Inductive NameError :=
| InvalidAnyPrefix (s : string)
| InvalidPrefix (s prefix : string)
| InvalidCharacter (c : N) (i : nat)
| TooLong (len : nat).

#[global] Instance NameError_eq_dec : EqDecision NameError.
Proof. solve_decision. Defined.

(** The entities declared with [entity_name!] at the end of the file. *)
Inductive Entity := ControllerName | BackendName | ProxyName | DroneName
                  | AcmeDnsServerName | BackendActionName.

#[global] Instance Entity_eq_dec : EqDecision Entity.
Proof. solve_decision. Defined.

(** [Name::prefix]. *)
Definition prefix (e : Entity) : option string :=
  match e with
  | ControllerName => Some "co"
  | BackendName => None
  | ProxyName => Some "px"
  | DroneName => Some "dr"
  | AcmeDnsServerName => Some "ns"
  | BackendActionName => Some "ak"
  end.

(** The character test of the validation loop. *)
Definition name_char (c : N) : bool :=
  (is_ascii_lowercase c || is_ascii_digit c) || (c =? 45)%N.

(** [for (i, c) in s.chars().enumerate()]: the first bad character and its index. *)
Fixpoint bad_char (i : nat) (cs : list N) : option (N * nat) :=
  match cs with
  | [] => None
  | c :: cs => if name_char c then bad_char (S i) cs else Some (c, i)
  end.

(** [TryFrom<String>] as generated by [entity_name!]; a name is its string. *)
Definition try_from (e : Entity) (s : string) : result NameError string :=
  let check_rest :=
    if MAX_NAME_LENGTH <? String.length s then Err (TooLong (String.length s))
    else match bad_char 0 (chars s) with
         | Some (c, i) => Err (InvalidCharacter c i)
         | None => Ok s
         end in
  match prefix e with
  | Some p => if starts_with p s then check_rest else Err (InvalidPrefix s p)
  | None => check_rest
  end.

(** ** Random names

    [random_string] draws 14 indices below 36; the random generator is the
    argument [sample] giving the drawn indices. *)

Definition ALLOWED_CHARS : string := "abcdefghijklmnopqrstuvwxyz0123456789".

Definition allowed_char (i : nat) : ascii :=
  default "a"%char (String.get (i mod 36) ALLOWED_CHARS).

Fixpoint random_chars (sample : nat → nat) (n : nat) : string :=
  match n with
  | O => EmptyString
  | S n => String (allowed_char (sample n)) (random_chars sample n)
  end.

Definition random_string (sample : nat → nat) : string := random_chars sample 14.

Definition random_prefixed_string (p : string) (sample : nat → nat) : string :=
  p +:+ "-" +:+ random_string sample.

(** [Name::new_random]. *)
Definition new_random (e : Entity) (sample : nat → nat) : string :=
  match prefix e with
  | Some p => random_prefixed_string p sample
  | None => random_string sample
  end.

(** [Option<T>::or_random]. *)
Definition or_random (e : Entity) (o : option string) (sample : nat → nat) : string :=
  match o with Some n => n | None => new_random e sample end.

(** [NameParser]: a name on the command line; [None] is an argument that is not UTF-8. The error of a
    bad name is printed. *)
Inductive ArgError := InvalidUtf8 | InvalidValue (e : NameError).
Definition parse_ref (e : Entity) (arg : option string) : result ArgError string :=
  match arg with
  | None => Err InvalidUtf8
  | Some st => map_err InvalidValue (try_from e st)
  end.

(** ** Container identifiers *)

Definition to_container_id (backend : string) : string := "plane-" +:+ backend.

Definition from_container_id (container_id : string) : result NameError string :=
  match strip_prefix "plane-" container_id with
  | None => Err (InvalidPrefix container_id "plane-")
  | Some s => try_from BackendName s
  end.

(** ** Node names *)

Inductive NodeKind := Proxy | Drone | AcmeDnsServer.

#[global] Instance NodeKind_eq_dec : EqDecision NodeKind.
Proof. solve_decision. Defined.

(** [Display] and [TryFrom<String>] of [NodeKind] go through its serde form. *)
Definition NodeKind_to_string (k : NodeKind) : string :=
  match k with Proxy => "Proxy" | Drone => "Drone" | AcmeDnsServer => "AcmeDnsServer" end.

Definition NodeKind_try_from (s : string) : option NodeKind :=
  if decide (s = "Proxy") then Some Proxy
  else if decide (s = "Drone") then Some Drone
  else if decide (s = "AcmeDnsServer") then Some AcmeDnsServer
  else None.

Inductive AnyNodeName :=
| AnyProxy (name : string)
| AnyDrone (name : string)
| AnyAcmeDnsServer (name : string).

#[global] Instance AnyNodeName_eq_dec : EqDecision AnyNodeName.
Proof. solve_decision. Defined.

Definition AnyNodeName_to_string (n : AnyNodeName) : string :=
  match n with AnyProxy s | AnyDrone s | AnyAcmeDnsServer s => s end.

Definition AnyNodeName_try_from (s : string) : result NameError AnyNodeName :=
  if starts_with "px" s then let? n := try_from ProxyName s in Ok (AnyProxy n)
  else if starts_with "dr" s then let? n := try_from DroneName s in Ok (AnyDrone n)
  else if starts_with "ns" s then let? n := try_from AcmeDnsServerName s in Ok (AnyAcmeDnsServer n)
  else Err (InvalidAnyPrefix s).

Definition AnyNodeName_kind (n : AnyNodeName) : NodeKind :=
  match n with
  | AnyProxy _ => Proxy
  | AnyDrone _ => Drone
  | AnyAcmeDnsServer _ => AcmeDnsServer
  end.

(** ** Lemmas *)

Lemma bad_char_None i cs : bad_char i cs = None ↔ forallb name_char cs = true.
Proof.
  revert i. induction cs as [|c cs IH]; intros i; simpl; [done|].
  destruct (name_char c); simpl; [apply IH|done].
Qed.

Lemma name_char_ascii c : name_char c = true → (c <? 128)%N = true.
Proof. unfold name_char, is_ascii_lowercase, is_ascii_digit. lia. Qed.

(** What a valid name is, stated without the order of the checks. *)
Definition valid_name (e : Entity) (s : string) : Prop :=
  (∀ p, prefix e = Some p → starts_with p s = true) ∧
  String.length s ≤ MAX_NAME_LENGTH ∧
  forallb name_char (chars s) = true.

Lemma try_from_Ok e s n : try_from e s = Ok n ↔ n = s ∧ valid_name e s.
Proof.
  unfold try_from, valid_name. rewrite <- (bad_char_None 0). split.
  - destruct (Nat.ltb_spec MAX_NAME_LENGTH (String.length s));
      destruct (bad_char 0 (chars s)) as [[c i]|];
      destruct (prefix e) as [p|]; try destruct (starts_with p s) eqn:Hp; naive_solver lia.
  - intros (-> & Hp & Hl & ->).
    destruct (Nat.ltb_spec MAX_NAME_LENGTH (String.length s)); [lia|].
    destruct (prefix e) as [p|]; [by rewrite (Hp p eq_refl)|done].
Qed.

Lemma allowed_char_ok i : name_char (byte_N (allowed_char i)) = true.
Proof.
  unfold allowed_char.
  assert (i mod 36 < 36) as Hi by (apply Nat.mod_upper_bound; lia).
  revert Hi. generalize (i mod 36). intros n Hn.
  do 36 (destruct n as [|n]; [done|]). lia.
Qed.

Lemma random_chars_ok sample n :
  string_forallb (λ a, name_char (byte_N a)) (random_chars sample n) = true.
Proof. induction n as [|n IH]; [done|]. simpl. by rewrite allowed_char_ok, IH. Qed.

Lemma random_chars_length sample n : String.length (random_chars sample n) = n.
Proof. induction n as [|n IH]; [done|]. simpl. by rewrite IH. Qed.

Lemma name_chars_bytes s :
  string_forallb (λ a, name_char (byte_N a)) s = true → forallb name_char (chars s) = true.
Proof. apply chars_forall_ascii, name_char_ascii. Qed.

Lemma random_prefixed_valid e p sample :
  prefix e = Some p → String.length p = 2 →
  string_forallb (λ a, name_char (byte_N a)) p = true →
  valid_name e (random_prefixed_string p sample).
Proof.
  intros He Hl Hp. unfold random_prefixed_string, random_string. split_and!.
  - intros p' ?. simplify_eq. auto with plane.
  - rewrite !append_length, random_chars_length, Hl. unfold MAX_NAME_LENGTH. simpl. lia.
  - apply name_chars_bytes. by rewrite !string_forallb_append, Hp, random_chars_ok.
Qed.

Lemma new_random_valid e sample : valid_name e (new_random e sample).
Proof.
  unfold new_random. destruct (prefix e) as [p|] eqn:He.
  - apply random_prefixed_valid; [done|by destruct e; simplify_eq/=..].
  - split_and!; [by intros; simplify_eq|..].
    + unfold random_string. rewrite random_chars_length. unfold MAX_NAME_LENGTH. lia.
    + apply name_chars_bytes, random_chars_ok.
Qed.

Lemma bad_char_Some i cs c j :
  bad_char i cs = Some (c, j) →
  ∃ k, j = i + k ∧ cs !! k = Some c ∧ name_char c = false ∧
       forallb name_char (take k cs) = true.
Proof.
  revert i. induction cs as [|d cs IH]; intros i; simpl; [done|].
  destruct (name_char d) eqn:Hd.
  - intros (k & -> & Hk & Hc & Ht)%IH. exists (S k). simpl. rewrite Hd.
    split_and!; [lia|done..].
  - intros [= -> ->]. exists 0. split_and!; [lia|done..].
Qed.

(** ** Properties *)

(** [TryFrom<String>] decides validity: it returns the string itself exactly when
    the name is valid, and otherwise the first failing check in the order prefix,
    length, characters, with the offending data (the expected prefix, the length in
    bytes, or the first bad character and its index). *)
Theorem try_from_spec e s :
  match try_from e s with
  | Ok n => n = s ∧ valid_name e s
  | Err (InvalidPrefix s' p) => s' = s ∧ prefix e = Some p ∧ starts_with p s = false
  | Err (TooLong l) =>
      l = String.length s ∧ MAX_NAME_LENGTH < l ∧
      (∀ p, prefix e = Some p → starts_with p s = true)
  | Err (InvalidCharacter c i) =>
      chars s !! i = Some c ∧ name_char c = false ∧
      forallb name_char (take i (chars s)) = true ∧ String.length s ≤ MAX_NAME_LENGTH
  | Err (InvalidAnyPrefix _) => False
  end.
Proof.
  destruct (try_from e s) as [n|err] eqn:E; [by apply try_from_Ok|].
  revert E. unfold try_from.
  destruct (Nat.ltb_spec MAX_NAME_LENGTH (String.length s));
    destruct (bad_char 0 (chars s)) as [[c i]|] eqn:Hb;
    destruct (prefix e) as [p|]; try destruct (starts_with p s) eqn:Hp;
    intros; simplify_eq; try done; try naive_solver lia.
  all: by apply bad_char_Some in Hb as (k & -> & ? & ? & ?).
Qed.

(** Every randomly generated name, for any output of the random generator, is
    accepted unchanged by the validation of its own entity type, and for node
    entities it is recognised as a node of the right kind. *)
Theorem new_random_accepted e sample :
  try_from e (new_random e sample) = Ok (new_random e sample) ∧
  (e = ProxyName →
    AnyNodeName_try_from (new_random e sample) = Ok (AnyProxy (new_random e sample))) ∧
  (e = DroneName →
    AnyNodeName_try_from (new_random e sample) = Ok (AnyDrone (new_random e sample))) ∧
  (e = AcmeDnsServerName →
    AnyNodeName_try_from (new_random e sample) = Ok (AnyAcmeDnsServer (new_random e sample))).
Proof.
  assert (∀ e', try_from e' (new_random e' sample) = Ok (new_random e' sample)) as Hok.
  { intros e'. apply try_from_Ok. split; [done|apply new_random_valid]. }
  split; [apply Hok|]. split_and!; intros ->; unfold AnyNodeName_try_from; by rewrite Hok.
Qed.

Lemma new_random_accepted_witness :
  AnyNodeName_try_from (new_random DroneName (λ n, n)) =
    Ok (AnyDrone (new_random DroneName (λ n, n))).
Proof. apply (new_random_accepted DroneName (λ n, n)). reflexivity. Defined.

(** The map from backend names to Docker container names is injective and inverted
    by [from_container_id]: parsing succeeds with [b] exactly on the container name
    of a valid backend name [b]. *)
Theorem container_id_roundtrip c b :
  from_container_id c = Ok b ↔ c = to_container_id b ∧ valid_name BackendName b.
Proof.
  unfold from_container_id, to_container_id. split.
  - destruct (strip_prefix "plane-" c) as [s|] eqn:E; [|done].
    apply strip_prefix_spec in E as ->. intros [-> ?]%try_from_Ok. done.
  - intros [-> Hv]. rewrite (proj2 (strip_prefix_spec "plane-" _ b) eq_refl).
    by apply try_from_Ok.
Qed.

(** The unit test [test_backend_name_from_invalid_container_id] expects this
    conversion to fail with [InvalidPrefix]; [BackendName] has no prefix. *)
Theorem backend_name_any_prefix :
  try_from BackendName "invalid-123" = Ok "invalid-123" ∧
  from_container_id "invalid-123" = Err (InvalidPrefix "invalid-123" "plane-").
Proof. split; reflexivity. Qed.

End Names.
