(* ===== verification/BackendState.v ===== *)
(** * Backend states

    [common/src/types/backend_state.rs] and [common/src/log_types.rs]: the life
    cycle of a backend, the transition functions used by the drone, the status
    strings and numbers used by the controller, the structured log view
    ([valuable]) and the public status-stream entry. *)

From S2P Require Import Prelude.

(** A socket address (std's [SocketAddr]): an IPv4 or IPv6 address and a port. *)
Inductive IpAddr := IpV4 (bits : N) | IpV6 (bits : N).

Record SocketAddr := { sa_ip : IpAddr; sa_port : N }.

#[global] Instance IpAddr_eq_dec : EqDecision IpAddr.
Proof. solve_decision. Defined.
#[global] Instance SocketAddr_eq_dec : EqDecision SocketAddr.
Proof. solve_decision. Defined.

Module BackendStatus.

Inductive BackendStatus :=
| Scheduled | Loading | Starting | Waiting | Ready
| Terminating | HardTerminating | Terminated.

#[global] Instance BackendStatus_eq_dec : EqDecision BackendStatus.
Proof. solve_decision. Defined.

Definition as_int (s : BackendStatus) : Z :=
  match s with
  | Scheduled => 10
  | Loading => 20
  | Starting => 30
  | Waiting => 40
  | Ready => 50
  | Terminating => 60
  | HardTerminating => 65
  | Terminated => 70
  end.

(** The derived [PartialOrd]: declaration order. *)
Definition discriminant (s : BackendStatus) : nat :=
  match s with
  | Scheduled => 0 | Loading => 1 | Starting => 2 | Waiting => 3 | Ready => 4
  | Terminating => 5 | HardTerminating => 6 | Terminated => 7
  end.

Definition le (a b : BackendStatus) : bool := discriminant a <=? discriminant b.
Definition ge (a b : BackendStatus) : bool := le b a.

(** [Valuable::as_value], and [Display] through the serde form. *)
Definition to_string (s : BackendStatus) : string :=
  match s with
  | Scheduled => "scheduled"
  | Loading => "loading"
  | Starting => "starting"
  | Waiting => "waiting"
  | Ready => "ready"
  | Terminating => "terminating"
  | HardTerminating => "hard-terminating"
  | Terminated => "terminated"
  end.

Definition all_statuses : list BackendStatus :=
  [Scheduled; Loading; Starting; Waiting; Ready; Terminating; HardTerminating; Terminated].

(** [TryFrom<String>], serde's deserialisation of the unit variants. *)
Definition try_from (s : string) : option BackendStatus :=
  snd <$> list_find (λ st, to_string st = s) all_statuses.

End BackendStatus.
Export BackendStatus (BackendStatus, BackendStatus_eq_dec).

Module BackendState.
Import BackendStatus (as_int, to_string).

Inductive TerminationKind := Soft | Hard.

Inductive TerminationReason :=
| Swept | External | KeyExpired | Lost | StartupTimeout | InternalError.

Inductive BackendState :=
| Scheduled
| Loading
| Starting
| Waiting (address : SocketAddr)
| Ready (address : SocketAddr)
| Terminating (last_status : BackendStatus) (termination : TerminationKind)
              (reason : TerminationReason)
| HardTerminating (last_status : BackendStatus) (reason : TerminationReason)
| Terminated (last_status : BackendStatus) (termination : option TerminationKind)
             (reason : option TerminationReason) (exit_code : option Z).

#[global] Instance TerminationKind_eq_dec : EqDecision TerminationKind.
Proof. solve_decision. Defined.
#[global] Instance TerminationReason_eq_dec : EqDecision TerminationReason.
Proof. solve_decision. Defined.
#[global] Instance BackendState_eq_dec : EqDecision BackendState.
Proof. solve_decision. Defined.

Inductive BackendError := BStartupTimeout | BOther (msg : string).

Definition default_state : BackendState := Scheduled.

Definition address (s : BackendState) : option SocketAddr :=
  match s with
  | Waiting a => Some a
  | Ready a => Some a
  | _ => None
  end.

Definition status (s : BackendState) : BackendStatus :=
  match s with
  | Scheduled => BackendStatus.Scheduled
  | Loading => BackendStatus.Loading
  | Starting => BackendStatus.Starting
  | Waiting _ => BackendStatus.Waiting
  | Ready _ => BackendStatus.Ready
  | Terminating _ _ _ => BackendStatus.Terminating
  | HardTerminating _ _ => BackendStatus.HardTerminating
  | Terminated _ _ _ _ => BackendStatus.Terminated
  end.

Definition status_int (s : BackendState) : Z := as_int (status s).

(** ** Transitions *)

Definition to_loading (_ : BackendState) : BackendState := Loading.
Definition to_starting (_ : BackendState) : BackendState := Starting.
Definition to_waiting (_ : BackendState) (a : SocketAddr) : BackendState := Waiting a.
Definition to_ready (_ : BackendState) (a : SocketAddr) : BackendState := Ready a.

Definition to_terminating (s : BackendState) (reason : TerminationReason) : BackendState :=
  if BackendStatus.ge (status s) BackendStatus.Terminating then s
  else Terminating (status s) Soft reason.

Definition to_hard_terminating (s : BackendState) (reason : TerminationReason) : BackendState :=
  if BackendStatus.ge (status s) BackendStatus.HardTerminating then s
  else match s with
       | Terminating last_status _ _ => HardTerminating last_status reason
       | _ => HardTerminating (status s) reason
       end.

Definition to_terminated (s : BackendState) (exit_code : option Z) : BackendState :=
  match s with
  | Terminated _ _ _ _ => s
  | HardTerminating last_status reason =>
      Terminated last_status (Some Hard) (Some reason) exit_code
  | Terminating last_status termination reason =>
      Terminated last_status (Some termination) (Some reason) exit_code
  | _ => Terminated (status s) None None exit_code
  end.

Definition is_terminated (s : BackendState) : bool :=
  match s with Terminated _ _ _ _ => true | _ => false end.

(** ** Structured logging ([valuable])

    A [Mappable] value is visited as a sequence of entries. *)

Definition TerminationReason_as_value (r : TerminationReason) : string :=
  match r with
  | Swept => "swept"
  | External => "external"
  | KeyExpired => "keyexpired"
  | Lost => "lost"
  | StartupTimeout => "startuptimeout"
  | InternalError => "internalerror"
  end.

Inductive Value :=
| VStatus (s : BackendStatus)
| VString (s : string)
| VAddr (a : SocketAddr)
| VKind (k : TerminationKind)
| VReason (r : TerminationReason)
| VOptKind (k : option TerminationKind)
| VOptReason (r : option TerminationReason)
| VOptInt (i : option Z).

Definition visit (s : BackendState) : list (string * Value) :=
  match s with
  | Scheduled => [("status", VString "scheduled")]
  | Loading => [("status", VString "loading")]
  | Starting => [("status", VString "starting")]
  | Waiting a => [("status", VString "waiting"); ("address", VAddr a)]
  | Ready a => [("status", VString "ready"); ("address", VAddr a)]
  | Terminating last_status termination reason =>
      [("status", VString "terminating"); ("last_status", VStatus last_status);
       ("termination", VKind termination); ("reason", VReason reason)]
  | HardTerminating last_status reason =>
      [("status", VString "hard-terminating"); ("last_status", VStatus last_status);
       ("reason", VReason reason)]
  | Terminated last_status termination reason exit_code =>
      [("status", VString "terminated"); ("last_status", VStatus last_status);
       ("termination", VOptKind termination); ("reason", VOptReason reason);
       ("exit_code", VOptInt exit_code)]
  end.

Definition size_hint (s : BackendState) : nat * option nat :=
  match s with
  | Scheduled => (1, Some 1)
  | Loading => (1, Some 1)
  | Starting => (1, Some 1)
  | Waiting _ => (2, Some 2)
  | Ready _ => (1, Some 2)
  | Terminating _ _ _ => (1, Some 4)
  | HardTerminating _ _ => (1, Some 3)
  | Terminated _ _ _ _ => (2, Some 5)
  end.

(** ** Public status-stream entry *)

Record BackendStatusStreamEntry := {
  bse_status : BackendStatus;
  bse_termination_reason : option TerminationReason;
  bse_termination_kind : option TerminationKind;
  bse_exit_error : option bool;
  bse_time : Z
}.

Definition from_state (s : BackendState) (timestamp : Z) : BackendStatusStreamEntry :=
  {| bse_status := status s;
     bse_termination_reason :=
       match s with
       | Terminated _ _ reason _ => reason
       | Terminating _ _ reason => Some reason
       | HardTerminating _ reason => Some reason
       | _ => None
       end;
     bse_termination_kind :=
       match s with
       | Terminated _ termination _ _ => termination
       | Terminating _ _ _ => Some Soft
       | HardTerminating _ _ => Some Hard
       | _ => None
       end;
     bse_exit_error :=
       match s with
       | Terminated _ _ _ (Some d) => if decide (d ≠ 0%Z) then Some true else Some false
       | Terminated _ _ _ None => Some false
       | _ => None
       end;
     bse_time := timestamp |}.

(** ** Well-formed states

    [last_status] records the status before any termination started. *)
Definition pre_termination (s : BackendStatus) : bool :=
  negb (BackendStatus.ge s BackendStatus.Terminating).

Definition wf (s : BackendState) : bool :=
  match s with
  | Terminating last termination _ => pre_termination last && bool_decide (termination = Soft)
  | HardTerminating last _ => pre_termination last
  | Terminated last termination reason _ =>
      pre_termination last && Bool.eqb (bool_decide (is_Some termination)) (bool_decide (is_Some reason))
  | _ => true
  end.

(** The status the backend had before termination, if it is terminating. *)
Definition origin (s : BackendState) : BackendStatus :=
  match s with
  | Terminating last _ _ | HardTerminating last _ | Terminated last _ _ _ => last
  | _ => status s
  end.

(** ** Lemmas *)

Lemma status_le_int (a b : BackendStatus) : BackendStatus.le a b = true ↔ (as_int a ≤ as_int b)%Z.
Proof. destruct a, b; unfold BackendStatus.le; simpl; split; (done || lia). Qed.

Lemma as_int_inj (a b : BackendStatus) : as_int a = as_int b → a = b.
Proof. by destruct a, b. Qed.

Lemma status_try_from_to_string (s : BackendStatus) :
  BackendStatus.try_from (to_string s) = Some s.
Proof. by destruct s. Qed.

Lemma to_string_inj (a b : BackendStatus) : to_string a = to_string b → a = b.
Proof. by destruct a, b. Qed.

Lemma status_terminated s : status s = BackendStatus.Terminated ↔ is_terminated s = true.
Proof. by destruct s. Qed.

Lemma as_int_bounds (s : BackendStatus) : (10 ≤ as_int s ≤ 70)%Z.
Proof. destruct s; simpl; lia. Qed.

Lemma as_int_terminated (s : BackendStatus) :
  (as_int s < 70)%Z ↔ s ≠ BackendStatus.Terminated.
Proof. destruct s; simpl; split; intros; try done; lia. Qed.

Lemma to_terminating_ge s r : (status_int s ≤ status_int (to_terminating s r))%Z.
Proof. destruct s; simpl; unfold status_int; simpl; lia. Qed.

Lemma to_hard_terminating_ge s r : (status_int s ≤ status_int (to_hard_terminating s r))%Z.
Proof. destruct s; simpl; unfold status_int; simpl; lia. Qed.

Lemma to_terminated_ge s c : (status_int s ≤ status_int (to_terminated s c))%Z.
Proof. destruct s; simpl; unfold status_int; simpl; lia. Qed.

Lemma to_terminated_is_terminated s c : is_terminated (to_terminated s c) = true.
Proof. by destruct s. Qed.

#[global] Hint Resolve to_terminating_ge to_hard_terminating_ge to_terminated_ge
  to_terminated_is_terminated : plane.

End BackendState.
Export BackendState (BackendState, TerminationKind, TerminationReason,
  TerminationKind_eq_dec, TerminationReason_eq_dec, BackendState_eq_dec).

Module BackendStateProps.
Import BackendState.
Import BackendStatus (as_int, to_string).

(** Termination transitions: from a well-formed state, each of
    [to_terminating], [to_hard_terminating] and [to_terminated] yields a well-formed
    state, never lowers the status, keeps the status the backend had before any
    termination began, leaves a state that is already at or past the target
    untouched, and otherwise lands exactly on the target status with the given
    reason or exit code. *)
Theorem termination_transitions s reason code :
  wf s = true →
  (wf (to_terminating s reason) = true ∧
   (status_int s ≤ status_int (to_terminating s reason))%Z ∧
   origin (to_terminating s reason) = origin s ∧
   to_terminating s reason =
     if BackendStatus.le BackendStatus.Terminating (status s) then s
     else Terminating (status s) Soft reason) ∧
  (wf (to_hard_terminating s reason) = true ∧
   (status_int s ≤ status_int (to_hard_terminating s reason))%Z ∧
   origin (to_hard_terminating s reason) = origin s ∧
   to_hard_terminating s reason =
     if BackendStatus.le BackendStatus.HardTerminating (status s) then s
     else HardTerminating (origin s) reason) ∧
  (wf (to_terminated s code) = true ∧
   status (to_terminated s code) = BackendStatus.Terminated ∧
   origin (to_terminated s code) = origin s ∧
   to_terminated (to_terminated s code) None = to_terminated s code).
Proof.
  intros Hwf. destruct s; simpl in *; split_and!; try done; unfold status_int; simpl; try lia;
    by destruct (pre_termination _).
Qed.

Lemma termination_transitions_witness :
  origin (to_hard_terminating (Terminating BackendStatus.Ready Soft Swept) External) =
    BackendStatus.Ready.
Proof.
  destruct (termination_transitions (Terminating BackendStatus.Ready Soft Swept) External None)
    as (_ & (_ & _ & H & _) & _); [reflexivity|exact H].
Defined.

(** The three status representations agree: the declaration order compared by the
    status stream, the integers compared in the database and the strings stored there
    order and identify statuses in the same way, and parsing inverts printing. *)
Theorem status_representations (a b : BackendStatus) :
  (BackendStatus.le a b = true ↔ (as_int a ≤ as_int b)%Z) ∧
  (to_string a = to_string b ↔ a = b) ∧
  BackendStatus.try_from (to_string a) = Some a ∧
  (∀ s, BackendStatus.try_from s = Some a → s = to_string a).
Proof.
  split_and!; [apply status_le_int|by destruct a, b|by destruct a|].
  intros s H. unfold BackendStatus.try_from in H.
  apply fmap_Some in H as ([i st] & Hf & ->).
  apply list_find_Some in Hf. naive_solver.
Qed.

(** The log view of a state: the first entry is the status, in the same
    spelling as the stored status string, entry names are distinct, and the number
    of entries lies within the bounds announced by [size_hint]. *)
Theorem visit_consistent s :
  head (visit s) = Some ("status", VString (to_string (status s))) ∧
  NoDup (visit s).*1 ∧
  (size_hint s).1 ≤ length (visit s) ∧
  (∀ n, (size_hint s).2 = Some n → n = length (visit s)).
Proof.
  destruct s; simpl; split_and!; try done; try lia; try naive_solver;
    repeat constructor; set_solver.
Qed.

End BackendStateProps.
