(* ===== verification/Types.v ===== *)
(** * Shared types

    [common/src/types/mod.rs] (cluster names, pools, keys, spawn and connect
    requests, tokens, connect responses, subdomains) and [common/src/protocol.rs]
    (the messages between controllers, drones, proxies and DNS servers). *)

From S2P Require Import Prelude Names BackendState.

(** ** Library functions the code calls

    Functions of third-party crates and of std's Unicode and address tables, as a
    record of operations with the laws the code relies on. *)

Class Externals := {
  (** [url::Host::parse(s).is_ok()] *)
  host_parse_ok : string → bool;
  (** [SocketAddr]'s [Display] and [FromStr] *)
  addr_to_string : SocketAddr → string;
  addr_parse : string → option SocketAddr;
  (** [char::is_alphanumeric] on non-ASCII scalars *)
  unicode_alphanumeric : N → bool;
  (** [data_encoding::BASE64URL_NOPAD.encode] *)
  base64url_nopad : list N → string
}.

Definition base64url_char (a : ascii) : bool :=
  let c := byte_N a in
  is_ascii_lowercase c || is_ascii_uppercase c || is_ascii_digit c || (c =? 45)%N || (c =? 95)%N.

Class ExternalLaws `{Externals} := {
  addr_parse_to_string : ∀ a, addr_parse (addr_to_string a) = Some a;
  base64url_alphabet : ∀ bs, string_forallb base64url_char (base64url_nopad bs) = true
}.

(** JSON values ([serde_json::Value]). *)
Inductive json :=
| JNull
| JBool (b : bool)
| JNum (n : Z)
| JStr (s : string)
| JArr (l : list json)
| JObj (m : list (string * json)).

Module Types.
Section Types.
Context `{Ext : Externals}.

(** ** Cluster names *)

Definition digit_value (a : ascii) : option N :=
  let c := byte_N a in if is_ascii_digit c then Some (c - 48)%N else None.

Fixpoint digits_value (acc : N) (s : string) : option N :=
  match s with
  | EmptyString => Some acc
  | String a s' =>
      match digit_value a with
      | Some d => digits_value (acc * 10 + d)%N s'
      | None => None
      end
  end.

(** [str::parse::<u16>]: an optional plus sign, at least one digit, at most 65535. *)
Definition parse_u16 (s : string) : option N :=
  let digits := match s with String "+" s' => s' | _ => s end in
  match digits with
  | EmptyString => None
  | _ => match digits_value 0 digits with
         | Some n => if (n <=? 65535)%N then Some n else None
         | None => None
         end
  end.

Definition colon : ascii := ":".

Definition is_https (cluster : string) : bool :=
  match snd <$> split_once colon cluster with
  | None => true
  | Some port => bool_decide (port = "443")
  end.

Definition ClusterName_from_str (s : string) : result string string :=
  let '(host, port) :=
    match split_once colon s with
    | Some (h, p) => (h, Some p)
    | None => (s, None)
    end in
  if host_parse_ok host then
    match port with
    | None => Ok s
    | Some p => match parse_u16 p with Some _ => Ok s | None => Err "invalid port" end
    end
  else Err "invalid hostname or ip".

(** ** Drone pools *)

Definition default_pool : string := "".
Definition is_default_pool (pool : string) : bool := bool_decide (pool = default_pool).

(** ** Keys, spawn and connect requests *)

Record KeyConfig := { key_name : string; key_namespace : string; key_tag : string }.
#[global] Instance KeyConfig_eq_dec : EqDecision KeyConfig.
Proof. solve_decision. Defined.

Definition KeyConfig_new_random (sample : nat → nat) : KeyConfig :=
  {| key_name := Names.random_prefixed_string "lk" sample; key_namespace := ""; key_tag := "" |}.

Record SpawnConfig := {
  sc_id : option string;
  sc_cluster : option string;
  sc_pool : string;
  sc_executable : json;
  sc_lifetime_limit_seconds : option Z;
  sc_max_idle_seconds : option Z;
  sc_use_static_token : bool;
  sc_subdomain : option string
}.

Record ConnectRequest := {
  cr_key : option KeyConfig;
  cr_spawn_config : option SpawnConfig;
  cr_user : option string;
  cr_auth : list (string * json)
}.

Record RevokeRequest := { rr_backend_id : string; rr_user : string }.

(** ** Tokens *)

Definition STATIC_TOKEN_PREFIX : string := "s.".

(** [random_token]: 32 random bytes in unpadded base64url. *)
Definition random_token (bytes : list N) : string := base64url_nopad bytes.

Definition new_random_static (bytes : list N) : string :=
  STATIC_TOKEN_PREFIX +:+ random_token bytes.

Definition is_static (token : string) : bool := starts_with STATIC_TOKEN_PREFIX token.

(** ** Subdomains *)

Definition is_alphanumeric (c : N) : bool :=
  if (c <? 128)%N then is_ascii_lowercase c || is_ascii_uppercase c || is_ascii_digit c
  else unicode_alphanumeric c.

Definition Subdomain_from_str (s : string) : result string string :=
  if forallb (λ c, is_alphanumeric c || (c =? 45)%N) (chars s)
     && negb (starts_with "-" s) && negb (ends_with "-" s)
  then Ok s else Err s.

(** ** Connect responses *)

(** The part of [PlaneClient] a response needs: [backend_status_url]. *)
Record PlaneClient := { backend_status_url : string → string }.

Record ConnectResponse := {
  resp_backend_id : string;
  resp_spawned : bool;
  resp_status : BackendStatus;
  resp_token : string;
  resp_url : string;
  resp_subdomain : option string;
  resp_secret_token : option string;
  resp_status_url : string;
  resp_drone : option string
}.

Definition ConnectResponse_new (backend_id cluster : string) (spawned : bool)
    (status : BackendStatus) (token : string) (secret_token subdomain : option string)
    (client : PlaneClient) (drone : option string) : ConnectResponse :=
  let protocol := if is_https cluster then "https" else "http" in
  {| resp_backend_id := backend_id;
     resp_spawned := spawned;
     resp_status := status;
     resp_token := token;
     resp_url :=
       match subdomain with
       | Some sub => protocol +:+ "://" +:+ sub +:+ "." +:+ cluster +:+ "/" +:+ token +:+ "/"
       | None => protocol +:+ "://" +:+ cluster +:+ "/" +:+ token +:+ "/"
       end;
     resp_subdomain := subdomain;
     resp_secret_token := secret_token;
     resp_status_url := backend_status_url client backend_id;
     resp_drone := drone |}.

End Types.
End Types.
Export Types (KeyConfig, SpawnConfig, ConnectRequest, RevokeRequest, ConnectResponse).

(** ** Messages *)
Module Protocol.

Inductive ApiErrorKind :=
| FailedToAcquireKey | KeyUnheldNoSpawnConfig | KeyHeldUnhealthy | KeyHeld
| NoDroneAvailable | FailedToRemoveKey | DatabaseError | NoClusterProvided
| NotFound | InvalidClusterName | Other.

Record KeyDeadlines := {
  renew_at : Z;
  soft_terminate_at : Z;
  hard_terminate_at : Z
}.

Record AcquiredKey := {
  ak_key : KeyConfig;
  ak_deadlines : KeyDeadlines;
  ak_token : Z
}.

Inductive BackendAction :=
| Spawn (executable : json) (key : AcquiredKey) (static_token : option string)
| Terminate (kind : TerminationKind) (reason : TerminationReason).

Record BackendStateMessage := {
  bsm_event_id : Z;
  bsm_backend_id : string;
  bsm_state : BackendState;
  bsm_timestamp : Z
}.

Record RenewKeyRequest := { rkr_backend : string; rkr_local_time : Z }.

Record Heartbeat := { hb_local_time : Z }.

Record BackendMetricsMessage := {
  bm_backend_id : string;
  bm_mem_used : N;
  bm_mem_total : N;
  bm_mem_active : N;
  bm_mem_inactive : N;
  bm_mem_unevictable : N;
  bm_mem_limit : N;
  bm_cpu_used : N;
  bm_sys_cpu : N
}.

Inductive MessageFromDrone :=
| MHeartbeat (h : Heartbeat)
| MBackendEvent (e : BackendStateMessage)
| MBackendMetrics (m : BackendMetricsMessage)
| MAckAction (action_id : string)
| MRenewKey (r : RenewKeyRequest).

Record RenewKeyResponse := { rkp_backend : string; rkp_deadlines : option KeyDeadlines }.

Record BackendActionMessage := {
  bam_action_id : string;
  bam_backend_id : string;
  bam_drone_id : Z;
  bam_action : BackendAction
}.

Inductive MessageToDrone :=
| TDAction (m : BackendActionMessage)
| TDAckEvent (event_id : Z)
| TDRenewKeyResponse (r : RenewKeyResponse).

Record RouteInfo := {
  ri_backend_id : string;
  ri_address : SocketAddr;
  ri_secret_token : string;
  ri_cluster : string;
  ri_user : option string;
  ri_user_data : option json;
  ri_subdomain : option string
}.

Inductive CertManagerRequest :=
| CertLeaseRequest
| SetTxtRecord (txt_value : string)
| ReleaseCertLease.

Inductive CertManagerResponse :=
| CertLeaseResponse (accepted : bool)
| SetTxtRecordResponse (accepted : bool).

Record RouteInfoResponse := { rir_token : string; rir_route_info : option RouteInfo }.

Inductive MessageFromProxy :=
| PRouteInfoRequest (token : string)
| PKeepAlive (backend : string)
| PCertManagerRequest (r : CertManagerRequest).

Inductive MessageToProxy :=
| TPRouteInfoResponse (r : RouteInfoResponse)
| TPCertManagerResponse (r : CertManagerResponse)
| TPBackendRemoved (backend : string).

Inductive MessageFromDns := TxtRecordRequest (cluster : string).

Inductive MessageToDns := TxtRecordResponse (cluster : string) (txt_value : option string).

End Protocol.

(** ** Token lemmas *)
Module TokenLemmas.
Import Types.
Section TokenLemmas.
Context `{Laws : ExternalLaws}.

Lemma random_token_not_static bytes : is_static (random_token bytes) = false.
Proof.
  apply not_true_is_false. unfold is_static. rewrite starts_with_spec. intros [t Ht].
  pose proof (base64url_alphabet bytes) as Ha. unfold random_token in Ht.
  rewrite Ht, string_forallb_append in Ha. done.
Qed.

Lemma new_random_static_static bytes : is_static (new_random_static bytes) = true.
Proof. apply starts_with_append. Qed.

End TokenLemmas.
End TokenLemmas.

(** ** A concrete instance of the library functions, for evaluating the model. *)
Module ExampleExternals.

Fixpoint pos_show (p : positive) : string :=
  match p with
  | xH => "."
  | xO p => String "0" (pos_show p)
  | xI p => String "1" (pos_show p)
  end.

Fixpoint pos_read (s : string) : option (positive * string) :=
  match s with
  | String "." s => Some (xH, s)
  | String "0" s => match pos_read s with Some (p, r) => Some (xO p, r) | None => None end
  | String "1" s => match pos_read s with Some (p, r) => Some (xI p, r) | None => None end
  | _ => None
  end.

Lemma pos_read_show p t : pos_read (pos_show p +:+ t) = Some (p, t).
Proof.
  induction p as [p IH|p IH|]; [..|done]; cbn [pos_show]; rewrite append_cons;
    cbn [pos_read]; by rewrite IH.
Qed.

Definition addr_show (a : SocketAddr) : string :=
  match sa_ip a with
  | IpV4 b => "4" +:+ pos_show (N.succ_pos b) +:+ pos_show (N.succ_pos (sa_port a))
  | IpV6 b => "6" +:+ pos_show (N.succ_pos b) +:+ pos_show (N.succ_pos (sa_port a))
  end.

Definition addr_read (s : string) : option SocketAddr :=
  let go (f : N → IpAddr) (s : string) :=
    match pos_read s with
    | Some (b, s) =>
        match pos_read s with
        | Some (p, EmptyString) => Some {| sa_ip := f (Pos.pred_N b); sa_port := Pos.pred_N p |}
        | _ => None
        end
    | None => None
    end in
  match s with
  | String "4" s => go IpV4 s
  | String "6" s => go IpV6 s
  | _ => None
  end.

Lemma addr_read_show a : addr_read (addr_show a) = Some a.
Proof.
  destruct a as [[b|b] p]; unfold addr_show, addr_read; simpl;
    rewrite ?append_cons, ?append_nil_l, pos_read_show;
    rewrite <- (append_nil_r (pos_show (N.succ_pos p))), pos_read_show;
    by rewrite !N.pos_pred_succ.
Qed.

Definition letters (bs : list N) : string :=
  foldr (λ b s, String (Ascii.ascii_of_N (97 + b mod 26)) s) "" bs.

Lemma letters_alphabet bs : string_forallb base64url_char (letters bs) = true.
Proof.
  induction bs as [|b bs IH]; [done|]. simpl. rewrite IH, andb_true_r.
  assert (b mod 26 < 26)%N as Hb by (apply N.mod_lt; lia). revert Hb.
  generalize (b mod 26)%N. intros n Hn. unfold base64url_char, byte_N.
  rewrite Ascii.N_ascii_embedding by lia.
  assert (is_ascii_lowercase (97 + n) = true) as -> by (unfold is_ascii_lowercase; lia).
  done.
Qed.

#[local] Instance example_externals : Externals := {|
  host_parse_ok := λ s, negb (bool_decide (s = ""));
  addr_to_string := addr_show;
  addr_parse := addr_read;
  unicode_alphanumeric := λ _, true;
  base64url_nopad := letters
|}.

#[local] Instance example_laws : ExternalLaws := {|
  addr_parse_to_string := addr_read_show;
  base64url_alphabet := letters_alphabet
|}.

End ExampleExternals.
