(* ===== verification/Encoding.v ===== *)
(** * The encoding of messages

    What [#[derive(Serialize, Deserialize)]] and the attributes of [common/src/types],
    [common/src/protocol.rs], [common/src/log_types.rs] and [common/src/serialization.rs] say of
    the JSON form of a value: a function to JSON and one from it for each type, as the tables,
    the sockets and the requests of clients carry them. The [serde] crates are the class
    [Serde]: how they lay out structs and enums, with the laws relied on. *)

From S2P Require Import Prelude Names BackendState Types.

(** The first value of a key. *)
Fixpoint assoc {A} (k : string) (l : list (string * A)) : option A :=
  match l with
  | [] => None
  | (k', a) :: l => if String.eqb k k' then Some a else assoc k l
  end.

(** [serde] and [serde_json]. [de_struct names j] are the fields among [names] of a struct in
    [j], if it can be read as one; [de_enum] gives the variant and its content in the external
    representation, [de_tagged] in the internal one. [timestamp_in_range] are the milliseconds
    [chrono] can represent. *)
Class Serde := {
  ser_struct : list (string * json) → json;
  de_struct : list string → json → option (string → option json);
  ser_variant : string → json → json;
  de_enum : json → option (string * option json);
  ser_tagged : string → string → list (string * json) → json;
  de_tagged : string → json → option (string * json);
  timestamp_in_range : Z → bool;
  to_text : json → string;
  from_text : string → option json
}.

(** Unknown fields are ignored: the fields found are those of the struct, whatever others it
    has. *)
Class SerdeLaws (S : Serde) : Prop := {
  de_ser_struct names fs : NoDup fs.*1 →
    ∃ f, de_struct names (ser_struct fs) = Some f ∧ ∀ k, k ∈ names → f k = assoc k fs;
  de_enum_unit v : de_enum (JStr v) = Some (v, None);
  de_ser_variant v j : de_enum (ser_variant v j) = Some (v, Some j);
  de_ser_tagged tag v fs : NoDup fs.*1 → tag ∉ fs.*1 →
    de_tagged tag (ser_tagged tag v fs) = Some (v, ser_struct fs);
  ser_struct_some fs : ser_struct fs ≠ JNull;
  ser_variant_some v j : ser_variant v j ≠ JNull;
  from_to_text j : from_text (to_text j) = Some j
}.

(** An error, or the panic of an [expect]. *)
Inductive DeError := Invalid | Panicked.

Module Encoding.
Section Encoding.
Context `{Ext : Externals} {S : Serde}.

#[local] Notation decoded A := (result DeError A).

(** ** Primitive values *)

Definition ser_option {A} (ser : A → json) (o : option A) : json :=
  match o with Some a => ser a | None => JNull end.
Definition de_option {A} (de : json → decoded A) (j : json) : decoded (option A) :=
  match j with JNull => Ok None | _ => let? a := de j in Ok (Some a) end.

Definition de_str (j : json) : decoded string := match j with JStr s => Ok s | _ => Err Invalid end.
Definition de_bool (j : json) : decoded bool := match j with JBool b => Ok b | _ => Err Invalid end.

(** An integer type, as the bounds of its values. *)
Definition de_int (lo hi : Z) (j : json) : decoded Z :=
  match j with
  | JNum n => if decide (lo ≤ n ≤ hi)%Z then Ok n else Err Invalid
  | _ => Err Invalid
  end.
Definition de_i32 := de_int (-2^31) (2^31 - 1).
Definition de_i64 := de_int (-2^63) (2^63 - 1).
Definition de_u8 := de_int 0 255.
Definition de_u32 := de_int 0 (2^32 - 1).
Definition ser_u64 (n : N) : json := JNum (Z.of_N n).
Definition de_u64 (j : json) : decoded N := let? n := de_int 0 (2^64 - 1) j in Ok (Z.to_N n).

Definition ser_list {A} (ser : A → json) (l : list A) : json := JArr (ser <$> l).
Definition de_list {A} (de : json → decoded A) (j : json) : decoded (list A) :=
  match j with JArr l => map_result de l | _ => Err Invalid end.

(** ** Structs and enums *)

Definition de_fields {A} (names : list string) (j : json) (k : (string → option json) → decoded A) : decoded A :=
  match de_struct names j with Some f => k f | None => Err Invalid end.

(** A required field, an optional one ([Option] without a [with]), one with [#[serde(default)]]. *)
Definition field {A} (f : string → option json) (name : string) (de : json → decoded A) : decoded A :=
  match f name with Some j => de j | None => Err Invalid end.
Definition opt_field {A} (f : string → option json) (name : string) (de : json → decoded A) : decoded (option A) :=
  match f name with Some j => de_option de j | None => Ok None end.
Definition default_field {A} (f : string → option json) (name : string) (d : A) (de : json → decoded A) : decoded A :=
  match f name with Some j => de j | None => Ok d end.

(** [skip_serializing_if = "Option::is_none"]. *)
Definition skip_none {A} (name : string) (ser : A → json) (o : option A) : list (string * json) :=
  match o with Some a => [(name, ser a)] | None => [] end.

Definition de_variants {A} (j : json) (k : string → option json → decoded A) : decoded A :=
  match de_enum j with Some (v, c) => k v c | None => Err Invalid end.

(** The content of a unit variant. *)
Definition unit_variant {A} (a : A) (c : option json) : decoded A :=
  match c with None | Some JNull => Ok a | _ => Err Invalid end.
Definition newtype_variant {A} (c : option json) (de : json → decoded A) : decoded A :=
  match c with Some j => de j | None => Err Invalid end.

(** ** Times and durations *)

(** [LoggableTime]: [chrono::serde::ts_milliseconds]. *)
Definition ser_LoggableTime (t : Z) : json := JNum (t / 1000).
Definition de_LoggableTime (j : json) : decoded Z :=
  match j with
  | JNum n => if timestamp_in_range n then Ok (from_millis n) else Err Invalid
  | _ => Err Invalid
  end.

(** [Duration::num_seconds] rounds towards zero; [Duration::try_seconds] refuses more than
    [i64::MAX] milliseconds. *)
Definition num_seconds (d : Z) : Z := (d ÷ 1000000)%Z.
Definition try_seconds (n : Z) : option Z :=
  if decide (- ((2^63 - 1) `div` 1000) ≤ n ≤ (2^63 - 1) `div` 1000)%Z then Some (from_secs n) else None.

(** [serialize_duration_as_seconds] *)
Definition ser_duration (d : Z) : json := JNum (num_seconds d).
Definition de_duration (j : json) : decoded Z :=
  let? seconds := de_i64 j in
  match try_seconds seconds with Some d => Ok d | None => Err Panicked end.

(** [serialize_optional_duration_as_seconds] *)
Definition ser_optional_duration (d : option Z) : json :=
  match d with Some d => JNum (num_seconds d) | None => JNull end.
Definition de_optional_duration (j : json) : decoded (option Z) :=
  let? seconds := de_option de_i64 j in
  match seconds with
  | Some n => match try_seconds n with Some d => Ok (Some d) | None => Err Panicked end
  | None => Ok None
  end.

(** ** Backend states ([types/backend_state.rs]) *)

Definition ser_BackendStatus (s : BackendStatus) : json := JStr (BackendStatus.to_string s).
Definition de_BackendStatus (j : json) : decoded BackendStatus :=
  de_variants j (λ v c, match BackendStatus.try_from v with Some s => unit_variant s c | None => Err Invalid end).

Definition TerminationKind_name (k : TerminationKind) : string :=
  match k with BackendState.Soft => "soft" | BackendState.Hard => "hard" end.
Definition ser_TerminationKind (k : TerminationKind) : json := JStr (TerminationKind_name k).
Definition de_TerminationKind (j : json) : decoded TerminationKind :=
  de_variants j (λ v c,
    if String.eqb v "soft" then unit_variant BackendState.Soft c
    else if String.eqb v "hard" then unit_variant BackendState.Hard c
    else Err Invalid).

Definition ser_TerminationReason (r : TerminationReason) : json :=
  JStr match r with
       | BackendState.Swept => "swept" | BackendState.External => "external"
       | BackendState.KeyExpired => "keyexpired" | BackendState.Lost => "lost"
       | BackendState.StartupTimeout => "startuptimeout"
       | BackendState.InternalError => "internalerror"
       end.
Definition de_TerminationReason (j : json) : decoded TerminationReason :=
  de_variants j (λ v c,
    if String.eqb v "swept" then unit_variant BackendState.Swept c
    else if String.eqb v "external" then unit_variant BackendState.External c
    else if String.eqb v "keyexpired" then unit_variant BackendState.KeyExpired c
    else if String.eqb v "lost" then unit_variant BackendState.Lost c
    else if String.eqb v "startuptimeout" then unit_variant BackendState.StartupTimeout c
    else if String.eqb v "internalerror" then unit_variant BackendState.InternalError c
    else Err Invalid).

Definition ser_addr (a : SocketAddr) : json := JStr (addr_to_string a).
Definition de_addr (j : json) : decoded SocketAddr :=
  let? s := de_str j in ok_or (addr_parse s) Invalid.

(** [#[serde(tag = "status", rename_all = "lowercase")]] *)
Definition ser_BackendState (s : BackendState) : json :=
  let tagged := ser_tagged "status" in
  match s with
  | BackendState.Scheduled => tagged "scheduled" []
  | BackendState.Loading => tagged "loading" []
  | BackendState.Starting => tagged "starting" []
  | BackendState.Waiting address => tagged "waiting" [("address", ser_addr address)]
  | BackendState.Ready address => tagged "ready" [("address", ser_addr address)]
  | BackendState.Terminating last_status termination reason =>
      tagged "terminating" [("last_status", ser_BackendStatus last_status);
        ("termination", ser_TerminationKind termination); ("reason", ser_TerminationReason reason)]
  | BackendState.HardTerminating last_status reason =>
      tagged "hard-terminating" [("last_status", ser_BackendStatus last_status);
        ("reason", ser_TerminationReason reason)]
  | BackendState.Terminated last_status termination reason exit_code =>
      tagged "terminated" [("last_status", ser_BackendStatus last_status);
        ("termination", ser_option ser_TerminationKind termination);
        ("reason", ser_option ser_TerminationReason reason); ("exit_code", ser_option JNum exit_code)]
  end.

Definition de_BackendState (j : json) : decoded BackendState :=
  match de_tagged "status" j with
  | None => Err Invalid
  | Some (v, c) =>
      if String.eqb v "scheduled" then Ok BackendState.Scheduled
      else if String.eqb v "loading" then Ok BackendState.Loading
      else if String.eqb v "starting" then Ok BackendState.Starting
      else if String.eqb v "waiting" then
        de_fields ["address"] c (λ f, let? a := field f "address" de_addr in Ok (BackendState.Waiting a))
      else if String.eqb v "ready" then
        de_fields ["address"] c (λ f, let? a := field f "address" de_addr in Ok (BackendState.Ready a))
      else if String.eqb v "terminating" then
        de_fields ["last_status"; "termination"; "reason"] c (λ f,
          let? last_status := field f "last_status" de_BackendStatus in
          let? termination := field f "termination" de_TerminationKind in
          let? reason := field f "reason" de_TerminationReason in
          Ok (BackendState.Terminating last_status termination reason))
      else if String.eqb v "hard-terminating" then
        de_fields ["last_status"; "reason"] c (λ f,
          let? last_status := field f "last_status" de_BackendStatus in
          let? reason := field f "reason" de_TerminationReason in
          Ok (BackendState.HardTerminating last_status reason))
      else if String.eqb v "terminated" then
        de_fields ["last_status"; "termination"; "reason"; "exit_code"] c (λ f,
          let? last_status := field f "last_status" de_BackendStatus in
          let? termination := opt_field f "termination" de_TerminationKind in
          let? reason := opt_field f "reason" de_TerminationReason in
          let? exit_code := opt_field f "exit_code" de_i32 in
          Ok (BackendState.Terminated last_status termination reason exit_code))
      else Err Invalid
  end.

Definition ser_BackendStatusStreamEntry (e : BackendState.BackendStatusStreamEntry) : json :=
  ser_struct ([("status", ser_BackendStatus (BackendState.bse_status e))] ++
    skip_none "termination_reason" ser_TerminationReason (BackendState.bse_termination_reason e) ++
    skip_none "termination_kind" ser_TerminationKind (BackendState.bse_termination_kind e) ++
    skip_none "exit_error" JBool (BackendState.bse_exit_error e) ++
    [("time", ser_LoggableTime (BackendState.bse_time e))]).
Definition de_BackendStatusStreamEntry (j : json) : decoded BackendState.BackendStatusStreamEntry :=
  de_fields ["status"; "termination_reason"; "termination_kind"; "exit_error"; "time"] j (λ f,
    let? status := field f "status" de_BackendStatus in
    let? reason := opt_field f "termination_reason" de_TerminationReason in
    let? kind := opt_field f "termination_kind" de_TerminationKind in
    let? exit_error := opt_field f "exit_error" de_bool in
    let? time := field f "time" de_LoggableTime in
    Ok {| BackendState.bse_status := status; BackendState.bse_termination_reason := reason;
          BackendState.bse_termination_kind := kind; BackendState.bse_exit_error := exit_error;
          BackendState.bse_time := time |}).

(** ** Requests and responses ([types/mod.rs]) *)

(** [serde_json::Value], and [Map<String, Value>]. *)
Definition de_Value (j : json) : decoded json := Ok j.
Definition de_Map (j : json) : decoded (list (string * json)) :=
  match j with JObj m => Ok m | _ => Err Invalid end.

Definition ser_KeyConfig (k : KeyConfig) : json :=
  ser_struct [("name", JStr (Types.key_name k)); ("namespace", JStr (Types.key_namespace k));
    ("tag", JStr (Types.key_tag k))].
Definition de_KeyConfig (j : json) : decoded KeyConfig :=
  de_fields ["name"; "namespace"; "tag"] j (λ f,
    let? name := field f "name" de_str in
    let? namespace := default_field f "namespace" "" de_str in
    let? tag := default_field f "tag" "" de_str in
    Ok {| Types.key_name := name; Types.key_namespace := namespace; Types.key_tag := tag |}).

(** The identifiers, pools and subdomains are newtypes whose derived [Deserialize] takes any
    string. *)
Definition ser_SpawnConfig (c : SpawnConfig) : json :=
  ser_struct [("id", ser_option JStr (Types.sc_id c)); ("cluster", ser_option JStr (Types.sc_cluster c));
    ("pool", JStr (Types.sc_pool c)); ("executable", Types.sc_executable c);
    ("lifetime_limit_seconds", ser_option JNum (Types.sc_lifetime_limit_seconds c));
    ("max_idle_seconds", ser_option JNum (Types.sc_max_idle_seconds c));
    ("use_static_token", JBool (Types.sc_use_static_token c));
    ("subdomain", ser_option JStr (Types.sc_subdomain c))].
Definition de_SpawnConfig (j : json) : decoded SpawnConfig :=
  de_fields ["id"; "cluster"; "pool"; "executable"; "lifetime_limit_seconds"; "max_idle_seconds";
             "use_static_token"; "subdomain"] j (λ f,
    let? id := opt_field f "id" de_str in
    let? cluster := opt_field f "cluster" de_str in
    let? pool := default_field f "pool" Types.default_pool de_str in
    let? executable := field f "executable" de_Value in
    let? lifetime := opt_field f "lifetime_limit_seconds" de_i32 in
    let? idle := opt_field f "max_idle_seconds" de_i32 in
    let? static := default_field f "use_static_token" false de_bool in
    let? subdomain := opt_field f "subdomain" de_str in
    Ok {| Types.sc_id := id; Types.sc_cluster := cluster; Types.sc_pool := pool;
          Types.sc_executable := executable; Types.sc_lifetime_limit_seconds := lifetime;
          Types.sc_max_idle_seconds := idle; Types.sc_use_static_token := static;
          Types.sc_subdomain := subdomain |}).

Definition ser_ConnectRequest (r : ConnectRequest) : json :=
  ser_struct [("key", ser_option ser_KeyConfig (Types.cr_key r));
    ("spawn_config", ser_option ser_SpawnConfig (Types.cr_spawn_config r));
    ("user", ser_option JStr (Types.cr_user r)); ("auth", JObj (Types.cr_auth r))].
Definition de_ConnectRequest (j : json) : decoded ConnectRequest :=
  de_fields ["key"; "spawn_config"; "user"; "auth"] j (λ f,
    let? key := opt_field f "key" de_KeyConfig in
    let? spawn_config := opt_field f "spawn_config" de_SpawnConfig in
    let? user := opt_field f "user" de_str in
    let? auth := default_field f "auth" [] de_Map in
    Ok {| Types.cr_key := key; Types.cr_spawn_config := spawn_config; Types.cr_user := user;
          Types.cr_auth := auth |}).

Definition ser_ConnectResponse (r : ConnectResponse) : json :=
  ser_struct [("backend_id", JStr (Types.resp_backend_id r)); ("spawned", JBool (Types.resp_spawned r));
    ("status", ser_BackendStatus (Types.resp_status r)); ("token", JStr (Types.resp_token r));
    ("url", JStr (Types.resp_url r)); ("subdomain", ser_option JStr (Types.resp_subdomain r));
    ("secret_token", ser_option JStr (Types.resp_secret_token r));
    ("status_url", JStr (Types.resp_status_url r)); ("drone", ser_option JStr (Types.resp_drone r))].
Definition de_ConnectResponse (j : json) : decoded ConnectResponse :=
  de_fields ["backend_id"; "spawned"; "status"; "token"; "url"; "subdomain"; "secret_token";
             "status_url"; "drone"] j (λ f,
    let? backend_id := field f "backend_id" de_str in
    let? spawned := field f "spawned" de_bool in
    let? status := field f "status" de_BackendStatus in
    let? token := field f "token" de_str in
    let? url := field f "url" de_str in
    let? subdomain := opt_field f "subdomain" de_str in
    let? secret_token := opt_field f "secret_token" de_str in
    let? status_url := field f "status_url" de_str in
    let? drone := opt_field f "drone" de_str in
    Ok {| Types.resp_backend_id := backend_id; Types.resp_spawned := spawned;
          Types.resp_status := status; Types.resp_token := token; Types.resp_url := url;
          Types.resp_subdomain := subdomain; Types.resp_secret_token := secret_token;
          Types.resp_status_url := status_url; Types.resp_drone := drone |}).

Definition ser_RevokeRequest (r : RevokeRequest) : json :=
  ser_struct [("backend_id", JStr (Types.rr_backend_id r)); ("user", JStr (Types.rr_user r))].
Definition de_RevokeRequest (j : json) : decoded RevokeRequest :=
  de_fields ["backend_id"; "user"] j (λ f,
    let? backend_id := field f "backend_id" de_str in
    let? user := field f "user" de_str in
    Ok {| Types.rr_backend_id := backend_id; Types.rr_user := user |}).

(** ** Messages of drones ([protocol.rs]) *)
Import Protocol.

Definition ser_KeyDeadlines (d : KeyDeadlines) : json :=
  ser_struct [("renew_at", ser_LoggableTime (renew_at d));
    ("soft_terminate_at", ser_LoggableTime (soft_terminate_at d));
    ("hard_terminate_at", ser_LoggableTime (hard_terminate_at d))].
Definition de_KeyDeadlines (j : json) : decoded KeyDeadlines :=
  de_fields ["renew_at"; "soft_terminate_at"; "hard_terminate_at"] j (λ f,
    let? renew := field f "renew_at" de_LoggableTime in
    let? soft := field f "soft_terminate_at" de_LoggableTime in
    let? hard := field f "hard_terminate_at" de_LoggableTime in
    Ok {| renew_at := renew; soft_terminate_at := soft; hard_terminate_at := hard |}).

Definition ser_AcquiredKey (k : AcquiredKey) : json :=
  ser_struct [("key", ser_KeyConfig (ak_key k)); ("deadlines", ser_KeyDeadlines (ak_deadlines k));
    ("token", JNum (ak_token k))].
Definition de_AcquiredKey (j : json) : decoded AcquiredKey :=
  de_fields ["key"; "deadlines"; "token"] j (λ f,
    let? key := field f "key" de_KeyConfig in
    let? deadlines := field f "deadlines" de_KeyDeadlines in
    let? token := field f "token" de_i64 in
    Ok {| ak_key := key; ak_deadlines := deadlines; ak_token := token |}).

Definition ser_BackendAction (a : BackendAction) : json :=
  match a with
  | Spawn executable key static_token =>
      ser_variant "Spawn" (ser_struct [("executable", executable); ("key", ser_AcquiredKey key);
        ("static_token", ser_option JStr static_token)])
  | Terminate kind reason =>
      ser_variant "Terminate" (ser_struct [("kind", ser_TerminationKind kind);
        ("reason", ser_TerminationReason reason)])
  end.
Definition de_BackendAction (j : json) : decoded BackendAction :=
  de_variants j (λ v c,
    if String.eqb v "Spawn" then newtype_variant c (λ j,
      de_fields ["executable"; "key"; "static_token"] j (λ f,
        let? executable := field f "executable" de_Value in
        let? key := field f "key" de_AcquiredKey in
        let? static_token := opt_field f "static_token" de_str in
        Ok (Spawn executable key static_token)))
    else if String.eqb v "Terminate" then newtype_variant c (λ j,
      de_fields ["kind"; "reason"] j (λ f,
        let? kind := field f "kind" de_TerminationKind in
        let? reason := field f "reason" de_TerminationReason in
        Ok (Terminate kind reason)))
    else Err Invalid).

Definition ser_BackendActionMessage (m : BackendActionMessage) : json :=
  ser_struct [("action_id", JStr (bam_action_id m)); ("backend_id", JStr (bam_backend_id m));
    ("drone_id", JNum (bam_drone_id m)); ("action", ser_BackendAction (bam_action m))].
Definition de_BackendActionMessage (j : json) : decoded BackendActionMessage :=
  de_fields ["action_id"; "backend_id"; "drone_id"; "action"] j (λ f,
    let? action_id := field f "action_id" de_str in
    let? backend_id := field f "backend_id" de_str in
    let? drone_id := field f "drone_id" de_i32 in
    let? action := field f "action" de_BackendAction in
    Ok {| bam_action_id := action_id; bam_backend_id := backend_id; bam_drone_id := drone_id;
          bam_action := action |}).

Definition ser_BackendStateMessage (m : BackendStateMessage) : json :=
  ser_struct [("event_id", JNum (bsm_event_id m)); ("backend_id", JStr (bsm_backend_id m));
    ("state", ser_BackendState (bsm_state m)); ("timestamp", ser_LoggableTime (bsm_timestamp m))].
Definition de_BackendStateMessage (j : json) : decoded BackendStateMessage :=
  de_fields ["event_id"; "backend_id"; "state"; "timestamp"] j (λ f,
    let? event_id := field f "event_id" de_i64 in
    let? backend_id := field f "backend_id" de_str in
    let? state := field f "state" de_BackendState in
    let? timestamp := field f "timestamp" de_LoggableTime in
    Ok {| bsm_event_id := event_id; bsm_backend_id := backend_id; bsm_state := state;
          bsm_timestamp := timestamp |}).

Definition ser_RenewKeyRequest (r : RenewKeyRequest) : json :=
  ser_struct [("backend", JStr (rkr_backend r)); ("local_time", ser_LoggableTime (rkr_local_time r))].
Definition de_RenewKeyRequest (j : json) : decoded RenewKeyRequest :=
  de_fields ["backend"; "local_time"] j (λ f,
    let? backend := field f "backend" de_str in
    let? local_time := field f "local_time" de_LoggableTime in
    Ok {| rkr_backend := backend; rkr_local_time := local_time |}).

Definition ser_Heartbeat (h : Heartbeat) : json :=
  ser_struct [("local_time", ser_LoggableTime (hb_local_time h))].
Definition de_Heartbeat (j : json) : decoded Heartbeat :=
  de_fields ["local_time"] j (λ f,
    let? local_time := field f "local_time" de_LoggableTime in Ok {| hb_local_time := local_time |}).

Definition ser_BackendMetricsMessage (m : BackendMetricsMessage) : json :=
  ser_struct [("backend_id", JStr (bm_backend_id m)); ("mem_used", ser_u64 (bm_mem_used m));
    ("mem_total", ser_u64 (bm_mem_total m)); ("mem_active", ser_u64 (bm_mem_active m));
    ("mem_inactive", ser_u64 (bm_mem_inactive m)); ("mem_unevictable", ser_u64 (bm_mem_unevictable m));
    ("mem_limit", ser_u64 (bm_mem_limit m)); ("cpu_used", ser_u64 (bm_cpu_used m));
    ("sys_cpu", ser_u64 (bm_sys_cpu m))].
Definition de_BackendMetricsMessage (j : json) : decoded BackendMetricsMessage :=
  de_fields ["backend_id"; "mem_used"; "mem_total"; "mem_active"; "mem_inactive"; "mem_unevictable";
             "mem_limit"; "cpu_used"; "sys_cpu"] j (λ f,
    let? backend_id := field f "backend_id" de_str in
    let? used := field f "mem_used" de_u64 in
    let? total := field f "mem_total" de_u64 in
    let? active := field f "mem_active" de_u64 in
    let? inactive := field f "mem_inactive" de_u64 in
    let? unevictable := field f "mem_unevictable" de_u64 in
    let? limit := field f "mem_limit" de_u64 in
    let? cpu := field f "cpu_used" de_u64 in
    let? sys := field f "sys_cpu" de_u64 in
    Ok {| bm_backend_id := backend_id; bm_mem_used := used; bm_mem_total := total;
          bm_mem_active := active; bm_mem_inactive := inactive; bm_mem_unevictable := unevictable;
          bm_mem_limit := limit; bm_cpu_used := cpu; bm_sys_cpu := sys |}).

Definition ser_MessageFromDrone (m : MessageFromDrone) : json :=
  match m with
  | MHeartbeat h => ser_variant "Heartbeat" (ser_Heartbeat h)
  | MBackendEvent e => ser_variant "BackendEvent" (ser_BackendStateMessage e)
  | MBackendMetrics m => ser_variant "BackendMetrics" (ser_BackendMetricsMessage m)
  | MAckAction action_id => ser_variant "AckAction" (ser_struct [("action_id", JStr action_id)])
  | MRenewKey r => ser_variant "RenewKey" (ser_RenewKeyRequest r)
  end.
Definition de_MessageFromDrone (j : json) : decoded MessageFromDrone :=
  de_variants j (λ v c,
    if String.eqb v "Heartbeat" then
      let? h := newtype_variant c de_Heartbeat in Ok (MHeartbeat h)
    else if String.eqb v "BackendEvent" then
      let? e := newtype_variant c de_BackendStateMessage in Ok (MBackendEvent e)
    else if String.eqb v "BackendMetrics" then
      let? m := newtype_variant c de_BackendMetricsMessage in Ok (MBackendMetrics m)
    else if String.eqb v "AckAction" then newtype_variant c (λ j,
      de_fields ["action_id"] j (λ f, let? i := field f "action_id" de_str in Ok (MAckAction i)))
    else if String.eqb v "RenewKey" then
      let? r := newtype_variant c de_RenewKeyRequest in Ok (MRenewKey r)
    else Err Invalid).

Definition ser_RenewKeyResponse (r : RenewKeyResponse) : json :=
  ser_struct [("backend", JStr (rkp_backend r));
    ("deadlines", ser_option ser_KeyDeadlines (rkp_deadlines r))].
Definition de_RenewKeyResponse (j : json) : decoded RenewKeyResponse :=
  de_fields ["backend"; "deadlines"] j (λ f,
    let? backend := field f "backend" de_str in
    let? deadlines := opt_field f "deadlines" de_KeyDeadlines in
    Ok {| rkp_backend := backend; rkp_deadlines := deadlines |}).

Definition ser_MessageToDrone (m : MessageToDrone) : json :=
  match m with
  | TDAction m => ser_variant "Action" (ser_BackendActionMessage m)
  | TDAckEvent event_id => ser_variant "AckEvent" (ser_struct [("event_id", JNum event_id)])
  | TDRenewKeyResponse r => ser_variant "RenewKeyResponse" (ser_RenewKeyResponse r)
  end.
Definition de_MessageToDrone (j : json) : decoded MessageToDrone :=
  de_variants j (λ v c,
    if String.eqb v "Action" then
      let? m := newtype_variant c de_BackendActionMessage in Ok (TDAction m)
    else if String.eqb v "AckEvent" then newtype_variant c (λ j,
      de_fields ["event_id"] j (λ f, let? i := field f "event_id" de_i64 in Ok (TDAckEvent i)))
    else if String.eqb v "RenewKeyResponse" then
      let? r := newtype_variant c de_RenewKeyResponse in Ok (TDRenewKeyResponse r)
    else Err Invalid).

(** ** Messages of proxies and DNS servers *)

Definition ser_RouteInfo (r : RouteInfo) : json :=
  ser_struct [("backend_id", JStr (ri_backend_id r)); ("address", ser_addr (ri_address r));
    ("secret_token", JStr (ri_secret_token r)); ("cluster", JStr (ri_cluster r));
    ("user", ser_option JStr (ri_user r)); ("user_data", ser_option id (ri_user_data r));
    ("subdomain", ser_option JStr (ri_subdomain r))].
Definition de_RouteInfo (j : json) : decoded RouteInfo :=
  de_fields ["backend_id"; "address"; "secret_token"; "cluster"; "user"; "user_data"; "subdomain"] j (λ f,
    let? backend_id := field f "backend_id" de_str in
    let? address := field f "address" de_addr in
    let? secret_token := field f "secret_token" de_str in
    let? cluster := field f "cluster" de_str in
    let? user := opt_field f "user" de_str in
    let? user_data := opt_field f "user_data" de_Value in
    let? subdomain := opt_field f "subdomain" de_str in
    Ok {| ri_backend_id := backend_id; ri_address := address; ri_secret_token := secret_token;
          ri_cluster := cluster; ri_user := user; ri_user_data := user_data; ri_subdomain := subdomain |}).

Definition ser_CertManagerRequest (r : CertManagerRequest) : json :=
  match r with
  | CertLeaseRequest => JStr "CertLeaseRequest"
  | SetTxtRecord txt_value => ser_variant "SetTxtRecord" (ser_struct [("txt_value", JStr txt_value)])
  | ReleaseCertLease => JStr "ReleaseCertLease"
  end.
Definition de_CertManagerRequest (j : json) : decoded CertManagerRequest :=
  de_variants j (λ v c,
    if String.eqb v "CertLeaseRequest" then unit_variant CertLeaseRequest c
    else if String.eqb v "SetTxtRecord" then newtype_variant c (λ j,
      de_fields ["txt_value"] j (λ f, let? t := field f "txt_value" de_str in Ok (SetTxtRecord t)))
    else if String.eqb v "ReleaseCertLease" then unit_variant ReleaseCertLease c
    else Err Invalid).

Definition ser_CertManagerResponse (r : CertManagerResponse) : json :=
  match r with
  | CertLeaseResponse accepted =>
      ser_variant "CertLeaseResponse" (ser_struct [("accepted", JBool accepted)])
  | SetTxtRecordResponse accepted =>
      ser_variant "SetTxtRecordResponse" (ser_struct [("accepted", JBool accepted)])
  end.
Definition de_CertManagerResponse (j : json) : decoded CertManagerResponse :=
  de_variants j (λ v c,
    if String.eqb v "CertLeaseResponse" then newtype_variant c (λ j,
      de_fields ["accepted"] j (λ f, let? a := field f "accepted" de_bool in Ok (CertLeaseResponse a)))
    else if String.eqb v "SetTxtRecordResponse" then newtype_variant c (λ j,
      de_fields ["accepted"] j (λ f, let? a := field f "accepted" de_bool in Ok (SetTxtRecordResponse a)))
    else Err Invalid).

Definition ser_RouteInfoRequest (token : string) : json := ser_struct [("token", JStr token)].
Definition de_RouteInfoRequest (j : json) : decoded string :=
  de_fields ["token"] j (λ f, field f "token" de_str).

Definition ser_RouteInfoResponse (r : RouteInfoResponse) : json :=
  ser_struct [("token", JStr (rir_token r)); ("route_info", ser_option ser_RouteInfo (rir_route_info r))].
Definition de_RouteInfoResponse (j : json) : decoded RouteInfoResponse :=
  de_fields ["token"; "route_info"] j (λ f,
    let? token := field f "token" de_str in
    let? route_info := opt_field f "route_info" de_RouteInfo in
    Ok {| rir_token := token; rir_route_info := route_info |}).

Definition ser_MessageFromProxy (m : MessageFromProxy) : json :=
  match m with
  | PRouteInfoRequest token => ser_variant "RouteInfoRequest" (ser_RouteInfoRequest token)
  | PKeepAlive backend => ser_variant "KeepAlive" (JStr backend)
  | PCertManagerRequest r => ser_variant "CertManagerRequest" (ser_CertManagerRequest r)
  end.
Definition de_MessageFromProxy (j : json) : decoded MessageFromProxy :=
  de_variants j (λ v c,
    if String.eqb v "RouteInfoRequest" then
      let? t := newtype_variant c de_RouteInfoRequest in Ok (PRouteInfoRequest t)
    else if String.eqb v "KeepAlive" then
      let? b := newtype_variant c de_str in Ok (PKeepAlive b)
    else if String.eqb v "CertManagerRequest" then
      let? r := newtype_variant c de_CertManagerRequest in Ok (PCertManagerRequest r)
    else Err Invalid).

Definition ser_MessageToProxy (m : MessageToProxy) : json :=
  match m with
  | TPRouteInfoResponse r => ser_variant "RouteInfoResponse" (ser_RouteInfoResponse r)
  | TPCertManagerResponse r => ser_variant "CertManagerResponse" (ser_CertManagerResponse r)
  | TPBackendRemoved backend => ser_variant "BackendRemoved" (ser_struct [("backend", JStr backend)])
  end.
Definition de_MessageToProxy (j : json) : decoded MessageToProxy :=
  de_variants j (λ v c,
    if String.eqb v "RouteInfoResponse" then
      let? r := newtype_variant c de_RouteInfoResponse in Ok (TPRouteInfoResponse r)
    else if String.eqb v "CertManagerResponse" then
      let? r := newtype_variant c de_CertManagerResponse in Ok (TPCertManagerResponse r)
    else if String.eqb v "BackendRemoved" then newtype_variant c (λ j,
      de_fields ["backend"] j (λ f, let? b := field f "backend" de_str in Ok (TPBackendRemoved b)))
    else Err Invalid).

Definition ser_MessageFromDns (m : MessageFromDns) : json :=
  match m with
  | TxtRecordRequest cluster => ser_variant "TxtRecordRequest" (ser_struct [("cluster", JStr cluster)])
  end.
Definition de_MessageFromDns (j : json) : decoded MessageFromDns :=
  de_variants j (λ v c,
    if String.eqb v "TxtRecordRequest" then newtype_variant c (λ j,
      de_fields ["cluster"] j (λ f, let? c := field f "cluster" de_str in Ok (TxtRecordRequest c)))
    else Err Invalid).

Definition ser_MessageToDns (m : MessageToDns) : json :=
  match m with
  | TxtRecordResponse cluster txt_value =>
      ser_variant "TxtRecordResponse" (ser_struct [("cluster", JStr cluster);
        ("txt_value", ser_option JStr txt_value)])
  end.
Definition de_MessageToDns (j : json) : decoded MessageToDns :=
  de_variants j (λ v c,
    if String.eqb v "TxtRecordResponse" then newtype_variant c (λ j,
      de_fields ["cluster"; "txt_value"] j (λ f,
        let? cluster := field f "cluster" de_str in
        let? txt_value := opt_field f "txt_value" de_str in
        Ok (TxtRecordResponse cluster txt_value)))
    else Err Invalid).

End Encoding.
End Encoding.

(** ** Round trips *)

Module RoundTrip.
Import Encoding Protocol.

(** A time as it is read back: in whole milliseconds. *)
Definition whole (t : Z) : Z := from_millis (t / 1000).

Lemma whole_le t : (whole t ≤ t < whole t + 1000)%Z.
Proof. unfold whole, from_millis. pose proof (Z.mod_pos_bound t 1000). pose proof (Z.div_mod t 1000). lia. Qed.

Lemma whole_whole t : whole (whole t) = whole t.
Proof. unfold whole, from_millis. by rewrite Z.div_mul. Qed.

Section RoundTrip.
Context `{Ext : Externals} `{EL : !ExternalLaws} {S : Serde} {SL : SerdeLaws S}.

Definition i32 (n : Z) : Prop := (-2^31 ≤ n ≤ 2^31 - 1)%Z.
Definition i64 (n : Z) : Prop := (-2^63 ≤ n ≤ 2^63 - 1)%Z.
Definition u64 (n : N) : Prop := (Z.of_N n ≤ 2^64 - 1)%Z.
Definition time (t : Z) : Prop := timestamp_in_range (t / 1000) = true.

Lemma de_fields_ser {A} names fs (k : (string → option json) → result DeError A) a :
  NoDup fs.*1 →
  (∀ f, Forall (λ n, f n = assoc n fs) names → k f = a) →
  de_fields names (ser_struct fs) k = a.
Proof.
  intros Hnd Hk. destruct (de_ser_struct names fs Hnd) as (f & Hf & Hs).
  unfold de_fields. rewrite Hf. apply Hk, Forall_forall, Hs.
Qed.

Lemma ser_option_some {A} (ser : A → json) (de : json → result DeError A) o a :
  (∀ x, o = Some x → ser x ≠ JNull ∧ de (ser x) = Ok (a x)) →
  de_option de (ser_option ser o) = Ok (a <$> o).
Proof.
  destruct o as [x|]; [|done]. intros Hx. destruct (Hx x eq_refl) as [Hn Hd]. cbn [ser_option].
  unfold de_option. by destruct (ser x); try rewrite Hd.
Qed.

Lemma opt_str o : de_option de_str (ser_option JStr o) = Ok o.
Proof. by destruct o. Qed.
Lemma opt_bool o : de_option de_bool (ser_option JBool o) = Ok o.
Proof. by destruct o. Qed.

Lemma int_roundtrip lo hi n : (lo ≤ n ≤ hi)%Z → de_int lo hi (JNum n) = Ok n.
Proof. intros Hn. cbn. by rewrite decide_True. Qed.
Lemma opt_int lo hi o : (∀ n, o = Some n → (lo ≤ n ≤ hi)%Z) →
  de_option (de_int lo hi) (ser_option JNum o) = Ok o.
Proof. destruct o as [n|]; [|done]. intros Hn. cbn. by rewrite decide_True by auto. Qed.
Lemma u64_roundtrip n : u64 n → de_u64 (ser_u64 n) = Ok n.
Proof.
  intros Hn. unfold de_u64, ser_u64. rewrite int_roundtrip by (unfold u64 in Hn; lia). cbn. by rewrite N2Z.id.
Qed.

Lemma time_roundtrip t : time t → de_LoggableTime (ser_LoggableTime t) = Ok (whole t).
Proof. intros Ht. unfold de_LoggableTime, ser_LoggableTime. by rewrite Ht. Qed.

Lemma status_roundtrip s : de_BackendStatus (ser_BackendStatus s) = Ok s.
Proof. unfold de_BackendStatus, de_variants, ser_BackendStatus. rewrite de_enum_unit. by destruct s. Qed.
Lemma kind_roundtrip k : de_TerminationKind (ser_TerminationKind k) = Ok k.
Proof. unfold de_TerminationKind, de_variants, ser_TerminationKind. rewrite de_enum_unit. by destruct k. Qed.
Lemma reason_roundtrip r : de_TerminationReason (ser_TerminationReason r) = Ok r.
Proof. unfold de_TerminationReason, de_variants, ser_TerminationReason. rewrite de_enum_unit. by destruct r. Qed.
Lemma opt_kind o : de_option de_TerminationKind (ser_option ser_TerminationKind o) = Ok o.
Proof. rewrite (ser_option_some _ _ _ id); [by destruct o|]. intros x _. split; [done|]. apply kind_roundtrip. Qed.
Lemma opt_reason o : de_option de_TerminationReason (ser_option ser_TerminationReason o) = Ok o.
Proof. rewrite (ser_option_some _ _ _ id); [by destruct o|]. intros x _. split; [done|]. apply reason_roundtrip. Qed.
Lemma addr_roundtrip a : de_addr (ser_addr a) = Ok a.
Proof. cbn. by rewrite addr_parse_to_string. Qed.

Lemma str_roundtrip x : de_str (JStr x) = Ok x.
Proof. done. Qed.
Lemma bool_roundtrip x : de_bool (JBool x) = Ok x.
Proof. done. Qed.
Lemma i32_roundtrip n : i32 n → de_i32 (JNum n) = Ok n.
Proof. apply int_roundtrip. Qed.
Lemma i64_roundtrip n : i64 n → de_i64 (JNum n) = Ok n.
Proof. apply int_roundtrip. Qed.
Lemma value_roundtrip x : de_Value x = Ok x.
Proof. done. Qed.
Lemma opt_i32 o : (∀ n, o = Some n → i32 n) → de_option de_i32 (ser_option JNum o) = Ok o.
Proof. apply opt_int. Qed.
Lemma opt_i64 o : (∀ n, o = Some n → i64 n) → de_option de_i64 (ser_option JNum o) = Ok o.
Proof. apply opt_int. Qed.

(** An optional value whose encoding is a struct. *)
Lemma opt_struct {A} (ser : A → json) (de : json → result DeError A) o :
  (∀ x, o = Some x → ∃ fs, ser x = ser_struct fs) → (∀ x, o = Some x → de (ser x) = Ok x) →
  de_option de (ser_option ser o) = Ok o.
Proof.
  intros Hn Hr. rewrite (ser_option_some _ _ _ id); [by rewrite option_fmap_id|].
  intros x Hx. split; [|by apply Hr]. destruct (Hn x Hx) as [fs ->]. apply ser_struct_some.
Qed.

End RoundTrip.

#[export] Hint Rewrite @str_roundtrip @bool_roundtrip @opt_str @opt_bool @value_roundtrip : encoding.
#[export] Hint Rewrite @addr_roundtrip @status_roundtrip @kind_roundtrip @reason_roundtrip @opt_kind
  @opt_reason using apply _ : encoding.
#[export] Hint Rewrite @i32_roundtrip @i64_roundtrip @u64_roundtrip @time_roundtrip @opt_i32 @opt_i64
  using (apply _ || assumption || tauto) : encoding.

(** Evaluates the fields of a struct that was written. *)
Ltac read_fields :=
  apply de_fields_ser; [cbn; apply (bool_decide_unpack _); vm_compute; exact I|];
  let f := fresh "f" in let Hf := fresh "Hf" in
  intros f Hf; cbn [assoc app skip_none String.eqb Ascii.eqb Bool.eqb] in Hf;
  unfold field, opt_field, default_field;
  repeat match goal with H : Forall _ (_ :: _) |- _ =>
    let H' := fresh in apply Forall_cons in H as [H' H]; rewrite H'; clear H' end;
  cbn [String.eqb Ascii.eqb Bool.eqb].

(** A struct, and a variant, that was written. *)
Ltac wire := read_fields; repeat (autorewrite with encoding; cbn [result_bind]); try done.
Ltac variant :=
  unfold de_variants; first [rewrite de_ser_variant | rewrite de_enum_unit];
  cbn [String.eqb Ascii.eqb Bool.eqb newtype_variant unit_variant].

Section Messages.
Context `{Ext : Externals} `{EL : !ExternalLaws} {S : Serde} {SL : SerdeLaws S}.

(** The values that the types of the code can hold. *)
Definition fits_state (s : BackendState) : Prop :=
  match s with BackendState.Terminated _ _ _ (Some c) => i32 c | _ => True end.
Definition fits_deadlines (d : KeyDeadlines) : Prop :=
  time (renew_at d) ∧ time (soft_terminate_at d) ∧ time (hard_terminate_at d).
Definition fits_action (a : BackendAction) : Prop :=
  match a with Spawn _ k _ => fits_deadlines (ak_deadlines k) ∧ i64 (ak_token k) | Terminate _ _ => True end.
Definition fits_from_drone (m : MessageFromDrone) : Prop :=
  match m with
  | MHeartbeat h => time (hb_local_time h)
  | MBackendEvent e => i64 (bsm_event_id e) ∧ fits_state (bsm_state e) ∧ time (bsm_timestamp e)
  | MBackendMetrics m =>
      u64 (bm_mem_used m) ∧ u64 (bm_mem_total m) ∧ u64 (bm_mem_active m) ∧ u64 (bm_mem_inactive m) ∧
      u64 (bm_mem_unevictable m) ∧ u64 (bm_mem_limit m) ∧ u64 (bm_cpu_used m) ∧ u64 (bm_sys_cpu m)
  | MAckAction _ => True
  | MRenewKey r => time (rkr_local_time r)
  end.
Definition fits_to_drone (m : MessageToDrone) : Prop :=
  match m with
  | TDAction m => i32 (bam_drone_id m) ∧ fits_action (bam_action m)
  | TDAckEvent i => i64 i
  | TDRenewKeyResponse r => ∀ d, rkp_deadlines r = Some d → fits_deadlines d
  end.

(** A message as it arrives: its times in whole milliseconds. *)
Definition whole_deadlines (d : KeyDeadlines) : KeyDeadlines := {|
  renew_at := whole (renew_at d); soft_terminate_at := whole (soft_terminate_at d);
  hard_terminate_at := whole (hard_terminate_at d) |}.
Definition whole_action (a : BackendAction) : BackendAction :=
  match a with
  | Spawn e k t => Spawn e {| ak_key := ak_key k; ak_deadlines := whole_deadlines (ak_deadlines k);
                              ak_token := ak_token k |} t
  | Terminate _ _ => a
  end.
Definition whole_action_message (m : BackendActionMessage) : BackendActionMessage := {|
  bam_action_id := bam_action_id m; bam_backend_id := bam_backend_id m; bam_drone_id := bam_drone_id m;
  bam_action := whole_action (bam_action m) |}.
Definition whole_from_drone (m : MessageFromDrone) : MessageFromDrone :=
  match m with
  | MHeartbeat h => MHeartbeat {| hb_local_time := whole (hb_local_time h) |}
  | MBackendEvent e => MBackendEvent {| bsm_event_id := bsm_event_id e; bsm_backend_id := bsm_backend_id e;
      bsm_state := bsm_state e; bsm_timestamp := whole (bsm_timestamp e) |}
  | MRenewKey r => MRenewKey {| rkr_backend := rkr_backend r; rkr_local_time := whole (rkr_local_time r) |}
  | MBackendMetrics _ | MAckAction _ => m
  end.
Definition whole_to_drone (m : MessageToDrone) : MessageToDrone :=
  match m with
  | TDAction m => TDAction (whole_action_message m)
  | TDAckEvent _ => m
  | TDRenewKeyResponse r => TDRenewKeyResponse {| rkp_backend := rkp_backend r;
      rkp_deadlines := whole_deadlines <$> rkp_deadlines r |}
  end.

(** Optional user data that is null is read as absent. *)
Definition nonnull_route (r : RouteInfo) : RouteInfo := {|
  ri_backend_id := ri_backend_id r; ri_address := ri_address r; ri_secret_token := ri_secret_token r;
  ri_cluster := ri_cluster r; ri_user := ri_user r;
  ri_user_data := match ri_user_data r with Some JNull => None | o => o end; ri_subdomain := ri_subdomain r |}.
Definition nonnull_to_proxy (m : MessageToProxy) : MessageToProxy :=
  match m with
  | TPRouteInfoResponse r => TPRouteInfoResponse {| rir_token := rir_token r;
      rir_route_info := nonnull_route <$> rir_route_info r |}
  | _ => m
  end.

Lemma state_roundtrip s : fits_state s → de_BackendState (ser_BackendState s) = Ok s.
Proof.
  intros Hs. unfold de_BackendState, ser_BackendState.
  destruct s as [| | |a|a|l k r|l r|l k r c];
    (rewrite de_ser_tagged; [|cbn; apply (bool_decide_unpack _); vm_compute; exact I..]);
    cbn [String.eqb Ascii.eqb Bool.eqb]; try done; read_fields;
    rewrite ?status_roundtrip, ?kind_roundtrip, ?reason_roundtrip, ?addr_roundtrip; try done.
  cbn [result_bind]. rewrite opt_kind, opt_reason. cbn [result_bind]. unfold de_i32. rewrite opt_int; [done|].
  intros n ->. exact Hs.
Qed.

#[local] Hint Rewrite @state_roundtrip using (assumption || tauto) : encoding.

Lemma key_config_roundtrip k : de_KeyConfig (ser_KeyConfig k) = Ok k.
Proof. wire. by destruct k. Qed.
#[local] Hint Rewrite @key_config_roundtrip : encoding.

Lemma deadlines_roundtrip d : fits_deadlines d → de_KeyDeadlines (ser_KeyDeadlines d) = Ok (whole_deadlines d).
Proof. intros (? & ? & ?). wire. Qed.
#[local] Hint Rewrite @deadlines_roundtrip using (assumption || tauto) : encoding.

Lemma acquired_key_roundtrip k :
  fits_deadlines (ak_deadlines k) → i64 (ak_token k) →
  de_AcquiredKey (ser_AcquiredKey k) =
    Ok {| ak_key := ak_key k; ak_deadlines := whole_deadlines (ak_deadlines k); ak_token := ak_token k |}.
Proof. intros ? ?. wire. Qed.
#[local] Hint Rewrite @acquired_key_roundtrip using (assumption || tauto) : encoding.

Lemma action_roundtrip a : fits_action a → de_BackendAction (ser_BackendAction a) = Ok (whole_action a).
Proof. destruct a as [e k t|k r]; [intros [? ?]|intros _]; unfold de_BackendAction, ser_BackendAction; variant; wire. Qed.
#[local] Hint Rewrite @action_roundtrip using (assumption || tauto) : encoding.

Lemma action_message_roundtrip m :
  i32 (bam_drone_id m) → fits_action (bam_action m) →
  de_BackendActionMessage (ser_BackendActionMessage m) = Ok (whole_action_message m).
Proof. intros ? ?. wire. Qed.

#[local] Hint Rewrite @action_message_roundtrip using (assumption || tauto) : encoding.

Lemma heartbeat_roundtrip h : time (hb_local_time h) →
  de_Heartbeat (ser_Heartbeat h) = Ok {| hb_local_time := whole (hb_local_time h) |}.
Proof. intros ?. wire. Qed.
Lemma state_message_roundtrip e : fits_from_drone (MBackendEvent e) →
  de_BackendStateMessage (ser_BackendStateMessage e) = Ok {| bsm_event_id := bsm_event_id e;
    bsm_backend_id := bsm_backend_id e; bsm_state := bsm_state e; bsm_timestamp := whole (bsm_timestamp e) |}.
Proof. intros (? & ? & ?). wire. Qed.
Lemma metrics_roundtrip m : fits_from_drone (MBackendMetrics m) →
  de_BackendMetricsMessage (ser_BackendMetricsMessage m) = Ok m.
Proof. intros (? & ? & ? & ? & ? & ? & ? & ?). wire. by destruct m. Qed.
Lemma renew_request_roundtrip r : time (rkr_local_time r) →
  de_RenewKeyRequest (ser_RenewKeyRequest r) =
    Ok {| rkr_backend := rkr_backend r; rkr_local_time := whole (rkr_local_time r) |}.
Proof. intros ?. wire. Qed.
Lemma renew_response_roundtrip r : fits_to_drone (TDRenewKeyResponse r) →
  de_RenewKeyResponse (ser_RenewKeyResponse r) =
    Ok {| rkp_backend := rkp_backend r; rkp_deadlines := whole_deadlines <$> rkp_deadlines r |}.
Proof.
  intros Hr. wire. rewrite (ser_option_some _ _ _ whole_deadlines); [done|].
  intros d Hd. split; [apply ser_struct_some|]. apply deadlines_roundtrip. by apply Hr.
Qed.
#[local] Hint Rewrite @heartbeat_roundtrip @state_message_roundtrip @metrics_roundtrip @renew_request_roundtrip
  @renew_response_roundtrip using (assumption || tauto) : encoding.

Lemma from_drone_roundtrip m :
  fits_from_drone m → de_MessageFromDrone (ser_MessageFromDrone m) = Ok (whole_from_drone m).
Proof.
  intros Hm. unfold de_MessageFromDrone, ser_MessageFromDrone. destruct m as [h|e|m|i|r]; variant.
  - by rewrite heartbeat_roundtrip.
  - by rewrite state_message_roundtrip.
  - by rewrite metrics_roundtrip.
  - wire.
  - by rewrite renew_request_roundtrip.
Qed.

Lemma to_drone_roundtrip m :
  fits_to_drone m → de_MessageToDrone (ser_MessageToDrone m) = Ok (whole_to_drone m).
Proof.
  intros Hm. unfold de_MessageToDrone, ser_MessageToDrone. destruct m as [m|i|r]; variant.
  - destruct Hm. by rewrite action_message_roundtrip.
  - wire.
  - by rewrite renew_response_roundtrip.
Qed.

Lemma opt_value o : de_option de_Value (ser_option id o) = Ok (match o with Some JNull => None | o => o end).
Proof. by destruct o as [[]|]. Qed.
#[local] Hint Rewrite @opt_value : encoding.

Lemma route_roundtrip r : de_RouteInfo (ser_RouteInfo r) = Ok (nonnull_route r).
Proof. wire. unfold nonnull_route. by destruct (ri_user_data r) as [[]|]. Qed.
Lemma route_response_roundtrip r : de_RouteInfoResponse (ser_RouteInfoResponse r) =
  Ok {| rir_token := rir_token r; rir_route_info := nonnull_route <$> rir_route_info r |}.
Proof.
  wire. rewrite (ser_option_some _ _ _ nonnull_route); [done|].
  intros x _. split; [apply ser_struct_some|apply route_roundtrip].
Qed.
Lemma cert_request_roundtrip r : de_CertManagerRequest (ser_CertManagerRequest r) = Ok r.
Proof. unfold de_CertManagerRequest, ser_CertManagerRequest. destruct r; variant; try done. wire. Qed.
Lemma cert_response_roundtrip r : de_CertManagerResponse (ser_CertManagerResponse r) = Ok r.
Proof. unfold de_CertManagerResponse, ser_CertManagerResponse. destruct r; variant; wire. Qed.
Lemma route_request_roundtrip t : de_RouteInfoRequest (ser_RouteInfoRequest t) = Ok t.
Proof. wire. Qed.

Lemma from_proxy_roundtrip m : de_MessageFromProxy (ser_MessageFromProxy m) = Ok m.
Proof.
  unfold de_MessageFromProxy, ser_MessageFromProxy. destruct m; variant; [by rewrite route_request_roundtrip|done|].
  by rewrite cert_request_roundtrip.
Qed.

Lemma to_proxy_roundtrip m : de_MessageToProxy (ser_MessageToProxy m) = Ok (nonnull_to_proxy m).
Proof.
  unfold de_MessageToProxy, ser_MessageToProxy.
  destruct m; variant; [by rewrite route_response_roundtrip|by rewrite cert_response_roundtrip|wire].
Qed.

Lemma from_dns_roundtrip m : de_MessageFromDns (ser_MessageFromDns m) = Ok m.
Proof. unfold de_MessageFromDns, ser_MessageFromDns. destruct m; variant; wire. Qed.
Lemma to_dns_roundtrip m : de_MessageToDns (ser_MessageToDns m) = Ok m.
Proof. unfold de_MessageToDns, ser_MessageToDns. destruct m; variant; wire. Qed.

Lemma whole_deadlines_idemp d : whole_deadlines (whole_deadlines d) = whole_deadlines d.
Proof. unfold whole_deadlines. cbn. by rewrite !whole_whole. Qed.

Lemma whole_from_drone_idemp m : whole_from_drone (whole_from_drone m) = whole_from_drone m.
Proof. destruct m; cbn; by rewrite ?whole_whole. Qed.

Lemma whole_to_drone_idemp m : whole_to_drone (whole_to_drone m) = whole_to_drone m.
Proof.
  destruct m as [[i b n [e k t|k r]]|i|[b [d|]]]; try done; cbn; unfold whole_action_message; cbn;
    by rewrite whole_deadlines_idemp.
Qed.

(** *** Requests, responses and the entries of status streams *)

Definition fits_spawn_config (c : SpawnConfig) : Prop :=
  (∀ n, Types.sc_lifetime_limit_seconds c = Some n → i32 n) ∧
  (∀ n, Types.sc_max_idle_seconds c = Some n → i32 n).
Definition fits_connect_request (r : ConnectRequest) : Prop :=
  ∀ c, Types.cr_spawn_config r = Some c → fits_spawn_config c.

Lemma spawn_config_roundtrip c : fits_spawn_config c → de_SpawnConfig (ser_SpawnConfig c) = Ok c.
Proof.
  intros [H1 H2]. wire. by destruct c.
Qed.

Lemma connect_request_roundtrip r : fits_connect_request r → de_ConnectRequest (ser_ConnectRequest r) = Ok r.
Proof.
  intros Hr. wire. rewrite (ser_option_some _ _ _ id).
  2: { intros x _. split; [apply ser_struct_some|apply key_config_roundtrip]. }
  cbn [result_bind]. rewrite (ser_option_some _ _ _ id).
  2: { intros x Hx. split; [apply ser_struct_some|by apply spawn_config_roundtrip, Hr]. }
  cbn [result_bind]. autorewrite with encoding. cbn [result_bind de_Map]. rewrite !option_fmap_id. by destruct r.
Qed.

Lemma connect_response_roundtrip r : de_ConnectResponse (ser_ConnectResponse r) = Ok r.
Proof. wire. by destruct r. Qed.

Lemma revoke_request_roundtrip r : de_RevokeRequest (ser_RevokeRequest r) = Ok r.
Proof. wire. by destruct r. Qed.

(** An entry as it arrives. *)
Definition whole_entry (e : BackendState.BackendStatusStreamEntry) : BackendState.BackendStatusStreamEntry := {|
  BackendState.bse_status := BackendState.bse_status e;
  BackendState.bse_termination_reason := BackendState.bse_termination_reason e;
  BackendState.bse_termination_kind := BackendState.bse_termination_kind e;
  BackendState.bse_exit_error := BackendState.bse_exit_error e;
  BackendState.bse_time := whole (BackendState.bse_time e) |}.

Lemma entry_roundtrip e : time (BackendState.bse_time e) →
  de_BackendStatusStreamEntry (ser_BackendStatusStreamEntry e) = Ok (whole_entry e).
Proof.
  intros Ht. unfold de_BackendStatusStreamEntry, ser_BackendStatusStreamEntry, whole_entry.
  destruct e as [s r k x t]; cbn [BackendState.bse_status BackendState.bse_termination_reason
    BackendState.bse_termination_kind BackendState.bse_exit_error BackendState.bse_time] in *.
  pose proof (λ r, opt_reason (Some r)) as Hr. pose proof (λ k, opt_kind (Some k)) as Hk.
  cbn [ser_option] in Hr, Hk.
  destruct r as [r|], k as [k|], x as [x|]; wire; rewrite ?Hr; cbn [result_bind]; rewrite ?Hk;
    cbn [result_bind de_option de_bool]; autorewrite with encoding; done.
Qed.

(** *** The text of a message *)

Definition encode {A} (ser : A → json) (a : A) : string := to_text (ser a).
Definition decode {A} (de : json → result DeError A) (s : string) : result DeError A :=
  match from_text s with Some j => de j | None => Err Invalid end.

Lemma decode_encode {A B} (ser : A → json) (de : json → result DeError B) a b :
  de (ser a) = b → decode de (encode ser a) = b.
Proof. intros Hb. unfold decode, encode. by rewrite from_to_text. Qed.

(** C8. What the code means to say with a message survives the connection: every message of a
    socket is read back from its text, times in whole milliseconds and null user data as absent,
    and is then read back exactly. *)
Theorem messages_roundtrip :
  (∀ m, fits_from_drone m →
    decode de_MessageFromDrone (encode ser_MessageFromDrone m) = Ok (whole_from_drone m)) ∧
  (∀ m, fits_to_drone m → decode de_MessageToDrone (encode ser_MessageToDrone m) = Ok (whole_to_drone m)) ∧
  (∀ m, decode de_MessageFromProxy (encode ser_MessageFromProxy m) = Ok m) ∧
  (∀ m, decode de_MessageToProxy (encode ser_MessageToProxy m) = Ok (nonnull_to_proxy m)) ∧
  (∀ m, decode de_MessageFromDns (encode ser_MessageFromDns m) = Ok m) ∧
  (∀ m, decode de_MessageToDns (encode ser_MessageToDns m) = Ok m) ∧
  (∀ m, whole_from_drone (whole_from_drone m) = whole_from_drone m) ∧
  (∀ m, whole_to_drone (whole_to_drone m) = whole_to_drone m).
Proof.
  split_and!.
  - intros m Hm. by apply decode_encode, from_drone_roundtrip.
  - intros m Hm. by apply decode_encode, to_drone_roundtrip.
  - intros m. by apply decode_encode, from_proxy_roundtrip.
  - intros m. by apply decode_encode, to_proxy_roundtrip.
  - intros m. by apply decode_encode, from_dns_roundtrip.
  - intros m. by apply decode_encode, to_dns_roundtrip.
  - apply whole_from_drone_idemp.
  - apply whole_to_drone_idemp.
Qed.

(** *** What clients may leave out *)

Lemma assoc_none {A} k (l : list (string * A)) : k ∉ l.*1 → assoc k l = None.
Proof.
  induction l as [|[k' a] l IH]; [done|]. cbn [fmap list_fmap assoc]. rewrite not_elem_of_cons. intros [Hne Hl].
  destruct (String.eqb_spec k k') as [->|_]; [done|]. by apply IH.
Qed.

(** A request needs nothing but the executable of its spawn configuration, and may have fields
    that the controller does not know. *)
Theorem minimal_requests others more executable :
  NoDup others.*1 → NoDup more.*1 →
  (∀ n, n ∈ ["key"; "spawn_config"; "user"; "auth"] → n ∉ others.*1) →
  (∀ n, n ∈ ["id"; "cluster"; "pool"; "executable"; "lifetime_limit_seconds"; "max_idle_seconds";
             "use_static_token"; "subdomain"] → n ∉ more.*1) →
  de_ConnectRequest (ser_struct (("spawn_config", ser_struct (("executable", executable) :: more)) :: others)) =
    Ok {| Types.cr_key := None; Types.cr_user := None; Types.cr_auth := [];
          Types.cr_spawn_config := Some {| Types.sc_id := None; Types.sc_cluster := None;
            Types.sc_pool := Types.default_pool; Types.sc_executable := executable;
            Types.sc_lifetime_limit_seconds := None; Types.sc_max_idle_seconds := None;
            Types.sc_use_static_token := false; Types.sc_subdomain := None |} |}.
Proof.
  intros Hno Hnm Ho Hm.
  assert (de_SpawnConfig (ser_struct (("executable", executable) :: more)) = Ok {| Types.sc_id := None;
    Types.sc_cluster := None; Types.sc_pool := Types.default_pool; Types.sc_executable := executable;
    Types.sc_lifetime_limit_seconds := None; Types.sc_max_idle_seconds := None;
    Types.sc_use_static_token := false; Types.sc_subdomain := None |}) as Hs.
  { apply de_fields_ser; [constructor; [apply Hm; set_solver|done]|].
    intros f Hf. rewrite Forall_forall in Hf. unfold field, opt_field, default_field.
    rewrite !Hf by set_solver. cbn [assoc String.eqb Ascii.eqb Bool.eqb].
    rewrite !(assoc_none _ more) by (apply Hm; set_solver). done. }
  apply de_fields_ser; [constructor; [apply Ho; set_solver|done]|].
  intros f Hf. rewrite Forall_forall in Hf. unfold field, opt_field, default_field.
  rewrite !Hf by set_solver. cbn [assoc String.eqb Ascii.eqb Bool.eqb].
  rewrite !(assoc_none _ others) by (apply Ho; set_solver). cbn [result_bind].
  pose proof (ser_struct_some (("executable", executable) :: more)) as Hnn.
  unfold de_option. by destruct (ser_struct _); try rewrite Hs.
Qed.

(** *** Durations *)

Lemma num_seconds_fits d : (Z.abs d ≤ (2^63 - 1) * 1000)%Z →
  i64 (num_seconds d) ∧ try_seconds (num_seconds d) = Some (d ÷ 1000000 * 1000000)%Z.
Proof.
  intros Hd. pose proof (Z.quot_rem' d 1000000). pose proof (Z.rem_bound_abs d 1000000).
  unfold i64, num_seconds, try_seconds, from_secs. split; [lia|]. by rewrite decide_True by lia.
Qed.

Lemma duration_roundtrip o : (∀ d, o = Some d → Z.abs d ≤ (2^63 - 1) * 1000)%Z →
  de_optional_duration (ser_optional_duration o) = Ok ((λ d, d ÷ 1000000 * 1000000)%Z <$> o).
Proof.
  destruct o as [d|]; [|done]. intros Ho. destruct (num_seconds_fits d (Ho d eq_refl)) as [H1 H2].
  unfold de_optional_duration, ser_optional_duration, de_option. rewrite i64_roundtrip by done.
  cbn [result_bind]. by rewrite H2.
Qed.

(** A duration in seconds is read back rounded towards zero, when [chrono] could represent it;
    a number of seconds that it cannot is no error: the task that reads it panics. *)
Theorem duration_seconds :
  (∀ d, (Z.abs d ≤ (2^63 - 1) * 1000)%Z →
     de_duration (ser_duration d) = Ok (d ÷ 1000000 * 1000000)%Z) ∧
  (∀ n, i64 n → ((2^63 - 1) `div` 1000 < Z.abs n)%Z → de_duration (JNum n) = Err Panicked) ∧
  (∀ o, (∀ d, o = Some d → Z.abs d ≤ (2^63 - 1) * 1000)%Z →
     de_optional_duration (ser_optional_duration o) = Ok ((λ d, d ÷ 1000000 * 1000000)%Z <$> o)).
Proof.
  split_and!; [| |apply duration_roundtrip].
  - intros d [H1 H2]%num_seconds_fits. unfold de_duration, ser_duration. rewrite i64_roundtrip by done.
    cbn [result_bind]. by rewrite H2.
  - intros n Hn Hb. unfold de_duration. rewrite i64_roundtrip by done. cbn [result_bind].
    unfold try_seconds. rewrite decide_False; [done|]. lia.
Qed.

End Messages.

#[export] Hint Rewrite @key_config_roundtrip using apply _ : encoding.
#[export] Hint Rewrite @state_roundtrip @deadlines_roundtrip @acquired_key_roundtrip
  using (apply _ || assumption || tauto) : encoding.
End RoundTrip.

(** ** An instance of [serde] *)

Module ExampleSerde.

(** *** A text for JSON *)

Notation leaf := (string + Z)%type.

Fixpoint to_tree (j : json) : gen_tree leaf :=
  match j with
  | JNull => GenNode 0 []
  | JBool b => GenNode (if b then 1 else 2) []
  | JNum n => GenLeaf (inr n)
  | JStr s => GenLeaf (inl s)
  | JArr l => GenNode 3 (to_tree <$> l)
  | JObj m => GenNode 4 ((λ p, GenNode 5 [GenLeaf (inl p.1); to_tree p.2]) <$> m)
  end.

Fixpoint of_tree (t : gen_tree leaf) : json :=
  match t with
  | GenLeaf (inr n) => JNum n
  | GenLeaf (inl s) => JStr s
  | GenNode 1 _ => JBool true
  | GenNode 2 _ => JBool false
  | GenNode 3 l => JArr (of_tree <$> l)
  | GenNode 4 l => JObj ((λ t, match t with
      | GenNode _ [GenLeaf (inl k); t] => (k, of_tree t)
      | _ => ("", JNull) end) <$> l)
  | GenNode _ _ => JNull
  end.

Lemma of_to_tree j : of_tree (to_tree j) = j.
Proof.
  revert j. fix IH 1. intros [|b|n|s|l|m]; cbn [to_tree of_tree]; try done; [by destruct b| |].
  - f_equal. induction l as [|j l IHl]; [done|]. cbn [fmap list_fmap]. by rewrite IH, IHl.
  - f_equal. induction m as [|[k j] m IHm]; [done|]. cbn [fmap list_fmap fst snd]. by rewrite IH, IHm.
Qed.

Definition text (j : json) : string := ExampleExternals.pos_show (countable.encode (to_tree j)).
Definition of_text (s : string) : option json :=
  match ExampleExternals.pos_read s with
  | Some (p, _) => of_tree <$> countable.decode p
  | None => None
  end.

Lemma of_to_text j : of_text (text j) = Some j.
Proof.
  unfold of_text, text.
  rewrite <- (append_nil_r (ExampleExternals.pos_show _)), ExampleExternals.pos_read_show,
    countable.decode_encode. cbn. by rewrite of_to_tree.
Qed.

(** *** Structs and enums as objects *)

(** [serde] refuses a field that occurs twice. *)
Definition struct_of (names : list string) (j : json) : option (string → option json) :=
  match j with
  | JObj m =>
      if decide (NoDup (filter (.∈ names) m.*1)) then Some (λ k, assoc k m) else None
  | _ => None
  end.

Definition enum_of (j : json) : option (string * option json) :=
  match j with
  | JStr v => Some (v, None)
  | JObj [(v, c)] => Some (v, Some c)
  | _ => None
  end.

Definition tagged_of (tag : string) (j : json) : option (string * json) :=
  match j with
  | JObj m =>
      match filter (λ p, p.1 = tag) m with
      | [(_, JStr v)] => Some (v, JObj (filter (λ p, p.1 ≠ tag) m))
      | _ => None
      end
  | _ => None
  end.

#[local] Instance example_serde : Serde := {|
  ser_struct := JObj; de_struct := struct_of;
  ser_variant v j := JObj [(v, j)]; de_enum := enum_of;
  ser_tagged tag v fs := JObj ((tag, JStr v) :: fs); de_tagged := tagged_of;
  timestamp_in_range n := bool_decide (-8334601228800000 ≤ n ≤ 8210266876799999)%Z;
  to_text := text; from_text := of_text |}.

#[local] Instance example_serde_laws : SerdeLaws example_serde.
Proof.
  split; [..|by intros fs|by intros v j|apply of_to_text]; cbn [de_struct ser_struct de_enum ser_variant de_tagged ser_tagged example_serde].
  - intros names fs Hnd. exists (λ k, assoc k fs). split; [|done]. cbn [struct_of].
    rewrite decide_True; [done|]. by apply NoDup_filter.
  - done.
  - done.
  - intros tag v fs _ Hn. cbn [tagged_of]. rewrite filter_cons_True by done.
    assert (∀ p, p ∈ fs → p.1 ≠ tag) as Hne.
    { intros p Hp <-. apply Hn. by apply list_elem_of_fmap_2. }
    assert (filter (λ p : string * json, p.1 = tag) fs = []) as ->.
    { clear Hn. induction fs as [|p fs IH]; [done|]. rewrite filter_cons_False; [|apply Hne; by left].
      apply IH. intros q Hq. apply Hne. by right. }
    rewrite filter_cons_False by (by intros []). do 3 f_equal.
    clear Hn. induction fs as [|p fs IH]; [done|]. rewrite filter_cons_True by (apply Hne; by left).
    f_equal. apply IH. intros q Hq. apply Hne. by right.
Qed.

End ExampleSerde.

(** ** Witnesses *)

Module EncodingWitness.
Import Encoding RoundTrip ExampleSerde Protocol.
#[local] Existing Instance ExampleExternals.example_externals.
#[local] Existing Instance ExampleExternals.example_laws.
#[local] Existing Instance example_serde.
#[local] Existing Instance example_serde_laws.

(** Deadlines with microseconds. *)
Definition deadlines : KeyDeadlines :=
  {| renew_at := 30000123; soft_terminate_at := 40000456; hard_terminate_at := 45000789 |}.

Definition renewed : MessageToDrone :=
  TDRenewKeyResponse {| rkp_backend := "b1"; rkp_deadlines := Some deadlines |}.

Lemma messages_roundtrip_witness :
  decode de_MessageToDrone (encode ser_MessageToDrone renewed) =
  Ok (TDRenewKeyResponse {| rkp_backend := "b1"; rkp_deadlines :=
    Some {| renew_at := 30000000; soft_terminate_at := 40000000; hard_terminate_at := 45000000 |} |}).
Proof.
  apply (proj1 (proj2 messages_roundtrip) renewed). intros d [= <-].
  split; [|split]; vm_compute; reflexivity.
Defined.

(** A request with a field of a later version. *)
Lemma minimal_requests_witness :
  de_ConnectRequest (ser_struct [("spawn_config", ser_struct [("executable", JObj [])]); ("priority", JNum 3)]) =
    Ok {| Types.cr_key := None; Types.cr_user := None; Types.cr_auth := [];
          Types.cr_spawn_config := Some {| Types.sc_id := None; Types.sc_cluster := None;
            Types.sc_pool := Types.default_pool; Types.sc_executable := JObj [];
            Types.sc_lifetime_limit_seconds := None; Types.sc_max_idle_seconds := None;
            Types.sc_use_static_token := false; Types.sc_subdomain := None |} |}.
Proof.
  apply (minimal_requests [("priority", JNum 3)] [] (JObj [])).
  - apply (bool_decide_unpack _). vm_compute. exact I.
  - constructor.
  - intros n Hn. cbn. rewrite list_elem_of_singleton. intros ->. revert Hn.
    apply (bool_decide_unpack _). vm_compute. exact I.
  - intros n _. apply not_elem_of_nil.
Defined.

Lemma duration_seconds_witness :
  de_duration (ser_duration (-1500000)) = Ok (-1000000)%Z ∧
  de_duration (JNum (2^60)) = Err Panicked.
Proof.
  destruct duration_seconds as (H1 & H2 & _). split.
  - apply (H1 (-1500000)%Z). apply Z.leb_le. vm_compute. reflexivity.
  - apply H2; [split; apply Z.leb_le; vm_compute; reflexivity|]. apply Z.ltb_lt. reflexivity.
Defined.

End EncodingWitness.
