(* ===== verification/Database.v ===== *)
(** * The controller's database

    The Postgres schema ([plane/schema/migrations]) as a record of tables, the
    effect of the SQL statements the Rust code issues on it, transactions, and the
    event log with its notifications ([plane/src/database/subscribe.rs],
    [emit*]).

    A table with a primary key is a finite map from the key to the row; the tables
    with a serial key that the code reads in key order ([event], [backend_state])
    are lists of rows with their ids. [now()] is the field [clock]: constant in a
    transaction, moved between transactions. A [jsonb] column holds the decoded
    value, [None] when the stored JSON does not decode as the expected type. *)

From S2P Require Import Prelude Names BackendState Types.

Module Db.

(** ** Errors ([sqlx::Error]) *)
Inductive SqlError :=
| UniqueViolation
| ForeignKeyViolation
| RowNotFound
| Decode (msg : string)
| SqlProtocol (msg : string)
(** not an [sqlx::Error]: an [expect] of the query's code panicked *)
| Panicked (msg : string).

(** [unique_violation_to_option] and [map_sqlx_error] ([database/util.rs]); an error of [serde_json] is its
    text. *)
Definition unique_violation_to_option {T} (r : result SqlError T) : result SqlError (option T) :=
  match r with
  | Ok x => Ok (Some x)
  | Err UniqueViolation => Ok None
  | Err e => Err e
  end.
Definition map_sqlx_error {T} (r : result string T) : result SqlError T := map_err Decode r.

(** ** Rows *)

Record backend_row := MkBackend {
  b_cluster : string;
  b_last_status : string;
  b_last_status_time : Z;
  b_last_status_number : option Z;
  b_cluster_address : option string;
  b_drone_id : Z;
  b_expiration_time : option Z;
  b_allowed_idle_seconds : option Z;
  b_last_keepalive : Z;
  b_state : option BackendState;
  b_static_token : option string;
  b_subdomain : option string
}.

Record key_row := MkKey {
  k_namespace : string;
  k_name : string;
  k_tag : string;
  k_expires_at : Z;
  k_fencing_token : Z;
  k_allow_renew : bool
}.

Record token_row := MkToken {
  t_backend_id : string;
  t_expiration_time : Z;
  t_username : option string;
  t_auth : json;
  t_secret_token : string
}.

Record action_row := MkAction {
  a_backend_id : string;
  a_drone_id : Z;
  a_action : option Protocol.BackendActionMessage;
  a_created_at : Z;
  a_acked_at : option Z
}.

Record state_row := MkState {
  s_id : Z;
  s_backend_id : string;
  s_state : option BackendState;
  s_created_at : Z
}.

Record node_row := MkNode {
  n_kind : string;
  n_name : string;
  n_cluster : option string;
  n_plane_version : string;
  n_plane_hash : string;
  n_controller : option string;
  n_ip : string;
  n_last_connection_start_time : option Z
}.

Record drone_row := MkDrone {
  d_ready : bool;
  d_draining : bool;
  d_last_heartbeat : option Z;
  d_last_local_time : option Z;
  d_pool : string
}.

Record controller_row := MkController {
  c_is_online : bool;
  c_plane_version : string;
  c_plane_hash : string;
  c_first_seen : Z;
  c_last_heartbeat : Z
}.

Record acme_row := MkAcme {
  ac_leased_at : Z;
  ac_leased_by : Z;
  ac_txt_value : option string
}.

(** ** Notifications *)

Inductive payload :=
| PlState (s : BackendState)
| PlAction (m : Protocol.BackendActionMessage)
| PlMetrics (m : Protocol.BackendMetricsMessage)
| PlNode (node_id : Z) (connected : bool).

(** [NotificationPayload::kind]. *)
Definition kind (p : payload) : string :=
  match p with
  | PlState _ => "backend_state"
  | PlAction _ => "backend_action"
  | PlMetrics _ => "backend_metrics"
  | PlNode _ _ => "node_connection"
  end.

Record Notification := MkNotification {
  nt_id : option Z;
  nt_timestamp : Z;
  nt_kind : string;
  nt_key : option string;
  nt_payload : payload
}.

Record event_row := MkEvent {
  e_id : Z;
  e_kind : string;
  e_key : option string;
  e_created_at : Z;
  e_data : payload
}.

Definition EVENT_CHANNEL : string := "plane_events".
Definition BACKEND_METRICS_EVENT_CHANNEL : string := "plane_backend_metrics".

(** ** The database *)

Record DB := MkDB {
  clock : Z;
  backends : gmap string backend_row;
  keys : gmap string key_row;
  tokens : gmap string token_row;
  actions : gmap string action_row;
  states : list state_row;
  state_seq : Z;
  events : list event_row;
  event_seq : Z;
  nodes : gmap Z node_row;
  node_seq : Z;
  drones : gmap Z drone_row;
  controllers : gmap string controller_row;
  acme : gmap string acme_row;
  notified : list (string * Notification)
}.

Definition empty_db (now : Z) : DB :=
  MkDB now ∅ ∅ ∅ ∅ [] 1 [] 1 ∅ 1 ∅ ∅ ∅ [].

Definition set_clock t db :=
  MkDB t (backends db) (keys db) (tokens db) (actions db) (states db) (state_seq db)
    (events db) (event_seq db) (nodes db) (node_seq db) (drones db) (controllers db) (acme db)
    (notified db).
Definition set_backends b db :=
  MkDB (clock db) b (keys db) (tokens db) (actions db) (states db) (state_seq db)
    (events db) (event_seq db) (nodes db) (node_seq db) (drones db) (controllers db) (acme db)
    (notified db).
Definition set_keys k db :=
  MkDB (clock db) (backends db) k (tokens db) (actions db) (states db) (state_seq db)
    (events db) (event_seq db) (nodes db) (node_seq db) (drones db) (controllers db) (acme db)
    (notified db).
Definition set_tokens t db :=
  MkDB (clock db) (backends db) (keys db) t (actions db) (states db) (state_seq db)
    (events db) (event_seq db) (nodes db) (node_seq db) (drones db) (controllers db) (acme db)
    (notified db).
Definition set_actions a db :=
  MkDB (clock db) (backends db) (keys db) (tokens db) a (states db) (state_seq db)
    (events db) (event_seq db) (nodes db) (node_seq db) (drones db) (controllers db) (acme db)
    (notified db).
Definition set_states s seq db :=
  MkDB (clock db) (backends db) (keys db) (tokens db) (actions db) s seq
    (events db) (event_seq db) (nodes db) (node_seq db) (drones db) (controllers db) (acme db)
    (notified db).
Definition set_events e seq nt db :=
  MkDB (clock db) (backends db) (keys db) (tokens db) (actions db) (states db) (state_seq db)
    e seq (nodes db) (node_seq db) (drones db) (controllers db) (acme db) nt.
Definition set_nodes n seq db :=
  MkDB (clock db) (backends db) (keys db) (tokens db) (actions db) (states db) (state_seq db)
    (events db) (event_seq db) n seq (drones db) (controllers db) (acme db) (notified db).
Definition set_drones d db :=
  MkDB (clock db) (backends db) (keys db) (tokens db) (actions db) (states db) (state_seq db)
    (events db) (event_seq db) (nodes db) (node_seq db) d (controllers db) (acme db)
    (notified db).
Definition set_controllers c db :=
  MkDB (clock db) (backends db) (keys db) (tokens db) (actions db) (states db) (state_seq db)
    (events db) (event_seq db) (nodes db) (node_seq db) (drones db) c (acme db) (notified db).
Definition set_acme a db :=
  MkDB (clock db) (backends db) (keys db) (tokens db) (actions db) (states db) (state_seq db)
    (events db) (event_seq db) (nodes db) (node_seq db) (drones db) (controllers db) a
    (notified db).

(** ** Transactions

    A statement sequence that fails leaves no trace ([txn] dropped without
    [commit] rolls back). *)

Definition txn (A : Type) : Type := DB → result SqlError (DB * A).

Definition txn_ret {A} (a : A) : txn A := λ db, Ok (db, a).
Definition txn_bind {A B} (m : txn A) (k : A → txn B) : txn B :=
  λ db, match m db with Ok (db', a) => k a db' | Err e => Err e end.

Notation "x '<-' m ';;' k" := (txn_bind m (λ x, k))
  (at level 100, m at next level, right associativity) : plane_scope.
Notation "m ';;;' k" := (txn_bind m (λ _, k))
  (at level 100, right associativity) : plane_scope.

Definition run_txn {A} (m : txn A) (db : DB) : DB * result SqlError A :=
  match m db with
  | Ok (db', a) => (db', Ok a)
  | Err e => (db, Err e)
  end.

(** A single-statement query outside a transaction. *)
Definition read {A} (f : DB → result SqlError A) : DB → DB * result SqlError A :=
  λ db, (db, f db).

(** ** Emitting events

    [emit_impl]: one row in [event], one notification carrying the row's id. *)
Definition emit_impl (key : option string) (p : payload) : txn () := λ db,
  let id := event_seq db in
  let row := MkEvent id (kind p) key (clock db) p in
  let nt := MkNotification (Some id) (clock db) (kind p) key p in
  Ok (set_events (events db ++ [row]) (id + 1) (notified db ++ [(EVENT_CHANNEL, nt)]) db, ()).

Definition emit (p : payload) : txn () := emit_impl None p.
Definition emit_with_key (key : string) (p : payload) : txn () := emit_impl (Some key) p.

(** Metrics are notified on their own channel and not stored. *)
Definition emit_backend_metrics (key : string) (m : Protocol.BackendMetricsMessage) : txn () :=
  λ db,
  let nt := MkNotification None (clock db) (kind (PlMetrics m)) (Some key) (PlMetrics m) in
  Ok (set_events (events db) (event_seq db)
        (notified db ++ [(BACKEND_METRICS_EVENT_CHANNEL, nt)]) db, ()).

(** [clean_up_events]. *)
Definition clean_up_events (min_age_days : Z) (db : DB) : DB :=
  set_events (filter (λ e, ¬ (e_created_at e < clock db - from_days min_age_days)%Z) (events db))
    (event_seq db) (notified db) db.

(** [select ... where id > $1 order by id asc limit 100]. *)
Definition e_id_le (a b : event_row) : Prop := (e_id a ≤ e_id b)%Z.
#[global] Instance e_id_le_dec : RelDecision e_id_le := λ a b, decide (e_id a ≤ e_id b)%Z.

Definition get_events_since (since : Z) (db : DB) : list Notification :=
  (λ e, MkNotification (Some (e_id e)) (e_created_at e) (e_kind e) (e_key e) (e_data e)) <$>
    take 100 (merge_sort e_id_le (filter (λ e, (since < e_id e)%Z) (events db))).

(** ** Backend history

    [emit_state_change] of [backend.rs]: a row of [backend_state] and an event. *)
Definition insert_state (backend : string) (st : BackendState) : txn () := λ db,
  match backends db !! backend with
  | None => Err ForeignKeyViolation
  | Some _ =>
      Ok (set_states (states db ++ [MkState (state_seq db) backend (Some st) (clock db)])
            (state_seq db + 1) db, ())
  end.

Definition emit_state_change (backend : string) (st : BackendState) : txn () :=
  insert_state backend st ;;;
  emit_with_key backend (PlState st).

(** ** Lemmas *)

Lemma emit_state_change_eq backend st db :
  emit_state_change backend st db =
    match backends db !! backend with
    | None => Err ForeignKeyViolation
    | Some _ =>
        let id := event_seq db in
        Ok (set_events
              (events db ++ [MkEvent id "backend_state" (Some backend) (clock db) (PlState st)])
              (id + 1)
              (notified db ++
                 [(EVENT_CHANNEL, MkNotification (Some id) (clock db) "backend_state"
                                    (Some backend) (PlState st))])
              (set_states (states db ++ [MkState (state_seq db) backend (Some st) (clock db)])
                 (state_seq db + 1) db), ())
    end.
Proof.
  unfold emit_state_change, txn_bind, insert_state.
  by destruct (backends db !! backend).
Qed.

Lemma run_txn_Err {A} (m : txn A) db db' e : run_txn m db = (db', Err e) → db' = db.
Proof. unfold run_txn. destruct (m db) as [[? ?]|?]; naive_solver. Qed.

End Db.
