(* ===== verification/Keys.v ===== *)
(** * Backend keys and pending actions

    [plane/src/database/backend_key.rs]: the lease on a key that makes a backend the
    only one running for it; [plane/src/database/backend_actions.rs]: the queue of
    actions for a drone. *)

From stdpp Require Import pretty.
From S2P Require Import Prelude Names BackendState Types Database.
Import Db.

Module Keys.

Definition KEY_LEASE_RENEW_AFTER : Z := from_secs 30.
Definition KEY_LEASE_SOFT_TERMINATE_AFTER : Z := from_secs 40.
Definition KEY_LEASE_HARD_TERMINATE_AFTER : Z := from_secs 50.
Definition KEY_LEASE_EXPIRATION : Z := from_secs 60.

Definition with_allow_renew (b : bool) (k : key_row) : key_row :=
  MkKey (k_namespace k) (k_name k) (k_tag k) (k_expires_at k) (k_fencing_token k) b.

Definition with_expires_at (t : Z) (k : key_row) : key_row :=
  MkKey (k_namespace k) (k_name k) (k_tag k) t (k_fencing_token k) (k_allow_renew k).

(** [update backend_key set allow_renew = false where id = $1 and allow_renew = true] *)
Definition prevent_renew (backend : string) (db : DB) : DB * result SqlError bool :=
  match keys db !! backend with
  | Some k =>
      if k_allow_renew k
      then (set_keys (<[backend := with_allow_renew false k]> (keys db)) db, Ok true)
      else (db, Ok false)
  | None => (db, Ok false)
  end.

(** [delete from backend_key where id = $1 and expires_at < now()] *)
Definition remove_key (backend : string) (db : DB) : DB * result SqlError bool :=
  match keys db !! backend with
  | Some k =>
      if decide (k_expires_at k < clock db)%Z
      then (set_keys (delete backend (keys db)) db, Ok true)
      else (db, Ok false)
  | None => (db, Ok false)
  end.

Definition renew_key (id : string) (db : DB) : DB * result SqlError () :=
  match keys db !! id with
  | Some k =>
      if k_allow_renew k
      then (set_keys (<[id := with_expires_at (clock db + KEY_LEASE_EXPIRATION) k]> (keys db)) db,
            Ok ())
      else (db, Err RowNotFound)
  | None => (db, Err RowNotFound)
  end.

Record BackendKeyResult := {
  kr_id : string;
  kr_tag : string;
  kr_token : Z;
  kr_key : string;
  kr_status : BackendStatus;
  kr_cluster : string;
  kr_subdomain : option string;
  kr_static_connection_token : option string;
  kr_expires_at : Z;
  kr_as_of : Z
}.

(** [BackendKeyResult::is_live]. *)
Definition is_live (r : BackendKeyResult) : bool := bool_decide (kr_as_of r < kr_expires_at r)%Z.

(** The rows of [backend_key] with the given name and namespace. *)
Definition key_matches (name namespace : string) (p : string * key_row) : Prop :=
  k_name p.2 = name ∧ k_namespace p.2 = namespace.
#[global] Instance key_matches_dec name namespace p : Decision (key_matches name namespace p).
Proof. unfold key_matches. apply _. Defined.

Definition find_key (name namespace : string) (db : DB) : option (string * key_row) :=
  head (map_to_list (filter (key_matches name namespace) (keys db))).

Section Queries.
Context `{Ext : Externals}.

Definition check_key (key : KeyConfig) (db : DB) : result SqlError (option BackendKeyResult) :=
  match find_key (Types.key_name key) (Types.key_namespace key) db with
  | None => Ok None
  | Some (id, k) =>
      match backends db !! id with
      | None => Err (Decode "unexpected null; try decoding as an `Option`")
      | Some b =>
          let? name := map_err (λ _, Decode "Invalid backend name.")
                         (Names.try_from Names.BackendName id) in
          let? status := ok_or (BackendStatus.try_from (b_last_status b))
                           (Decode "Invalid backend status.") in
          let? cluster := map_err (λ _, Decode "Invalid cluster name.")
                            (Types.ClusterName_from_str (b_cluster b)) in
          let? subdomain := transpose_map
                              (λ s, map_err (λ e, Decode e) (Types.Subdomain_from_str s))
                              (b_subdomain b) in
          Ok (Some {| kr_id := name;
                      kr_tag := k_tag k;
                      kr_token := k_fencing_token k;
                      kr_key := k_name k;
                      kr_status := status;
                      kr_cluster := cluster;
                      kr_subdomain := subdomain;
                      kr_static_connection_token := b_static_token b;
                      kr_expires_at := k_expires_at k;
                      kr_as_of := clock db |})
      end
  end.

End Queries.

(** ** Lemmas *)

Lemma find_key_Some name ns db id k :
  find_key name ns db = Some (id, k) →
  keys db !! id = Some k ∧ k_name k = name ∧ k_namespace k = ns.
Proof.
  unfold find_key. intros H.
  assert ((id, k) ∈ map_to_list (filter (key_matches name ns) (keys db))) as Hin.
  { destruct (map_to_list _); naive_solver set_solver. }
  apply elem_of_map_to_list, map_lookup_filter_Some in Hin as [? []]. done.
Qed.

Lemma find_key_None name ns db id k :
  find_key name ns db = None → keys db !! id = Some k →
  ¬ (k_name k = name ∧ k_namespace k = ns).
Proof.
  unfold find_key. intros H Hk Hm.
  assert ((id, k) ∈ map_to_list (filter (key_matches name ns) (keys db))) as Hin.
  { apply elem_of_map_to_list, map_lookup_filter_Some. done. }
  destruct (map_to_list _); [set_solver|done].
Qed.

End Keys.

Module Actions.

(** [create_pending_action] inside a transaction: notify the drone's subscribers and
    store the action; [action_id] is the randomly generated name. *)
Definition insert_action (id : string) (row : action_row) : txn () := λ db,
  match actions db !! id with
  | Some _ => Err UniqueViolation
  | None =>
      match backends db !! a_backend_id row, drones db !! a_drone_id row with
      | Some _, Some _ => Ok (set_actions (<[id := row]> (actions db)) db, ())
      | _, _ => Err ForeignKeyViolation
      end
  end.

(** A node id printed as a subscription key ([NodeId]'s [Display]). *)
Definition node_key (id : Z) : string := pretty id.

Definition create_pending_action_txn (action_id backend_id : string) (drone_id : Z)
    (action : Protocol.BackendAction) : txn () :=
  let backend_action :=
    {| Protocol.bam_action_id := action_id; Protocol.bam_backend_id := backend_id;
       Protocol.bam_drone_id := drone_id; Protocol.bam_action := action |} in
  emit_with_key (node_key drone_id) (PlAction backend_action) ;;;
  λ db, insert_action action_id
          (MkAction backend_id drone_id (Some backend_action) (clock db) None) db.

(** [BackendActionDatabase::create_pending_action]. *)
Definition create_pending_action (action_id backend_id : string) (drone_id : Z)
    (action : Protocol.BackendAction) (db : DB) : DB * result SqlError () :=
  run_txn (create_pending_action_txn action_id backend_id drone_id action) db.

Definition with_acked_at (t : Z) (a : action_row) : action_row :=
  MkAction (a_backend_id a) (a_drone_id a) (a_action a) (a_created_at a) (Some t).

Definition ack_pending_action (id : string) (drone_id : Z) (db : DB) : DB :=
  match actions db !! id with
  | Some a =>
      if decide (a_drone_id a = drone_id)
      then set_actions (<[id := with_acked_at (clock db) a]> (actions db)) db
      else db
  | None => db
  end.

Definition created_le (a b : string * action_row) : Prop := (a_created_at a.2 ≤ a_created_at b.2)%Z.
#[global] Instance created_le_dec : RelDecision created_le :=
  λ a b, decide (a_created_at a.2 ≤ a_created_at b.2)%Z.

Definition is_pending (drone : Z) (p : string * action_row) : Prop :=
  a_drone_id p.2 = drone ∧ a_acked_at p.2 = None.
#[global] Instance is_pending_dec drone p : Decision (is_pending drone p).
Proof. unfold is_pending. apply _. Defined.

(** The rows selected by [pending_actions], in the order of the query. *)
Definition pending_rows (drone : Z) (limit : nat) (db : DB) : list (string * action_row) :=
  take limit (merge_sort created_le (filter (is_pending drone) (map_to_list (actions db)))).

Definition pending_actions (drone : Z) (limit : nat) (db : DB)
  : result SqlError (list Protocol.BackendActionMessage) :=
  map_result (λ p, ok_or (a_action p.2) (Decode "action")) (pending_rows drone limit db).

End Actions.
