(* ===== verification/Backends.v ===== *)
(** * The backend table

    [plane/src/database/backend.rs]: state updates, the status stream, queries,
    token routing, keepalives, sweeping and cleanup. *)

From S2P Require Import Prelude Names BackendState Types Database.
Import Db.

Module Backends.
Section Backends.
Context `{Ext : Externals}.

Record BackendRow := {
  br_id : string;
  br_cluster : string;
  br_last_status_time : Z;
  br_state : BackendState;
  br_last_keepalive : Z;
  br_drone_id : Z;
  br_expiration_time : option Z;
  br_allowed_idle_seconds : option Z;
  br_as_of : Z
}.

(** [BackendRow::status_age]. *)
Definition status_age (r : BackendRow) : Z := br_as_of r - br_last_status_time r.

(** Building a [BackendRow] from a selected row. *)
Definition decode_row (now : Z) (p : string * backend_row) : result SqlError BackendRow :=
  let '(id, b) := p in
  let? name := map_err (λ _, Decode "Failed to decode backend name.")
                 (Names.try_from Names.BackendName id) in
  let? st := ok_or (b_state b) (Decode "Failed to decode backend state.") in
  Ok {| br_id := name; br_cluster := b_cluster b;
        br_last_status_time := b_last_status_time b; br_state := st;
        br_last_keepalive := b_last_keepalive b; br_drone_id := b_drone_id b;
        br_expiration_time := b_expiration_time b;
        br_allowed_idle_seconds := b_allowed_idle_seconds b; br_as_of := now |}.

Definition backend (id : string) (db : DB) : result SqlError (option BackendRow) :=
  match backends db !! id with
  | None => Ok None
  | Some b => let? r := decode_row (clock db) (id, b) in Ok (Some r)
  end.

(** ** State updates *)

Definition with_state (now : Z) (st : BackendState) (b : backend_row) : backend_row :=
  MkBackend (b_cluster b) (BackendStatus.to_string (BackendState.status st)) now
    (Some (BackendState.status_int st)) (addr_to_string <$> BackendState.address st)
    (b_drone_id b) (b_expiration_time b) (b_allowed_idle_seconds b) (b_last_keepalive b)
    (Some st) (b_static_token b) (b_subdomain b).

(** The [where] clause of the update: [last_status_number < $3 or ... is null]. *)
Definition accepts (new_status_number : Z) (b : backend_row) : bool :=
  match b_last_status_number b with
  | None => true
  | Some n => bool_decide (n < new_status_number)%Z
  end.

Definition update_state_txn (backend : string) (new_state : BackendState) : txn bool := λ db,
  match backends db !! backend with
  | Some b =>
      if accepts (BackendState.status_int new_state) b then
        let db1 := set_backends (<[backend := with_state (clock db) new_state b]> (backends db)) db in
        let db2 := if BackendState.is_terminated new_state
                   then set_keys (delete backend (keys db1)) db1 else db1 in
        match emit_state_change backend new_state db2 with
        | Ok (db3, _) => Ok (db3, true)
        | Err e => Err e
        end
      else Ok (db, false)
  | None => Ok (db, false)
  end.

Definition update_state (backend : string) (new_state : BackendState) (db : DB)
  : DB * result SqlError bool :=
  run_txn (update_state_txn backend new_state) db.

(** ** Status stream

    The stored history is replayed first, then the notifications received on the
    subscription, which was opened before the history was read. *)

Definition replay_rows (rows : list state_row) : list (BackendState * Z) :=
  omap (λ r, (λ st, (st, s_created_at r)) <$> s_state r) rows.

Definition last_replayed (l : list (BackendState * Z)) : option BackendStatus :=
  (λ p, BackendState.status p.1) <$> last l.

(** The filtering loop over the subscription. *)
Fixpoint live_entries (last_status : option BackendStatus) (items : list (BackendState * Z))
  : list (BackendState * Z) :=
  match items with
  | [] => []
  | (st, time) :: items =>
      let skip := match last_status with
                  | Some l => BackendStatus.le (BackendState.status st) l
                  | None => false
                  end in
      if skip then live_entries last_status items
      else (st, time) :: live_entries (Some (BackendState.status st)) items
  end.

(** [select ... from backend_state where backend_id = $1 order by id asc] *)
Definition s_id_le (a b : state_row) : Prop := (s_id a ≤ s_id b)%Z.
#[global] Instance s_id_le_dec : RelDecision s_id_le := λ a b, decide (s_id a ≤ s_id b)%Z.

Definition history (backend : string) (db : DB) : list state_row :=
  merge_sort s_id_le (filter (λ r, s_backend_id r = backend) (states db)).

Definition status_stream (backend : string) (db : DB) (received : list (BackendState * Z))
  : list BackendState.BackendStatusStreamEntry :=
  let replayed := replay_rows (history backend db) in
  (λ p, BackendState.from_state p.1 p.2) <$>
    (replayed ++ live_entries (last_replayed replayed) received).

(** ** Listing *)

Definition list_backends (db : DB) : result SqlError (list BackendRow) :=
  map_result (decode_row (clock db)) (map_to_list (backends db)).

(** [select id from node where name = $1 and cluster = $2] *)
Definition node_id_of (cluster name : string) (db : DB) : option Z :=
  fst <$> head (map_to_list (filter (λ p, n_cluster p.2 = Some cluster ∧ n_name p.2 = name)
                                    (nodes db))).

Definition list_alive_backends_for_drone (cluster drone : string) (db : DB)
  : result SqlError (list BackendRow) :=
  map_result (decode_row (clock db))
    (map_to_list (filter (λ p, Some (b_drone_id p.2) = node_id_of cluster drone db ∧
                               b_last_status p.2 ≠ "terminated") (backends db))).

(** ** Routing *)

Record PartialRouteInfo := {
  pr_backend_id : string;
  pr_secret_token : string;
  pr_cluster : string;
  pr_user : option string;
  pr_user_data : option json;
  pr_subdomain : option string
}.

Definition set_address (p : PartialRouteInfo) (address : SocketAddr) : Protocol.RouteInfo :=
  {| Protocol.ri_backend_id := pr_backend_id p;
     Protocol.ri_address := address;
     Protocol.ri_secret_token := pr_secret_token p;
     Protocol.ri_cluster := pr_cluster p;
     Protocol.ri_user := pr_user p;
     Protocol.ri_user_data := pr_user_data p;
     Protocol.ri_subdomain := pr_subdomain p |}.

Inductive RouteInfoResult :=
| NotFound
| Pending (p : PartialRouteInfo)
| Available (r : Protocol.RouteInfo).

(** [match result.last_status.as_str()]: [None] when the route is gone. *)
Definition ready_of (last_status : string) : option bool :=
  if decide (last_status = "ready") then Some true
  else if decide (last_status ∈ ["terminated"; "terminating"; "hard-terminating"]) then None
  else Some false.

(** The tail both routing queries share. *)
Definition finish_route (id : string) (b : backend_row) (secret_token : string)
    (user : option string) (user_data : option json) : result SqlError RouteInfoResult :=
  match ready_of (b_last_status b) with
  | None => Ok NotFound
  | Some ready =>
      let? backend_id := map_err (λ _, Decode "Failed to decode backend name.")
                           (Names.try_from Names.BackendName id) in
      let? cluster := map_err (λ _, Decode "Failed to decode cluster name.")
                        (Types.ClusterName_from_str (b_cluster b)) in
      let? subdomain := transpose_map
                          (λ s, map_err (λ e, Decode e) (Types.Subdomain_from_str s))
                          (b_subdomain b) in
      let partial := {| pr_backend_id := backend_id; pr_secret_token := secret_token;
                        pr_cluster := cluster; pr_user := user; pr_user_data := user_data;
                        pr_subdomain := subdomain |} in
      if ready then
        match b_cluster_address b with
        | None => Ok NotFound
        | Some a => match addr_parse a with
                    | None => Ok NotFound
                    | Some address => Ok (Available (set_address partial address))
                    end
        end
      else Ok (Pending partial)
  end.

Definition find_static (token : string) (db : DB) : option (string * backend_row) :=
  head (map_to_list (filter (λ p, b_static_token p.2 = Some token) (backends db))).

Definition route_info_for_static_token (token : string) (db : DB)
  : result SqlError RouteInfoResult :=
  match find_static token db with
  | None => Ok NotFound
  | Some (id, b) => finish_route id b "" None None
  end.

Definition route_info_for_token (token : string) (db : DB) : result SqlError RouteInfoResult :=
  if Types.is_static token then route_info_for_static_token token db
  else match tokens db !! token with
       | None => Ok NotFound
       | Some t =>
           match backends db !! t_backend_id t with
           | None => Ok NotFound
           | Some b => finish_route (t_backend_id t) b (t_secret_token t) (t_username t)
                         (Some (t_auth t))
           end
       end.

(** ** Keepalives, metrics, sweeping *)

Definition with_keepalive (now : Z) (b : backend_row) : backend_row :=
  MkBackend (b_cluster b) (b_last_status b) (b_last_status_time b) (b_last_status_number b)
    (b_cluster_address b) (b_drone_id b) (b_expiration_time b) (b_allowed_idle_seconds b)
    now (b_state b) (b_static_token b) (b_subdomain b).

Definition update_keepalive (id : string) (db : DB) : DB * result SqlError bool :=
  match backends db !! id with
  | Some b =>
      if decide (b_last_status b ≠ "terminated")
      then (set_backends (<[id := with_keepalive (clock db) b]> (backends db)) db, Ok true)
      else (db, Ok false)
  | None => (db, Ok false)
  end.

Definition publish_metrics (m : Protocol.BackendMetricsMessage) (db : DB)
  : DB * result SqlError () :=
  run_txn (emit_backend_metrics (Protocol.bm_backend_id m) m) db.

Record TerminationCandidate := {
  tc_backend_id : string;
  tc_expiration_time : option Z;
  tc_last_keepalive : Z;
  tc_allowed_idle_seconds : option Z;
  tc_as_of : Z
}.

(** The [where] clause; a comparison with [null] is not true. *)
Definition is_candidate (now drone_id : Z) (b : backend_row) : bool :=
  bool_decide (b_drone_id b = drone_id)
  && negb (bool_decide (b_last_status b ∈ ["scheduled"; "terminated"]))
  && (match b_allowed_idle_seconds b with
      | Some s => bool_decide (from_secs s < now - b_last_keepalive b)%Z
      | None => false
      end
      || match b_expiration_time b with
         | Some t => bool_decide (t < now)%Z
         | None => false
         end).

Definition decode_candidate (now : Z) (p : string * backend_row)
  : result SqlError TerminationCandidate :=
  let? name := map_err (λ _, Decode "Failed to decode backend name.")
                 (Names.try_from Names.BackendName p.1) in
  Ok {| tc_backend_id := name; tc_expiration_time := b_expiration_time p.2;
        tc_last_keepalive := b_last_keepalive p.2;
        tc_allowed_idle_seconds := b_allowed_idle_seconds p.2; tc_as_of := now |}.

Definition termination_candidates (drone_id : Z) (db : DB)
  : result SqlError (list TerminationCandidate) :=
  map_result (decode_candidate (clock db))
    (map_to_list (filter (λ p, is_candidate (clock db) drone_id p.2 = true) (backends db))).

(** ** Cleanup

    The temporary table of the selected ids; without an [order by], the order of
    the selection (and so which rows a [limit] keeps) is the map's. *)
Definition cleanup_selection (min_age_days batch_size : Z) (db : DB) : list string :=
  take (Z.to_nat batch_size)
    (fst <$> map_to_list
       (filter (λ p, b_last_status p.2 = "terminated" ∧
                     (from_days min_age_days < clock db - b_last_status_time p.2)%Z)
          (backends db))).

Definition cleanup_txn (min_age_days batch_size : Z) : txn () := λ db,
  if decide (batch_size < 0)%Z then Err (SqlProtocol "LIMIT must not be negative")
  else
    let deleted := cleanup_selection min_age_days batch_size db in
    let db1 := set_tokens (filter (λ p, t_backend_id p.2 ∉ deleted) (tokens db)) db in
    let db2 := set_actions (filter (λ p, a_backend_id p.2 ∉ deleted) (actions db1)) db1 in
    let db3 := set_keys (filter (λ p, ¬ (p.1 ∈ deleted ∧ (k_expires_at p.2 < clock db)%Z))
                           (keys db2)) db2 in
    let db4 := set_states (filter (λ r, s_backend_id r ∉ deleted) (states db3)) (state_seq db3) db3 in
    (* The foreign key of [backend_key] still protects a backend with a live key. *)
    if decide (Exists (λ id, is_Some (keys db4 !! id)) deleted) then Err ForeignKeyViolation
    else Ok (set_backends (filter (λ p, p.1 ∉ deleted) (backends db4)) db4, ()).

Definition cleanup (min_age_days batch_size : Z) (db : DB) : DB * result SqlError () :=
  run_txn (cleanup_txn min_age_days batch_size) db.

End Backends.
End Backends.
