(* ===== verification/Nodes.v ===== *)
(** * Nodes, drones, controllers, clusters and ACME leases

    [plane/src/database/{node,drone,controller,cluster,acme}.rs] and the constants
    of [plane/src/heartbeat_consts.rs]. *)

From S2P Require Import Prelude Names BackendState Types Database.
Import Db.

Module HeartbeatConsts.
Definition HEARTBEAT_INTERVAL : Z := from_secs 7.
Definition UNHEALTHY_SECONDS : Z := 45.
Definition SOFT_TERMINATE_DEADLINE_SECONDS : Z := 60.
Definition KILL_AFTER_SOFT_TERMINATE_SECONDS : Z := 30.
Definition HARD_TERMINATE_DEADLINE_SECONDS : Z :=
  SOFT_TERMINATE_DEADLINE_SECONDS + KILL_AFTER_SOFT_TERMINATE_SECONDS.
Definition ASSUME_LOST_SECONDS : Z := 120.
End HeartbeatConsts.
Import HeartbeatConsts.

Module Controllers.
(** [ControllerDatabase::heartbeat]: insert or refresh the controller's row. *)
Definition heartbeat (name : string) (is_online : bool) (version hash : string) (db : DB) : DB :=
  let first_seen := match controllers db !! name with
                    | Some c => c_first_seen c
                    | None => clock db
                    end in
  set_controllers
    (<[name := MkController is_online version hash first_seen (clock db)]> (controllers db)) db.

Record Controller := {
  co_id : string; co_is_online : bool; co_plane_version : string; co_plane_hash : string;
  co_first_seen : Z; co_last_heartbeat : Z; co_as_of : Z
}.

Definition online_controllers (db : DB) : result SqlError (list Controller) :=
  map_result (λ p,
    let? id := map_err (λ _, Decode "Failed to decode controller name.")
                 (Names.try_from Names.ControllerName p.1) in
    Ok {| co_id := id; co_is_online := c_is_online p.2;
          co_plane_version := c_plane_version p.2; co_plane_hash := c_plane_hash p.2;
          co_first_seen := c_first_seen p.2; co_last_heartbeat := c_last_heartbeat p.2;
          co_as_of := clock db |})
    (map_to_list (filter (λ p, c_is_online p.2 = true) (controllers db))).
End Controllers.

Module Nodes.
Section Nodes.
Context `{Ext : Externals}.

Definition get_id (cluster name : string) (db : DB) : option Z :=
  fst <$> head (map_to_list (filter (λ p, n_cluster p.2 = Some cluster ∧ n_name p.2 = name)
                               (nodes db))).

(** The row an [on conflict (cluster, name)] clause finds: a null cluster never
    conflicts. *)
Definition conflicting_node (cluster : option string) (name : string) (db : DB)
  : option (Z * node_row) :=
  match cluster with
  | None => None
  | Some c => head (map_to_list (filter (λ p, n_cluster p.2 = Some c ∧ n_name p.2 = name)
                                   (nodes db)))
  end.

Definition register_txn (cluster : option string) (name : Names.AnyNodeName)
    (kind : Names.NodeKind) (controller version hash ip : string) : txn (Z * Z) := λ db,
  match controllers db !! controller with
  | None => Err ForeignKeyViolation
  | Some _ =>
      let now := clock db in
      let '(id, row) :=
        match conflicting_node cluster (Names.AnyNodeName_to_string name) db with
        | Some (id, n) =>
            (id, MkNode (n_kind n) (n_name n) (n_cluster n) version hash (Some controller) ip
                   (Some now))
        | None =>
            (node_seq db,
             MkNode (Names.NodeKind_to_string kind) (Names.AnyNodeName_to_string name) cluster
               version hash (Some controller) ip (Some now))
        end in
      (emit (PlNode id true) ;;; txn_ret (id, now))
        (set_nodes (<[id := row]> (nodes db)) (node_seq db + 1) db)
  end.

Definition register (cluster : option string) (name : Names.AnyNodeName) (kind : Names.NodeKind)
    (controller version hash ip : string) (db : DB) : DB * result SqlError (Z * Z) :=
  run_txn (register_txn cluster name kind controller version hash ip) db.

Definition offline_row (n : node_row) : node_row :=
  MkNode (n_kind n) (n_name n) (n_cluster n) (n_plane_version n) (n_plane_hash n) None (n_ip n)
    (n_last_connection_start_time n).

Definition mark_offline_txn (node_id : Z) (controller : string) (connection_start_time : Z)
  : txn () :=
  emit (PlNode node_id false) ;;;
  λ db,
  match nodes db !! node_id with
  | Some n =>
      if decide (n_controller n = Some controller ∧
                 n_last_connection_start_time n = Some connection_start_time)
      then Ok (set_nodes (<[node_id := offline_row n]> (nodes db)) (node_seq db) db, ())
      else Ok (db, ())
  | None => Ok (db, ())
  end.

Definition mark_offline (node_id : Z) (controller : string) (connection_start_time : Z)
    (db : DB) : DB * result SqlError () :=
  run_txn (mark_offline_txn node_id controller connection_start_time) db.

Record NodeRow := {
  nr_id : Z;
  nr_cluster : option string;
  nr_kind : Names.NodeKind;
  nr_controller : option string;
  nr_name : Names.AnyNodeName;
  nr_plane_version : string;
  nr_plane_hash : string
}.

(** [NodeRow::active]. *)
Definition active (r : NodeRow) : bool := bool_decide (is_Some (nr_controller r)).

(** [case when controller.is_online and controller.last_heartbeat - now() < $1
     then controller.id else null end] *)
Definition healthy_controller (db : DB) (n : node_row) : option string :=
  match n_controller n with
  | None => None
  | Some c =>
      match controllers db !! c with
      | None => None
      | Some row =>
          if c_is_online row
             && bool_decide (c_last_heartbeat row - clock db < from_secs UNHEALTHY_SECONDS)%Z
          then Some c else None
      end
  end.

Definition decode_node (db : DB) (p : Z * node_row) : result SqlError NodeRow :=
  let '(id, n) := p in
  let? cluster := transpose_map
                    (λ s, map_err (λ _, Decode "Failed to decode cluster name.")
                            (Types.ClusterName_from_str s)) (n_cluster n) in
  let? kind := ok_or (Names.NodeKind_try_from (n_kind n)) (Decode "kind") in
  let? controller := transpose_map
                       (λ t, map_err (λ _, Decode "Failed to decode controller name.")
                               (Names.try_from Names.ControllerName t))
                       (healthy_controller db n) in
  let? name := map_err (λ _, Decode "Failed to decode node name.")
                 (Names.AnyNodeName_try_from (n_name n)) in
  Ok {| nr_id := id; nr_cluster := cluster; nr_kind := kind; nr_controller := controller;
        nr_name := name; nr_plane_version := n_plane_version n; nr_plane_hash := n_plane_hash n |}.

Definition get_by_id (node_id : Z) (db : DB) : result SqlError (option NodeRow) :=
  match nodes db !! node_id with
  | None => Ok None
  | Some n => let? r := decode_node db (node_id, n) in Ok (Some r)
  end.

Definition list_nodes (db : DB) : result SqlError (list NodeRow) :=
  map_result (decode_node db) (map_to_list (nodes db)).

End Nodes.
End Nodes.

Module Drones.
Section Drones.
Context `{Ext : Externals}.

Definition register_drone (id : Z) (ready : bool) (pool : string) (db : DB)
  : DB * result SqlError () :=
  match drones db !! id with
  | Some d =>
      (set_drones (<[id := MkDrone ready (d_draining d) (d_last_heartbeat d)
                             (d_last_local_time d) (d_pool d)]> (drones db)) db, Ok ())
  | None =>
      match nodes db !! id with
      | None => (db, Err ForeignKeyViolation)
      | Some _ => (set_drones (<[id := MkDrone ready false None None pool]> (drones db)) db, Ok ())
      end
  end.

(** Returns whether the drone started draining with this call. *)
Definition drain (id : Z) (db : DB) : DB * result SqlError bool :=
  match drones db !! id with
  | Some d =>
      (set_drones (<[id := MkDrone (d_ready d) true (d_last_heartbeat d) (d_last_local_time d)
                             (d_pool d)]> (drones db)) db,
       Ok (negb (d_draining d)))
  | None => (db, Err RowNotFound)
  end.

Definition heartbeat (id : Z) (local_time : Z) (db : DB) : DB :=
  match drones db !! id with
  | Some d =>
      set_drones (<[id := MkDrone (d_ready d) (d_draining d) (Some (clock db)) (Some local_time)
                            (d_pool d)]> (drones db)) db
  | None => db
  end.

Definition get_drone_pool (id : Z) (db : DB) : result SqlError string :=
  match drones db !! id with Some d => Ok (d_pool d) | None => Err RowNotFound end.

(** ** Choosing a drone *)

Record DroneForSpawn := { ds_id : Z; ds_drone : string; ds_last_local_time : Z }.

Definition backend_count (drone_id : Z) (db : DB) : Z :=
  Z.of_nat (size (filter (λ p : string * backend_row,
                  b_drone_id p.2 = drone_id ∧ b_last_status p.2 ≠ "terminated") (backends db))).

Definition fresh (now : Z) (t : option Z) : bool :=
  match t with
  | Some t => bool_decide (now - t < from_secs UNHEALTHY_SECONDS)%Z
  | None => false
  end.

(** The joins and the [where] clause for one node; the selected columns. *)
Definition eligible (cluster pool : string) (db : DB) (p : Z * node_row)
  : option (Z * string * Z * Z) :=
  let '(id, n) := p in
  match drones db !! id, n_controller n ≫= λ c, controllers db !! c with
  | Some d, Some c =>
      match d_last_local_time d with
      | Some local =>
          if d_ready d
             && bool_decide (n_cluster n = Some cluster)
             && fresh (clock db) (d_last_heartbeat d)
             && fresh (clock db) (Some (c_last_heartbeat c))
             && c_is_online c
             && negb (d_draining d)
             && bool_decide (d_pool d = pool)
          then Some (id, n_name n, local, backend_count id db)
          else None
      | None => None
      end
  | _, _ => None
  end.

(** [shuffle] is the permutation chosen by [order by random()]. *)
Definition pick_drone_for_spawn (shuffle : list (Z * string * Z * Z) → list (Z * string * Z * Z))
    (cluster pool : string) (best_of : Z) (db : DB) : result SqlError (option DroneForSpawn) :=
  if decide (best_of < 0)%Z then Err (SqlProtocol "LIMIT must not be negative")
  else
    let sampled := take (Z.to_nat best_of)
                     (shuffle (omap (eligible cluster pool db) (map_to_list (nodes db)))) in
    match min_by_key snd sampled with
    | None => Ok None
    | Some (id, name, local, _) =>
        match Names.try_from Names.DroneName name with
        | Ok drone => Ok (Some {| ds_id := id; ds_drone := drone; ds_last_local_time := local |})
        | Err _ => Err (Panicked "valid drone name")
        end
    end.

(** ** Drones of a pool *)

Record DroneWithMetadata := {
  dm_id : Z; dm_name : string; dm_ready : bool; dm_draining : bool; dm_last_heartbeat : Z;
  dm_last_local_time : Z; dm_pool : string; dm_cluster : string; dm_plane_version : string;
  dm_plane_hash : string; dm_controller : option string; dm_last_connection_start_time : Z
}.

(** Rounding a [Duration] up to a whole microsecond; [secs] and [nanos] are its parts,
    the result is in microseconds ([Duration::new] carries an overflow of the
    nanoseconds into the seconds). *)
Definition round_up_micros (secs nanos : Z) : Z :=
  if decide (nanos mod 1000 = 0)%Z then secs * 1000000 + nanos / 1000
  else secs * 1000000 + (nanos / 1000 + 1).

Definition recent_in_pool (cluster pool : string) (seen_in_last : Z) (db : DB)
    (p : Z * node_row) : option (Z * node_row * drone_row * Z * Z * Z) :=
  let '(id, n) := p in
  match drones db !! id with
  | Some d =>
      match d_last_heartbeat d, d_last_local_time d, n_last_connection_start_time n with
      | Some hb, Some local, Some start =>
          if bool_decide (n_cluster n = Some cluster)
             && bool_decide (clock db - hb < seen_in_last)%Z
             && bool_decide (d_pool d = pool)
          then Some (id, n, d, hb, local, start) else None
      | _, _, _ => None
      end
  | None => None
  end.

Definition row_id (r : Z * node_row * drone_row * Z * Z * Z) : Z :=
  let '(id, _, _, _, _, _) := r in id.

Definition id_ge (a b : Z * node_row * drone_row * Z * Z * Z) : Prop := (row_id b ≤ row_id a)%Z.
#[global] Instance id_ge_dec : RelDecision id_ge := λ a b, decide (row_id b ≤ row_id a)%Z.

Definition decode_drone (r : Z * node_row * drone_row * Z * Z * Z)
  : result SqlError DroneWithMetadata :=
  let '(id, n, d, hb, local, start) := r in
  let? name := map_err (λ _, Panicked "valid drone name")
                 (Names.try_from Names.DroneName (n_name n)) in
  let? cluster := map_err (λ _, Panicked "valid cluster name")
                    (Types.ClusterName_from_str (default "" (n_cluster n))) in
  let? controller := transpose_map
                       (λ c, map_err (λ _, Panicked "valid controller name")
                               (Names.try_from Names.ControllerName c)) (n_controller n) in
  Ok {| dm_id := id; dm_name := name; dm_ready := d_ready d; dm_draining := d_draining d;
        dm_last_heartbeat := hb; dm_last_local_time := local; dm_pool := d_pool d;
        dm_cluster := cluster; dm_plane_version := n_plane_version n;
        dm_plane_hash := n_plane_hash n; dm_controller := controller;
        dm_last_connection_start_time := start |}.

Definition get_drones_for_pool (cluster pool : string) (secs nanos : Z) (db : DB)
  : result SqlError (list DroneWithMetadata) :=
  map_result decode_drone
    (take 100 (merge_sort id_ge
       (omap (recent_in_pool cluster pool (round_up_micros secs nanos) db)
          (map_to_list (nodes db))))).

End Drones.
End Drones.

Module Clusters.

Record NodeState := {
  ns_name : Names.AnyNodeName; ns_plane_version : string; ns_plane_hash : string;
  ns_controller : string; ns_controller_heartbeat_age : Z
}.

Record DroneState := {
  dst_ready : bool; dst_draining : bool; dst_last_heartbeat_age : Z;
  dst_backend_count : Z; dst_node : NodeState
}.

Record ClusterState := { cs_drones : list DroneState; cs_proxies : list NodeState }.

(** One selected row of [cluster_state]'s query: the node, its drone row if any, and
    its controller's row. *)
Definition cluster_row (cluster : string) (db : DB) (p : Z * node_row)
  : option (Z * node_row * option drone_row * string * controller_row) :=
  let '(id, n) := p in
  match n_controller n with
  | Some c =>
      if decide (n_cluster n = Some cluster)
      then (λ ctl, (id, n, drones db !! id, c, ctl)) <$> controllers db !! c
      else None
  | None => None
  end.

Definition crow_id (r : Z * node_row * option drone_row * string * controller_row) : Z :=
  let '(id, _, _, _, _) := r in id.
Definition cid_le (a b : Z * node_row * option drone_row * string * controller_row) : Prop :=
  (crow_id a ≤ crow_id b)%Z.
#[global] Instance cid_le_dec : RelDecision cid_le := λ a b, decide (crow_id a ≤ crow_id b)%Z.

(** The loop over the selected rows, in order. *)
Fixpoint collect (db : DB) (rows : list (Z * node_row * option drone_row * string * controller_row))
    (acc : ClusterState) : result SqlError ClusterState :=
  match rows with
  | [] => Ok acc
  | (id, n, d, c, ctl) :: rows =>
      let? name := map_err (λ _, Decode "Failed to decode node name.")
                     (Names.AnyNodeName_try_from (n_name n)) in
      let? controller := map_err (λ _, Decode "Failed to decode controller name.")
                           (Names.try_from Names.ControllerName c) in
      let node_state :=
        {| ns_name := name; ns_plane_version := n_plane_version n;
           ns_plane_hash := n_plane_hash n; ns_controller := controller;
           ns_controller_heartbeat_age := clock db - c_last_heartbeat ctl |} in
      if decide (n_kind n = "Drone") then
        match d with
        | None => Err (Decode "Drone should have ready column.")
        | Some d =>
            match d_last_heartbeat d with
            | None => Err (Decode "Drone should have last_heartbeat column.")
            | Some hb =>
                collect db rows
                  {| cs_drones := cs_drones acc ++
                       [{| dst_ready := d_ready d; dst_draining := d_draining d;
                           dst_last_heartbeat_age := clock db - hb;
                           (* [as u32] *)
                           dst_backend_count := Drones.backend_count id db mod 2 ^ 32;
                           dst_node := node_state |}];
                     cs_proxies := cs_proxies acc |}
            end
        end
      else if decide (n_kind n = "Proxy") then
        collect db rows {| cs_drones := cs_drones acc; cs_proxies := cs_proxies acc ++ [node_state] |}
      else collect db rows acc
  end.

Definition cluster_state (cluster : string) (db : DB) : result SqlError ClusterState :=
  collect db
    (merge_sort cid_le (omap (cluster_row cluster db) (map_to_list (nodes db))))
    {| cs_drones := []; cs_proxies := [] |}.

End Clusters.

Module Acme.

(** A lease is granted when there is none, or the last one is over a minute old. *)
Definition write_lease (cluster : string) (a : acme_row) (db : DB) : DB * result SqlError bool :=
  match nodes db !! ac_leased_by a with
  | None => (db, Err ForeignKeyViolation)
  | Some _ => (set_acme (<[cluster := a]> (acme db)) db, Ok true)
  end.

Definition lease_cluster_dns (cluster : string) (proxy : Z) (db : DB) : DB * result SqlError bool :=
  match acme db !! cluster with
  | None => write_lease cluster (MkAcme (clock db) proxy None) db
  | Some a =>
      if decide (ac_leased_at a + from_secs 60 < clock db)%Z
      then write_lease cluster (MkAcme (clock db) proxy (ac_txt_value a)) db
      else (db, Ok false)
  end.

Definition set_cluster_dns (cluster : string) (proxy : Z) (txt : string) (db : DB)
  : DB * result SqlError bool :=
  match acme db !! cluster with
  | Some a =>
      if decide (ac_leased_by a = proxy)
      then (set_acme (<[cluster := MkAcme (ac_leased_at a) (ac_leased_by a) (Some txt)]> (acme db)) db,
            Ok true)
      else (db, Ok false)
  | None => (db, Ok false)
  end.

Definition txt_record_for_cluster (cluster : string) (db : DB) : option string :=
  acme db !! cluster ≫= ac_txt_value.

Definition release_cluster_lease (cluster : string) (proxy : Z) (db : DB) : DB :=
  match acme db !! cluster with
  | Some a =>
      if decide (ac_leased_by a = proxy) then set_acme (delete cluster (acme db)) db else db
  | None => db
  end.

End Acme.
