(* ===== verification/Connect.v ===== *)
(** * Connecting to a backend

    [plane/src/database/connect.rs]: find the backend that holds a key, or spawn
    one. A connect request is several database transactions with other clients'
    transactions in between, so it is modelled as a program whose steps are atomic
    database actions ([prog]) and can be run with any interference. *)

From S2P Require Import Prelude Names BackendState Types Database Keys Backends Nodes.
Import Db.

(** ** Programs over the database *)

Inductive prog (A : Type) : Type :=
| Ret (a : A)
| Step (f : DB → DB * prog A).
Arguments Ret {A} a.
Arguments Step {A} f.

Fixpoint prog_induction {A} (P : prog A → Prop) (HR : ∀ a, P (Ret a))
    (HS : ∀ f, (∀ db, P (snd (f db))) → P (Step f)) (p : prog A) : P p :=
  match p with
  | Ret a => HR a
  | Step f => HS f (λ db, prog_induction P HR HS (snd (f db)))
  end.

(** An atomic action followed by the rest of the program. *)
Definition act {A B} (f : DB → DB * B) (k : B → prog A) : prog A :=
  Step (λ db, let '(db', b) := f db in (db', k b)).

Fixpoint prog_bind {A B} (p : prog A) (k : A → prog B) : prog B :=
  match p with
  | Ret a => k a
  | Step f => Step (λ db, let '(db', p') := f db in (db', prog_bind p' k))
  end.

(** Run with interference: [env n] is what the rest of the system does to the
    database before the [n]-th step. *)
Fixpoint run_env {A} (env : nat → DB → DB) (n : nat) (p : prog A) (db : DB) : DB * A :=
  match p with
  | Ret a => (db, a)
  | Step f => let '(db', p') := f (env n db) in run_env env (S n) p' db'
  end.

(** Run alone. *)
Definition run {A} (p : prog A) (db : DB) : DB * A := run_env (λ _ db, db) 0 p db.

Module Connect.
Section Connect.
Context `{Ext : Externals}.

Definition TOKEN_LIFETIME_SECONDS : Z := 3600.

Inductive ConnectError :=
| NoDroneAvailable
| KeyHeld (request_tag key_tag : string)
| KeyHeldUnhealthy
| KeyUnheldNoSpawnConfig
| FailedToRemoveKey
| FailedToAcquireKey
| DatabaseError (e : SqlError)
| Serialization
| NoClusterProvided
(** [Other(e.to_string())]; the text is kept as the error it prints *)
| OtherError (e : SqlError).

Definition retryable (e : ConnectError) : bool :=
  match e with FailedToRemoveKey | FailedToAcquireKey => true | _ => false end.

Definition violates_uniqueness (e : SqlError) : bool :=
  match e with UniqueViolation => true | _ => false end.

(** The random choices of one attempt. *)
Record Rand := {
  rd_key : nat → nat;
  rd_static : list N;
  rd_backend : nat → nat;
  rd_action : nat → nat;
  rd_token : list N;
  rd_secret : list N;
  rd_shuffle : list (Z * string * Z * Z) → list (Z * string * Z * Z)
}.

(** ** Creating the backend *)

(** The [with backend_insert as (...) insert into backend_key ...] statement: both
    rows or none. *)
Definition insert_backend_with_key (id : string) (b : backend_row) (k : key_row) : txn Z := λ db,
  match backends db !! id, keys db !! id, Keys.find_key (k_name k) (k_namespace k) db with
  | None, None, None =>
      match drones db !! b_drone_id b with
      | None => Err ForeignKeyViolation
      | Some _ =>
          Ok (set_keys (<[id := k]> (keys db)) (set_backends (<[id := b]> (backends db)) db),
              k_fencing_token k)
      end
  | _, _, _ => Err UniqueViolation
  end.

(** [extract(epoch from now()) * 1000] stored in a [bigint]: milliseconds, rounded to
    nearest. *)
Definition fencing_token (now : Z) : Z := (now + 500) / 1000.

(** [limit as u64] then [PgInterval::try_from(...).expect(...)]: a negative limit
    wraps to a duration no interval can hold. *)
Definition lifetime (limit : option Z) : result SqlError (option Z) :=
  match limit with
  | None => Ok None
  | Some l => if decide (l < 0)%Z then Err (Panicked "valid interval") else Ok (Some (from_secs l))
  end.

Definition initial_row (now : Z) (cluster : string) (drone_id : Z) (life : option Z)
    (spawn_config : SpawnConfig) (static_token : option string) : backend_row :=
  MkBackend cluster (BackendStatus.to_string BackendStatus.Scheduled) now
    (Some (BackendStatus.as_int BackendStatus.Scheduled)) None drone_id
    ((λ l, now + l)%Z <$> life) (Types.sc_max_idle_seconds spawn_config) now
    (Some BackendState.Scheduled) static_token (Types.sc_subdomain spawn_config).

Definition initial_key (now : Z) (key : KeyConfig) : key_row :=
  MkKey (Types.key_namespace key) (Types.key_name key) (Types.key_tag key)
    (now + Keys.KEY_LEASE_EXPIRATION) (fencing_token now) true.

(** The deadlines sent with the spawn action, in the drone's local time. *)
Definition spawn_deadlines (last_local_time : Z) : Protocol.KeyDeadlines :=
  {| Protocol.renew_at := last_local_time + Keys.KEY_LEASE_RENEW_AFTER;
     Protocol.soft_terminate_at := last_local_time + Keys.KEY_LEASE_SOFT_TERMINATE_AFTER;
     Protocol.hard_terminate_at := last_local_time + Keys.KEY_LEASE_SOFT_TERMINATE_AFTER |}.

Definition spawn_action (key : KeyConfig) (token : Z) (last_local_time : Z)
    (spawn_config : SpawnConfig) (static_token : option string) : Protocol.BackendAction :=
  Protocol.Spawn (Types.sc_executable spawn_config)
    {| Protocol.ak_key := key; Protocol.ak_deadlines := spawn_deadlines last_local_time;
       Protocol.ak_token := token |} static_token.

Definition map_create_error (e : SqlError) : ConnectError :=
  if violates_uniqueness e then FailedToAcquireKey else DatabaseError e.

(** The transaction: insert the rows, emit the state change, queue the spawn action.
    An error drops it uncommitted. *)
Definition create_backend_with_key (rand : Rand) (key : KeyConfig) (spawn_config : SpawnConfig)
    (cluster : string) (drone : Drones.DroneForSpawn) (static_token : option string) (db : DB)
  : DB * result ConnectError string :=
  let backend_id := Names.or_random Names.BackendName (Types.sc_id spawn_config) (rd_backend rand) in
  match lifetime (Types.sc_lifetime_limit_seconds spawn_config) with
  | Err e => (db, Err (DatabaseError e))
  | Ok life =>
      match insert_backend_with_key backend_id
              (initial_row (clock db) cluster (Drones.ds_id drone) life spawn_config static_token)
              (initial_key (clock db) key) db with
      | Err e => (db, Err (map_create_error e))
      | Ok (db1, token) =>
          match emit_state_change backend_id BackendState.Scheduled db1 with
          | Err e => (db, Err (DatabaseError e))
          | Ok (db2, _) =>
              match Actions.create_pending_action_txn
                      (Names.new_random Names.BackendActionName (rd_action rand)) backend_id
                      (Drones.ds_id drone)
                      (spawn_action key token (Drones.ds_last_local_time drone) spawn_config
                         static_token) db2 with
              | Err e => (db, Err (OtherError e))
              | Ok (db3, _) => (db3, Ok backend_id)
              end
          end
      end
  end.

(** ** Tokens *)

Definition create_token (rand : Rand) (backend : string) (user : option string)
    (auth : list (string * json)) (db : DB) : DB * result ConnectError (string * string) :=
  let token := Types.random_token (rd_token rand) in
  let secret := Types.random_token (rd_secret rand) in
  match tokens db !! token, backends db !! backend with
  | Some _, _ => (db, Err (DatabaseError UniqueViolation))
  | None, None => (db, Err (DatabaseError ForeignKeyViolation))
  | None, Some _ =>
      (set_tokens (<[token := MkToken backend (clock db + from_secs TOKEN_LIFETIME_SECONDS) user
                                (JObj auth) secret]> (tokens db)) db,
       Ok (token, secret))
  end.

Definition revoke (request : RevokeRequest) (db : DB) : DB :=
  set_tokens (filter (λ p, ¬ (t_backend_id p.2 = Types.rr_backend_id request ∧
                              t_username p.2 = Some (Types.rr_user request))) (tokens db)) db.

Definition clean_up_tokens (db : DB) : DB :=
  set_tokens (filter (λ p, ¬ (t_expiration_time p.2 < clock db)%Z) (tokens db)) db.

(** ** One attempt *)

(** A bearer token for the backend: the static one, or a fresh one. *)
Definition with_token (rand : Rand) (static_token : option string) (backend : string)
    (request : ConnectRequest) (k : string → option string → ConnectResponse)
  : prog (result ConnectError ConnectResponse) :=
  match static_token with
  | Some token => Ret (Ok (k token None))
  | None =>
      act (create_token rand backend (Types.cr_user request) (Types.cr_auth request)) (λ r,
        Ret (match r with
             | Ok (token, secret) => Ok (k token (Some secret))
             | Err e => Err e
             end))
  end.

(** No live backend: spawn one in [cluster]. *)
Definition spawn_in (request : ConnectRequest) (client : Types.PlaneClient) (best_of : Z)
    (rand : Rand) (key : KeyConfig) (spawn_config : SpawnConfig) (cluster : string)
  : prog (result ConnectError ConnectResponse) :=
  act (read (Drones.pick_drone_for_spawn (rd_shuffle rand) cluster
               (Types.sc_pool spawn_config) best_of)) (λ r,
    match r with
    | Err e => Ret (Err (DatabaseError e))
    | Ok None => Ret (Err NoDroneAvailable)
    | Ok (Some drone) =>
        let bearer_token :=
          if Types.sc_use_static_token spawn_config
          then Some (Types.new_random_static (rd_static rand)) else None in
        act (create_backend_with_key rand key spawn_config cluster drone bearer_token) (λ r,
          match r with
          | Err e => Ret (Err e)
          | Ok backend_id =>
              with_token rand bearer_token backend_id request (λ token secret,
                Types.ConnectResponse_new backend_id cluster true BackendStatus.Scheduled
                  token secret (Types.sc_subdomain spawn_config) client
                  (Some (Drones.ds_drone drone)))
          end)
    end).

(** The second half of an attempt. *)
Definition spawn_new (default_cluster : option string) (request : ConnectRequest)
    (client : Types.PlaneClient) (best_of : Z) (rand : Rand) (key : KeyConfig)
  : prog (result ConnectError ConnectResponse) :=
  match Types.cr_spawn_config request with
  | None => Ret (Err KeyUnheldNoSpawnConfig)
  | Some spawn_config =>
      match Types.sc_cluster spawn_config, default_cluster with
      | None, None => Ret (Err NoClusterProvided)
      | Some cluster, _ | None, Some cluster =>
          spawn_in request client best_of rand key spawn_config cluster
      end
  end.

Definition attempt_connect (default_cluster : option string) (request : ConnectRequest)
    (client : Types.PlaneClient) (best_of : Z) (rand : Rand)
  : prog (result ConnectError ConnectResponse) :=
  match Types.cr_key request with
  | None =>
      spawn_new default_cluster request client best_of rand (Types.KeyConfig_new_random (rd_key rand))
  | Some key =>
      act (read (Keys.check_key key)) (λ r,
        match r with
        | Err e => Ret (Err (DatabaseError e))
        | Ok None => spawn_new default_cluster request client best_of rand key
        | Ok (Some key_result) =>
            if Keys.is_live key_result then
              if decide (Keys.kr_tag key_result ≠ Types.key_tag key)
              then Ret (Err (KeyHeld (Types.key_tag key) (Keys.kr_tag key_result)))
              else
                with_token rand (Keys.kr_static_connection_token key_result)
                  (Keys.kr_id key_result) request (λ token secret,
                    Types.ConnectResponse_new (Keys.kr_id key_result) (Keys.kr_cluster key_result)
                      false (Keys.kr_status key_result) token secret
                      (Keys.kr_subdomain key_result) client None)
            else
              act (Keys.remove_key (Keys.kr_id key_result)) (λ r,
                match r with
                | Err e => Ret (Err (DatabaseError e))
                | Ok false => Ret (Err FailedToRemoveKey)
                | Ok true => spawn_new default_cluster request client best_of rand key
                end)
        end)
  end.

(** ** The retry loop

    [attempt] starts at 1 and an error at the third attempt is final, so three
    attempts of fuel are enough ([None] marks running out of fuel). *)
Fixpoint connect_loop (fuel : nat) (attempt : nat) (default_cluster : option string)
    (request : ConnectRequest) (client : Types.PlaneClient) (best_of : Z) (rands : nat → Rand)
  : prog (option (result ConnectError ConnectResponse)) :=
  match fuel with
  | O => Ret None
  | S fuel =>
      prog_bind (attempt_connect default_cluster request client best_of (rands attempt)) (λ r,
        match r with
        | Ok response => Ret (Some (Ok response))
        | Err error =>
            if negb (retryable error) || (3 <=? attempt) then Ret (Some (Err error))
            else connect_loop fuel (S attempt) default_cluster request client best_of rands
        end)
  end.

Definition connect (default_cluster : option string) (request : ConnectRequest)
    (client : Types.PlaneClient) (best_of : Z) (rands : nat → Rand)
  : prog (option (result ConnectError ConnectResponse)) :=
  connect_loop 3 1 default_cluster request client best_of rands.

End Connect.
End Connect.
