(* ===== verification/Invariant.v ===== *)
(** * Database invariant

    Every way the code changes the database is one rule of the step relation
    [step]; [wf] is the invariant that all of them preserve: keys are exclusive and
    held only by backends that are not terminated, each backend row is consistent
    with its state and its history, histories are strictly increasing, references
    resolve. *)

From S2P Require Import Prelude Names BackendState Types Database Keys Backends Nodes.
From S2P Require Import Connect.
Import Db.

Section Invariant.
Context `{Ext : Externals}.

(** ** Steps *)

Inductive step : DB → DB → Prop :=
| step_clock db t : (clock db ≤ t)%Z → step db (set_clock t db)
| step_update_state db id st : step db (Backends.update_state id st db).1
| step_keepalive db id : step db (Backends.update_keepalive id db).1
| step_metrics db m : step db (Backends.publish_metrics m db).1
| step_cleanup db days batch : step db (Backends.cleanup days batch db).1
| step_prevent_renew db id : step db (Keys.prevent_renew id db).1
| step_remove_key db id : step db (Keys.remove_key id db).1
| step_renew_key db id : step db (Keys.renew_key id db).1
| step_create_action db aid id drone a :
    step db (Actions.create_pending_action aid id drone a db).1
| step_ack_action db aid drone : step db (Actions.ack_pending_action aid drone db)
| step_create_backend db rand key sc cluster drone static :
    step db (Connect.create_backend_with_key rand key sc cluster drone static db).1
| step_create_token db rand id user auth : step db (Connect.create_token rand id user auth db).1
| step_revoke db r : step db (Connect.revoke r db)
| step_clean_up_tokens db : step db (Connect.clean_up_tokens db)
| step_clean_up_events db days : step db (clean_up_events days db)
| step_controller_heartbeat db name online v h :
    step db (Controllers.heartbeat name online v h db)
| step_register_node db cl name kind co v h ip :
    step db (Nodes.register cl name kind co v h ip db).1
| step_mark_offline db id co t : step db (Nodes.mark_offline id co t db).1
| step_register_drone db id ready pool : step db (Drones.register_drone id ready pool db).1
| step_drain db id : step db (Drones.drain id db).1
| step_drone_heartbeat db id t : step db (Drones.heartbeat id t db)
| step_lease db cl p : step db (Acme.lease_cluster_dns cl p db).1
| step_set_dns db cl p txt : step db (Acme.set_cluster_dns cl p txt db).1
| step_release db cl p : step db (Acme.release_cluster_lease cl p db).

(** States of a database that started empty. *)
Definition reachable (db : DB) : Prop := ∃ now, rtc step (empty_db now) db.

Lemma reachable_step db db' : reachable db → step db db' → reachable db'.
Proof. intros [now H] Hs. exists now. by eapply rtc_r. Qed.

(** ** The invariant *)

Definition row_ok (b : backend_row) : Prop :=
  ∃ st, b_state b = Some st ∧
        b_last_status b = BackendStatus.to_string (BackendState.status st) ∧
        b_last_status_number b = Some (BackendState.status_int st) ∧
        b_cluster_address b = addr_to_string <$> BackendState.address st.

Definition row_num (r : state_row) : Z := from_option BackendState.status_int 0%Z (s_state r).

(** The status numbers in the history of a backend, oldest first. *)
Definition nums (id : string) (l : list state_row) : list Z :=
  row_num <$> filter (λ r, s_backend_id r = id) l.

Definition action_ok (id : string) (a : action_row) : Prop :=
  ∃ m, a_action a = Some m ∧ Protocol.bam_action_id m = id ∧
       Protocol.bam_backend_id m = a_backend_id a ∧ Protocol.bam_drone_id m = a_drone_id a.

Record wf (db : DB) : Prop := {
  wf_rows : ∀ id b, backends db !! id = Some b → row_ok b;
  wf_backend_drone : ∀ id b, backends db !! id = Some b → is_Some (drones db !! b_drone_id b);
  wf_key_unique : ∀ i j ki kj,
    keys db !! i = Some ki → keys db !! j = Some kj →
    k_name ki = k_name kj → k_namespace ki = k_namespace kj → i = j;
  wf_key_alive : ∀ id k, keys db !! id = Some k →
    ∃ b st, backends db !! id = Some b ∧ b_state b = Some st ∧
            BackendState.is_terminated st = false;
  wf_tokens : ∀ t r, tokens db !! t = Some r → is_Some (backends db !! t_backend_id r);
  wf_actions : ∀ i a, actions db !! i = Some a →
    is_Some (backends db !! a_backend_id a) ∧ is_Some (drones db !! a_drone_id a) ∧ action_ok i a;
  wf_hist : ∀ id b st, backends db !! id = Some b → b_state b = Some st →
    StronglySorted Z.lt (nums id (states db)) ∧
    last (nums id (states db)) = Some (BackendState.status_int st);
  wf_hist_rows : ∀ r, r ∈ states db →
    is_Some (backends db !! s_backend_id r) ∧ is_Some (s_state r);
  wf_state_ids : StronglySorted (λ a b, (s_id a < s_id b)%Z) (states db) ∧
    ∀ r, r ∈ states db → (s_id r < state_seq db)%Z;
  wf_event_ids : StronglySorted (λ a b, (e_id a < e_id b)%Z) (events db) ∧
    ∀ e, e ∈ events db → (e_id e < event_seq db)%Z
}.

Lemma wf_empty now : wf (empty_db now).
Proof. constructor; simpl; intros; try done; try set_solver; (split; [constructor|set_solver]). Qed.

(** ** Framing *)

(** A step that leaves the backend-side tables alone. *)
Lemma wf_frame db db' :
  wf db →
  backends db' = backends db → keys db' = keys db → tokens db' = tokens db →
  actions db' = actions db → states db' = states db → state_seq db' = state_seq db →
  (∀ i, is_Some (drones db !! i) → is_Some (drones db' !! i)) →
  events db' = events db → event_seq db' = event_seq db →
  wf db'.
Proof.
  intros [] Hb Hk Ht Ha Hs Hq Hd He Hv.
  constructor; rewrite ?Hb, ?Hk, ?Ht, ?Ha, ?Hs, ?Hq, ?He, ?Hv; try done.
  - intros id b Hid. by apply Hd, (wf_backend_drone0 id).
  - intros i a Hi. destruct (wf_actions0 i a Hi) as (? & ? & ?). auto.
Qed.

Lemma event_ids_snoc (evs : list event_row) seq e :
  StronglySorted (λ a b, (e_id a < e_id b)%Z) evs ∧ (∀ e, e ∈ evs → (e_id e < seq)%Z) →
  e_id e = seq →
  StronglySorted (λ a b, (e_id a < e_id b)%Z) (evs ++ [e]) ∧
  ∀ e', e' ∈ evs ++ [e] → (e_id e' < seq + 1)%Z.
Proof.
  intros [Hs Hlt] <-. rewrite StronglySorted_snoc. split_and!; [done|auto|].
  intros e' [He'|He']%elem_of_app; [apply Hlt in He'; lia|].
  assert (e' = e) as -> by set_solver. lia.
Qed.

(** Emitting an event only extends the event log. *)
Lemma wf_emit_impl key p db db' u : wf db → emit_impl key p db = Ok (db', u) → wf db'.
Proof.
  intros Hwf [= <-]. destruct Hwf. constructor; simpl; try done. by apply event_ids_snoc.
Qed.

Lemma wf_set_keys db ks :
  wf db →
  (∀ i j ki kj, ks !! i = Some ki → ks !! j = Some kj →
     k_name ki = k_name kj → k_namespace ki = k_namespace kj → i = j) →
  (∀ id k, ks !! id = Some k → is_Some (keys db !! id)) →
  wf (set_keys ks db).
Proof.
  intros [] Hu Hs. constructor; simpl; try done.
  intros id k Hk. destruct (Hs id k Hk) as [k' Hk']. eauto.
Qed.

(** Replacing one key row by one with the same name. *)
Lemma wf_update_key db id k k' :
  wf db → keys db !! id = Some k → k_name k' = k_name k → k_namespace k' = k_namespace k →
  wf (set_keys (<[id := k']> (keys db)) db).
Proof.
  intros Hwf Hk Hn Hs. apply wf_set_keys; [done|..].
  - intros i j ki kj. rewrite !lookup_insert_Some.
    intros [[<- <-]|[? Hi]] [[<- <-]|[? Hj]] ??; try done;
      eapply (wf_key_unique db Hwf); eauto; congruence.
  - intros i ki. rewrite lookup_insert_Some. naive_solver.
Qed.

Lemma wf_delete_key db id : wf db → wf (set_keys (delete id (keys db)) db).
Proof.
  intros Hwf. apply wf_set_keys; [done|..].
  - intros i j ki kj [_ Hi]%lookup_delete_Some [_ Hj]%lookup_delete_Some.
    by apply (wf_key_unique db Hwf).
  - intros i ki [_ Hi]%lookup_delete_Some. eauto.
Qed.

(** ** Histories *)

Lemma nums_snoc id l r :
  nums id (l ++ [r]) = if decide (s_backend_id r = id) then nums id l ++ [row_num r] else nums id l.
Proof.
  unfold nums. rewrite filter_app, filter_cons, filter_nil.
  case_decide; rewrite fmap_app; simpl; [done|by rewrite app_nil_r].
Qed.

Lemma nums_filter_out id l (P : state_row → Prop) `{∀ r, Decision (P r)} :
  (∀ r, s_backend_id r = id → P r) → nums id (filter P l) = nums id l.
Proof.
  intros HP. unfold nums. f_equal. induction l as [|r l IH]; [done|].
  rewrite !filter_cons. destruct (decide (s_backend_id r = id)) as [Hr|Hr].
  - rewrite decide_True by auto. rewrite filter_cons, decide_True by done. by rewrite IH.
  - case_decide; [rewrite filter_cons, decide_False by done|]; done.
Qed.

(** ** The new backend row and its history row *)

Lemma with_state_ok now st b : row_ok (Backends.with_state now st b).
Proof. by exists st. Qed.

(** The central step: an accepted state update. *)
Lemma wf_update_accepted db id b st :
  wf db → backends db !! id = Some b →
  Backends.accepts (BackendState.status_int st) b = true →
  wf (set_states (states db ++ [MkState (state_seq db) id (Some st) (clock db)]) (state_seq db + 1)
        (set_keys (if BackendState.is_terminated st then delete id (keys db) else keys db)
           (set_backends (<[id := Backends.with_state (clock db) st b]> (backends db)) db))).
Proof.
  intros Hwf Hb Hacc. pose proof Hwf as Hwf'. destruct Hwf.
  destruct (wf_rows0 id b Hb) as (st0 & Hst0 & _ & Hnum & _).
  assert (BackendState.status_int st0 < BackendState.status_int st)%Z as Hlt.
  { unfold Backends.accepts in Hacc. rewrite Hnum in Hacc. by apply bool_decide_eq_true in Hacc. }
  assert (∀ i, is_Some (backends db !! i) →
    is_Some (<[id := Backends.with_state (clock db) st b]> (backends db) !! i)) as Hkeep.
  { intros i Hi. destruct (decide (i = id)) as [->|];
      [rewrite lookup_insert_eq|rewrite lookup_insert_ne]; eauto. }
  constructor; simpl.
  - intros i b'. rewrite lookup_insert_Some. intros [[<- <-]|[_ Hi]]; [apply with_state_ok|eauto].
  - intros i b'. rewrite lookup_insert_Some.
    intros [[<- <-]|[_ Hi]]; [simpl|]; eauto.
  - destruct (BackendState.is_terminated st); [|done].
    apply (wf_key_unique _ (wf_delete_key db id Hwf')).
  - intros i k Hk. destruct (decide (i = id)) as [->|Hne].
    + destruct (BackendState.is_terminated st) eqn:Ht; [by rewrite lookup_delete_eq in Hk|].
      exists (Backends.with_state (clock db) st b), st. by rewrite lookup_insert_eq.
    + rewrite lookup_insert_ne by done. apply (wf_key_alive0 i k).
      destruct (BackendState.is_terminated st); [by rewrite lookup_delete_ne in Hk|done].
  - eauto.
  - intros i a Hi. destruct (wf_actions0 i a Hi) as (? & ? & ?). eauto.
  - intros i b' st'. rewrite nums_snoc. simpl. rewrite lookup_insert_Some.
    intros [[<- <-]|[Hne Hi]] Hst'.
    + simpl in Hst'. simplify_eq. rewrite decide_True by done.
      destruct (wf_hist0 _ _ _ Hb Hst0) as [Hs Hl].
      rewrite StronglySorted_snoc, last_snoc. split_and!; [done| |done].
      intros y Hy. pose proof (sorted_last_max _ _ _ Hs Hl Hy). unfold row_num. simpl. lia.
    + rewrite decide_False by done. eauto.
  - intros r [Hr|Hr]%elem_of_app.
    + destruct (wf_hist_rows0 r Hr). eauto.
    + assert (r = MkState (state_seq db) id (Some st) (clock db)) as -> by set_solver.
      simpl. rewrite lookup_insert_eq. eauto.
  - destruct wf_state_ids0 as [Hs Hseq]. rewrite StronglySorted_snoc. split_and!; [done|auto|].
    intros r [Hr|Hr]%elem_of_app; [apply Hseq in Hr; lia|].
    assert (r = MkState (state_seq db) id (Some st) (clock db)) as -> by set_solver. simpl. lia.
  - done.
Qed.

(** ** Each operation preserves the invariant *)

(** The database after an accepted update. *)
Definition updated (id : string) (b : backend_row) (st : BackendState) (db : DB) : DB :=
  let id' := event_seq db in
  set_events (events db ++ [MkEvent id' "backend_state" (Some id) (clock db) (PlState st)])
    (id' + 1)
    (notified db ++ [(EVENT_CHANNEL, MkNotification (Some id') (clock db) "backend_state"
                                       (Some id) (PlState st))])
    (set_states (states db ++ [MkState (state_seq db) id (Some st) (clock db)]) (state_seq db + 1)
       (set_keys (if BackendState.is_terminated st then delete id (keys db) else keys db)
          (set_backends (<[id := Backends.with_state (clock db) st b]> (backends db)) db))).

Lemma update_state_eq id st db :
  Backends.update_state id st db =
    match backends db !! id with
    | Some b => if Backends.accepts (BackendState.status_int st) b
                then (updated id b st db, Ok true) else (db, Ok false)
    | None => (db, Ok false)
    end.
Proof.
  unfold Backends.update_state, Backends.update_state_txn, run_txn.
  destruct (backends db !! id) as [b|] eqn:Hb; [|done].
  destruct (Backends.accepts _ b); [|done].
  rewrite emit_state_change_eq.
  destruct (BackendState.is_terminated st) eqn:Ht; simpl; rewrite lookup_insert_eq;
    unfold updated; rewrite Ht; done.
Qed.

Lemma wf_updated db id b st :
  wf db → backends db !! id = Some b →
  Backends.accepts (BackendState.status_int st) b = true → wf (updated id b st db).
Proof.
  intros Hwf Hb Hacc. unfold updated.
  eapply (wf_emit_impl (Some id) (PlState st)); [by apply wf_update_accepted|]. reflexivity.
Qed.

Lemma wf_update_state db id st : wf db → wf (Backends.update_state id st db).1.
Proof.
  intros Hwf. rewrite update_state_eq. destruct (backends db !! id) as [b|] eqn:Hb; [|done].
  destruct (Backends.accepts _ b) eqn:Hacc; [by apply wf_updated|done].
Qed.

(** A backend row replaced by one with the same state and drone. *)
Lemma wf_touch_backend db id b b' :
  wf db → backends db !! id = Some b →
  b_state b' = b_state b → b_drone_id b' = b_drone_id b → row_ok b' →
  wf (set_backends (<[id := b']> (backends db)) db).
Proof.
  intros [] Hb Hst Hd Hok.
  assert (∀ i, is_Some (backends db !! i) → is_Some (<[id := b']> (backends db) !! i)) as Hkeep.
  { intros i Hi. destruct (decide (i = id)) as [->|];
      [rewrite lookup_insert_eq|rewrite lookup_insert_ne]; eauto. }
  constructor; simpl; try done.
  - intros i x. rewrite lookup_insert_Some. naive_solver.
  - intros i x. rewrite lookup_insert_Some. intros [[<- <-]|[_ ?]]; [rewrite Hd|]; eauto.
  - intros i k Hk. destruct (wf_key_alive0 i k Hk) as (x & st & Hx & ? & ?).
    destruct (decide (i = id)) as [->|Hne].
    + simplify_eq. exists b', st. rewrite lookup_insert_eq. by rewrite Hst.
    + exists x, st. by rewrite lookup_insert_ne.
  - eauto.
  - intros i a Hi. destruct (wf_actions0 i a Hi) as (? & ? & ?). eauto.
  - intros i x st. rewrite lookup_insert_Some. intros [[<- <-]|[_ ?]]; [rewrite Hst|]; eauto.
  - intros r Hr. destruct (wf_hist_rows0 r Hr). eauto.
Qed.

Lemma wf_keepalive db id : wf db → wf (Backends.update_keepalive id db).1.
Proof.
  intros Hwf. unfold Backends.update_keepalive.
  destruct (backends db !! id) as [b|] eqn:Hb; [|done]. case_decide; [|done].
  eapply wf_touch_backend; eauto. destruct (wf_rows _ Hwf _ _ Hb) as (st & ?). by exists st.
Qed.

Lemma wf_metrics db m : wf db → wf (Backends.publish_metrics m db).1.
Proof. intros Hwf. eapply wf_frame; eauto. Qed.

Lemma wf_prevent_renew db id : wf db → wf (Keys.prevent_renew id db).1.
Proof.
  intros Hwf. unfold Keys.prevent_renew. destruct (keys db !! id) as [k|] eqn:Hk; [|done].
  destruct (k_allow_renew k); [|done]. by eapply wf_update_key.
Qed.

Lemma wf_renew_key db id : wf db → wf (Keys.renew_key id db).1.
Proof.
  intros Hwf. unfold Keys.renew_key. destruct (keys db !! id) as [k|] eqn:Hk; [|done].
  destruct (k_allow_renew k); [|done]. by eapply wf_update_key.
Qed.

Lemma wf_remove_key db id : wf db → wf (Keys.remove_key id db).1.
Proof.
  intros Hwf. unfold Keys.remove_key. destruct (keys db !! id) as [k|]; [|done].
  case_decide; [by apply wf_delete_key|done].
Qed.

Lemma wf_set_tokens db ts :
  wf db → (∀ t r, ts !! t = Some r → is_Some (backends db !! t_backend_id r)) →
  wf (set_tokens ts db).
Proof. intros [] Hts. constructor; simpl; done. Qed.

Lemma wf_set_actions db acts :
  wf db →
  (∀ i a, acts !! i = Some a →
    is_Some (backends db !! a_backend_id a) ∧ is_Some (drones db !! a_drone_id a) ∧ action_ok i a) →
  wf (set_actions acts db).
Proof. intros [] Ha. constructor; simpl; done. Qed.

Lemma wf_create_action_txn db aid id drone a db' u :
  wf db → Actions.create_pending_action_txn aid id drone a db = Ok (db', u) → wf db'.
Proof.
  intros Hwf. unfold Actions.create_pending_action_txn, txn_bind, emit_with_key.
  destruct (emit_impl _ _ db) as [[db1 []]|] eqn:He; [|done].
  apply (wf_emit_impl _ _ _ _ _ Hwf) in He. unfold Actions.insert_action. simpl.
  destruct (actions db1 !! aid); [done|].
  destruct (backends db1 !! id) eqn:?, (drones db1 !! drone) eqn:?; try done.
  intros [= <-]. apply wf_set_actions; [done|].
  intros i x. rewrite lookup_insert_Some. intros [[<- <-]|[_ Hx]].
  - simpl. split_and!; [eauto..|]. by eexists.
  - by apply (wf_actions _ He).
Qed.

Lemma wf_create_action db aid id drone a :
  wf db → wf (Actions.create_pending_action aid id drone a db).1.
Proof.
  intros Hwf. unfold Actions.create_pending_action, run_txn.
  destruct (Actions.create_pending_action_txn _ _ _ _ db) as [[db' u]|] eqn:E; [|done].
  by eapply wf_create_action_txn.
Qed.

Lemma wf_ack_action db aid drone : wf db → wf (Actions.ack_pending_action aid drone db).
Proof.
  intros Hwf. unfold Actions.ack_pending_action. destruct (actions db !! aid) as [x|] eqn:Hx; [|done].
  case_decide; [|done]. apply wf_set_actions; [done|].
  intros i y. rewrite lookup_insert_Some. intros [[<- <-]|[_ Hy]];
    [|by apply (wf_actions _ Hwf)].
  by destruct (wf_actions _ Hwf _ _ Hx) as (? & ? & ?).
Qed.

Lemma wf_create_token db rand id user auth :
  wf db → wf (Connect.create_token rand id user auth db).1.
Proof.
  intros Hwf. unfold Connect.create_token.
  destruct (tokens db !! _); [done|]. destruct (backends db !! id) eqn:Hb; [|done].
  apply wf_set_tokens; [done|]. intros t r. rewrite lookup_insert_Some.
  intros [[<- <-]|[_ ?]]; [by simpl; eauto|by eapply (wf_tokens _ Hwf)].
Qed.

Lemma wf_filter_tokens db (P : string * token_row → Prop) `{∀ p, Decision (P p)} :
  wf db → wf (set_tokens (filter P (tokens db)) db).
Proof.
  intros Hwf. apply wf_set_tokens; [done|]. intros t r [Ht _]%filter_lookup_inv.
  by eapply (wf_tokens _ Hwf).
Qed.

(** *** Creating a backend *)

Lemma nums_fresh db id : wf db → backends db !! id = None → nums id (states db) = [].
Proof.
  intros Hwf Hid. unfold nums. destruct (filter _ (states db)) as [|r l] eqn:Hf; [done|].
  assert (r ∈ filter (λ r, s_backend_id r = id) (states db)) as [Hr Hin]%list_elem_of_filter
    by (rewrite Hf; set_solver).
  destruct (wf_hist_rows _ Hwf r Hin) as [[b Hb] _]. by simplify_eq.
Qed.

(** The rows of a new backend together with the first row of its history. *)
Lemma wf_insert_backend db id b k :
  wf db → backends db !! id = None → keys db !! id = None →
  Keys.find_key (k_name k) (k_namespace k) db = None →
  is_Some (drones db !! b_drone_id b) →
  row_ok b → b_state b = Some BackendState.Scheduled →
  wf (set_states (states db ++ [MkState (state_seq db) id (Some BackendState.Scheduled) (clock db)])
        (state_seq db + 1)
        (set_keys (<[id := k]> (keys db)) (set_backends (<[id := b]> (backends db)) db))).
Proof.
  intros Hwf Hb Hk Hfind Hd Hok Hst. pose proof (nums_fresh db id Hwf Hb) as Hnil.
  destruct Hwf.
  assert (∀ i, is_Some (backends db !! i) → is_Some (<[id := b]> (backends db) !! i)) as Hkeep.
  { intros i Hi. rewrite lookup_insert_is_Some'. auto. }
  constructor; simpl.
  - intros i x. rewrite lookup_insert_Some. naive_solver.
  - intros i x. rewrite lookup_insert_Some. naive_solver.
  - intros i j ki kj. rewrite !lookup_insert_Some.
    intros [[<- <-]|[? Hi]] [[<- <-]|[? Hj]] Hn Hs; [done|..|by eapply wf_key_unique0];
      exfalso; eapply Keys.find_key_None; eauto.
  - intros i x. rewrite lookup_insert_Some. intros [[<- <-]|[Hne Hx]].
    + exists b, BackendState.Scheduled. by rewrite lookup_insert_eq.
    + rewrite lookup_insert_ne by done. by eapply wf_key_alive0.
  - eauto.
  - intros i a Hi. destruct (wf_actions0 i a Hi) as (? & ? & ?). eauto.
  - intros i x st. rewrite nums_snoc. simpl. rewrite lookup_insert_Some.
    intros [[<- <-]|[Hne Hi]] Hx.
    + rewrite decide_True, Hnil by done. simplify_eq/=. split; [repeat constructor|done].
    + rewrite decide_False by done. eauto.
  - intros r [Hr|Hr]%elem_of_app; [destruct (wf_hist_rows0 r Hr); eauto|].
    apply list_elem_of_singleton in Hr as ->. simpl. rewrite lookup_insert_eq. eauto.
  - destruct wf_state_ids0 as [Hs Hseq]. rewrite StronglySorted_snoc. split_and!; [done|auto|].
    intros r [Hr|Hr]%elem_of_app; [apply Hseq in Hr; lia|].
    apply list_elem_of_singleton in Hr as ->. simpl. lia.
  - done.
Qed.

(** What a successful insertion found and did. *)
Lemma insert_backend_with_key_Ok id b k db db' token :
  Connect.insert_backend_with_key id b k db = Ok (db', token) →
  backends db !! id = None ∧ keys db !! id = None ∧
  Keys.find_key (k_name k) (k_namespace k) db = None ∧
  is_Some (drones db !! b_drone_id b) ∧
  db' = set_keys (<[id := k]> (keys db)) (set_backends (<[id := b]> (backends db)) db).
Proof.
  unfold Connect.insert_backend_with_key.
  destruct (backends db !! id), (keys db !! id), (Keys.find_key _ _ db); try done.
  destruct (drones db !! b_drone_id b) eqn:?; [|done]. intros [= <- <-]. eauto.
Qed.

Lemma wf_create_backend db rand key sc cluster drone static :
  wf db → wf (Connect.create_backend_with_key rand key sc cluster drone static db).1.
Proof.
  intros Hwf. unfold Connect.create_backend_with_key.
  destruct (Connect.lifetime _) as [life|]; [|done].
  destruct (Connect.insert_backend_with_key _ _ _ db) as [[db1 token]|] eqn:Hins; [|done].
  apply insert_backend_with_key_Ok in Hins as (Hb & Hk & Hf & Hd & ->).
  destruct (emit_state_change _ _ _) as [[db2 []]|] eqn:Hem; [|done].
  destruct (Actions.create_pending_action_txn _ _ _ _ db2) as [[db3 []]|] eqn:Hact; [|done].
  eapply wf_create_action_txn; [|exact Hact].
  rewrite emit_state_change_eq in Hem. simpl in Hem. rewrite lookup_insert_eq in Hem.
  injection Hem as <-.
  eapply (wf_emit_impl (Some _) (PlState BackendState.Scheduled));
    [apply (wf_insert_backend db _ _ _ Hwf Hb Hk Hf Hd)|reflexivity]; [|done].
  by exists BackendState.Scheduled.
Qed.

(** *** Cleanup *)

Lemma wf_cleanup_remaining db (deleted : list string) ks ts acts :
  wf db →
  (∀ id k, ks !! id = Some k → keys db !! id = Some k ∧ id ∉ deleted) →
  (∀ t r, ts !! t = Some r → tokens db !! t = Some r ∧ t_backend_id r ∉ deleted) →
  (∀ i a, acts !! i = Some a → actions db !! i = Some a ∧ a_backend_id a ∉ deleted) →
  wf (set_backends (filter (λ p, p.1 ∉ deleted) (backends db))
        (set_states (filter (λ r, s_backend_id r ∉ deleted) (states db)) (state_seq db)
           (set_keys ks (set_actions acts (set_tokens ts db))))).
Proof.
  intros [] Hks Hts Hacts.
  assert (∀ i, is_Some (backends db !! i) → i ∉ deleted →
    is_Some (filter (λ p, p.1 ∉ deleted) (backends db) !! i)) as Hkeep.
  { intros i [b Hi] Hd. exists b. by apply map_lookup_filter_Some. }
  constructor; simpl.
  - intros i x [? _]%filter_lookup_inv. eauto.
  - intros i x [? _]%filter_lookup_inv. eauto.
  - intros i j ki kj [? _]%Hks [? _]%Hks. eauto.
  - intros i k [Hk Hd]%Hks. destruct (wf_key_alive0 i k Hk) as (b & st & ? & ? & ?).
    exists b, st. by rewrite map_lookup_filter_Some.
  - intros t r [? ?]%Hts. eauto.
  - intros i a [Ha ?]%Hacts. destruct (wf_actions0 i a Ha) as (? & ? & ?). eauto.
  - intros i b st [Hb Hd]%filter_lookup_inv Hst. simpl in Hd.
    rewrite nums_filter_out by (by intros r ->). eauto.
  - intros r [Hd Hr]%list_elem_of_filter. destruct (wf_hist_rows0 r Hr). eauto.
  - destruct wf_state_ids0 as [Hs Hseq]. split; [by apply StronglySorted_filter|].
    intros r [_ Hr]%list_elem_of_filter. auto.
  - done.
Qed.

Lemma cleanup_selection_spec days batch db id :
  id ∈ Backends.cleanup_selection days batch db →
  ∃ b, backends db !! id = Some b ∧ b_last_status b = "terminated" ∧
       (from_days days < clock db - b_last_status_time b)%Z.
Proof.
  intros Hin%elem_of_take. destruct Hin as (i & Hi%list_elem_of_lookup_2 & _).
  apply list_elem_of_fmap in Hi as ([id' b] & -> & Hb).
  apply elem_of_map_to_list, filter_lookup_inv in Hb as (Hb & ? & ?). eauto.
Qed.

(** A selected backend is terminated, so it holds no key. *)
Lemma terminated_no_key db id b :
  wf db → backends db !! id = Some b → b_last_status b = "terminated" → keys db !! id = None.
Proof.
  intros Hwf Hb Ht. destruct (keys db !! id) as [k|] eqn:Hk; [|done].
  destruct (wf_key_alive _ Hwf id k Hk) as (b' & st & Hb' & Hst & Hnt).
  destruct (wf_rows _ Hwf id b Hb) as (st' & Hst' & Hls & _). simplify_eq.
  rewrite Ht in Hls. by destruct st.
Qed.

Lemma cleanup_selection_no_key days batch db id :
  wf db → id ∈ Backends.cleanup_selection days batch db → keys db !! id = None.
Proof.
  intros Hwf (b & Hb & Ht & _)%cleanup_selection_spec. by eapply terminated_no_key.
Qed.

(** With the invariant, the key deletion of the cleanup removes nothing and the
    foreign key never objects. *)
Lemma cleanup_eq days batch db :
  wf db → (0 ≤ batch)%Z →
  let deleted := Backends.cleanup_selection days batch db in
  Backends.cleanup days batch db =
    (set_backends (filter (λ p, p.1 ∉ deleted) (backends db))
       (set_states (filter (λ r, s_backend_id r ∉ deleted) (states db)) (state_seq db)
          (set_keys (filter (λ p, ¬ (p.1 ∈ deleted ∧ (k_expires_at p.2 < clock db)%Z)) (keys db))
             (set_actions (filter (λ p, a_backend_id p.2 ∉ deleted) (actions db))
                (set_tokens (filter (λ p, t_backend_id p.2 ∉ deleted) (tokens db)) db)))), Ok ()).
Proof.
  intros Hwf Hbatch deleted. unfold Backends.cleanup, Backends.cleanup_txn, run_txn.
  rewrite decide_False by lia. simpl. fold deleted.
  rewrite decide_False; [done|].
  intros (id & Hid & k & Hk)%Exists_exists. apply filter_lookup_inv in Hk as [Hk _].
  by rewrite (cleanup_selection_no_key _ _ _ _ Hwf Hid) in Hk.
Qed.

Lemma wf_cleanup db days batch : wf db → wf (Backends.cleanup days batch db).1.
Proof.
  intros Hwf. destruct (decide (batch < 0)%Z) as [Hneg|Hpos].
  - unfold Backends.cleanup, Backends.cleanup_txn, run_txn. by rewrite decide_True.
  - rewrite cleanup_eq by (done || lia). apply wf_cleanup_remaining; [done|..].
    + intros id k [Hk _]%filter_lookup_inv. split; [done|].
      intros Hin. by rewrite (cleanup_selection_no_key _ _ _ _ Hwf Hin) in Hk.
    + intros t r Hr%filter_lookup_inv. done.
    + intros i a Ha%filter_lookup_inv. done.
Qed.

(** *** Nodes, drones, controllers, leases, event cleanup *)

Lemma wf_set_drones db id d :
  wf db → wf (set_drones (<[id := d]> (drones db)) db).
Proof.
  intros Hwf. eapply wf_frame; eauto. simpl. intros i Hi.
  apply lookup_insert_is_Some'. auto.
Qed.

Lemma wf_clean_up_events db days : wf db → wf (clean_up_events days db).
Proof.
  intros []. constructor; simpl; try done.
  destruct wf_event_ids0 as [Hs Hseq]. split; [by apply StronglySorted_filter|].
  intros e [_ He]%list_elem_of_filter. auto.
Qed.

Lemma wf_register_node db cl name kind co v h ip :
  wf db → wf (Nodes.register cl name kind co v h ip db).1.
Proof.
  intros Hwf. unfold Nodes.register, Nodes.register_txn, run_txn.
  destruct (controllers db !! co); [|done].
  destruct (match Nodes.conflicting_node cl _ db with Some _ => _ | None => _ end) as [id row].
  simpl.
  eapply (wf_emit_impl None (PlNode id true) (set_nodes (<[id := row]> (nodes db)) (node_seq db + 1) db));
    [by eapply (wf_frame db)|reflexivity].
Qed.

Lemma wf_mark_offline db id co t : wf db → wf (Nodes.mark_offline id co t db).1.
Proof.
  intros Hwf. unfold Nodes.mark_offline, Nodes.mark_offline_txn, run_txn, txn_bind, emit.
  destruct (emit_impl _ _ db) as [[db1 []]|] eqn:He; [|done].
  apply (wf_emit_impl _ _ _ _ _ Hwf) in He.
  destruct (nodes db1 !! id) as [n|]; [|done]. case_decide; [|done]. by eapply wf_frame.
Qed.

Lemma wf_register_drone db id ready pool : wf db → wf (Drones.register_drone id ready pool db).1.
Proof.
  intros Hwf. unfold Drones.register_drone.
  destruct (drones db !! id); [by apply wf_set_drones|].
  destruct (nodes db !! id); [by apply wf_set_drones|done].
Qed.

Lemma wf_lease db cl p : wf db → wf (Acme.lease_cluster_dns cl p db).1.
Proof.
  intros Hwf. unfold Acme.lease_cluster_dns, Acme.write_lease.
  destruct (acme db !! cl); [case_decide; [|done]|];
    simpl; (destruct (nodes db !! p); [by eapply wf_frame|done]).
Qed.

(** ** Every step preserves the invariant *)

Lemma wf_step db db' : step db db' → wf db → wf db'.
Proof.
  destruct 1; intros Hwf.
  - by eapply wf_frame.
  - by apply wf_update_state.
  - by apply wf_keepalive.
  - by apply wf_metrics.
  - by apply wf_cleanup.
  - by apply wf_prevent_renew.
  - by apply wf_remove_key.
  - by apply wf_renew_key.
  - by apply wf_create_action.
  - by apply wf_ack_action.
  - by apply wf_create_backend.
  - by apply wf_create_token.
  - by apply wf_filter_tokens.
  - by apply wf_filter_tokens.
  - by apply wf_clean_up_events.
  - by eapply wf_frame.
  - by apply wf_register_node.
  - by apply wf_mark_offline.
  - by apply wf_register_drone.
  - unfold Drones.drain. destruct (drones db !! id); [by apply wf_set_drones|done].
  - unfold Drones.heartbeat. destruct (drones db !! id); [by apply wf_set_drones|done].
  - by apply wf_lease.
  - unfold Acme.set_cluster_dns. destruct (acme db !! cl); [|done].
    case_decide; [by eapply wf_frame|done].
  - unfold Acme.release_cluster_lease. destruct (acme db !! cl); [|done].
    case_decide; [by eapply wf_frame|done].
Qed.

Lemma wf_steps db db' : rtc step db db' → wf db → wf db'.
Proof. induction 1; eauto using wf_step. Qed.

End Invariant.
