(* ===== verification/Scenario.v ===== *)
(** * A concrete execution

    A controller, a drone in cluster [c.example], a backend spawned for a key and
    brought to termination: the inputs on which the theorems are instantiated. *)

From S2P Require Import Prelude Names BackendState Types Database Keys Backends Nodes.
From S2P Require Import Connect Invariant.
Import Db.

Module Scenario.

#[local] Existing Instance ExampleExternals.example_externals.

Definition zeros : nat → nat := λ _, 0.
Definition bytes (n : N) : list N := replicate 32 n.

Definition rand (n : nat) : Connect.Rand :=
  {| Connect.rd_key := λ _, n; Connect.rd_static := bytes (N.of_nat n);
     Connect.rd_backend := λ _, n; Connect.rd_action := λ _, n;
     Connect.rd_token := bytes (N.of_nat n); Connect.rd_secret := bytes (N.of_nat (S n));
     Connect.rd_shuffle := λ l, l |}.

Definition controller_name : string := "co-main".
Definition drone_name : string := "dr-one".
Definition cluster : string := "c.example".

Definition key : KeyConfig :=
  {| Types.key_name := "doc"; Types.key_namespace := "ns"; Types.key_tag := "t" |}.

Definition spawn_config : SpawnConfig :=
  {| Types.sc_id := Some "b1"; Types.sc_cluster := Some cluster; Types.sc_pool := "";
     Types.sc_executable := JObj []; Types.sc_lifetime_limit_seconds := Some 100%Z;
     Types.sc_max_idle_seconds := Some 10%Z; Types.sc_use_static_token := false;
     Types.sc_subdomain := None |}.

Definition request : ConnectRequest :=
  {| Types.cr_key := Some key; Types.cr_spawn_config := Some spawn_config;
     Types.cr_user := Some "u"; Types.cr_auth := [] |}.

Definition client : Types.PlaneClient := {| Types.backend_status_url := λ s, s |}.

Definition addr : SocketAddr := {| sa_ip := IpV4 2130706433; sa_port := 8080 |}.

Definition drone : Drones.DroneForSpawn :=
  {| Drones.ds_id := 1; Drones.ds_drone := drone_name; Drones.ds_last_local_time := 0 |}.

Definition db0 : DB := empty_db 0.
Definition db1 : DB := Controllers.heartbeat controller_name true "1" "h" db0.
Definition db2 : DB :=
  (Nodes.register (Some cluster) (Names.AnyDrone drone_name) Names.Drone controller_name "1" "h"
     "127.0.0.1" db1).1.
Definition db3 : DB := (Drones.register_drone 1 true "" db2).1.
(** The drone is ready and has reported its local time. *)
Definition db4 : DB := Drones.heartbeat 1 0 db3.
(** Backend [b1] holds the key. *)
Definition db5 : DB :=
  (Connect.create_backend_with_key (rand 0) key spawn_config cluster drone None db4).1.
Definition db6 : DB := (Backends.update_state "b1" BackendState.Loading db5).1.
Definition db7 : DB := (Backends.update_state "b1" (BackendState.Ready addr) db6).1.
(** A client has a token for it. *)
Definition db8 : DB := (Connect.create_token (rand 3) "b1" (Some "u") [] db7).1.
(** Its key may no longer be renewed. *)
Definition db9 : DB := (Keys.prevent_renew "b1" db8).1.
(** It has terminated. *)
Definition db10 : DB :=
  (Backends.update_state "b1"
     (BackendState.to_terminated (BackendState.Ready addr) (Some 0%Z)) db9).1.

Lemma reachable_db0 : reachable db0.
Proof. exists 0%Z. apply rtc_refl. Qed.

Lemma reachable_db1 : reachable db1.
Proof. eapply reachable_step; [apply reachable_db0|apply step_controller_heartbeat]. Qed.

Lemma reachable_db2 : reachable db2.
Proof. eapply reachable_step; [apply reachable_db1|apply step_register_node]. Qed.

Lemma reachable_db3 : reachable db3.
Proof. eapply reachable_step; [apply reachable_db2|apply step_register_drone]. Qed.

Lemma reachable_db4 : reachable db4.
Proof. eapply reachable_step; [apply reachable_db3|apply step_drone_heartbeat]. Qed.

Lemma reachable_db5 : reachable db5.
Proof. eapply reachable_step; [apply reachable_db4|apply step_create_backend]. Qed.

Lemma reachable_db6 : reachable db6.
Proof. eapply reachable_step; [apply reachable_db5|apply step_update_state]. Qed.

Lemma reachable_db7 : reachable db7.
Proof. eapply reachable_step; [apply reachable_db6|apply step_update_state]. Qed.

Lemma reachable_db8 : reachable db8.
Proof. eapply reachable_step; [apply reachable_db7|apply step_create_token]. Qed.

Lemma reachable_db9 : reachable db9.
Proof. eapply reachable_step; [apply reachable_db8|apply step_prevent_renew]. Qed.

Lemma reachable_db10 : reachable db10.
Proof. eapply reachable_step; [apply reachable_db9|apply step_update_state]. Qed.

End Scenario.
