(* ===== verification/Changes.v ===== *)
(** * What one step may change

    For each table of the backend side, the complete list of the ways a row can
    change in one [step]: [row_change] for a backend, [key_change] for a key. The
    theorems about executions are derived from these two lists. *)

From S2P Require Import Prelude Names BackendState Types Database Keys Backends Nodes.
From S2P Require Import Connect Invariant.
Import Db.

(** Opens the operation of a [step] on all its branches, for what a whole step does to one table. *)
Ltac open_step :=
  rewrite ?update_state_eq;
  unfold Backends.update_keepalive, Backends.cleanup, Backends.cleanup_txn, Keys.prevent_renew,
    Keys.remove_key, Keys.renew_key, Actions.create_pending_action, Actions.create_pending_action_txn,
    Actions.insert_action, Actions.ack_pending_action, Connect.create_backend_with_key,
    Connect.insert_backend_with_key, Connect.create_token, Nodes.register, Nodes.register_txn,
    Nodes.mark_offline, Nodes.mark_offline_txn, Drones.register_drone, Drones.drain, Drones.heartbeat,
    Acme.lease_cluster_dns, Acme.write_lease, Acme.set_cluster_dns, Acme.release_cluster_lease,
    run_txn, txn_bind;
  simpl; repeat (case_match; simpl); simplify_eq/=; rewrite ?emit_state_change_eq in *; simpl in *;
  repeat (case_match; simplify_eq/=);
  unfold Actions.create_pending_action_txn, Actions.insert_action, txn_bind, txn_ret in *; simpl in *;
  repeat (case_match; simplify_eq/=); simplify_eq/=.

Section Changes.
Context `{Ext : Externals}.

(** ** The two lists *)

Inductive row_change (now : Z) : option backend_row → option backend_row → Prop :=
| rc_same o : row_change now o o
| rc_update b st : Backends.accepts (BackendState.status_int st) b = true →
    row_change now (Some b) (Some (Backends.with_state now st b))
| rc_keepalive b : b_last_status b ≠ "terminated" →
    row_change now (Some b) (Some (Backends.with_keepalive now b))
| rc_create b : b_state b = Some BackendState.Scheduled → b_last_status_time b = now →
    row_change now None (Some b)
| rc_delete b : b_last_status b = "terminated" → row_change now (Some b) None.

Inductive key_change (db db' : DB) (id : string) : option key_row → option key_row → Prop :=
| kc_same o : key_change db db' id o o
| kc_acquire k :
    backends db !! id = None → Keys.find_key (k_name k) (k_namespace k) db = None →
    k_expires_at k = (clock db + Keys.KEY_LEASE_EXPIRATION)%Z → k_allow_renew k = true →
    key_change db db' id None (Some k)
| kc_renew k : k_allow_renew k = true →
    key_change db db' id (Some k)
      (Some (Keys.with_expires_at (clock db + Keys.KEY_LEASE_EXPIRATION) k))
| kc_prevent k : key_change db db' id (Some k) (Some (Keys.with_allow_renew false k))
| kc_expired k : (k_expires_at k < clock db)%Z → key_change db db' id (Some k) None
| kc_terminated k b st :
    backends db' !! id = Some b → b_state b = Some st → BackendState.is_terminated st = true →
    key_change db db' id (Some k) None.

#[local] Hint Constructors row_change key_change : plane.

(** ** Steps that leave both tables alone *)

Definition same_tables (db db' : DB) : Prop := backends db' = backends db ∧ keys db' = keys db.

Lemma same_tables_refl db : same_tables db db.
Proof. done. Qed.

Lemma create_action_txn_same aid id drone a db db' u :
  Actions.create_pending_action_txn aid id drone a db = Ok (db', u) → same_tables db db'.
Proof.
  unfold Actions.create_pending_action_txn, txn_bind, emit_with_key, Actions.insert_action. simpl.
  destruct (actions db !! aid); [done|].
  destruct (backends db !! id), (drones db !! drone); try done. by intros [= <-].
Qed.

Lemma create_action_same aid id drone a db :
  same_tables db (Actions.create_pending_action aid id drone a db).1.
Proof.
  unfold Actions.create_pending_action, run_txn.
  destruct (Actions.create_pending_action_txn _ _ _ _ db) as [[db' u]|] eqn:E; [|done].
  by eapply create_action_txn_same.
Qed.

Lemma register_node_same cl name kind co v h ip db :
  same_tables db (Nodes.register cl name kind co v h ip db).1.
Proof.
  unfold Nodes.register, Nodes.register_txn, run_txn. destruct (controllers db !! co); [|done].
  by destruct (match Nodes.conflicting_node cl _ db with Some _ => _ | None => _ end).
Qed.

Lemma mark_offline_same id co t db : same_tables db (Nodes.mark_offline id co t db).1.
Proof.
  unfold Nodes.mark_offline, Nodes.mark_offline_txn, run_txn, txn_bind. simpl.
  destruct (nodes db !! id); [case_decide|]; done.
Qed.

Lemma lease_same cl p db : same_tables db (Acme.lease_cluster_dns cl p db).1.
Proof.
  unfold Acme.lease_cluster_dns, Acme.write_lease.
  destruct (acme db !! cl); [case_decide; [|done]|]; simpl; by destruct (nodes db !! p).
Qed.

(** The steps of [step] that can change a backend or a key. *)
Inductive core_step (db : DB) : DB → Prop :=
| core_same db' : same_tables db db' → core_step db db'
| core_update id st : core_step db (Backends.update_state id st db).1
| core_keepalive id : core_step db (Backends.update_keepalive id db).1
| core_cleanup days batch : core_step db (Backends.cleanup days batch db).1
| core_prevent id : core_step db (Keys.prevent_renew id db).1
| core_remove id : core_step db (Keys.remove_key id db).1
| core_renew id : core_step db (Keys.renew_key id db).1
| core_create rand key sc cluster drone static :
    core_step db (Connect.create_backend_with_key rand key sc cluster drone static db).1.

Lemma step_core db db' : step db db' → core_step db db'.
Proof.
  destruct 1; try (by constructor); apply core_same;
    auto using create_action_same, register_node_same, mark_offline_same, lease_same; try done.
  - unfold Actions.ack_pending_action. destruct (actions db !! aid); [case_decide|]; done.
  - unfold Connect.create_token. destruct (tokens db !! _), (backends db !! id); done.
  - unfold Drones.register_drone. destruct (drones db !! id), (nodes db !! id); done.
  - unfold Drones.drain. by destruct (drones db !! id).
  - unfold Drones.heartbeat. by destruct (drones db !! id).
  - unfold Acme.set_cluster_dns. destruct (acme db !! cl); [case_decide|]; done.
  - unfold Acme.release_cluster_lease. destruct (acme db !! cl); [case_decide|]; done.
Qed.

(** What creating a backend does to the two tables. *)
Lemma create_backend_tables rand key sc cluster drone static db :
  let r := Connect.create_backend_with_key rand key sc cluster drone static db in
  let id := Names.or_random Names.BackendName (Types.sc_id sc) (Connect.rd_backend rand) in
  (r.1 = db ∧ ∃ e, r.2 = Err e) ∨
  ∃ life, r.2 = Ok id ∧
    backends db !! id = None ∧ keys db !! id = None ∧
    Keys.find_key (Types.key_name key) (Types.key_namespace key) db = None ∧
    is_Some (drones db !! Drones.ds_id drone) ∧
    backends r.1 = <[id := Connect.initial_row (clock db) cluster (Drones.ds_id drone) life sc
                             static]> (backends db) ∧
    keys r.1 = <[id := Connect.initial_key (clock db) key]> (keys db).
Proof.
  simpl. unfold Connect.create_backend_with_key.
  destruct (Connect.lifetime _) as [life|]; [|eauto].
  destruct (Connect.insert_backend_with_key _ _ _ db) as [[db1 token]|] eqn:Hins; [|eauto].
  apply insert_backend_with_key_Ok in Hins as (Hb & Hk & Hf & Hd & ->).
  destruct (emit_state_change _ _ _) as [[db2 []]|] eqn:Hem; [|eauto].
  destruct (Actions.create_pending_action_txn _ _ _ _ db2) as [[db3 []]|] eqn:Hact; [|eauto].
  right. exists life. rewrite emit_state_change_eq in Hem. simpl in Hem.
  rewrite lookup_insert_eq in Hem. injection Hem as <-.
  apply create_action_txn_same in Hact as [Hbs Hks]. simpl in *.
  by rewrite Hbs, Hks.
Qed.

(** ** The lists are complete *)

Lemma insert_change {A} (R : option A → option A → Prop) (m : gmap string A) i o x id :
  (∀ o, R o o) → m !! i = o → R o (Some x) → R (m !! id) (<[i := x]> m !! id).
Proof.
  intros Hr <- HR. destruct (decide (id = i)) as [->|Hne];
    [by rewrite lookup_insert_eq|by rewrite lookup_insert_ne].
Qed.

Lemma delete_change {A} (R : option A → option A → Prop) (m : gmap string A) i o id :
  (∀ o, R o o) → m !! i = o → R o None → R (m !! id) (delete i m !! id).
Proof.
  intros Hr <- HR. destruct (decide (id = i)) as [->|Hne];
    [by rewrite lookup_delete_eq|by rewrite lookup_delete_ne].
Qed.

Lemma step_row db db' id :
  step db db' → wf db → row_change (clock db) (backends db !! id) (backends db' !! id).
Proof.
  intros [db1 [-> _]|i st|i|days batch|i|i|i|rand key sc cluster drone static]%step_core Hwf.
  - constructor.
  - rewrite update_state_eq. destruct (backends db !! i) as [b|] eqn:Hb; [|constructor].
    destruct (Backends.accepts _ b) eqn:Ha; [|constructor].
    eapply (insert_change (row_change (clock db))); eauto with plane.
  - unfold Backends.update_keepalive. destruct (backends db !! i) as [b|] eqn:Hb; [|constructor].
    case_decide; [|constructor]. eapply (insert_change (row_change (clock db))); eauto with plane.
  - destruct (decide (batch < 0)%Z).
    { unfold Backends.cleanup, Backends.cleanup_txn, run_txn. rewrite decide_True by done.
      constructor. }
    rewrite cleanup_eq by (done || lia). simpl.
    destruct (filter _ (backends db) !! id) as [b|] eqn:Hf.
    + apply filter_lookup_inv in Hf as [-> _]. constructor.
    + destruct (backends db !! id) as [b|] eqn:Hb; [|constructor].
      apply map_lookup_filter_None in Hf as [Hf|Hf]; [congruence|].
      destruct (decide (id ∈ Backends.cleanup_selection days batch db)) as [Hin|Hin];
        [|by destruct (Hf b Hb)].
      apply cleanup_selection_spec in Hin as (b' & Hb' & ? & _). simplify_eq. by constructor.
  - unfold Keys.prevent_renew. destruct (keys db !! i) as [k|]; [destruct (k_allow_renew k)|];
      constructor.
  - unfold Keys.remove_key. destruct (keys db !! i); [case_decide|]; constructor.
  - unfold Keys.renew_key. destruct (keys db !! i) as [k|]; [destruct (k_allow_renew k)|];
      constructor.
  - destruct (create_backend_tables rand key sc cluster drone static db)
      as [[-> _]|(life & _ & Hb & _ & _ & _ & -> & _)]; [constructor|].
    eapply (insert_change (row_change (clock db))); eauto with plane.
Qed.

Lemma step_key db db' id :
  step db db' → wf db → key_change db db' id (keys db !! id) (keys db' !! id).
Proof.
  intros [db1 [_ ->]|i st|i|days batch|i|i|i|rand key sc cluster drone static]%step_core Hwf.
  - constructor.
  - rewrite update_state_eq. destruct (backends db !! i) as [b|] eqn:Hb; [|constructor].
    destruct (Backends.accepts _ b) eqn:Ha; [|constructor].
    unfold updated. simpl. destruct (BackendState.is_terminated st) eqn:Ht; [|constructor].
    destruct (decide (id = i)) as [->|]; [|rewrite lookup_delete_ne by done; constructor].
    rewrite lookup_delete_eq. destruct (keys db !! i); [|constructor].
    eapply kc_terminated; [by simpl; rewrite lookup_insert_eq| |]; done.
  - unfold Backends.update_keepalive. destruct (backends db !! i) as [b|] eqn:Hb; [|constructor].
    case_decide; constructor.
  - destruct (decide (batch < 0)%Z).
    { unfold Backends.cleanup, Backends.cleanup_txn, run_txn. rewrite decide_True by done.
      constructor. }
    rewrite cleanup_eq by (done || lia). simpl.
    destruct (filter _ (keys db) !! id) as [k|] eqn:Hf.
    + apply filter_lookup_inv in Hf as [-> _]. constructor.
    + destruct (keys db !! id) as [k|] eqn:Hk; [|constructor].
      apply map_lookup_filter_None in Hf as [Hf|Hf]; [congruence|].
      apply kc_expired. specialize (Hf k Hk). simpl in Hf. apply dec_stable in Hf as []. done.
  - unfold Keys.prevent_renew. destruct (keys db !! i) as [k|] eqn:Hk; [|constructor].
    destruct (k_allow_renew k); [|constructor]. eapply (insert_change (key_change _ _ _)); eauto with plane.
  - unfold Keys.remove_key. destruct (keys db !! i) eqn:Hk; [|constructor].
    case_decide; [|constructor]. eapply (delete_change (key_change _ _ _)); eauto with plane.
  - unfold Keys.renew_key. destruct (keys db !! i) as [k|] eqn:Hk; [|constructor].
    destruct (k_allow_renew k) eqn:?; [|constructor]. eapply (insert_change (key_change _ _ _)); eauto with plane.
  - destruct (create_backend_tables rand key sc cluster drone static db)
      as [[-> _]|(life & _ & Hb & Hk & Hf & _ & _ & Hks)]; [constructor|].
    rewrite Hks. destruct (decide (id = Names.or_random Names.BackendName (Types.sc_id sc)
      (Connect.rd_backend rand))) as [->|]; [|rewrite lookup_insert_ne by done; constructor].
    rewrite lookup_insert_eq, Hk. by constructor.
Qed.

End Changes.
