(* ===== verification/Safety.v ===== *)
(** * Safety of keys and backends over all executions

    The key table as a lock service: the abstract specification [lock_step] and the
    refinement of it by every database step, what a lease guarantees to its holder,
    the status order of a backend, and the cleanup. *)

From S2P Require Import Prelude Names BackendState Types Database Keys Backends Nodes.
From S2P Require Import Connect Invariant Scenario Changes.
Import Db.

Section Safety.
Context `{Ext : Externals}.

(** ** The abstract lock *)

(** The holder of a key and the end of its lease. *)
Definition lock (namespace name : string) (db : DB) : option (string * Z) :=
  (λ p, (p.1, k_expires_at p.2)) <$> Keys.find_key name namespace db.

Definition terminated_in (db : DB) (id : string) : Prop :=
  ∃ b st, backends db !! id = Some b ∧ b_state b = Some st ∧ BackendState.is_terminated st = true.

(** A lock is taken when free, kept alive by its holder, and freed when its lease has
    run out or its holder has terminated. It never passes from one holder to the next
    without being free in between. *)
Inductive lock_step (now : Z) (terminated : string → Prop)
  : option (string * Z) → option (string * Z) → Prop :=
| ls_idle o : lock_step now terminated o o
| ls_acquire id : lock_step now terminated None (Some (id, now + Keys.KEY_LEASE_EXPIRATION)%Z)
| ls_renew id e : lock_step now terminated (Some (id, e))
    (Some (id, now + Keys.KEY_LEASE_EXPIRATION)%Z)
| ls_expire id e : (e < now)%Z → lock_step now terminated (Some (id, e)) None
| ls_terminate id e : terminated id → lock_step now terminated (Some (id, e)) None.

(** ** Lemmas *)

Lemma reachable_wf db : reachable db → wf db.
Proof. intros [now H]. eapply wf_steps; [exact H|apply wf_empty]. Qed.

Lemma find_key_iff name ns db id k :
  wf db →
  Keys.find_key name ns db = Some (id, k) ↔
  keys db !! id = Some k ∧ k_name k = name ∧ k_namespace k = ns.
Proof.
  intros Hwf. split; [apply Keys.find_key_Some|]. intros (Hk & Hn & Hs).
  destruct (Keys.find_key name ns db) as [[j kj]|] eqn:Hf.
  - apply Keys.find_key_Some in Hf as (Hj & ? & ?).
    assert (id = j) as -> by (eapply (wf_key_unique _ Hwf); eauto; congruence).
    by simplify_eq.
  - exfalso. by eapply Keys.find_key_None.
Qed.

(** Nobody holds a key whose row has been deleted. *)
Lemma find_key_deleted db db' id k :
  wf db → keys db !! id = Some k → keys db' = delete id (keys db) →
  Keys.find_key (k_name k) (k_namespace k) db' = None.
Proof.
  intros Hwf Hk Heq. destruct (Keys.find_key _ _ _) as [[j kj]|] eqn:Hf; [|done].
  apply Keys.find_key_Some in Hf as (Hj & Hn & Hns). rewrite Heq in Hj.
  apply lookup_delete_Some in Hj as [Hne Hj]. destruct Hne. by eapply (wf_key_unique _ Hwf).
Qed.

Lemma step_clock_mono db db' : step db db' → (clock db ≤ clock db')%Z.
Proof. destruct 1; try (simpl; lia); open_step; lia. Qed.

(** Every step moves every lock along an edge of the specification. *)
Lemma lock_step_holds db db' ns name :
  step db db' → wf db → wf db' →
  lock_step (clock db) (terminated_in db') (lock ns name db) (lock ns name db').
Proof.
  intros Hs Hwf Hwf'. unfold lock.
  assert (∀ i k, keys db !! i = Some k → k_name k = name → k_namespace k = ns →
    Keys.find_key name ns db = Some (i, k)) as Hfind by (intros; by apply find_key_iff).
  destruct (Keys.find_key name ns db') as [[j kj]|] eqn:Hj.
  - apply find_key_iff in Hj as (Hj & Hn & Hns); [|done].
    pose proof (step_key db db' j Hs Hwf) as Hc. rewrite Hj in Hc.
    destruct (keys db !! j) as [k|] eqn:Hk; inversion Hc; subst; simpl in *;
      try (rewrite (Hfind j _ Hk) by done; constructor).
    match goal with
    | Hf : Keys.find_key _ _ db = None, He : k_expires_at kj = _ |- _ => rewrite Hf, He
    end. constructor.
  - destruct (Keys.find_key name ns db) as [[i ki]|] eqn:Hi; [|constructor].
    apply find_key_iff in Hi as (Hi & Hn & Hns); [|done].
    pose proof (step_key db db' i Hs Hwf) as Hc. rewrite Hi in Hc.
    destruct (keys db' !! i) as [k|] eqn:Hk.
    + exfalso. eapply (Keys.find_key_None _ _ _ i k Hj Hk). inversion Hc; subst; done.
    + inversion Hc; subst; [by constructor|]. apply ls_terminate. by eexists _, _.
Qed.

(** A lease never ends later than one lease period from now. *)
Definition leases_bounded (db : DB) : Prop :=
  ∀ id k, keys db !! id = Some k → (k_expires_at k ≤ clock db + Keys.KEY_LEASE_EXPIRATION)%Z.

Lemma leases_bounded_step db db' :
  step db db' → wf db → leases_bounded db → leases_bounded db'.
Proof.
  intros Hs Hwf Hb id k Hk. pose proof (step_clock_mono _ _ Hs) as Hc.
  pose proof (step_key db db' id Hs Hwf) as Hch. rewrite Hk in Hch.
  destruct (keys db !! id) as [k0|] eqn:Hk0; inversion Hch; subst; simpl in *;
    try (apply Hb in Hk0); lia.
Qed.

Lemma reachable_bounded db : reachable db → leases_bounded db.
Proof.
  intros [now H]. assert (wf (empty_db now)) as Hwf by apply wf_empty.
  assert (leases_bounded (empty_db now)) as Hb by done.
  induction H; [done|]. eauto using wf_step, leases_bounded_step.
Qed.

Lemma clock_mono db db' : rtc step db db' → (clock db ≤ clock db')%Z.
Proof. induction 1 as [|x y z Hs _ IH]; [lia|]. apply step_clock_mono in Hs. lia. Qed.

Lemma lock_bounded ns name db id e :
  leases_bounded db → lock ns name db = Some (id, e) →
  (e ≤ clock db + Keys.KEY_LEASE_EXPIRATION)%Z.
Proof.
  unfold lock. intros Hb ([i k] & Hf & Heq)%fmap_Some. simplify_eq/=.
  apply Keys.find_key_Some in Hf as (Hk & _). by apply Hb in Hk.
Qed.

(** ** Theorems *)


(** C1. Refinement: seen through a (namespace, name), every step of the database is
    a step of the abstract lock service: acquired only when free, renewed by its holder
    to one lease period from now, freed only when the lease ran out or the holder
    terminated. *)
Theorem lock_refinement db db' ns name :
  reachable db → step db db' →
  lock_step (clock db) (terminated_in db') (lock ns name db) (lock ns name db').
Proof.
  intros Hr Hs. pose proof (reachable_wf _ Hr) as Hwf.
  by apply lock_step_holds; [..|eapply wf_step].
Qed.

(** C3. A lease protects its holder: as long as the clock has not passed the end of
    a backend's lease, then after any further steps the key is still held by that
    backend, with a lease that ends no earlier, unless the backend reported
    termination on the way. *)
Theorem lease_protects db db' ns name id e :
  reachable db → rtc step db db' → lock ns name db = Some (id, e) → (clock db' ≤ e)%Z →
  (∃ e', lock ns name db' = Some (id, e') ∧ (e ≤ e')%Z) ∨
  (∃ dbm, rtc step db dbm ∧ rtc step dbm db' ∧ terminated_in dbm id).
Proof.
  intros Hr Hss. revert e Hr. induction Hss as [db|db dbm db' Hs Hss IH]; intros e Hr Hl Hc.
  { left. eauto with lia. }
  pose proof (reachable_wf _ Hr) as Hwf. pose proof (reachable_bounded _ Hr) as Hbd.
  pose proof (lock_bounded _ _ _ _ _ Hbd Hl) as He.
  pose proof (lock_step_holds _ _ ns name Hs Hwf (wf_step _ _ Hs Hwf)) as Hstep.
  pose proof (reachable_step _ _ Hr Hs) as Hr'.
  pose proof (clock_mono _ _ Hss). pose proof (step_clock_mono _ _ Hs).
  rewrite Hl in Hstep.
  destruct (lock ns name dbm) as [[j e']|] eqn:Ho; inversion Hstep; subst.
  - destruct (IH e' Hr' eq_refl Hc) as [?|(m & ? & ? & ?)]; eauto 8 using rtc_l.
  - destruct (IH _ Hr' eq_refl) as [(e' & ? & ?)|(m & ? & ? & ?)]; [lia|..];
      eauto 8 using rtc_l with lia.
  - lia.
  - right. exists dbm. eauto using rtc_once.
Qed.

(** Once the key of a backend may no longer be renewed (an administrator issued
    [prevent_renew]), no step extends its lease; and a backend that has lost its
    key never gets it back. *)
Theorem lost_key_never_regained db db' id b :
  reachable db → step db db' → backends db !! id = Some b →
  (keys db !! id = None → keys db' !! id = None) ∧
  (∀ k, keys db !! id = Some k → k_allow_renew k = false →
     keys db' !! id = Some k ∨ keys db' !! id = None).
Proof.
  intros Hr Hs Hb. pose proof (step_key db db' id Hs (reachable_wf _ Hr)) as Hc. split.
  - intros Hk. rewrite Hk in Hc. inversion Hc; congruence.
  - intros k Hk Ha. rewrite Hk in Hc. inversion Hc; subst; auto; [congruence|].
    left. destruct k; simpl in *; by subst.
Qed.

(** C4. In one step the state of a backend either stays or moves to a strictly later
    status; a terminated backend's row does not change at all, and a row disappears only
    if it is terminated. *)
Theorem status_monotone db db' id b :
  reachable db → step db db' → backends db !! id = Some b →
  match backends db' !! id with
  | None => b_last_status b = "terminated"
  | Some b' =>
      ∃ st st', b_state b = Some st ∧ b_state b' = Some st' ∧
        (st' = st ∨ (BackendState.status_int st < BackendState.status_int st')%Z) ∧
        (BackendState.is_terminated st = true → b' = b)
  end.
Proof.
  intros Hr Hs Hb. pose proof (reachable_wf _ Hr) as Hwf.
  pose proof (step_row db db' id Hs Hwf) as Hc. rewrite Hb in Hc.
  destruct (wf_rows _ Hwf id b Hb) as (st & Hst & Hls & Hnum & _).
  destruct (backends db' !! id) as [b'|];
    inversion Hc as [o Ho|b0 st' Hacc|b0 Hnt| |b0 Ht]; subst; [| | |done].
  - exists st, st. auto.
  - unfold Backends.accepts in Hacc. rewrite Hnum in Hacc. apply bool_decide_eq_true in Hacc.
    exists st, st'. split_and!; [done|done|by right|]. intros Ht.
    pose proof (BackendState.as_int_bounds (BackendState.status st')).
    destruct st; try done. unfold BackendState.status_int in *. simpl in *. lia.
  - exists st, st. split_and!; [done|done|by left|]. intros Ht. by destruct st.
Qed.

(** The cleanup always commits (for a batch size that is not negative): the
    foreign keys never block it. It removes exactly the selected backends, at most
    [batch_size], each terminated for longer than the minimum age, with their tokens,
    actions and history, and leaves every other backend, token, action, history and
    every key as it was. *)
Theorem cleanup_correct db days batch :
  reachable db → (0 ≤ batch)%Z →
  let deleted := Backends.cleanup_selection days batch db in
  let db' := (Backends.cleanup days batch db).1 in
  (Backends.cleanup days batch db).2 = Ok () ∧
  (Z.of_nat (length deleted) ≤ batch)%Z ∧
  (∀ id, id ∈ deleted →
     ∃ b, backends db !! id = Some b ∧ b_last_status b = "terminated" ∧
          (from_days days < clock db - b_last_status_time b)%Z) ∧
  (∀ id, backends db' !! id = if decide (id ∈ deleted) then None else backends db !! id) ∧
  keys db' = keys db ∧
  tokens db' = filter (λ p, t_backend_id p.2 ∉ deleted) (tokens db) ∧
  actions db' = filter (λ p, a_backend_id p.2 ∉ deleted) (actions db) ∧
  states db' = filter (λ r, s_backend_id r ∉ deleted) (states db).
Proof.
  intros Hr Hbatch deleted db'. pose proof (reachable_wf _ Hr) as Hwf.
  unfold db'. rewrite cleanup_eq by done. fold deleted. simpl. split_and!; try done.
  - unfold deleted, Backends.cleanup_selection. rewrite length_take. lia.
  - intros id. apply cleanup_selection_spec.
  - intros id. case_decide as Hin.
    + apply map_lookup_filter_None. right. intros b _ Hp. by apply Hp.
    + destruct (backends db !! id) as [b|] eqn:Hb.
      * by apply map_lookup_filter_Some.
      * apply map_lookup_filter_None. by left.
  - apply map_filter_id. intros id k Hk [Hin _]. simpl in Hin.
    by rewrite (cleanup_selection_no_key _ _ _ _ Hwf Hin) in Hk.
Qed.

End Safety.

(** ** Witnesses *)

#[local] Existing Instance ExampleExternals.example_externals.
Import Scenario.


Lemma lock_refinement_witness :
  lock_step (clock db9) (terminated_in db10) (lock "ns" "doc" db9) (lock "ns" "doc" db10) ∧
  lock "ns" "doc" db9 = Some ("b1", 60000000%Z) ∧ lock "ns" "doc" db10 = None.
Proof.
  split; [|by vm_compute].
  apply (lock_refinement db9 db10 "ns" "doc" reachable_db9). apply step_update_state.
Defined.

Lemma lease_protects_witness :
  (∃ e', lock "ns" "doc" db6 = Some ("b1", e') ∧ (60000000 ≤ e')%Z) ∨
  (∃ dbm, rtc step db5 dbm ∧ rtc step dbm db6 ∧ terminated_in dbm "b1").
Proof.
  apply (lease_protects db5 db6 "ns" "doc" "b1" 60000000%Z reachable_db5).
  - apply rtc_once, step_update_state.
  - by vm_compute.
  - by vm_compute.
Defined.

Lemma lost_key_never_regained_witness :
  ∃ b, backends db9 !! "b1" = Some b ∧
  (keys db9 !! "b1" = None → keys db10 !! "b1" = None) ∧
  (∀ k, keys db9 !! "b1" = Some k → k_allow_renew k = false →
     keys db10 !! "b1" = Some k ∨ keys db10 !! "b1" = None).
Proof.
  assert (∃ b, backends db9 !! "b1" = Some b) as [b Hb] by (vm_compute; eauto).
  exists b. split; [exact Hb|].
  apply (lost_key_never_regained db9 db10 "b1" b reachable_db9); [apply step_update_state|exact Hb].
Defined.

Lemma status_monotone_witness :
  ∃ b, backends db9 !! "b1" = Some b ∧
  match backends db10 !! "b1" with
  | None => b_last_status b = "terminated"
  | Some b' =>
      ∃ st st', b_state b = Some st ∧ b_state b' = Some st' ∧
        (st' = st ∨ (BackendState.status_int st < BackendState.status_int st')%Z) ∧
        (BackendState.is_terminated st = true → b' = b)
  end.
Proof.
  assert (∃ b, backends db9 !! "b1" = Some b) as [b Hb] by (vm_compute; eauto).
  exists b. split; [exact Hb|].
  apply (status_monotone db9 db10 "b1" b reachable_db9); [apply step_update_state|exact Hb].
Defined.

Lemma cleanup_correct_witness :
  (Backends.cleanup (-1) 10 db10).2 = Ok () ∧
  Backends.cleanup_selection (-1) 10 db10 = ["b1"] ∧
  backends (Backends.cleanup (-1) 10 db10).1 !! "b1" = None.
Proof.
  destruct (cleanup_correct db10 (-1) 10 reachable_db10 ltac:(lia)) as (H & _ & _ & _).
  split; [exact H|]. split; vm_compute; reflexivity.
Defined.
