(* ===== verification/BackendProps.v ===== *)
(** * Properties of the backend table

    Delivery of state reports in any order, the status stream, token routing and
    termination candidates, over every reachable database. *)

From S2P Require Import Prelude Names BackendState Types Database Keys Backends Nodes.
From S2P Require Import Connect Invariant Scenario Changes Safety.
Import Db.

Section BackendProps.
Context `{Ext : Externals}.

(** ** Delivering state reports *)

(** A sequence of reports for one backend, as the controller applies them. *)
Definition deliver (id : string) (reports : list BackendState) (db : DB) : DB :=
  foldl (λ db st, (Backends.update_state id st db).1) db reports.

Definition max_status (n : Z) (l : list BackendState) : Z :=
  foldr (λ st m, Z.max (BackendState.status_int st) m) n l.

Lemma max_status_cons n st l :
  max_status n (st :: l) = max_status (Z.max n (BackendState.status_int st)) l.
Proof. unfold max_status. induction l as [|x l IH]; simpl in *; lia. Qed.

Lemma max_status_bounds n l m :
  max_status n l = m ↔
  (n ≤ m)%Z ∧ (∀ st, st ∈ l → (BackendState.status_int st ≤ m)%Z) ∧
  (m = n ∨ ∃ st, st ∈ l ∧ BackendState.status_int st = m).
Proof.
  revert n. induction l as [|x l IH]; intros n.
  { unfold max_status. simpl. split; [intros ->|]; [|intros (? & _ & [?|(? & ?%elem_of_nil & _)])];
      [|done..]. split_and!; [lia| |by left]. by intros st ?%elem_of_nil. }
  rewrite max_status_cons, IH. split.
  - intros (Hn & Hl & Hm). split_and!; [lia| |].
    + intros st [->|Hst]%elem_of_cons; [lia|auto].
    + destruct Hm as [->|(st & ? & ?)]; [|right; exists st; set_solver].
      destruct (Z.max_spec n (BackendState.status_int x)) as [[_ ->]|[_ ->]]; [right|by left].
      exists x. set_solver.
  - intros (Hn & Hl & Hm). pose proof (Hl x (list_elem_of_here _ _)). split_and!; [lia| |].
    + intros st Hst. apply Hl. set_solver.
    + destruct Hm as [->|(st & [->|Hst]%elem_of_cons & Heq)]; [left; lia|left; lia|right; eauto].
Qed.

Lemma max_status_set n l l' : (∀ st, st ∈ l ↔ st ∈ l') → max_status n l = max_status n l'.
Proof.
  intros Hll. apply max_status_bounds. destruct (proj1 (max_status_bounds n l' _) eq_refl)
    as (? & ? & [?|(st & ? & ?)]); split_and!; try done; [naive_solver|by left|naive_solver|].
  right. exists st. naive_solver.
Qed.

Lemma deliver_spec id reports db b st0 :
  wf db → backends db !! id = Some b → b_state b = Some st0 →
  ∃ b' st, backends (deliver id reports db) !! id = Some b' ∧ b_state b' = Some st ∧
    BackendState.status_int st = max_status (BackendState.status_int st0) reports ∧
    (st = st0 ∨ st ∈ reports) ∧ wf (deliver id reports db).
Proof.
  revert db b st0. induction reports as [|r l IH]; intros db b st0 Hwf Hb Hst.
  { exists b, st0. by split_and!; [..|left|]. }
  rewrite max_status_cons. simpl. pose proof (wf_update_state db id r Hwf) as Hwf'.
  destruct (wf_rows _ Hwf _ _ Hb) as (s & Hs & _ & Hnum & _). simplify_eq.
  rewrite update_state_eq, Hb in *. unfold Backends.accepts in *. rewrite Hnum in *.
  case_bool_decide as Hlt.
  - destruct (IH (updated id b r db) (Backends.with_state (clock db) r b) r)
      as (b' & st & ? & ? & Heq & Hin & ?); [done| |done|].
    { simpl. by rewrite lookup_insert_eq. }
    exists b', st. split_and!; try done; [rewrite Heq; f_equal; lia|set_solver].
  - destruct (IH db b st0) as (b' & st & ? & ? & Heq & Hin & ?); [done..|].
    exists b', st. split_and!; try done; [rewrite Heq; f_equal; lia|set_solver].
Qed.

(** ** Status stream *)

Definition entry_status (p : BackendState * Z) : Z := BackendState.status_int p.1.

Lemma live_entries_sorted last items :
  StronglySorted Z.lt (entry_status <$> Backends.live_entries last items) ∧
  ∀ p l, p ∈ Backends.live_entries last items → last = Some l →
    (BackendStatus.as_int l < entry_status p)%Z.
Proof.
  revert last. induction items as [|[st t] items IH]; intros last; simpl.
  { split; [constructor|set_solver]. }
  destruct (match last with Some l => _ | None => false end) eqn:Hskip; [apply IH|].
  destruct (IH (Some (BackendState.status st))) as [Hs Hgt]. split.
  - simpl. constructor; [done|]. apply Forall_fmap, Forall_forall. intros p Hp. simpl.
    by apply (Hgt p _ Hp).
  - intros p l Hp ->. assert (BackendStatus.as_int l < BackendState.status_int st)%Z as Hl.
    { destruct (BackendStatus.le _ l) eqn:Hle; [done|].
      apply not_true_iff_false in Hle. rewrite BackendState.status_le_int in Hle.
      unfold BackendState.status_int. lia. }
    apply elem_of_cons in Hp as [->|Hp]; [done|]. specialize (Hgt p _ Hp eq_refl).
    unfold BackendState.status_int in Hl. lia.
Qed.

Lemma history_eq id db : wf db → Backends.history id db = filter (λ r, s_backend_id r = id) (states db).
Proof.
  intros Hwf. unfold Backends.history. apply (merge_sort_id s_id); [done|].
  apply StronglySorted_filter, (wf_state_ids _ Hwf).
Qed.

(** The replay of well-formed rows loses nothing. *)
Lemma replay_nums rows :
  (∀ r, r ∈ rows → is_Some (s_state r)) →
  entry_status <$> Backends.replay_rows rows = row_num <$> rows.
Proof.
  unfold Backends.replay_rows. induction rows as [|r rows IH]; [done|]. intros Hr. simpl.
  destruct (Hr r) as [st Hst]; [set_solver|]. unfold row_num at 1. rewrite Hst. simpl.
  f_equal. apply IH. set_solver.
Qed.

Lemma replay_app r1 r2 :
  Backends.replay_rows (r1 ++ r2) = Backends.replay_rows r1 ++ Backends.replay_rows r2.
Proof. apply omap_app. Qed.

Lemma history_replay id db :
  wf db → entry_status <$> Backends.replay_rows (Backends.history id db) = nums id (states db).
Proof.
  intros Hwf. rewrite history_eq by done. rewrite replay_nums; [done|].
  intros r [_ Hr]%list_elem_of_filter. by apply (wf_hist_rows _ Hwf).
Qed.

Lemma history_sorted id db :
  wf db → StronglySorted Z.lt (entry_status <$> Backends.replay_rows (Backends.history id db)).
Proof.
  intros Hwf. rewrite history_replay by done. destruct (backends db !! id) as [b|] eqn:Hb.
  - destruct (wf_rows _ Hwf _ _ Hb) as (st & Hst & _). by apply (wf_hist _ Hwf _ _ _ Hb Hst).
  - rewrite nums_fresh by done. constructor.
Qed.

Lemma last_replayed_bound (l : list (BackendState * Z)) p s :
  StronglySorted Z.lt (entry_status <$> l) → Backends.last_replayed l = Some s → p ∈ l →
  (entry_status p ≤ BackendStatus.as_int s)%Z.
Proof.
  unfold Backends.last_replayed. intros Hs (q & Hq & ->)%fmap_Some Hp.
  apply (sorted_last_max (entry_status <$> l)); [done|by rewrite fmap_last, Hq|].
  by apply list_elem_of_fmap_2.
Qed.

(** Items already seen are skipped, later ones all pass. *)
Lemma live_entries_skip last l items :
  (∀ p, p ∈ l → (entry_status p ≤ BackendStatus.as_int last)%Z) →
  Backends.live_entries (Some last) (l ++ items) = Backends.live_entries (Some last) items.
Proof.
  induction l as [|[st t] l IH]; [done|]. intros Hl. simpl.
  assert (BackendStatus.le (BackendState.status st) last = true) as ->.
  { apply BackendState.status_le_int. apply (Hl (st, t)). set_solver. }
  apply IH. set_solver.
Qed.

Lemma live_entries_all last items :
  StronglySorted Z.lt (entry_status <$> items) →
  (∀ p l, p ∈ items → last = Some l → (BackendStatus.as_int l < entry_status p)%Z) →
  Backends.live_entries last items = items.
Proof.
  revert last. induction items as [|[st t] items IH]; intros last Hs Hl; [done|]. simpl.
  destruct (match last with Some l => _ | None => false end) eqn:Hskip.
  { destruct last as [l|]; [|done]. apply BackendState.status_le_int in Hskip.
    specialize (Hl (st, t) l (list_elem_of_here _ _) eq_refl).
    unfold entry_status, BackendState.status_int in Hl. simpl in Hl. lia. }
  f_equal. inversion Hs as [|? ? Hs' Hf]; subst. apply IH; [done|].
  intros p l Hp [= <-]. rewrite Forall_fmap, Forall_forall in Hf. by apply Hf.
Qed.

(** A replayed prefix followed by a subscription that starts anywhere inside it. *)
Lemma replay_then_live (h new : list (BackendState * Z)) m :
  StronglySorted Z.lt (entry_status <$> (h ++ new)) → m ≤ length h →
  h ++ Backends.live_entries (Backends.last_replayed h) (drop m (h ++ new)) = h ++ new.
Proof.
  intros Hs Hm. f_equal. rewrite fmap_app, StronglySorted_app in Hs.
  destruct Hs as (Hlt & Hs1 & Hs2).
  rewrite drop_app_le by done. destruct (Backends.last_replayed h) as [s|] eqn:Hl.
  - rewrite live_entries_skip.
    + apply live_entries_all; [done|]. intros p l Hp [= <-].
      unfold Backends.last_replayed in Hl. apply fmap_Some in Hl as (q & Hq & ->).
      apply (Hlt (entry_status q) (entry_status p)); apply list_elem_of_fmap_2; [|done].
      by apply last_Some_elem_of.
    + intros p Hp. apply (last_replayed_bound h p s Hs1 Hl).
      by apply (subseteq_drop m).
  - unfold Backends.last_replayed in Hl. apply fmap_None, last_None in Hl as ->.
    rewrite drop_nil. by apply live_entries_all.
Qed.

(** ** Theorems on state reports and streams *)

(** State reports may arrive duplicated and in any order: delivering two lists
    with the same reports in them leaves the backend in the same status, the latest one
    reported (or the one it had), with a state that was reported; and if that is
    termination, the backend's key is gone. *)
Theorem reports_order_independent id db b st0 l l' :
  reachable db → backends db !! id = Some b → b_state b = Some st0 →
  (∀ st, st ∈ l ↔ st ∈ l') →
  ∃ b1 b2 st1 st2,
    backends (deliver id l db) !! id = Some b1 ∧ b_state b1 = Some st1 ∧
    backends (deliver id l' db) !! id = Some b2 ∧ b_state b2 = Some st2 ∧
    b_last_status b1 = b_last_status b2 ∧
    BackendState.status st1 = BackendState.status st2 ∧
    BackendState.status_int st1 = max_status (BackendState.status_int st0) l ∧
    (st1 = st0 ∨ st1 ∈ l) ∧
    (BackendState.is_terminated st1 = true →
       keys (deliver id l db) !! id = None ∧ keys (deliver id l' db) !! id = None).
Proof.
  intros Hr%reachable_wf Hb Hst Hll.
  destruct (deliver_spec id l db b st0) as (b1 & st1 & H1 & Hs1 & Hm1 & Hin1 & Hwf1); [done..|].
  destruct (deliver_spec id l' db b st0) as (b2 & st2 & H2 & Hs2 & Hm2 & Hin2 & Hwf2); [done..|].
  rewrite <- (max_status_set _ _ _ Hll), <- Hm1 in Hm2.
  apply BackendState.as_int_inj in Hm2 as Heq.
  destruct (wf_rows _ Hwf1 _ _ H1) as (? & ? & Ht1 & _), (wf_rows _ Hwf2 _ _ H2) as (? & ? & Ht2 & _).
  simplify_eq. exists b1, b2, st1, st2. split_and!; try done; [congruence|].
  intros Hterm. assert (b_last_status b1 = "terminated") as Hl1 by (rewrite Ht1; by destruct st1).
  assert (b_last_status b2 = "terminated") as Hl2 by (rewrite Ht2, Heq; by destruct st1).
  eauto using terminated_no_key.
Qed.

(** Whatever the subscription delivers, a status stream shows strictly
    increasing statuses. *)
Theorem status_stream_increasing id db received :
  reachable db →
  StronglySorted Z.lt
    ((λ e, BackendStatus.as_int (BackendState.bse_status e)) <$>
       Backends.status_stream id db received).
Proof.
  intros Hr%reachable_wf. unfold Backends.status_stream. rewrite <- list_fmap_compose.
  set (h := Backends.replay_rows _). pose proof (history_sorted id db Hr) as Hh. fold h in Hh.
  destruct (live_entries_sorted (Backends.last_replayed h) received) as [Hl Hgt].
  change (StronglySorted Z.lt (entry_status <$> (h ++ Backends.live_entries
    (Backends.last_replayed h) received))).
  rewrite fmap_app, StronglySorted_app. split_and!; [|done|done].
  intros x y (p & -> & Hp)%list_elem_of_fmap (q & -> & Hq)%list_elem_of_fmap.
  destruct (Backends.last_replayed h) as [s|] eqn:Hs.
  - pose proof (last_replayed_bound h p s Hh Hs Hp). specialize (Hgt q s Hq eq_refl). lia.
  - unfold Backends.last_replayed in Hs. apply fmap_None, last_None in Hs. rewrite Hs in Hp.
    by apply elem_of_nil in Hp.
Qed.

(** A stream misses and repeats nothing: if the history is read at
    [db], the history later is that of [db'], and the subscription (opened before the
    read) delivered every state change from the [m]-th on, [m] at most the number already
    stored, then the stream is exactly the history of [db']. *)
Theorem status_stream_complete id db db' new m :
  reachable db → reachable db' →
  Backends.history id db' = Backends.history id db ++ new →
  m ≤ length (Backends.history id db) →
  Backends.status_stream id db (drop m (Backends.replay_rows (Backends.history id db'))) =
    (λ p, BackendState.from_state p.1 p.2) <$> Backends.replay_rows (Backends.history id db').
Proof.
  intros Hr%reachable_wf Hr'%reachable_wf Hh Hm. unfold Backends.status_stream. f_equal.
  pose proof (history_sorted id db' Hr') as Hs. pose proof (history_replay id db Hr) as Hlen.
  apply (f_equal length) in Hlen. unfold nums in Hlen. rewrite !length_fmap in Hlen.
  rewrite <- (history_eq id db Hr) in Hlen. rewrite Hh in *.
  rewrite replay_app in *. apply replay_then_live; [exact Hs|]. lia.
Qed.

(** ** Routing *)

Lemma cluster_from_str_Ok s c : Types.ClusterName_from_str s = Ok c → c = s.
Proof.
  unfold Types.ClusterName_from_str. destruct (split_once _ s) as [[h p]|];
    destruct (host_parse_ok _); try done; [destruct (Types.parse_u16 p)|]; by intros [= ->].
Qed.

Lemma finish_route_Available `{!ExternalLaws} id b secret user data r st :
  row_ok b → b_state b = Some st →
  Backends.finish_route id b secret user data = Ok (Backends.Available r) →
  st = BackendState.Ready (Protocol.ri_address r) ∧ Protocol.ri_backend_id r = id ∧
  Protocol.ri_cluster r = b_cluster b ∧ Protocol.ri_secret_token r = secret ∧
  Protocol.ri_user r = user ∧ Protocol.ri_user_data r = data.
Proof.
  intros (st' & Hst' & Hls & _ & Ha) Hst. assert (st' = st) as -> by congruence. unfold Backends.finish_route.
  destruct (Backends.ready_of _) as [ready|] eqn:Hr; [|done].
  destruct (Names.try_from _ id) as [n|] eqn:Hn; [|done]. apply Names.try_from_Ok in Hn as [-> _].
  destruct (Types.ClusterName_from_str _) as [c|] eqn:Hc; [|done]. simpl.
  apply cluster_from_str_Ok in Hc as ->.
  destruct (transpose_map _ _) as [sub|]; [|done]. simpl. destruct ready; [|done].
  destruct (b_cluster_address b) as [a|] eqn:Hba; [|done].
  destruct (addr_parse a) as [sa|] eqn:Hsa; [|done]. intros [= <-]. simpl. split_and!; try done.
  destruct st; rewrite Hls in Hr; try done; simpl in *; simplify_eq.
  rewrite addr_parse_to_string in Hsa. congruence.
Qed.

Lemma find_static_Some token db id b :
  Backends.find_static token db = Some (id, b) →
  backends db !! id = Some b ∧ b_static_token b = Some token.
Proof.
  unfold Backends.find_static. intros H%head_elem%elem_of_map_to_list.
  by apply filter_lookup_inv in H.
Qed.

(** C19. A token is routed to an address only if it belongs to a backend whose
    state is ready at exactly that address: a static token to the backend that has it, any
    other token through its row, which also gives the user and the secret. *)
Theorem route_available_sound `{!ExternalLaws} token db r :
  reachable db → Backends.route_info_for_token token db = Ok (Backends.Available r) →
  ∃ b, backends db !! Protocol.ri_backend_id r = Some b ∧
    b_state b = Some (BackendState.Ready (Protocol.ri_address r)) ∧
    Protocol.ri_cluster r = b_cluster b ∧
    (if Types.is_static token
     then b_static_token b = Some token ∧ Protocol.ri_secret_token r = "" ∧ Protocol.ri_user r = None
     else ∃ t, tokens db !! token = Some t ∧ t_backend_id t = Protocol.ri_backend_id r ∧
            Protocol.ri_secret_token r = t_secret_token t ∧ Protocol.ri_user r = t_username t ∧
            Protocol.ri_user_data r = Some (t_auth t)).
Proof.
  intros Hr%reachable_wf. unfold Backends.route_info_for_token.
  destruct (Types.is_static token).
  - unfold Backends.route_info_for_static_token.
    destruct (Backends.find_static token db) as [[id b]|] eqn:Hf; [|done].
    apply find_static_Some in Hf as [Hb Hs].
    destruct (wf_rows _ Hr _ _ Hb) as (st & Hst & Hok'). intros Hfin.
    apply (finish_route_Available _ _ _ _ _ _ st) in Hfin as (Heq & Hid & ? & ? & ? & ?);
      [|by exists st|done]. exists b. rewrite Hid, <- Heq. done.
  - destruct (tokens db !! token) as [t|]; [|done].
    destruct (backends db !! t_backend_id t) as [b|] eqn:Hb; [|done].
    destruct (wf_rows _ Hr _ _ Hb) as (st & Hst & Hok'). intros Hfin.
    apply (finish_route_Available _ _ _ _ _ _ st) in Hfin as (Heq & Hid & ? & ? & ? & ?);
      [|by exists st|done]. exists b. rewrite Hid, <- Heq. split_and!; [done..|]. by exists t.
Qed.

(** What a route query answers for a backend in a given state. *)
Definition route_for_state (st : BackendState) (p : Backends.PartialRouteInfo)
  : Backends.RouteInfoResult :=
  match st with
  | BackendState.Ready a => Backends.Available (Backends.set_address p a)
  | BackendState.Scheduled | BackendState.Loading | BackendState.Starting
  | BackendState.Waiting _ => Backends.Pending p
  | _ => Backends.NotFound
  end.

(** The answer for a connection token follows the backend's state: pending
    until ready, the address once ready, nothing once it is terminating or terminated. *)
Theorem route_by_state `{!ExternalLaws} token db t b st :
  reachable db → Types.is_static token = false → tokens db !! token = Some t →
  backends db !! t_backend_id t = Some b → b_state b = Some st →
  is_ok (Names.try_from Names.BackendName (t_backend_id t)) = true →
  is_ok (Types.ClusterName_from_str (b_cluster b)) = true → b_subdomain b = None →
  Backends.route_info_for_token token db =
    Ok (route_for_state st
          {| Backends.pr_backend_id := t_backend_id t; Backends.pr_secret_token := t_secret_token t;
             Backends.pr_cluster := b_cluster b; Backends.pr_user := t_username t;
             Backends.pr_user_data := Some (t_auth t); Backends.pr_subdomain := None |}).
Proof.
  intros Hr%reachable_wf Hs Ht Hb Hst Hn Hc Hsub. unfold Backends.route_info_for_token.
  rewrite Hs, Ht, Hb. unfold Backends.finish_route.
  destruct (Names.try_from _ _) as [n|] eqn:En; [|done]. apply Names.try_from_Ok in En as [-> _].
  destruct (Types.ClusterName_from_str _) as [c|] eqn:Ec; [|done].
  apply cluster_from_str_Ok in Ec as ->. rewrite Hsub.
  destruct (wf_rows _ Hr _ _ Hb) as (st' & Hst' & Hls & _ & Ha).
  assert (st' = st) as -> by congruence. destruct st; rewrite Hls; try reflexivity. simpl. rewrite Ha. simpl.
  by rewrite addr_parse_to_string.
Qed.

(** Revoking a user's access to a backend makes exactly that user's tokens for
    that backend unroutable; every other connection token keeps its answer. *)
Theorem revoke_exact request token db :
  Types.is_static token = false →
  Backends.route_info_for_token token (Connect.revoke request db) =
    match tokens db !! token with
    | Some t =>
        if decide (t_backend_id t = Types.rr_backend_id request ∧
                   t_username t = Some (Types.rr_user request))
        then Ok Backends.NotFound
        else Backends.route_info_for_token token db
    | None => Ok Backends.NotFound
    end.
Proof.
  intros Hs. unfold Backends.route_info_for_token. rewrite Hs. simpl.
  destruct (tokens db !! token) as [t|] eqn:Ht.
  - case_decide as Hd.
    + rewrite (proj2 (map_lookup_filter_None _ _ _)); [done|]. right. intros x Hx Hn.
      simplify_eq. by apply Hn.
    + rewrite (proj2 (map_lookup_filter_Some _ _ _ t)); done.
  - rewrite (proj2 (map_lookup_filter_None _ _ _)); [done|]. by left.
Qed.

(** ** Termination candidates *)

(** The backends a drone's sweep is told to terminate are exactly its
    backends, neither only scheduled nor terminated, that have outlived their expiration
    time or been idle for longer than allowed. *)
Theorem termination_candidates_exact drone db l :
  reachable db → Backends.termination_candidates drone db = Ok l →
  ∀ id, id ∈ (Backends.tc_backend_id <$> l) ↔
    ∃ b st, backends db !! id = Some b ∧ b_state b = Some st ∧ b_drone_id b = drone ∧
      st ≠ BackendState.Scheduled ∧ BackendState.is_terminated st = false ∧
      ((∃ t, b_expiration_time b = Some t ∧ (t < clock db)%Z) ∨
       (∃ s, b_allowed_idle_seconds b = Some s ∧ (from_secs s < clock db - b_last_keepalive b)%Z)).
Proof.
  intros Hr%reachable_wf Hl%map_result_Ok id.
  assert (id ∈ (Backends.tc_backend_id <$> l) ↔
    ∃ b, backends db !! id = Some b ∧ Backends.is_candidate (clock db) drone b = true) as ->.
  { trans (∃ b, (id, b) ∈ map_to_list (filter (λ p,
      Backends.is_candidate (clock db) drone p.2 = true) (backends db))).
    - revert Hl. generalize (map_to_list (filter (λ p : string * backend_row,
        Backends.is_candidate (clock db) drone p.2 = true) (backends db))). intros rows.
      induction 1 as [|[i b] y rows l Hy _ IH]; simpl; [set_solver|].
      unfold Backends.decode_candidate in Hy. simpl in Hy.
      destruct (Names.try_from _ i) as [n|] eqn:Hn; [|done]. apply Names.try_from_Ok in Hn as [-> _].
      injection Hy as <-. simpl. rewrite elem_of_cons, IH. set_solver.
    - apply exist_proper. intros b.
      by rewrite elem_of_map_to_list, map_lookup_filter_Some. }
  split.
  - intros (b & Hb & Hc). destruct (wf_rows _ Hr _ _ Hb) as (st & Hst & Hls & _).
    unfold Backends.is_candidate in Hc. rewrite Hls in Hc. exists b, st.
    split_and!; [done|done|..]; destruct st, (b_allowed_idle_seconds b), (b_expiration_time b);
      simpl in Hc; repeat case_bool_decide; try done; eauto.
  - intros (b & st & Hb & Hst & Hd & Hs & Ht & Hor).
    exists b. split; [done|]. destruct (wf_rows _ Hr _ _ Hb) as (st' & Hst' & Hls & _).
    assert (st' = st) as -> by congruence. unfold Backends.is_candidate. rewrite Hls. rewrite bool_decide_true by done.
    rewrite bool_decide_false by (destruct st; simpl; set_solver). simpl.
    destruct Hor as [(t & -> & Ht')|(s & -> & Hi)]; rewrite bool_decide_true by done;
      [apply orb_true_r|done].
Qed.

End BackendProps.

(** ** Witnesses *)

#[local] Existing Instance ExampleExternals.example_externals.
#[local] Existing Instance ExampleExternals.example_laws.
Import Scenario.

Lemma reports_order_independent_witness :
  ∃ b1 b2 st1 st2,
    backends (deliver "b1" [BackendState.Loading; BackendState.Ready addr] db5) !! "b1" = Some b1 ∧
    b_state b1 = Some st1 ∧
    backends (deliver "b1" [BackendState.Ready addr; BackendState.Loading; BackendState.Ready addr]
                db5) !! "b1" = Some b2 ∧
    b_state b2 = Some st2 ∧ BackendState.status st1 = BackendState.status st2.
Proof.
  assert (∀ st, st ∈ [BackendState.Loading; BackendState.Ready addr] ↔
    st ∈ [BackendState.Ready addr; BackendState.Loading; BackendState.Ready addr]) as Hll.
  { generalize addr. set_solver. }
  assert (∃ b, backends db5 !! "b1" = Some b ∧ b_state b = Some BackendState.Scheduled)
    as (b & Hb & Hst) by (vm_compute; eauto).
  destruct (reports_order_independent "b1" db5 b BackendState.Scheduled
    [BackendState.Loading; BackendState.Ready addr]
    [BackendState.Ready addr; BackendState.Loading; BackendState.Ready addr]
    reachable_db5 Hb Hst Hll) as (b1 & b2 & st1 & st2 & ? & ? & ? & ? & _ & ? & _).
  exists b1, b2, st1, st2. split_and!; assumption.
Defined.

Lemma status_stream_increasing_witness :
  StronglySorted Z.lt
    ((λ e, BackendStatus.as_int (BackendState.bse_status e)) <$>
       Backends.status_stream "b1" db6 [(BackendState.Loading, 1%Z); (BackendState.Starting, 2%Z)]).
Proof. apply (status_stream_increasing "b1" db6 _ reachable_db6). Defined.

Lemma status_stream_complete_witness :
  Backends.status_stream "b1" db6 (drop 1 (Backends.replay_rows (Backends.history "b1" db7))) =
    (λ p, BackendState.from_state p.1 p.2) <$> Backends.replay_rows (Backends.history "b1" db7).
Proof.
  apply (status_stream_complete "b1" db6 db7
    [MkState 3 "b1" (Some (BackendState.Ready addr)) 0] 1 reachable_db6 reachable_db7);
    [vm_compute; reflexivity|apply Nat.leb_le; vm_compute; reflexivity].
Defined.

Definition token3 : string := Types.random_token (Connect.rd_token (rand 3)).

Lemma route_available_sound_witness :
  ∃ r b, Backends.route_info_for_token token3 db8 = Ok (Backends.Available r) ∧
    backends db8 !! Protocol.ri_backend_id r = Some b ∧
    b_state b = Some (BackendState.Ready (Protocol.ri_address r)).
Proof.
  assert (∃ r, Backends.route_info_for_token token3 db8 = Ok (Backends.Available r)) as [r Hr]
    by (vm_compute; eauto).
  destruct (route_available_sound token3 db8 r reachable_db8 Hr) as (b & ? & ? & _).
  exists r, b. split_and!; assumption.
Defined.

Lemma route_by_state_witness :
  ∃ p, Backends.route_info_for_token token3 db8 = Ok (route_for_state (BackendState.Ready addr) p).
Proof.
  assert (∃ t, tokens db8 !! token3 = Some t ∧ t_backend_id t = "b1") as (t & Ht & Hid)
    by (vm_compute; eauto).
  assert (∃ b, backends db8 !! "b1" = Some b ∧ b_state b = Some (BackendState.Ready addr) ∧
    b_cluster b = cluster ∧ b_subdomain b = None) as (b & Hb & Hst & Hc & Hs)
    by (vm_compute; eauto).
  eexists. apply (route_by_state token3 db8 t b (BackendState.Ready addr) reachable_db8);
    try assumption; rewrite ?Hid, ?Hc; [vm_compute; reflexivity|exact Hb|vm_compute; reflexivity..].
Defined.

Lemma revoke_exact_witness :
  Backends.route_info_for_token token3
    (Connect.revoke {| Types.rr_backend_id := "b1"; Types.rr_user := "u" |} db8) =
  Ok Backends.NotFound.
Proof.
  rewrite (revoke_exact {| Types.rr_backend_id := "b1"; Types.rr_user := "u" |} token3 db8);
    vm_compute; reflexivity.
Defined.

(** Ten seconds of idleness are over. *)
Definition db8_later : DB := set_clock (from_secs 11) db8.

Lemma termination_candidates_exact_witness :
  ∃ l, Backends.termination_candidates 1 db8_later = Ok l ∧ "b1" ∈ (Backends.tc_backend_id <$> l).
Proof.
  assert (reachable db8_later) as Hr.
  { eapply reachable_step; [apply reachable_db8|]. apply step_clock.
    apply Z.leb_le. vm_compute. reflexivity. }
  assert (∃ l, Backends.termination_candidates 1 db8_later = Ok l) as [l Hl] by (vm_compute; eauto).
  exists l. split; [exact Hl|].
  apply (termination_candidates_exact 1 db8_later l Hr Hl).
  assert (∃ b, backends db8_later !! "b1" = Some b ∧ b_state b = Some (BackendState.Ready addr) ∧
    b_drone_id b = 1%Z ∧ b_allowed_idle_seconds b = Some 10%Z ∧ b_last_keepalive b = 0%Z)
    as (b & Hb & Hst & Hd & Hi & Hk) by (vm_compute; eauto 10).
  exists b, (BackendState.Ready addr). split_and!; [assumption..|discriminate|reflexivity|]. right.
  exists 10%Z. split; [exact Hi|]. rewrite Hk. apply Z.ltb_lt. vm_compute. reflexivity.
Defined.
