(* ===== verification/NodeProps.v ===== *)
(** * Properties of nodes, drones, leases and actions

    Drone selection, node identity across reconnections, DNS leases, and the delivery
    of pending actions. *)

From S2P Require Import Prelude Names BackendState Types Database Keys Backends Nodes.
From S2P Require Import Connect Invariant Scenario Changes Safety.
Import Db.

Section NodeProps.
Context `{Ext : Externals}.

(** ** What a step may change in the node, lease and action tables *)

(** Nodes have one row per (cluster, name), their ids are below the sequence, and a
    drone row belongs to a node. *)
Record nodes_wf (db : DB) : Prop := {
  nw_unique : ∀ i j ni nj, nodes db !! i = Some ni → nodes db !! j = Some nj →
    is_Some (n_cluster ni) → n_cluster ni = n_cluster nj → n_name ni = n_name nj → i = j;
  nw_seq : ∀ i n, nodes db !! i = Some n → (i < node_seq db)%Z;
  nw_drone : ∀ i, is_Some (drones db !! i) → is_Some (nodes db !! i)
}.

Definition side (db : DB) := (nodes db, node_seq db, acme db).

Inductive side_change (db db' : DB) : Prop :=
| sc_same : side db' = side db → dom (drones db') = dom (drones db) → side_change db db'
| sc_register cl name kind co v h ip :
    db' = (Nodes.register cl name kind co v h ip db).1 → side_change db db'
| sc_offline id co t : db' = (Nodes.mark_offline id co t db).1 → side_change db db'
| sc_drone id ready pool : db' = (Drones.register_drone id ready pool db).1 → side_change db db'
| sc_lease cl p : db' = (Acme.lease_cluster_dns cl p db).1 → side_change db db'
| sc_dns cl p txt : db' = (Acme.set_cluster_dns cl p txt db).1 → side_change db db'
| sc_release cl p : db' = Acme.release_cluster_lease cl p db → side_change db db'.

Lemma create_action_txn_side aid id drone a db db' u :
  Actions.create_pending_action_txn aid id drone a db = Ok (db', u) →
  side db' = side db ∧ drones db' = drones db.
Proof.
  unfold Actions.create_pending_action_txn, txn_bind, emit_with_key, Actions.insert_action. simpl.
  destruct (actions db !! aid); [done|].
  destruct (backends db !! id), (drones db !! drone); try done. by intros [= <-].
Qed.

Lemma create_backend_side rand key sc cluster drone static db :
  let db' := (Connect.create_backend_with_key rand key sc cluster drone static db).1 in
  side db' = side db ∧ drones db' = drones db.
Proof.
  simpl. unfold Connect.create_backend_with_key.
  destruct (Connect.lifetime _) as [life|]; [|done].
  destruct (Connect.insert_backend_with_key _ _ _ db) as [[db1 token]|] eqn:Hins; [|done].
  apply insert_backend_with_key_Ok in Hins as (_ & _ & _ & _ & ->).
  destruct (emit_state_change _ _ _) as [[db2 []]|] eqn:Hem; [|done].
  destruct (Actions.create_pending_action_txn _ _ _ _ db2) as [[db3 []]|] eqn:Hact; [|done].
  apply create_action_txn_side in Hact as [Hs Hd]. simpl. rewrite Hs, Hd.
  rewrite emit_state_change_eq in Hem. simpl in Hem. rewrite lookup_insert_eq in Hem.
  by injection Hem as <-.
Qed.

Lemma dom_insert_present (m : gmap Z drone_row) i d d' :
  m !! i = Some d → dom (<[i := d']> m) = dom m.
Proof. intros H. rewrite dom_insert_L. apply elem_of_dom_2 in H. set_solver. Qed.

Lemma side_same db db' : side db' = side db ∧ drones db' = drones db → side_change db db'.
Proof. intros [? ?]. apply sc_same; congruence. Qed.

Lemma step_side db db' : step db db' → side_change db db'.
Proof.
  destruct 1; try (by econstructor).
  - apply side_same. rewrite update_state_eq. by crush_match.
  - apply side_same. unfold Backends.update_keepalive. by crush_match.
  - apply side_same. unfold Backends.cleanup, Backends.cleanup_txn, run_txn. by crush_match.
  - apply side_same. unfold Keys.prevent_renew. by crush_match.
  - apply side_same. unfold Keys.remove_key. by crush_match.
  - apply side_same. unfold Keys.renew_key. by crush_match.
  - apply side_same. unfold Actions.create_pending_action, run_txn.
    destruct (Actions.create_pending_action_txn _ _ _ _ db) as [[? []]|] eqn:E; [|done].
    by apply create_action_txn_side in E.
  - apply side_same. unfold Actions.ack_pending_action. by crush_match.
  - apply side_same. apply create_backend_side.
  - apply side_same. unfold Connect.create_token. by crush_match.
  - unfold Drones.drain. destruct (drones db !! id) eqn:Hd; [|by apply side_same].
    apply sc_same; [done|]. by apply (dom_insert_present _ _ _ _ Hd).
  - unfold Drones.heartbeat. destruct (drones db !! id) eqn:Hd; [|by apply side_same].
    apply sc_same; [done|]. by apply (dom_insert_present _ _ _ _ Hd).
Qed.

(** ** Node identity *)

Lemma conflicting_node_Some cl name db id n :
  Nodes.conflicting_node cl name db = Some (id, n) →
  nodes db !! id = Some n ∧ n_cluster n = cl ∧ n_name n = name.
Proof.
  destruct cl as [c|]; [|done]. simpl. intros H%head_elem%elem_of_map_to_list.
  by apply filter_lookup_inv in H as (? & ? & ?).
Qed.

Lemma conflicting_node_None c name db i n :
  Nodes.conflicting_node (Some c) name db = None → nodes db !! i = Some n →
  ¬ (n_cluster n = Some c ∧ n_name n = name).
Proof.
  simpl. intros Hn Hi Hm.
  assert ((i, n) ∈ map_to_list (filter (λ p, n_cluster p.2 = Some c ∧ n_name p.2 = name)
    (nodes db))) as Hin by (by apply elem_of_map_to_list, map_lookup_filter_Some).
  destruct (map_to_list _); [by apply elem_of_nil in Hin|done].
Qed.

Lemma nodes_wf_same db db' :
  nodes_wf db → nodes db' = nodes db → (node_seq db ≤ node_seq db')%Z →
  dom (drones db') ⊆ dom (drones db) → nodes_wf db'.
Proof.
  intros [Hu Hs Hd] Hn Hq Hdr. constructor; rewrite ?Hn; [done|..].
  - intros i n Hi. apply Hs in Hi. lia.
  - intros i Hi. apply Hd. apply elem_of_dom. apply elem_of_dom in Hi. set_solver.
Qed.

(** Replacing a row by one of the same cluster and name, or adding a row with a new one. *)
Lemma nodes_wf_insert db db' id row :
  nodes_wf db → nodes db' = <[id := row]> (nodes db) → drones db' = drones db →
  (node_seq db ≤ node_seq db')%Z → (id < node_seq db')%Z →
  (∀ i n, i ≠ id → nodes db !! i = Some n → is_Some (n_cluster row) →
     n_cluster n = n_cluster row → n_name n = n_name row → False) →
  nodes_wf db'.
Proof.
  intros [Hu Hs Hd] Hn Hdr Hq Hid Hnew. constructor; rewrite ?Hn.
  - intros i j ni nj. rewrite !lookup_insert_Some.
    intros [[<- <-]|[? Hi]] [[<- <-]|[? Hj]] Hc Hcl Hnm; [done|..|by eapply Hu].
    + exfalso. eapply (Hnew j nj); eauto.
    + exfalso. eapply (Hnew i ni); eauto. by rewrite <- Hcl.
  - intros i n. rewrite lookup_insert_Some. intros [[<- <-]|[_ Hi]]; [done|].
    apply Hs in Hi. lia.
  - intros i Hi. apply lookup_insert_is_Some'. right. apply Hd. by rewrite <- Hdr.
Qed.

(** What registering does when its controller is known. *)
Lemma register_eq cl name kind co v h ip db :
  is_Some (controllers db !! co) →
  ∃ db' id, Nodes.register cl name kind co v h ip db = (db', Ok (id, clock db)) ∧
    id = match Nodes.conflicting_node cl (Names.AnyNodeName_to_string name) db with
         | Some (id, _) => id
         | None => node_seq db
         end ∧
    nodes db' = match Nodes.conflicting_node cl (Names.AnyNodeName_to_string name) db with
      | Some (id, n) => <[id := MkNode (n_kind n) (n_name n) (n_cluster n) v h (Some co) ip
                                  (Some (clock db))]> (nodes db)
      | None => <[node_seq db := MkNode (Names.NodeKind_to_string kind)
                                   (Names.AnyNodeName_to_string name) cl v h (Some co) ip
                                   (Some (clock db))]> (nodes db)
      end ∧
    node_seq db' = (node_seq db + 1)%Z ∧ drones db' = drones db ∧ acme db' = acme db.
Proof.
  intros [c Hco]. unfold Nodes.register, Nodes.register_txn, run_txn. rewrite Hco.
  by destruct (Nodes.conflicting_node cl _ db) as [[id n]|];
    (eexists _, _; split; [reflexivity|]).
Qed.

Lemma register_None cl name kind co v h ip db :
  controllers db !! co = None →
  Nodes.register cl name kind co v h ip db = (db, Err ForeignKeyViolation).
Proof. intros Hco. unfold Nodes.register, Nodes.register_txn, run_txn. by rewrite Hco. Qed.

Lemma nodes_wf_register db cl name kind co v h ip :
  nodes_wf db → nodes_wf (Nodes.register cl name kind co v h ip db).1.
Proof.
  intros Hwf. destruct (controllers db !! co) as [c|] eqn:Hco;
    [|by rewrite register_None].
  destruct (register_eq cl name kind co v h ip db ltac:(eauto)) as (db' & id' & -> & Hid' & Hn & Hq & Hd & _).
  simpl. destruct (Nodes.conflicting_node cl _ db) as [[id n]|] eqn:Hc.
  - apply conflicting_node_Some in Hc as (Hid & Hcl & Hnm).
    eapply (nodes_wf_insert db); [done|exact Hn|done|lia|..].
    + apply (nw_seq _ Hwf) in Hid. lia.
    + simpl. intros i x Hne Hx Hs Hxc Hxn. apply Hne.
      by eapply (nw_unique _ Hwf i id); [..|rewrite Hxc| |].
  - eapply (nodes_wf_insert db); [done|exact Hn|done|lia|lia|].
    simpl. intros i x Hne Hx [c' ->] Hxc Hxn. eapply conflicting_node_None; eauto.
Qed.

Lemma nodes_wf_step db db' : step db db' → nodes_wf db → nodes_wf db'.
Proof.
  intros [Hs Hd|cl name kind co v h ip ->|id co t ->|id ready pool ->|cl p ->|cl p txt ->|cl p ->]%step_side
    Hwf.
  - injection Hs as Hn Hq _. eapply nodes_wf_same; [done..|lia|set_solver].
  - by apply nodes_wf_register.
  - unfold Nodes.mark_offline, Nodes.mark_offline_txn, run_txn, txn_bind. simpl.
    destruct (nodes db !! id) as [n|] eqn:Hn; [|by eapply (nodes_wf_same db)].
    case_decide; [|by eapply (nodes_wf_same db)]. simpl.
    eapply (nodes_wf_insert db _ id (Nodes.offline_row n)); [done|done|done|simpl; lia|..].
    + by apply (nw_seq _ Hwf) in Hn.
    + simpl. intros i x Hne Hx Hs Hxc Hxn. apply Hne.
      by eapply (nw_unique _ Hwf i id); [..|rewrite Hxc| |].
  - unfold Drones.register_drone. destruct (drones db !! id) as [d|] eqn:Hd.
    + eapply (nodes_wf_same db); [done|done|simpl; lia|]. simpl.
      by rewrite (dom_insert_present _ _ _ _ Hd).
    + destruct (nodes db !! id) as [n|] eqn:Hn; [|done].
      destruct Hwf as [? ? Hdr]. constructor; simpl; [done..|].
      intros i Hi. destruct (decide (i = id)) as [->|Hne]; [by eexists|].
      rewrite lookup_insert_ne in Hi by done. auto.
  - unfold Acme.lease_cluster_dns, Acme.write_lease. crush_match; by eapply (nodes_wf_same db).
  - unfold Acme.set_cluster_dns. crush_match; by eapply (nodes_wf_same db).
  - unfold Acme.release_cluster_lease. crush_match; by eapply (nodes_wf_same db).
Qed.

Lemma reachable_nodes_wf db : reachable db → nodes_wf db.
Proof.
  intros [now H]. assert (nodes_wf (empty_db now)) as Hwf.
  { constructor; simpl; [done..|]. by intros i [? ?]. }
  induction H; eauto using nodes_wf_step.
Qed.

(** A node that (re)connects to a cluster keeps its id: registering under a
    (cluster, name) that has a row reuses that row, otherwise takes an unused id; in both
    cases the id then looks up to the node, and no other node's row changes. *)
Theorem register_keeps_identity db c name kind co v h ip db' id t :
  reachable db → Nodes.register (Some c) name kind co v h ip db = (db', Ok (id, t)) →
  t = clock db ∧
  Nodes.get_id c (Names.AnyNodeName_to_string name) db' = Some id ∧
  match Nodes.get_id c (Names.AnyNodeName_to_string name) db with
  | Some id0 => id = id0
  | None => nodes db !! id = None
  end ∧
  (∀ i, i ≠ id → nodes db' !! i = nodes db !! i) ∧
  (∃ n, nodes db' !! id = Some n ∧ n_controller n = Some co ∧
        n_last_connection_start_time n = Some t).
Proof.
  intros Hr Hreg. pose proof (reachable_nodes_wf _ Hr) as Hwf.
  assert (nodes_wf db') as Hwf'.
  { pose proof (nodes_wf_register db (Some c) name kind co v h ip Hwf) as H'. by rewrite Hreg in H'. }
  destruct (controllers db !! co) as [ctl|] eqn:Hco; [|by rewrite register_None in Hreg].
  destruct (register_eq (Some c) name kind co v h ip db ltac:(eauto))
    as (db1 & id1 & Heq & Hid & Hn & _). rewrite Heq in Hreg. injection Hreg as -> -> <-.
  change (Nodes.get_id c (Names.AnyNodeName_to_string name) db)
    with (fst <$> Nodes.conflicting_node (Some c) (Names.AnyNodeName_to_string name) db).
  assert (∃ n, nodes db' !! id = Some n ∧ n_controller n = Some co ∧
    n_last_connection_start_time n = Some (clock db) ∧ n_cluster n = Some c ∧
    n_name n = Names.AnyNodeName_to_string name) as (n & Hnid & Hnc & Hnt & Hncl & Hnn).
  { destruct (Nodes.conflicting_node _ _ db) as [[id0 n0]|] eqn:Hc; subst id; rewrite Hn,
      lookup_insert_eq; [apply conflicting_node_Some in Hc as (? & ? & ?)|]; by eexists. }
  split_and!; [done|..|by exists n].
  - change (fst <$> Nodes.conflicting_node (Some c) (Names.AnyNodeName_to_string name) db' = Some id).
    destruct (Nodes.conflicting_node _ _ db') as [[j nj]|] eqn:Hj.
    + apply conflicting_node_Some in Hj as (Hj & Hjc & Hjn). simpl. f_equal.
      eapply (nw_unique _ Hwf' j id); eauto; congruence.
    + exfalso. by eapply conflicting_node_None.
  - destruct (Nodes.conflicting_node _ _ db) as [[id0 n0]|]; [done|]. subst id. simpl.
    destruct (nodes db !! node_seq db) eqn:Hx; [|done]. apply (nw_seq _ Hwf) in Hx. lia.
  - intros i Hne. destruct (Nodes.conflicting_node _ _ db) as [[id0 n0]|]; subst id;
      by rewrite Hn, lookup_insert_ne.
Qed.

(** A disconnection reported late is harmless: after a node has registered with
    controller [co] at time [t], marking it offline takes effect only for that very
    connection; for an earlier one the node table is unchanged. *)
Theorem stale_disconnect db cl name kind co v h ip db' id t co1 t1 :
  Nodes.register cl name kind co v h ip db = (db', Ok (id, t)) →
  nodes (Nodes.mark_offline id co1 t1 db').1 =
    if decide (co1 = co ∧ t1 = t) then alter Nodes.offline_row id (nodes db') else nodes db'.
Proof.
  intros Hreg. destruct (controllers db !! co) as [ctl|] eqn:Hco; [|by rewrite register_None in Hreg].
  destruct (register_eq cl name kind co v h ip db ltac:(eauto)) as (db1 & id1 & Heq & Hid & Hn & _).
  rewrite Heq in Hreg. injection Hreg as -> -> <-.
  assert (∃ n, nodes db' !! id = Some n ∧ n_controller n = Some co ∧
    n_last_connection_start_time n = Some (clock db)) as (n & Hnid & Hnc & Hnt).
  { destruct (Nodes.conflicting_node _ _ db) as [[id0 n0]|]; subst id; rewrite Hn,
      lookup_insert_eq; by eexists. }
  unfold Nodes.mark_offline, Nodes.mark_offline_txn, run_txn, txn_bind. simpl.
  rewrite Hnid, Hnc, Hnt. destruct (decide (co1 = co ∧ t1 = clock db)) as [[-> ->]|Hne].
  - rewrite decide_True by done. simpl. apply map_eq. intros i.
    destruct (decide (i = id)) as [->|]; [by rewrite lookup_insert_eq, lookup_alter_eq, Hnid|].
    by rewrite lookup_insert_ne, lookup_alter_ne.
  - rewrite decide_False; [done|]. intros [[= Hc] [= Ht]]. by apply Hne.
Qed.

(** ** DNS leases *)

(** A proxy's DNS lease on a cluster is exclusive for a minute: no step changes
    who holds it before it is a minute old, except its holder releasing it; a takeover
    afterwards starts a new minute. *)
Theorem acme_lease_exclusive db db' cl a :
  step db db' → acme db !! cl = Some a →
  match acme db' !! cl with
  | Some a' =>
      ac_leased_by a' = ac_leased_by a ∧ ac_leased_at a' = ac_leased_at a ∨
      (ac_leased_at a + from_secs 60 < clock db)%Z ∧ ac_leased_at a' = clock db
  | None => db' = Acme.release_cluster_lease cl (ac_leased_by a) db
  end.
Proof.
  intros [Hs Hd|cl' name kind co v h ip ->|id co t ->|id ready pool ->|cl' p ->|cl' p txt ->|cl' p ->]%step_side
    Ha.
  - injection Hs as _ _ ->. rewrite Ha. by left.
  - destruct (controllers db !! co) as [ctl|] eqn:Hco; [|rewrite register_None by done; simpl; rewrite Ha; by left].
    destruct (register_eq cl' name kind co v h ip db ltac:(eauto)) as (db1 & id1 & -> & _ & _ & _ & _ & Hac).
    simpl. rewrite Hac, Ha. by left.
  - assert (acme (Nodes.mark_offline id co t db).1 = acme db) as ->.
    { unfold Nodes.mark_offline, Nodes.mark_offline_txn, run_txn, txn_bind. simpl. by crush_match. }
    rewrite Ha. by left.
  - assert (acme (Drones.register_drone id ready pool db).1 = acme db) as ->.
    { unfold Drones.register_drone. by crush_match. }
    rewrite Ha. by left.
  - unfold Acme.lease_cluster_dns, Acme.write_lease.
    destruct (decide (cl' = cl)) as [->|Hne].
    + rewrite Ha. case_decide; simpl; [destruct (nodes db !! p); simpl;
        [rewrite lookup_insert_eq; by right|]|]; rewrite Ha; by left.
    + destruct (acme db !! cl'); [case_decide|]; simpl; try (destruct (nodes db !! p); simpl);
        rewrite ?lookup_insert_ne, ?Ha by done; by left.
  - unfold Acme.set_cluster_dns. destruct (decide (cl' = cl)) as [->|Hne].
    + rewrite Ha. case_decide; simpl; [rewrite lookup_insert_eq|rewrite Ha]; by left.
    + destruct (acme db !! cl'); [case_decide|]; simpl; rewrite ?lookup_insert_ne, ?Ha by done;
        by left.
  - unfold Acme.release_cluster_lease. destruct (decide (cl' = cl)) as [->|Hne].
    + rewrite Ha. case_decide as Hp.
      * simpl. rewrite lookup_delete_eq. by rewrite decide_True.
      * rewrite Ha. by left.
    + destruct (acme db !! cl') eqn:Ha'; [case_decide|]; simpl;
        rewrite ?lookup_delete_ne, ?Ha by done; by left.
Qed.

(** ** Choosing a drone *)

Definition spawn_candidates (cluster pool : string) (db : DB) : list (Z * string * Z * Z) :=
  omap (Drones.eligible cluster pool db) (map_to_list (nodes db)).

(** The conditions of the query, spelled out. *)
Definition fit_for_spawn (cluster pool : string) (db : DB) (id : Z) (name : string) (local : Z)
  : Prop :=
  ∃ n d c ctl hb,
    nodes db !! id = Some n ∧ n_name n = name ∧ n_cluster n = Some cluster ∧
    drones db !! id = Some d ∧ d_ready d = true ∧ d_draining d = false ∧ d_pool d = pool ∧
    d_last_local_time d = Some local ∧
    d_last_heartbeat d = Some hb ∧ (clock db - hb < from_secs 45)%Z ∧
    n_controller n = Some c ∧ controllers db !! c = Some ctl ∧ c_is_online ctl = true ∧
    (clock db - c_last_heartbeat ctl < from_secs 45)%Z.

Lemma eligible_Some cluster pool db id n r :
  nodes db !! id = Some n →
  Drones.eligible cluster pool db (id, n) = Some r ↔
  ∃ local, r = (id, n_name n, local, Drones.backend_count id db) ∧
           fit_for_spawn cluster pool db id (n_name n) local.
Proof.
  intros Hn. unfold Drones.eligible, fit_for_spawn. split.
  - destruct (drones db !! id) as [d|] eqn:Hd; [|done].
    destruct (n_controller n) as [c|] eqn:Hc; [|done]. simpl.
    destruct (controllers db !! c) as [ctl|] eqn:Hctl; [|done].
    destruct (d_last_local_time d) as [local|] eqn:Hl; [|done].
    destruct (d_last_heartbeat d) as [hb|] eqn:Hhb; simpl; [|by rewrite !andb_false_r].
    destruct (d_ready d) eqn:?, (c_is_online ctl) eqn:?, (d_draining d) eqn:?;
      rewrite ?andb_false_r; try done; repeat case_bool_decide; try done. intros [= <-].
    exists local. split; [done|]. by eexists n, d, c, ctl, hb.
  - intros (local & -> & n' & d & c & ctl & hb & Hn' & _ & Hcl & Hd & Hr & Hdr & Hp & Hl & Hhb &
      Hf & Hc & Hctl & Hon & Hf'). assert (n' = n) as -> by congruence.
    rewrite Hd, Hc. simpl. rewrite Hctl, Hl, Hr, Hdr, Hhb, Hon. simpl.
    by rewrite !bool_decide_true.
Qed.

Lemma elem_of_spawn_candidates cluster pool db id name local count :
  (id, name, local, count) ∈ spawn_candidates cluster pool db ↔
  fit_for_spawn cluster pool db id name local ∧ count = Drones.backend_count id db.
Proof.
  unfold spawn_candidates. rewrite list_elem_of_omap. split.
  - intros ([i n] & Hin%elem_of_map_to_list & He).
    apply (eligible_Some _ _ _ _ _ _ Hin) in He as (l & [= -> -> -> ->] & Hf). done.
  - intros [Hf ->]. pose proof Hf as (n & _ & _ & _ & _ & Hn & <- & _).
    exists (id, n). split; [by apply elem_of_map_to_list|]. apply eligible_Some; eauto.
Qed.

(** The drone picked for a spawn is registered in the cluster and pool, ready, not
    draining, heard from in the last 45 seconds and connected to an online controller
    heard from in the last 45 seconds; when the sample covers all such drones, none of
    them has fewer running backends. No drone is picked exactly when there is none to pick
    (or the sample size is zero). *)
Theorem pick_drone_correct shuffle cluster pool best_of db r :
  (∀ l, shuffle l ≡ₚ l) →
  Drones.pick_drone_for_spawn shuffle cluster pool best_of db = Ok r →
  match r with
  | Some d =>
      fit_for_spawn cluster pool db (Drones.ds_id d) (Drones.ds_drone d)
        (Drones.ds_last_local_time d) ∧
      ((Z.of_nat (length (spawn_candidates cluster pool db)) ≤ best_of)%Z →
       ∀ id name local, fit_for_spawn cluster pool db id name local →
         (Drones.backend_count (Drones.ds_id d) db ≤ Drones.backend_count id db)%Z)
  | None => best_of = 0%Z ∨ ∀ id name local, ¬ fit_for_spawn cluster pool db id name local
  end.
Proof.
  intros Hsh. unfold Drones.pick_drone_for_spawn. case_decide; [done|].
  fold (spawn_candidates cluster pool db).
  pose proof (Hsh (spawn_candidates cluster pool db)) as Hp.
  set (l := shuffle _) in *. destruct (min_by_key snd (take _ l)) as [[[[id name] local] cnt]|] eqn:Hm.
  - apply min_by_key_Some in Hm as [Hin Hmin].
    destruct (Names.try_from _ name) as [nm|] eqn:Hnm; [|done].
    apply Names.try_from_Ok in Hnm as [-> _]. intros [= <-]. simpl.
    assert ((id, name, local, cnt) ∈ spawn_candidates cluster pool db) as Hc.
    { rewrite <- Hp. by apply (subseteq_take (Z.to_nat best_of)). }
    apply elem_of_spawn_candidates in Hc as [Hf Hcnt]. split; [done|].
    intros Hlen id' name' local' Hf'. rewrite <- Hcnt.
    apply (Hmin (id', name', local', Drones.backend_count id' db)).
    rewrite take_ge; [|rewrite Hp; lia]. rewrite Hp. by apply elem_of_spawn_candidates.
  - intros [= <-]. apply min_by_key_None in Hm.
    destruct (decide (best_of = 0%Z)) as [->|]; [by left|right]. intros id name local Hf.
    assert ((id, name, local, Drones.backend_count id db) ∈ l) as Hin.
    { rewrite Hp. by apply elem_of_spawn_candidates. }
    destruct l as [|x l']; [by apply elem_of_nil in Hin|].
    destruct (Z.to_nat best_of) eqn:Hb; [lia|done].
Qed.

(** ** Pending actions *)

Inductive action_change (db : DB) : option action_row → option action_row → Prop :=
| ac_same o : action_change db o o
| ac_create a : a_acked_at a = None → action_change db None (Some a)
| ac_ack a : action_change db (Some a) (Some (Actions.with_acked_at (clock db) a))
| ac_delete a b : backends db !! a_backend_id a = Some b → b_last_status b = "terminated" →
    action_change db (Some a) None.

#[local] Hint Constructors action_change : plane.

Lemma create_action_txn_change aid id drone a db db0 db' u i :
  Actions.create_pending_action_txn aid id drone a db = Ok (db', u) →
  action_change db0 (actions db !! i) (actions db' !! i).
Proof.
  unfold Actions.create_pending_action_txn, txn_bind, emit_with_key, Actions.insert_action. simpl.
  destruct (actions db !! aid) eqn:Ha; [done|].
  destruct (backends db !! id), (drones db !! drone); try done. intros [= <-].
  eapply (insert_change (action_change db0)); eauto with plane.
Qed.

Lemma create_backend_change rand key sc cluster drone static db i :
  action_change db (actions db !! i)
    (actions (Connect.create_backend_with_key rand key sc cluster drone static db).1 !! i).
Proof.
  unfold Connect.create_backend_with_key.
  destruct (Connect.lifetime _) as [life|]; [|constructor].
  destruct (Connect.insert_backend_with_key _ _ _ db) as [[db1 token]|] eqn:Hins; [|constructor].
  apply insert_backend_with_key_Ok in Hins as (_ & _ & _ & _ & ->).
  destruct (emit_state_change _ _ _) as [[db2 []]|] eqn:Hem; [|constructor].
  destruct (Actions.create_pending_action_txn _ _ _ _ db2) as [[db3 []]|] eqn:Hact; [|constructor].
  rewrite emit_state_change_eq in Hem. simpl in Hem. rewrite lookup_insert_eq in Hem.
  injection Hem as <-. eapply (create_action_txn_change _ _ _ _ _ db) in Hact. exact Hact.
Qed.

Lemma step_action db db' i :
  step db db' → wf db → action_change db (actions db !! i) (actions db' !! i).
Proof.
  destruct 1; intros Hwf; try (by constructor).
  - rewrite update_state_eq. crush_match; constructor.
  - unfold Backends.update_keepalive. crush_match; constructor.
  - destruct (decide (batch < 0)%Z).
    { unfold Backends.cleanup, Backends.cleanup_txn, run_txn. rewrite decide_True by done.
      constructor. }
    rewrite cleanup_eq by (done || lia). simpl.
    destruct (filter _ (actions db) !! i) as [a|] eqn:Hf.
    + apply filter_lookup_inv in Hf as [-> _]. constructor.
    + destruct (actions db !! i) as [a|] eqn:Ha; [|constructor].
      apply map_lookup_filter_None in Hf as [Hf|Hf]; [congruence|].
      destruct (decide (a_backend_id a ∈ Backends.cleanup_selection days batch db)) as [Hin|Hin];
        [|by destruct (Hf a Ha)].
      apply cleanup_selection_spec in Hin as (b & Hb & ? & _). by econstructor.
  - unfold Keys.prevent_renew. crush_match; constructor.
  - unfold Keys.remove_key. crush_match; constructor.
  - unfold Keys.renew_key. crush_match; constructor.
  - unfold Actions.create_pending_action, run_txn.
    destruct (Actions.create_pending_action_txn _ _ _ _ db) as [[? []]|] eqn:E; [|constructor].
    by eapply create_action_txn_change in E.
  - unfold Actions.ack_pending_action. destruct (actions db !! aid) eqn:Ha; [|constructor].
    case_decide; [|constructor]. eapply (insert_change (action_change db)); eauto with plane.
  - apply create_backend_change.
  - unfold Connect.create_token. crush_match; constructor.
  - unfold Nodes.register, Nodes.register_txn, run_txn. destruct (controllers db !! co); [|constructor].
    destruct (match Nodes.conflicting_node cl _ db with Some _ => _ | None => _ end). constructor.
  - unfold Nodes.mark_offline, Nodes.mark_offline_txn, run_txn, txn_bind. simpl.
    crush_match; constructor.
  - unfold Drones.register_drone. crush_match; constructor.
  - unfold Drones.drain. crush_match; constructor.
  - unfold Drones.heartbeat. crush_match; constructor.
  - unfold Acme.lease_cluster_dns, Acme.write_lease. crush_match; constructor.
  - unfold Acme.set_cluster_dns. crush_match; constructor.
  - unfold Acme.release_cluster_lease. crush_match; constructor.
Qed.

(** A pending action is never lost: after any step it is still pending
    unchanged, or it has been acknowledged, or its backend had terminated and was cleaned
    up. *)
Theorem pending_action_kept db db' i a :
  reachable db → step db db' → actions db !! i = Some a → a_acked_at a = None →
  actions db' !! i = Some a ∨
  actions db' !! i = Some (Actions.with_acked_at (clock db) a) ∨
  (actions db' !! i = None ∧
   ∃ b, backends db !! a_backend_id a = Some b ∧ b_last_status b = "terminated").
Proof.
  intros Hr Hs Ha Hp. pose proof (step_action db db' i Hs (reachable_wf _ Hr)) as Hc.
  rewrite Ha in Hc. destruct (actions db' !! i); inversion Hc; subst; eauto 6.
Qed.

Lemma pending_rows_elem drone limit db p :
  p ∈ Actions.pending_rows drone limit db →
  actions db !! p.1 = Some p.2 ∧ Actions.is_pending drone p.
Proof.
  destruct p as [i a]. unfold Actions.pending_rows. intros Hin%subseteq_take.
  rewrite (merge_sort_Permutation Actions.created_le) in Hin.
  apply list_elem_of_filter in Hin as [? ?%elem_of_map_to_list]. done.
Qed.

(** Listing a drone's pending actions never fails: it returns the messages
    of at most [limit] of that drone's unacknowledged actions, oldest first, and all of
    them when there are no more than [limit]. *)
Theorem pending_actions_correct drone limit db :
  reachable db →
  ∃ rows, Actions.pending_actions drone limit db = Ok rows.*2 ∧
    length rows ≤ limit ∧
    StronglySorted (λ x y, (a_created_at x.2 ≤ a_created_at y.2)%Z) rows.*1 ∧
    (∀ i a m, ((i, a), m) ∈ rows →
       actions db !! i = Some a ∧ a_acked_at a = None ∧ a_action a = Some m ∧
       Protocol.bam_action_id m = i ∧ Protocol.bam_drone_id m = drone) ∧
    (length (filter (Actions.is_pending drone) (map_to_list (actions db))) ≤ limit →
     ∀ i a, actions db !! i = Some a → a_drone_id a = drone → a_acked_at a = None →
       ∃ m, ((i, a), m) ∈ rows).
Proof.
  intros Hr%reachable_wf. set (prs := Actions.pending_rows drone limit db).
  assert (∀ p, p ∈ prs → ∃ m, a_action p.2 = Some m ∧ Protocol.bam_action_id m = p.1 ∧
    Protocol.bam_drone_id m = drone) as Hdec.
  { intros p (Hp & Hd & _)%pending_rows_elem.
    destruct (wf_actions _ Hr _ _ Hp) as (_ & _ & m & ? & ? & _ & ?). exists m. by subst drone. }
  destruct (map_result_total (λ p, ok_or (a_action p.2) (Decode "action")) prs) as [ms Hms].
  { intros p (m & Hm & _)%Hdec. exists m. by rewrite Hm. }
  apply map_result_Ok in Hms as Hall.
  assert (length prs = length ms) as Hlen by by eapply Forall2_length.
  exists (zip prs ms). split_and!.
  - unfold Actions.pending_actions. fold prs. rewrite snd_zip by lia. exact Hms.
  - rewrite length_zip_with. unfold prs, Actions.pending_rows. rewrite length_take. lia.
  - rewrite fst_zip by lia. change (StronglySorted Actions.created_le prs).
    assert (Transitive Actions.created_le) by (intros x y z; unfold Actions.created_le; lia).
    assert (Total Actions.created_le) by (intros x y; unfold Actions.created_le; lia).
    unfold prs, Actions.pending_rows. eapply StronglySorted_app_1_l. rewrite take_drop.
    by apply StronglySorted_merge_sort.
  - intros i a m Hin. pose proof (elem_of_zip_l _ _ _ _ Hin) as Hp.
    destruct (pending_rows_elem _ _ _ _ Hp) as (? & ? & ?).
    destruct (Hdec _ Hp) as (m' & Hm' & ? & ?). simpl in *.
    apply list_elem_of_lookup in Hin as (k & Hk).
    apply lookup_zip_with_Some in Hk as (x & y & [= <- <-] & Hx & Hy).
    pose proof (Forall2_lookup_lr _ _ _ _ _ _ Hall Hx Hy) as Hok. simpl in Hok.
    rewrite Hm' in Hok. injection Hok as <-. done.
  - intros Hlim i a Ha Hd Hp.
    assert ((i, a) ∈ prs) as (k & Hk)%list_elem_of_lookup.
    { unfold prs, Actions.pending_rows. rewrite take_ge;
        rewrite (merge_sort_Permutation Actions.created_le); [|done].
      by apply list_elem_of_filter; (split; [|by apply elem_of_map_to_list]). }
    destruct (lookup_lt_is_Some_2 ms k) as [m Hm]; [rewrite <- Hlen; by eapply lookup_lt_Some|].
    exists m. apply (list_elem_of_lookup_2 _ k). apply lookup_zip_with_Some. by eexists _, _.
Qed.

End NodeProps.

(** ** Witnesses *)

#[local] Existing Instance ExampleExternals.example_externals.
Import Scenario.

Definition reconnected : DB * result SqlError (Z * Z) :=
  Nodes.register (Some cluster) (Names.AnyDrone drone_name) Names.Drone controller_name "2" "h"
    "127.0.0.1" db4.

Lemma register_keeps_identity_witness :
  Nodes.get_id cluster drone_name db4 = Some 1%Z ∧
  Nodes.get_id cluster drone_name reconnected.1 = Some 1%Z.
Proof.
  assert (reconnected = (reconnected.1, Ok (1%Z, 0%Z))) as Hreg by (vm_compute; reflexivity).
  split; [vm_compute; reflexivity|].
  apply (register_keeps_identity db4 cluster (Names.AnyDrone drone_name) Names.Drone
    controller_name "2" "h" "127.0.0.1" reconnected.1 1 0 reachable_db4 Hreg).
Defined.

Lemma stale_disconnect_witness :
  nodes (Nodes.mark_offline 1 controller_name 5 reconnected.1).1 = nodes reconnected.1.
Proof.
  assert (reconnected = (reconnected.1, Ok (1%Z, 0%Z))) as Hreg by (vm_compute; reflexivity).
  apply (stale_disconnect db4 (Some cluster) (Names.AnyDrone drone_name) Names.Drone
    controller_name "2" "h" "127.0.0.1" reconnected.1 1 0 controller_name 5 Hreg).
Defined.

Definition leased : DB := (Acme.lease_cluster_dns cluster 1 db4).1.

Lemma acme_lease_exclusive_witness :
  match acme (Acme.lease_cluster_dns cluster 2 leased).1 !! cluster with
  | Some a' => ac_leased_by a' = 1%Z ∧ ac_leased_at a' = 0%Z ∨
      (0 + from_secs 60 < clock leased)%Z ∧ ac_leased_at a' = clock leased
  | None => (Acme.lease_cluster_dns cluster 2 leased).1 = Acme.release_cluster_lease cluster 1 leased
  end.
Proof.
  apply (acme_lease_exclusive leased (Acme.lease_cluster_dns cluster 2 leased).1 cluster
    (MkAcme 0 1 None)); [apply step_lease|vm_compute; reflexivity].
Defined.

Lemma pick_drone_correct_witness :
  ∃ d, Drones.pick_drone_for_spawn (λ l, l) cluster "" 2 db4 = Ok (Some d) ∧
    fit_for_spawn cluster "" db4 (Drones.ds_id d) (Drones.ds_drone d)
      (Drones.ds_last_local_time d).
Proof.
  assert (Drones.pick_drone_for_spawn (λ l, l) cluster "" 2 db4 = Ok (Some drone)) as Hp
    by (vm_compute; reflexivity).
  exists drone. split; [exact Hp|].
  apply (pick_drone_correct (λ l, l) cluster "" 2 db4 (Some drone)); [reflexivity|exact Hp].
Defined.

Definition spawn_action_id : string := Names.new_random Names.BackendActionName zeros.

Lemma pending_action_kept_witness :
  ∃ a, actions db5 !! spawn_action_id = Some a ∧ a_acked_at a = None ∧
  (actions db6 !! spawn_action_id = Some a ∨
   actions db6 !! spawn_action_id = Some (Actions.with_acked_at (clock db5) a) ∨
   (actions db6 !! spawn_action_id = None ∧
    ∃ b, backends db5 !! a_backend_id a = Some b ∧ b_last_status b = "terminated")).
Proof.
  assert (∃ a, actions db5 !! spawn_action_id = Some a ∧ a_acked_at a = None) as (a & Ha & Hp)
    by (vm_compute; eauto).
  exists a. split; [exact Ha|]. split; [exact Hp|].
  apply (pending_action_kept db5 db6 spawn_action_id a reachable_db5); [|exact Ha|exact Hp].
  apply step_update_state.
Defined.

Lemma pending_actions_correct_witness :
  ∃ rows : list (string * action_row * Protocol.BackendActionMessage), Actions.pending_actions 1 10 db5 = Ok rows.*2 ∧ length rows ≤ 10.
Proof.
  destruct (pending_actions_correct 1 10 db5 reachable_db5) as (rows & ? & ? & _).
  exists rows. split; assumption.
Defined.
