(* ===== verification/ConnectProps.v ===== *)
(** * Properties of connect requests

    A connect request runs as several transactions with the rest of the system in
    between ([run_env]). Termination, refinement of the database steps, and what a
    response promises, under every interference. *)

From S2P Require Import Prelude Names BackendState Types Database Keys Backends Nodes.
From S2P Require Import Connect Invariant Scenario Changes Safety.
Import Db.

Section ConnectProps.
Context `{Ext : Externals}.

(** ** Running programs *)

(** The transactions of a run: the database before and after each. *)
Fixpoint trace_env {A} (env : nat → DB → DB) (n : nat) (p : prog A) (db : DB) : list (DB * DB) :=
  match p with
  | Ret _ => []
  | Step f => let '(db', p') := f (env n db) in (env n db, db') :: trace_env env (S n) p' db'
  end.

Lemma run_env_act {A B} env n (f : DB → DB * B) (k : B → prog A) db :
  run_env env n (act f k) db =
    run_env env (S n) (k (f (env n db)).2) (f (env n db)).1.
Proof. simpl. by destruct (f (env n db)). Qed.

Lemma trace_env_act {A B} env n (f : DB → DB * B) (k : B → prog A) db :
  trace_env env n (act f k) db =
    (env n db, (f (env n db)).1) :: trace_env env (S n) (k (f (env n db)).2) (f (env n db)).1.
Proof. simpl. by destruct (f (env n db)). Qed.

(** Sequencing runs the second program where the first one stopped. *)
Lemma run_env_bind {A B} env n (p : prog A) (k : A → prog B) db :
  let m := n + length (trace_env env n p db) in
  run_env env n (prog_bind p k) db =
    run_env env m (k (run_env env n p db).2) (run_env env n p db).1.
Proof.
  revert n db. induction p as [a|f IH] using @prog_induction; intros n db; simpl.
  { by rewrite Nat.add_0_r. }
  destruct (f (env n db)) as [db' p'] eqn:Hf. specialize (IH (env n db)). rewrite Hf in IH.
  rewrite IH. f_equal. simpl. lia.
Qed.

(** A program that only performs database steps. *)
Inductive steps_only {A} : prog A → Prop :=
| so_ret a : steps_only (Ret a)
| so_step f : (∀ db, (f db).1 = db ∨ step db (f db).1) → (∀ db, steps_only (f db).2) →
    steps_only (Step f).

Lemma so_act {A B} (f : DB → DB * B) (k : B → prog A) :
  (∀ db, (f db).1 = db ∨ step db (f db).1) → (∀ b, steps_only (k b)) → steps_only (act f k).
Proof.
  intros Hf Hk. constructor; intros db; specialize (Hf db); destruct (f db); simpl; auto.
Qed.

Lemma so_read {A B} (f : DB → result SqlError B) (k : result SqlError B → prog A) :
  (∀ b, steps_only (k b)) → steps_only (act (read f) k).
Proof. intros. apply so_act; [by left|done]. Qed.

Lemma so_bind {A B} (p : prog A) (k : A → prog B) :
  steps_only p → (∀ a, steps_only (k a)) → steps_only (prog_bind p k).
Proof.
  intros Hp Hk. induction Hp as [|f Hf _ IH]; simpl; [done|].
  constructor; intros db; specialize (Hf db); specialize (IH db); by destruct (f db).
Qed.

Lemma steps_only_run {A} env n (p : prog A) db :
  (∀ m db, rtc step db (env m db)) → steps_only p → rtc step db (run_env env n p db).1.
Proof.
  intros Henv Hp. revert n db. induction Hp as [a|f Hf _ IH]; intros n db; simpl; [done|].
  destruct (f (env n db)) as [db' p'] eqn:E. specialize (Hf (env n db)). specialize (IH (env n db)).
  rewrite E in Hf, IH. simpl in *. etrans; [apply (Henv n)|].
  destruct Hf as [Heq|Hs]; [rewrite <- Heq at 1; apply IH|]. eapply rtc_l; [exact Hs|apply IH].
Qed.

(** ** The steps of a connect request *)

#[local] Hint Constructors steps_only : plane.

Lemma so_with_token rand static backend request k :
  steps_only (Connect.with_token rand static backend request k).
Proof.
  destruct static; simpl; [constructor|]. apply so_act; [|auto with plane].
  intros db. right. apply step_create_token.
Qed.

Lemma so_spawn_new default_cluster request client best_of rand key :
  steps_only (Connect.spawn_new default_cluster request client best_of rand key).
Proof.
  unfold Connect.spawn_new. destruct (Types.cr_spawn_config request) as [sc|]; [|constructor].
  assert (∀ cluster, steps_only (Connect.spawn_in request client best_of rand key sc cluster)).
  { intros cluster. apply so_read. intros [[drone|]|e]; [|constructor..].
    apply so_act; [right; apply step_create_backend|].
    intros [id|e]; [apply so_with_token|constructor]. }
  destruct (Types.sc_cluster sc), default_cluster; [done..|constructor].
Qed.

Lemma so_attempt default_cluster request client best_of rand :
  steps_only (Connect.attempt_connect default_cluster request client best_of rand).
Proof.
  unfold Connect.attempt_connect. destruct (Types.cr_key request); [|apply so_spawn_new].
  apply so_read. intros [[kr|]|e]; [|apply so_spawn_new|constructor].
  destruct (Keys.is_live kr).
  - case_decide; [constructor|apply so_with_token].
  - apply so_act; [intros db; right; apply step_remove_key|].
    intros [[]|e]; [apply so_spawn_new|constructor..].
Qed.

Lemma so_connect_loop fuel attempt default_cluster request client best_of rands :
  steps_only (Connect.connect_loop fuel attempt default_cluster request client best_of rands).
Proof.
  revert attempt. induction fuel as [|fuel IH]; intros attempt; simpl; [constructor|].
  apply so_bind; [apply so_attempt|]. intros [resp|e]; [constructor|].
  destruct (negb _ || _); [constructor|apply IH].
Qed.

(** Refinement: whatever the rest of the system does between the
    transactions of a connect request, the run as a whole is a sequence of database
    steps, so every invariant of the step relation holds after it (and after each of its
    transactions). *)
Theorem connect_refines_steps env db default_cluster request client best_of rands :
  (∀ n db, rtc step db (env n db)) →
  rtc step db
    (run_env env 0 (Connect.connect default_cluster request client best_of rands) db).1.
Proof. intros Henv. apply steps_only_run; [done|]. apply so_connect_loop. Qed.

(** ** Termination of the retry loop *)

(** What a loop that starts at attempt [attempt] makes of the result of that attempt. *)
Lemma connect_loop_S fuel attempt default_cluster request client best_of rands env n db :
  let p := Connect.attempt_connect default_cluster request client best_of (rands attempt) in
  let m := n + length (trace_env env n p db) in
  run_env env n
    (Connect.connect_loop (S fuel) attempt default_cluster request client best_of rands) db =
  match run_env env n p db with
  | (db', Ok resp) => (db', Some (Ok resp))
  | (db', Err e) =>
      if negb (Connect.retryable e) || (3 <=? attempt) then (db', Some (Err e))
      else run_env env m
             (Connect.connect_loop fuel (S attempt) default_cluster request client best_of rands) db'
  end.
Proof.
  intros p m. cbn [Connect.connect_loop]. rewrite run_env_bind. fold p m.
  destruct (run_env env n p db) as [db' [resp|e]]; [done|]. cbn [fst snd].
  by destruct (negb (Connect.retryable e) || _).
Qed.

Lemma connect_loop_total fuel attempt default_cluster request client best_of rands env n db :
  4 ≤ fuel + attempt → attempt ≤ 3 →
  ∃ db' r, run_env env n
    (Connect.connect_loop fuel attempt default_cluster request client best_of rands) db =
    (db', Some r).
Proof.
  revert attempt n db. induction fuel as [|fuel IH]; intros attempt n db Hf Ha; [lia|].
  rewrite connect_loop_S.
  destruct (run_env env n _ db) as [db' [resp|e]]; [by eexists _, _|].
  destruct (negb (Connect.retryable e)); [by eexists _, _|]. cbn [orb].
  destruct (3 <=? attempt) eqn:H3; [by eexists _, _|]. apply IH; lia.
Qed.

(** C12. A connect request always ends with an answer, whatever the rest of
    the system does meanwhile: three attempts suffice. An error is reported at once
    unless it is one of the two retryable ones, so the answer is that of the first
    attempt when that succeeds or fails otherwise. *)
Theorem connect_total env db default_cluster request client best_of rands :
  ∃ db' r,
    run_env env 0 (Connect.connect default_cluster request client best_of rands) db =
      (db', Some r) ∧
    match run_env env 0
            (Connect.attempt_connect default_cluster request client best_of (rands 1)) db with
    | (db1, Ok resp) => db' = db1 ∧ r = Ok resp
    | (db1, Err e) => Connect.retryable e = false → db' = db1 ∧ r = Err e
    end.
Proof.
  unfold Connect.connect.
  destruct (connect_loop_total 3 1 default_cluster request client best_of rands env 0 db)
    as (db' & r & Hr); [lia..|]. exists db', r. split; [done|].
  rewrite connect_loop_S in Hr. destruct (run_env env 0 _ db) as [db1 [resp|e]].
  - by injection Hr as -> ->.
  - intros He. rewrite He in Hr. by injection Hr as -> ->.
Qed.

(** ** What a response promises *)

Lemma trace_env_bind {A B} env n (p : prog A) (k : A → prog B) db :
  let m := n + length (trace_env env n p db) in
  trace_env env n (prog_bind p k) db =
    trace_env env n p db ++ trace_env env m (k (run_env env n p db).2) (run_env env n p db).1.
Proof.
  revert n db. induction p as [a|f IH] using @prog_induction; intros n db; simpl.
  { by rewrite Nat.add_0_r. }
  destruct (f (env n db)) as [db' p'] eqn:Hf. specialize (IH (env n db)). rewrite Hf in IH.
  rewrite IH. simpl. by rewrite Nat.add_succ_r.
Qed.

(** The key the request asks for, with its attempt's random name when it has none. *)
Definition requested_key (request : ConnectRequest) (rand : Connect.Rand) : KeyConfig :=
  default (Types.KeyConfig_new_random (Connect.rd_key rand)) (Types.cr_key request).

(** The backend of the response held the live key, with the right tag, at [db]. *)
Definition found (key : KeyConfig) (resp : ConnectResponse) (db : DB) : Prop :=
  Types.resp_spawned resp = false ∧
  ∃ k, Keys.find_key (Types.key_name key) (Types.key_namespace key) db =
         Some (Types.resp_backend_id resp, k) ∧
       (clock db < k_expires_at k)%Z ∧ k_tag k = Types.key_tag key.

(** The transaction from [pre] to [post] created the backend of the response and gave it
    the free key. *)
Definition acquired (key : KeyConfig) (resp : ConnectResponse) (pre post : DB) : Prop :=
  Types.resp_spawned resp = true ∧
  Keys.find_key (Types.key_name key) (Types.key_namespace key) pre = None ∧
  backends pre !! Types.resp_backend_id resp = None ∧
  is_Some (backends post !! Types.resp_backend_id resp) ∧
  keys post !! Types.resp_backend_id resp = Some (Connect.initial_key (clock pre) key).

(** The token of the response leads to its backend. *)
Definition issued (request : ConnectRequest) (resp : ConnectResponse) (db : DB) : Prop :=
  (∃ t, tokens db !! Types.resp_token resp = Some t ∧
        t_backend_id t = Types.resp_backend_id resp ∧ t_username t = Types.cr_user request ∧
        t_auth t = JObj (Types.cr_auth request) ∧
        Types.resp_secret_token resp = Some (t_secret_token t) ∧
        t_expiration_time t = (clock db + from_secs 3600)%Z) ∨
  (Types.resp_secret_token resp = None ∧
   ∃ b, backends db !! Types.resp_backend_id resp = Some b ∧
        b_static_token b = Some (Types.resp_token resp)).

(** Obtaining the token, for a response built from the backend and the token. *)
Lemma with_token_run env n rand static backend request k db db' resp :
  (∀ t s, Types.resp_backend_id (k t s) = backend ∧ Types.resp_token (k t s) = t ∧
          Types.resp_secret_token (k t s) = s) →
  (∀ t, static = Some t → ∃ b, backends db !! backend = Some b ∧ b_static_token b = Some t) →
  run_env env n (Connect.with_token rand static backend request k) db = (db', Ok resp) →
  issued request resp db' ∧ ∃ t s, resp = k t s.
Proof.
  intros Hk Hst. destruct static as [t|].
  - simpl. intros [= <- <-]. destruct (Hk t None) as (Hb & Ht & Hs). split; [|by eexists _, _].
    right. rewrite Hb, Ht. auto.
  - unfold Connect.with_token. rewrite run_env_act. unfold Connect.create_token.
    destruct (tokens _ !! _); [done|]. destruct (backends (env n db) !! backend); [|done].
    simpl. intros [= <- <-]. split; [|by eexists _, _]. left.
    destruct (Hk (Types.random_token (Connect.rd_token rand))
      (Some (Types.random_token (Connect.rd_secret rand)))) as (-> & -> & ->).
    simpl. rewrite lookup_insert_eq. by eexists.
Qed.

Lemma spawn_in_run env n request client best_of rand key sc cluster db db' resp :
  run_env env n (Connect.spawn_in request client best_of rand key sc cluster) db = (db', Ok resp) →
  issued request resp db' ∧
  ∃ pre post,
    (pre, post) ∈ trace_env env n (Connect.spawn_in request client best_of rand key sc cluster) db ∧
    acquired key resp pre post.
Proof.
  unfold Connect.spawn_in. rewrite run_env_act, trace_env_act. simpl.
  destruct (Drones.pick_drone_for_spawn _ _ _ _ _) as [[drone|]|]; [|done..].
  set (static := if Types.sc_use_static_token sc then _ else _).
  set (db1 := env n db). rewrite run_env_act, trace_env_act.
  set (db2 := env (S n) db1).
  destruct (create_backend_tables rand key sc cluster drone static db2)
    as [[_ [e ->]]|(life & -> & Hb & Hk & Hf & _ & Hbs & Hks)]; [done|].
  set (id := Names.or_random _ _ _) in *. intros Hrun.
  apply with_token_run in Hrun as [Hi (t & s & ->)]; [|done|].
  - split; [done|]. exists db2, (Connect.create_backend_with_key rand key sc cluster drone static db2).1.
    split; [set_solver|]. unfold acquired. simpl. rewrite Hbs, Hks, !lookup_insert_eq.
    split_and!; by eauto.
  - intros t Ht. rewrite Hbs, lookup_insert_eq. by eexists.
Qed.

Lemma spawn_new_run env n default_cluster request client best_of rand key db db' resp :
  run_env env n (Connect.spawn_new default_cluster request client best_of rand key) db =
    (db', Ok resp) →
  issued request resp db' ∧
  ∃ pre post,
    (pre, post) ∈ trace_env env n (Connect.spawn_new default_cluster request client best_of rand key) db ∧
    acquired key resp pre post.
Proof.
  unfold Connect.spawn_new. destruct (Types.cr_spawn_config request) as [sc|]; [|done].
  destruct (Types.sc_cluster sc), default_cluster; [apply spawn_in_run..|done].
Qed.

(** What a successful key check read. *)
Lemma check_key_Ok key db kr :
  Keys.check_key key db = Ok (Some kr) →
  ∃ k b, Keys.find_key (Types.key_name key) (Types.key_namespace key) db = Some (Keys.kr_id kr, k) ∧
    backends db !! Keys.kr_id kr = Some b ∧
    Keys.kr_static_connection_token kr = b_static_token b ∧
    Keys.kr_tag kr = k_tag k ∧ Keys.kr_expires_at kr = k_expires_at k ∧ Keys.kr_as_of kr = clock db.
Proof.
  unfold Keys.check_key. destruct (Keys.find_key _ _ db) as [[id k]|] eqn:Hf; [|done].
  destruct (backends db !! id) as [b|] eqn:Hb; [|done].
  destruct (Names.try_from _ id) as [nm|] eqn:Hn; [|done]. apply Names.try_from_Ok in Hn as [-> _].
  simpl. destruct (BackendStatus.try_from _); [|done]. simpl.
  destruct (Types.ClusterName_from_str _); [|done]. simpl.
  destruct (transpose_map _ _); [|done]. intros [= <-]. simpl. by eexists _, _.
Qed.

Lemma attempt_run env n default_cluster request client best_of rand db db' resp :
  let p := Connect.attempt_connect default_cluster request client best_of rand in
  run_env env n p db = (db', Ok resp) →
  issued request resp db' ∧
  ∃ pre post, (pre, post) ∈ trace_env env n p db ∧
    (found (requested_key request rand) resp pre ∨ acquired (requested_key request rand) resp pre post).
Proof.
  simpl. unfold Connect.attempt_connect, requested_key.
  destruct (Types.cr_key request) as [key|]; simpl.
  2: { intros (Hi & pre & post & ? & ?)%spawn_new_run. split; [done|]. exists pre, post. auto. }
  destruct (Keys.check_key key (env n db)) as [[kr|]|e] eqn:Hck; [|..|done].
  2: { intros (Hi & pre & post & ? & ?)%spawn_new_run. split; [done|]. exists pre, post. set_solver. }
  apply check_key_Ok in Hck as (k & b & Hf & Hb & Hst & Htag & Hex & Has).
  destruct (Keys.is_live kr) eqn:Hlive.
  - case_decide as Ht; [done|]. intros Hrun.
    apply with_token_run in Hrun as [Hi (t & s & ->)]; [|done|].
    + split; [done|]. exists (env n db), (env n db). split; [set_solver|]. left.
      split; [done|]. exists k. simpl. unfold Keys.is_live in Hlive.
      apply bool_decide_eq_true in Hlive. rewrite Hex, Has in Hlive. split_and!; [done..|congruence].
    + intros t Heq. exists b. by rewrite <- Hst.
  - rewrite run_env_act, trace_env_act.
    destruct (Keys.remove_key _ _) as [db1 [[]|e]]; [|done..].
    intros (Hi & pre & post & ? & ?)%spawn_new_run. split; [done|]. exists pre, post. set_solver.
Qed.

Lemma connect_loop_run fuel attempt default_cluster request client best_of rands env n db db' resp :
  let p := Connect.connect_loop fuel attempt default_cluster request client best_of rands in
  run_env env n p db = (db', Some (Ok resp)) →
  issued request resp db' ∧
  ∃ i pre post, (pre, post) ∈ trace_env env n p db ∧
    (found (requested_key request (rands i)) resp pre ∨
     acquired (requested_key request (rands i)) resp pre post).
Proof.
  revert attempt n db. induction fuel as [|fuel IH]; intros attempt n db; [done|].
  cbn [Connect.connect_loop]. rewrite run_env_bind, trace_env_bind.
  pose proof (attempt_run env n default_cluster request client best_of (rands attempt) db) as Hatt.
  simpl in Hatt. destruct (run_env env n _ db) as [db1 [r|e]]; cbn [fst snd].
  - intros [= -> ->]. destruct (Hatt _ _ eq_refl) as (Hi & pre & post & ? & ?).
    split; [done|]. exists attempt, pre, post. set_solver.
  - destruct (negb (Connect.retryable e) || _); [done|]. intros Hrun%IH.
    destruct Hrun as (Hi & i & pre & post & ? & ?). split; [done|]. exists i, pre, post. set_solver.
Qed.

(** C6. What a successful connect response means, under any interference: at
    one of the request's transactions the backend of the response either was the live
    holder of the requested key with the requested tag ([spawned] false), or was created
    and given the key, which nobody held ([spawned] true); and when the response is
    returned, its token leads to that backend, for the requesting user and with the secret
    of the response. *)
Theorem connect_response_sound env db db' default_cluster request client best_of rands resp :
  let p := Connect.connect default_cluster request client best_of rands in
  run_env env 0 p db = (db', Some (Ok resp)) →
  issued request resp db' ∧
  ∃ i pre post, (pre, post) ∈ trace_env env 0 p db ∧
    (found (requested_key request (rands i)) resp pre ∨
     acquired (requested_key request (rands i)) resp pre post).
Proof. apply connect_loop_run. Qed.

(** A key held under another tag is refused: the request fails with the two tags,
    nothing is created and the database is as it was. *)
Theorem held_key_refused db default_cluster request client best_of rands key id k b :
  reachable db →
  Types.cr_key request = Some key →
  keys db !! id = Some k → k_name k = Types.key_name key → k_namespace k = Types.key_namespace key →
  (clock db < k_expires_at k)%Z → k_tag k ≠ Types.key_tag key →
  backends db !! id = Some b → is_ok (Names.try_from Names.BackendName id) = true →
  is_ok (Types.ClusterName_from_str (b_cluster b)) = true → b_subdomain b = None →
  run (Connect.connect default_cluster request client best_of rands) db =
    (db, Some (Err (Connect.KeyHeld (Types.key_tag key) (k_tag k)))).
Proof.
  intros Hr%reachable_wf Hkey Hk Hn Hns Hlive Htag Hb Hid Hcl Hsub.
  assert (Keys.find_key (Types.key_name key) (Types.key_namespace key) db = Some (id, k)) as Hf
    by by apply find_key_iff.
  destruct (wf_rows _ Hr _ _ Hb) as (st & _ & Hls & _).
  destruct (Names.try_from _ id) as [nm|] eqn:En; [|done].
  destruct (Types.ClusterName_from_str _) as [c|] eqn:Ec; [|done].
  unfold run, Connect.connect. rewrite connect_loop_S.
  unfold Connect.attempt_connect. rewrite Hkey, run_env_act. unfold read, Keys.check_key.
  rewrite Hf, Hb, En, Hls, BackendState.status_try_from_to_string, Ec, Hsub. simpl.
  unfold Keys.is_live. simpl. rewrite bool_decide_true by done. by rewrite decide_True.
Qed.

(** Two concurrent spawns for one key cannot both succeed: creating a backend
    for a key that is held, even by an expired lease, changes nothing and reports that the
    key could not be acquired, which makes the request try again. *)
Theorem create_backend_exclusive rand key sc cluster drone static db holder life :
  Connect.lifetime (Types.sc_lifetime_limit_seconds sc) = Ok life →
  Keys.find_key (Types.key_name key) (Types.key_namespace key) db = Some holder →
  Connect.create_backend_with_key rand key sc cluster drone static db =
    (db, Err Connect.FailedToAcquireKey) ∧
  Connect.retryable Connect.FailedToAcquireKey = true.
Proof.
  intros Hlife Hf. split; [|done]. unfold Connect.create_backend_with_key.
  rewrite Hlife. unfold Connect.insert_backend_with_key. simpl. rewrite Hf.
  set (id := Names.or_random _ _ _). by destruct (backends db !! id), (keys db !! id).
Qed.

End ConnectProps.

(** ** Witnesses *)

#[local] Existing Instance ExampleExternals.example_externals.
Import Scenario.

(** Another client's keepalive between any two transactions. *)
Definition busy (n : nat) (db : DB) : DB := (Backends.update_keepalive "b1" db).1.

Lemma connect_refines_steps_witness :
  rtc step db4 (run_env busy 0 (Connect.connect None request client 2 rand) db4).1.
Proof.
  apply (connect_refines_steps busy db4 None request client 2 rand).
  intros n db. apply rtc_once, step_keepalive.
Defined.

Lemma connect_response_sound_witness :
  ∃ db' resp, run_env busy 0 (Connect.connect None request client 2 rand) db4 =
    (db', Some (Ok resp)) ∧ Types.resp_spawned resp = true ∧ issued request resp db'.
Proof.
  destruct (run_env busy 0 (Connect.connect None request client 2 rand) db4) as [db' r] eqn:Hrun.
  assert (∃ resp, (run_env busy 0 (Connect.connect None request client 2 rand) db4).2 = Some (Ok resp)
    ∧ Types.resp_spawned resp = true) as (resp & Hr & Hs) by (vm_compute; eauto).
  rewrite Hrun in Hr. simpl in Hr. subst r. exists db', resp.
  split; [reflexivity|]. split; [exact Hs|].
  apply (connect_response_sound busy db4 db' None request client 2 rand resp Hrun).
Defined.

Definition other_tag : ConnectRequest :=
  {| Types.cr_key := Some {| Types.key_name := "doc"; Types.key_namespace := "ns";
                             Types.key_tag := "other" |};
     Types.cr_spawn_config := Some spawn_config; Types.cr_user := None; Types.cr_auth := [] |}.

Lemma held_key_refused_witness :
  run (Connect.connect None other_tag client 2 rand) db6 =
    (db6, Some (Err (Connect.KeyHeld "other" "t"))).
Proof.
  assert (∃ b, backends db6 !! "b1" = Some b ∧ b_cluster b = cluster ∧ b_subdomain b = None)
    as (b & Hb & Hc & Hs) by (vm_compute; eauto).
  apply (held_key_refused db6 None other_tag client 2 rand
    {| Types.key_name := "doc"; Types.key_namespace := "ns"; Types.key_tag := "other" |}
    "b1" (MkKey "ns" "doc" "t" 60000000 0 true) b reachable_db6);
    try (vm_compute; reflexivity); [discriminate|exact Hb|rewrite Hc; vm_compute; reflexivity|exact Hs].
Defined.

Lemma create_backend_exclusive_witness :
  Connect.create_backend_with_key (rand 5) key spawn_config cluster drone None db6 =
    (db6, Err Connect.FailedToAcquireKey) ∧
  Connect.retryable Connect.FailedToAcquireKey = true.
Proof.
  apply (create_backend_exclusive (rand 5) key spawn_config cluster drone None db6
    ("b1", MkKey "ns" "doc" "t" 60000000 0 true) (Some (from_secs 100))); vm_compute; reflexivity.
Defined.
