(* ===== verification/Takeover.v ===== *)
(** * A lost holder is replaced

    The other side of the lock: when the holder of a key has not renewed it until the end of its
    lease, a connect request for the key succeeds at its first attempt. *)

From S2P Require Import Prelude Names BackendState Types Database Keys Backends Nodes.
From S2P Require Import Connect Invariant Scenario Changes Safety NodeProps ConnectProps.
Import Db.

Section Takeover.
Context `{Ext : Externals}.

(** The id of the backend that a connect request makes. *)
Definition spawn_id (rand : Connect.Rand) (sc : SpawnConfig) : string :=
  Names.or_random Names.BackendName (Types.sc_id sc) (Connect.rd_backend rand).
Definition new_action_id (rand : Connect.Rand) : string :=
  Names.new_random Names.BackendActionName (Connect.rd_action rand).
Definition static_token (rand : Connect.Rand) (sc : SpawnConfig) : option string :=
  if Types.sc_use_static_token sc then Some (Types.new_random_static (Connect.rd_static rand)) else None.

(** The names that an attempt makes up are not in use. *)
Record unused (rand : Connect.Rand) (sc : SpawnConfig) (d : DB) : Prop := {
  un_backend : backends d !! spawn_id rand sc = None;
  un_action : actions d !! new_action_id rand = None;
  un_token : tokens d !! Types.random_token (Connect.rd_token rand) = None
}.

#[local] Arguments spawn_id : simpl never.
#[local] Arguments new_action_id : simpl never.

(** The spawn of the backend is pending for the drone. *)
Definition spawn_pending (rand : Connect.Rand) (key : KeyConfig) (sc : SpawnConfig)
    (p : Drones.DroneForSpawn) (d : DB) : Prop :=
  ∃ a m token, actions d !! new_action_id rand = Some a ∧ a_drone_id a = Drones.ds_id p ∧
    a_acked_at a = None ∧ a_action a = Some m ∧ Protocol.bam_backend_id m = spawn_id rand sc ∧
    Protocol.bam_action m = Connect.spawn_action key token (Drones.ds_last_local_time p) sc
                              (static_token rand sc).

(** A drone is found where there is one. *)
Lemma pick_succeeds shuffle cluster pool best_of d id name local :
  (∀ l, shuffle l ≡ₚ l) → (0 < best_of)%Z → fit_for_spawn cluster pool d id name local →
  (∀ id name local, fit_for_spawn cluster pool d id name local →
     is_ok (Names.try_from Names.DroneName name) = true) →
  ∃ p, Drones.pick_drone_for_spawn shuffle cluster pool best_of d = Ok (Some p) ∧
    fit_for_spawn cluster pool d (Drones.ds_id p) (Drones.ds_drone p) (Drones.ds_last_local_time p).
Proof.
  intros Hsh Hbest Hfit Hnames.
  destruct (Drones.pick_drone_for_spawn shuffle cluster pool best_of d) as [[p|]|e] eqn:Hp.
  - apply pick_drone_correct in Hp as [Hf _]; [|done]. by exists p.
  - apply pick_drone_correct in Hp as [?|Hno]; [lia| |done]. by destruct (Hno _ _ _ Hfit).
  - exfalso. revert Hp. unfold Drones.pick_drone_for_spawn. rewrite decide_False by lia.
    fold (spawn_candidates cluster pool d).
    destruct (min_by_key snd _) as [[[[i nm] lc] cnt]|] eqn:Hm; [|done].
    apply min_by_key_Some in Hm as [Hin _].
    assert ((i, nm, lc, cnt) ∈ spawn_candidates cluster pool d) as [Hf _]%elem_of_spawn_candidates.
    { rewrite <- (Hsh (spawn_candidates cluster pool d)).
      by apply (subseteq_take (Z.to_nat best_of)). }
    specialize (Hnames _ _ _ Hf). by destruct (Names.try_from _ nm).
Qed.

(** The transaction for a free key. *)
Lemma create_succeeds rand key sc cluster p static d life :
  wf d → Connect.lifetime (Types.sc_lifetime_limit_seconds sc) = Ok life → unused rand sc d →
  Keys.find_key (Types.key_name key) (Types.key_namespace key) d = None →
  is_Some (Db.drones d !! Drones.ds_id p) →
  ∃ d', Connect.create_backend_with_key rand key sc cluster p static d = (d', Ok (spawn_id rand sc)) ∧
    is_Some (backends d' !! spawn_id rand sc) ∧ tokens d' = tokens d ∧
    keys d' = <[spawn_id rand sc := Connect.initial_key (clock d) key]> (keys d) ∧
    actions d' !! new_action_id rand =
      Some (MkAction (spawn_id rand sc) (Drones.ds_id p)
        (Some {| Protocol.bam_action_id := new_action_id rand;
                 Protocol.bam_backend_id := spawn_id rand sc;
                 Protocol.bam_drone_id := Drones.ds_id p;
                 Protocol.bam_action :=
                   Connect.spawn_action key (Connect.fencing_token (clock d))
                     (Drones.ds_last_local_time p) sc static |})
        (clock d) None).
Proof.
  intros Hwf Hlife [Hb Ha _] Hf [dr Hd]. unfold Connect.create_backend_with_key. rewrite Hlife.
  fold (spawn_id rand sc) (new_action_id rand). unfold Connect.insert_backend_with_key.
  assert (keys d !! spawn_id rand sc = None) as Hk.
  { destruct (keys d !! spawn_id rand sc) eqn:Hk; [|done].
    destruct (wf_key_alive _ Hwf _ _ Hk) as (r & st & Hr & _). congruence. }
  rewrite Hb, Hk. cbn [Connect.initial_key k_name k_namespace]. rewrite Hf. cbn. rewrite Hd.
  rewrite emit_state_change_eq. cbn. rewrite lookup_insert_eq. cbn.
  unfold Actions.create_pending_action_txn, txn_bind, emit_with_key, emit_impl, Actions.insert_action.
  cbn. rewrite Ha, lookup_insert_eq, Hd. cbn. eexists. split; [reflexivity|]. cbn.
  rewrite !lookup_insert_eq. by split_and!.
Qed.

Notation alone := (λ (_ : nat) (d : DB), d).

(** Obtaining the token of a backend that is there. *)
Lemma with_token_succeeds n rand static backend request k d :
  is_Some (backends d !! backend) → tokens d !! Types.random_token (Connect.rd_token rand) = None →
  ∃ d' t sec, run_env alone n (Connect.with_token rand static backend request k) d = (d', Ok (k t sec)) ∧
    keys d' = keys d ∧ actions d' = actions d ∧ backends d' = backends d.
Proof.
  intros [b Hb] Ht. destruct static as [t|]; [by eexists d, t, None|].
  unfold Connect.with_token. rewrite run_env_act. unfold Connect.create_token. rewrite Ht, Hb.
  by eexists _, _, _.
Qed.

(** An expired key is removed, and nobody holds it then. *)
Lemma remove_expired d id k : wf d → keys d !! id = Some k → (k_expires_at k < clock d)%Z →
  Keys.remove_key id d = (set_keys (delete id (keys d)) d, Ok true) ∧
  Keys.find_key (k_name k) (k_namespace k) (set_keys (delete id (keys d)) d) = None.
Proof.
  intros Hwf Hk Hexp. split; [unfold Keys.remove_key; by rewrite Hk, decide_True|].
  by eapply find_key_deleted.
Qed.

(** What the first query finds of a key, when its rows can be read. *)
Lemma check_key_found key d id k b :
  wf d → keys d !! id = Some k → k_name k = Types.key_name key → k_namespace k = Types.key_namespace key →
  backends d !! id = Some b → is_ok (Names.try_from Names.BackendName id) = true →
  is_ok (Types.ClusterName_from_str (b_cluster b)) = true → b_subdomain b = None →
  ∃ r, Keys.check_key key d = Ok (Some r) ∧ Keys.kr_id r = id ∧ Keys.kr_expires_at r = k_expires_at k ∧
    Keys.kr_as_of r = clock d.
Proof.
  intros Hwf Hk Hn Hns Hb Hid Hcl Hsub. unfold Keys.check_key.
  assert (Keys.find_key (Types.key_name key) (Types.key_namespace key) d = Some (id, k)) as ->
    by by apply find_key_iff.
  destruct (wf_rows _ Hwf _ _ Hb) as (st & _ & Hls & _).
  destruct (Names.try_from _ id) as [nm|] eqn:En; [|done]. apply Names.try_from_Ok in En as [-> _].
  destruct (Types.ClusterName_from_str _) as [c|] eqn:Ec; [|done].
  rewrite Hb, Hls, BackendState.status_try_from_to_string, Ec, Hsub. cbn. by eexists.
Qed.

(** The second half of an attempt, for a free key. *)
Lemma spawn_new_succeeds n default_cluster request client best_of rand key sc cluster d id name local life :
  wf d → Types.cr_spawn_config request = Some sc →
  match Types.sc_cluster sc with Some c => Some c | None => default_cluster end = Some cluster →
  Connect.lifetime (Types.sc_lifetime_limit_seconds sc) = Ok life → unused rand sc d →
  Keys.find_key (Types.key_name key) (Types.key_namespace key) d = None →
  (∀ l, Connect.rd_shuffle rand l ≡ₚ l) → (0 < best_of)%Z →
  fit_for_spawn cluster (Types.sc_pool sc) d id name local →
  (∀ id name local, fit_for_spawn cluster (Types.sc_pool sc) d id name local →
     is_ok (Names.try_from Names.DroneName name) = true) →
  ∃ d' resp p,
    run_env alone n (Connect.spawn_new default_cluster request client best_of rand key) d = (d', Ok resp) ∧
    Types.resp_spawned resp = true ∧ Types.resp_backend_id resp = spawn_id rand sc ∧
    fit_for_spawn cluster (Types.sc_pool sc) d (Drones.ds_id p) (Drones.ds_drone p)
      (Drones.ds_last_local_time p) ∧
    keys d' = <[spawn_id rand sc := Connect.initial_key (clock d) key]> (keys d) ∧
    spawn_pending rand key sc p d'.
Proof.
  intros Hwf Hsc Hcl Hlife Hun Hfree Hsh Hbest Hfit Hnames.
  destruct (pick_succeeds _ _ _ _ d id name local Hsh Hbest Hfit Hnames) as (p & Hp & Hpf).
  assert (is_Some (Db.drones d !! Drones.ds_id p)) as Hd
    by (destruct Hpf as (? & dr & ? & ? & ? & _ & _ & _ & ? & _); by exists dr).
  assert (Connect.spawn_new default_cluster request client best_of rand key =
    Connect.spawn_in request client best_of rand key sc cluster) as ->.
  { unfold Connect.spawn_new. rewrite Hsc. destruct (Types.sc_cluster sc), default_cluster; congruence. }
  unfold Connect.spawn_in. rewrite run_env_act. unfold read. rewrite Hp. cbn [fst snd].
  fold (static_token rand sc). rewrite run_env_act.
  destruct (create_succeeds rand key sc cluster p (static_token rand sc) d life Hwf Hlife Hun Hfree Hd)
    as (d' & Hc & Hb & Ht & Hk & Ha).
  rewrite Hc. cbn [fst snd].
  destruct (with_token_succeeds (S (S n)) rand (static_token rand sc) (spawn_id rand sc) request
    (λ token secret, Types.ConnectResponse_new (spawn_id rand sc) cluster true BackendStatus.Scheduled
       token secret (Types.sc_subdomain sc) client (Some (Drones.ds_drone p))) d' Hb)
    as (d2 & t & sec & Hrun & Hk2 & Ha2 & _); [rewrite Ht; apply Hun|].
  eexists d2, _, p. unfold spawn_pending. rewrite Hrun, Hk2, Ha2. split_and!; [done..|].
  by eexists _, _, _.
Qed.


End Takeover.

(** ** Witness *)

Module TakeoverWitness.
Import Scenario.
#[local] Existing Instance ExampleExternals.example_externals.

(** A minute and a second later the drone has not renewed the key of [b1], but is still there. *)
Definition minute : DB := set_clock (from_secs 61) db6.
Definition heard : DB := Controllers.heartbeat controller_name true "1" "h" minute.
Definition late : DB := Drones.heartbeat 1 (from_secs 61) heard.

Lemma reachable_late : reachable late.
Proof.
  eapply reachable_step; [|apply step_drone_heartbeat].
  eapply reachable_step; [|apply step_controller_heartbeat].
  eapply reachable_step; [apply reachable_db6|apply step_clock]. apply Z.leb_le. reflexivity.
Qed.

Definition respawn : SpawnConfig :=
  {| Types.sc_id := Some "b2"; Types.sc_cluster := Some cluster; Types.sc_pool := "";
     Types.sc_executable := JObj []; Types.sc_lifetime_limit_seconds := Some 100%Z;
     Types.sc_max_idle_seconds := None; Types.sc_use_static_token := false;
     Types.sc_subdomain := None |}.
Definition again : ConnectRequest :=
  {| Types.cr_key := Some key; Types.cr_spawn_config := Some respawn;
     Types.cr_user := Some "u"; Types.cr_auth := [] |}.

Definition rands (n : nat) : Connect.Rand := rand (5 + n).

(** Whoever is fit is a node. *)
Lemma fit_is_node id name local : fit_for_spawn cluster "" late id name local →
  name ∈ (n_name <$> (map_to_list (nodes late)).*2).
Proof.
  intros (n & _ & _ & _ & _ & Hn & <- & _). apply list_elem_of_fmap_2, (list_elem_of_fmap_2 snd _ (id, n)).
  by apply elem_of_map_to_list.
Qed.

Lemma names_valid id name local : fit_for_spawn cluster "" late id name local →
  is_ok (Names.try_from Names.DroneName name) = true.
Proof.
  intros Hn%fit_is_node. revert Hn.
  assert (n_name <$> (map_to_list (nodes late)).*2 = [drone_name]) as -> by (vm_compute; reflexivity).
  intros ->%list_elem_of_singleton. vm_compute. reflexivity.
Qed.

Lemma drone_fit : fit_for_spawn cluster "" late 1 drone_name (from_secs 61).
Proof.
  eexists _, _, _, _, _.
  split; [vm_compute; reflexivity|]. split; [reflexivity|]. split; [reflexivity|].
  split; [vm_compute; reflexivity|]. do 5 (split; [reflexivity|]). split; [reflexivity|].
  split; [reflexivity|]. split; [reflexivity|]. split; [reflexivity|]. reflexivity.
Qed.


End TakeoverWitness.
