(* ===== verification/Controller.v ===== *)
(** * The controller's handlers

    [plane/src/controller/{drone,proxy,dns,terminate,drain,connect,backend_state,core,
    error}.rs] and [plane/src/cleanup.rs]: what the controller does with the messages of
    drones, proxies and DNS servers and with API requests. A handler with one database
    operation is a function on the database; one with several is a [prog]. The argument
    [send_ok] says whether the peer's socket accepts messages. *)

From S2P Require Import Prelude Names BackendState Types Database Keys Backends Nodes.
From S2P Require Import Connect.
Import Db.

Module Controller.
Section Controller.
Context `{Ext : Externals}.

(** An [anyhow::Error] of a handler. *)
Inductive HandlerError :=
| HDatabase (e : SqlError)
| HSend.

(** ** Messages from drones *)

(** The deadlines of a renewed key, in the drone's local time. *)
Definition renewal_deadlines (local_time : Z) : Protocol.KeyDeadlines :=
  {| Protocol.renew_at := local_time + Keys.KEY_LEASE_RENEW_AFTER;
     Protocol.soft_terminate_at := local_time + Keys.KEY_LEASE_SOFT_TERMINATE_AFTER;
     Protocol.hard_terminate_at := local_time + Keys.KEY_LEASE_HARD_TERMINATE_AFTER |}.

Definition send {M} (send_ok : bool) (m : M) : result HandlerError (list M) :=
  if send_ok then Ok [m] else Err HSend.

(** The new database and the messages sent back. *)
Definition handle_message_from_drone (msg : Protocol.MessageFromDrone) (drone_id : Z)
    (send_ok : bool) (db : DB) : DB * result HandlerError (list Protocol.MessageToDrone) :=
  match msg with
  | Protocol.MBackendMetrics m =>
      match Backends.publish_metrics m db with
      | (db', Ok _) => (db', Ok [])
      | (db', Err e) => (db', Err (HDatabase e))
      end
  | Protocol.MHeartbeat h => (Drones.heartbeat drone_id (Protocol.hb_local_time h) db, Ok [])
  | Protocol.MBackendEvent e =>
      match Backends.update_state (Protocol.bsm_backend_id e) (Protocol.bsm_state e) db with
      | (db', Err err) => (db', Err (HDatabase err))
      | (db', Ok _) => (db', send send_ok (Protocol.TDAckEvent (Protocol.bsm_event_id e)))
      end
  | Protocol.MAckAction action_id => (Actions.ack_pending_action action_id drone_id db, Ok [])
  | Protocol.MRenewKey r =>
      match Keys.renew_key (Protocol.rkr_backend r) db with
      | (db', Err err) => (db', Err (HDatabase err))
      | (db', Ok _) =>
          (db', send send_ok (Protocol.TDRenewKeyResponse
             {| Protocol.rkp_backend := Protocol.rkr_backend r;
                Protocol.rkp_deadlines := Some (renewal_deadlines (Protocol.rkr_local_time r)) |}))
      end
  end.

(** One round of [sweep_loop]; [rand i] makes the id of the [i]-th action. An action that
    cannot be stored is skipped. *)
Fixpoint sweep_actions (drone_id : Z) (rand : nat → nat → nat) (i : nat)
    (candidates : list Backends.TerminationCandidate) : prog () :=
  match candidates with
  | [] => Ret ()
  | c :: candidates =>
      act (Actions.create_pending_action (Names.new_random Names.BackendActionName (rand i))
             (Backends.tc_backend_id c) drone_id
             (Protocol.Terminate BackendState.Soft BackendState.Swept))
        (λ _, sweep_actions drone_id rand (S i) candidates)
  end.

Definition sweep (drone_id : Z) (rand : nat → nat → nat) : prog () :=
  act (read (Backends.termination_candidates drone_id)) (λ r,
    match r with
    | Err _ => Ret ()
    | Ok candidates => sweep_actions drone_id rand 0 candidates
    end).

Definition pending_actions_limit : nat := 50.

(** [socket.send(message)?] in the loop: the first failure ends it. *)
Definition process_pending_actions (drone_id : Z) (send_ok : bool) (db : DB)
  : result HandlerError (list Protocol.MessageToDrone) :=
  match Actions.pending_actions drone_id pending_actions_limit db with
  | Err e => Err (HDatabase e)
  | Ok [] => Ok []
  | Ok l => if send_ok then Ok (Protocol.TDAction <$> l) else Err HSend
  end.

(** ** Messages from proxies *)

(** The immediate outcome of a route request: a reply, a task that waits for the backend
    to become ready, or nothing (the query failed and was logged). *)
Inductive RouteOutcome :=
| Replied (route_info : option Protocol.RouteInfo)
| Waiting (p : Backends.PartialRouteInfo)
| NoReply.

(** The second query is issued after the subscription to the backend was opened. *)
Definition handle_route_info_request (token : string) : prog (result HandlerError RouteOutcome) :=
  act (read (Backends.route_info_for_token token)) (λ r,
    match r with
    | Err _ => Ret (Ok NoReply)
    | Ok (Backends.Available route_info) => Ret (Ok (Replied (Some route_info)))
    | Ok Backends.NotFound => Ret (Ok (Replied None))
    | Ok (Backends.Pending partial) =>
        act (read (Backends.route_info_for_token token)) (λ r,
          Ret (match r with
               | Err e => Err (HDatabase e)
               | Ok (Backends.Available route_info) => Ok (Replied (Some route_info))
               | Ok Backends.NotFound => Ok (Replied None)
               | Ok (Backends.Pending _) => Ok (Waiting partial)
               end))
    end).

(** The waiting task over the notifications of the subscription; [None] when it has not
    replied after them. *)
Fixpoint await_ready (p : Backends.PartialRouteInfo) (notifications : list BackendState)
  : option (option Protocol.RouteInfo) :=
  match notifications with
  | [] => None
  | BackendState.Ready address :: _ => Some (Some (Backends.set_address p address))
  | (BackendState.Terminated _ _ _ _ | BackendState.Terminating _ _ _
    | BackendState.HardTerminating _ _) :: _ => Some None
  | _ :: notifications => await_ready p notifications
  end.

(** Keepalives and certificate requests; route requests are [handle_route_info_request]. *)
Definition handle_keepalive (backend_id : string) (send_ok : bool) (db : DB)
  : DB * result HandlerError (list Protocol.MessageToProxy) :=
  match Backends.update_keepalive backend_id db with
  | (db', Ok true) => (db', Ok [])
  | (db', Ok false) => (db', send send_ok (Protocol.TPBackendRemoved backend_id))
  | (db', Err _) => (db', Ok [])
  end.

(** A response that cannot be sent is only logged. *)
Definition send_logged {M} (send_ok : bool) (m : M) : list M := if send_ok then [m] else [].

Definition accepted (r : result SqlError bool) : bool :=
  match r with Ok b => b | Err _ => false end.

Definition handle_cert_manager_request (r : Protocol.CertManagerRequest) (cluster : string)
    (node_id : Z) (send_ok : bool) (db : DB) : DB * list Protocol.MessageToProxy :=
  match r with
  | Protocol.CertLeaseRequest =>
      let '(db', r) := Acme.lease_cluster_dns cluster node_id db in
      (db', send_logged send_ok
              (Protocol.TPCertManagerResponse (Protocol.CertLeaseResponse (accepted r))))
  | Protocol.SetTxtRecord txt_value =>
      let '(db', r) := Acme.set_cluster_dns cluster node_id txt_value db in
      (db', send_logged send_ok
              (Protocol.TPCertManagerResponse (Protocol.SetTxtRecordResponse (accepted r))))
  | Protocol.ReleaseCertLease => (Acme.release_cluster_lease cluster node_id db, [])
  end.

(** The event branch of the proxy socket's loop: a terminated backend is announced. *)
Definition forward_backend_state (key : option string) (payload : BackendState)
    : option Protocol.MessageToProxy :=
  match key, payload with
  | Some id, BackendState.Terminated _ _ _ _ =>
      match Names.try_from Names.BackendName id with
      | Ok backend => Some (Protocol.TPBackendRemoved backend)
      | Err _ => None
      end
  | _, _ => None
  end.

(** ** Messages from DNS servers *)

Definition handle_message_from_dns (m : Protocol.MessageFromDns) (send_ok : bool) (db : DB)
  : list Protocol.MessageToDns :=
  match m with
  | Protocol.TxtRecordRequest cluster =>
      send_logged send_ok
        (Protocol.TxtRecordResponse cluster (Acme.txt_record_for_cluster cluster db))
  end.

(** ** Node connections ([core.rs]) *)

Record NodeHandle := { nh_id : Z; nh_controller : string; nh_connection_start_time : Z }.

Definition register_node (controller_id : string) (handshake_name version hash : string)
    (cluster : option string) (ip : string) (db : DB) : DB * result SqlError NodeHandle :=
  match Names.AnyNodeName_try_from handshake_name with
  | Err _ => (db, Err (Decode "Failed to decode node name from handshake."))
  | Ok name =>
      match Nodes.register cluster name (Names.AnyNodeName_kind name) controller_id version hash ip db
      with
      | (db', Err e) => (db', Err e)
      | (db', Ok (id, t)) =>
          (db', Ok {| nh_id := id; nh_controller := controller_id;
                      nh_connection_start_time := t |})
      end
  end.

(** [Drop for NodeHandle]: the task it spawns. *)
Definition drop_node_handle (h : NodeHandle) (db : DB) : DB :=
  (Nodes.mark_offline (nh_id h) (nh_controller h) (nh_connection_start_time h) db).1.

(** ** API requests *)

Inductive StatusCode := BAD_REQUEST | NOT_FOUND | CONFLICT | INTERNAL_SERVER_ERROR.

Definition as_u16 (s : StatusCode) : N :=
  match s with
  | BAD_REQUEST => 400 | NOT_FOUND => 404 | CONFLICT => 409 | INTERNAL_SERVER_ERROR => 500
  end.

Record Response := {
  rs_status : StatusCode;
  rs_id : string;
  rs_message : string;
  rs_kind : Protocol.ApiErrorKind
}.

(** [err_id] is the random id of the response. *)
Definition err_to_response (err_id : string) (status : StatusCode) (user_message : string)
    (code : Protocol.ApiErrorKind) : Response :=
  {| rs_status := status; rs_id := err_id; rs_message := user_message; rs_kind := code |}.

(** [or_status] for a [Result] and for an [Option], and its two instances. *)
Definition or_internal_error {E T} (err_id : string) (r : result E T) (user_message : string)
  : result Response T :=
  map_err (λ _, err_to_response err_id INTERNAL_SERVER_ERROR user_message Protocol.Other) r.

Definition or_not_found {T} (err_id : string) (o : option T) (user_message : string)
  : result Response T :=
  ok_or o (err_to_response err_id NOT_FOUND user_message Protocol.NotFound).

Definition connect_error_to_response (err_id : string) (e : Connect.ConnectError) : Response :=
  match e with
  | Connect.FailedToAcquireKey =>
      err_to_response err_id INTERNAL_SERVER_ERROR "Failed to acquire lock."
        Protocol.FailedToAcquireKey
  | Connect.KeyUnheldNoSpawnConfig =>
      err_to_response err_id CONFLICT "Lock is unheld but no spawn config was provided."
        Protocol.KeyUnheldNoSpawnConfig
  | Connect.KeyHeldUnhealthy =>
      err_to_response err_id INTERNAL_SERVER_ERROR "Lock is held but unhealthy."
        Protocol.KeyHeldUnhealthy
  | Connect.KeyHeld _ _ =>
      err_to_response err_id CONFLICT "Lock is held but tag does not match." Protocol.KeyHeld
  | Connect.NoDroneAvailable =>
      err_to_response err_id INTERNAL_SERVER_ERROR "No active drone available."
        Protocol.NoDroneAvailable
  | Connect.FailedToRemoveKey =>
      err_to_response err_id CONFLICT "Failed to remove lock." Protocol.FailedToRemoveKey
  | Connect.DatabaseError _ | Connect.Serialization =>
      err_to_response err_id INTERNAL_SERVER_ERROR "Internal error." Protocol.Other
  | Connect.NoClusterProvided =>
      err_to_response err_id BAD_REQUEST
        "No cluster provided, and no default cluster for this controller."
        Protocol.NoClusterProvided
  | Connect.OtherError _ =>
      err_to_response err_id INTERNAL_SERVER_ERROR "Internal error." Protocol.Other
  end.

Definition handle_connect (err_id : string) (default_cluster : option string)
    (client : Types.PlaneClient) (best_of : Z) (request : ConnectRequest)
    (rands : nat → Connect.Rand) : prog (option (result Response ConnectResponse)) :=
  prog_bind (Connect.connect default_cluster request client best_of rands) (λ r,
    Ret (map_err (connect_error_to_response err_id) <$> r)).

Definition handle_revoke (request : RevokeRequest) (db : DB) : DB * result Response string :=
  (Connect.revoke request db, Ok "Token revoked successfully").

Definition kind_of (hard : bool) : TerminationKind :=
  if hard then BackendState.Hard else BackendState.Soft.

(** [terminate], shared by the soft and the hard handler; the row is read first, the action
    is created in a second transaction. *)
Definition terminate (err_id : string) (rand : nat → nat) (backend_id : string) (hard : bool)
  : prog (result Response ()) :=
  act (read (Backends.backend backend_id)) (λ r,
    match (let? o := or_internal_error err_id r "Database error" in
           or_not_found err_id o "Backend does not exist") with
    | Err resp => Ret (Err resp)
    | Ok backend =>
        act (Actions.create_pending_action (Names.new_random Names.BackendActionName rand) backend_id
               (Backends.br_drone_id backend)
               (Protocol.Terminate (kind_of hard) BackendState.External)) (λ r,
          Ret (or_internal_error err_id r "Database error"))
    end).

Definition drain (err_id : string) (cluster drone : string) : prog (result Response bool) :=
  act (λ db, (db, Nodes.get_id cluster drone db)) (λ o,
    match or_not_found err_id o "Drone does not exist" with
    | Err resp => Ret (Err resp)
    | Ok drone_id =>
        act (Drones.drain drone_id) (λ r, Ret (or_internal_error err_id r "Database error"))
    end).

Definition backend_status (err_id : string) (backend_id : string) (db : DB)
  : result Response BackendState.BackendStatusStreamEntry :=
  let? o := or_internal_error err_id (Backends.backend backend_id db) "Database error" in
  let? row := or_not_found err_id o "Backend does not exist" in
  Ok (BackendState.from_state (Backends.br_state row) (Backends.br_last_status_time row)).

(** [handle_backend_status_stream]: entries up to the client's [Last-Event-ID] (a status
    that parses) are not sent again. *)
Definition resume_stream (last_event_id : option string)
    (entries : list BackendState.BackendStatusStreamEntry)
  : list BackendState.BackendStatusStreamEntry :=
  match last_event_id ≫= BackendStatus.try_from with
  | None => entries
  | Some last_status =>
      filter (λ e, BackendStatus.le (BackendState.bse_status e) last_status = false) entries
  end.

(** ** Cleanup ([cleanup.rs]) *)

Definition DEFAULT_BATCH_SIZE : Z := 100.

Definition run_cleanup (min_age_days cleanup_batch_size : option Z)
  : prog (result HandlerError ()) :=
  let tokens_step := act (λ db, (Connect.clean_up_tokens db, ())) (λ _, Ret (Ok ())) in
  match min_age_days with
  | None => tokens_step
  | Some days =>
      act (Backends.cleanup days (default DEFAULT_BATCH_SIZE cleanup_batch_size)) (λ r,
        match r with
        | Err e => Ret (Err (HDatabase e))
        | Ok _ => act (λ db, (clean_up_events days db, ())) (λ _, tokens_step)
        end)
  end.

End Controller.
End Controller.
