(* ===== verification/StateStore.v ===== *)
(** * The drone's state store

    [plane/src/drone/state_store.rs]: the SQLite file in which a drone keeps the state
    of its backends and the events the controller has not acknowledged. An operation
    that calls the listener returns the messages it passes to it. *)

From S2P Require Import Prelude Names BackendState Types.

Module StateStore.

Record event_row := MkEvent {
  ev_id : Z;
  ev_backend_id : string;
  ev_state : BackendState;
  (** milliseconds *)
  ev_timestamp : Z
}.

(** The two tables, the [autoincrement] counter, and whether a listener is set. *)
Record Store := MkStore {
  st_backends : gmap string BackendState;
  st_events : list event_row;
  st_seq : Z;
  st_listener : bool
}.

Definition new : Store := MkStore ∅ [] 1 false.

(** [timestamp_millis]. *)
Definition millis (t : Z) : Z := t / 1000.

(** Upsert the state and append the event in one transaction, then tell the listener. *)
Definition register_event (backend_id : string) (state : BackendState) (timestamp : Z) (s : Store)
  : Store * list Protocol.BackendStateMessage :=
  let id := st_seq s in
  (MkStore (<[backend_id := state]> (st_backends s))
     (st_events s ++ [MkEvent id backend_id state (millis timestamp)]) (id + 1) (st_listener s),
   if st_listener s then
     [{| Protocol.bsm_event_id := id; Protocol.bsm_backend_id := backend_id;
         Protocol.bsm_state := state; Protocol.bsm_timestamp := timestamp |}]
   else []).

Definition backend_state (backend_id : string) (s : Store) : result string BackendState :=
  ok_or (st_backends s !! backend_id)
    ("No backend with id " +:+ backend_id +:+ " found in state store.").

(** [order by timestamp asc]; rows with the same timestamp come in [rowid] order, the
    order of the scan that feeds the sort. *)
Definition ts_le (a b : event_row) : Prop := (ev_timestamp a ≤ ev_timestamp b)%Z.
#[global] Instance ts_le_dec : RelDecision ts_le := λ a b, decide (ev_timestamp a ≤ ev_timestamp b)%Z.

Definition event_message (e : event_row) : result Names.NameError Protocol.BackendStateMessage :=
  let? backend_id := Names.try_from Names.BackendName (ev_backend_id e) in
  Ok {| Protocol.bsm_event_id := ev_id e; Protocol.bsm_backend_id := backend_id;
        Protocol.bsm_state := ev_state e; Protocol.bsm_timestamp := from_millis (ev_timestamp e) |}.

Definition unacked_events (s : Store)
  : result Names.NameError (list Protocol.BackendStateMessage) :=
  map_result event_message (merge_sort ts_le (st_events s)).

(** Replay what is not acknowledged, then keep the listener. *)
Definition register_listener (s : Store)
  : Store * result Names.NameError (list Protocol.BackendStateMessage) :=
  match unacked_events s with
  | Err e => (s, Err e)
  | Ok replayed => (MkStore (st_backends s) (st_events s) (st_seq s) true, Ok replayed)
  end.

Definition ack_event (event_id : Z) (s : Store) : Store :=
  MkStore (st_backends s) (filter (λ e, ev_id e ≠ event_id) (st_events s)) (st_seq s)
    (st_listener s).

Definition active_backends (s : Store) : result Names.NameError (list (string * BackendState)) :=
  map_result (λ p, let? name := Names.try_from Names.BackendName p.1 in Ok (name, p.2))
    (filter (λ p, BackendState.is_terminated p.2 = false) (map_to_list (st_backends s))).

(** ** Invariant *)

Record store_wf (s : Store) : Prop := {
  sw_ids : StronglySorted (λ a b, (ev_id a < ev_id b)%Z) (st_events s);
  sw_seq : ∀ e, e ∈ st_events s → (ev_id e < st_seq s)%Z;
  sw_names : ∀ e, e ∈ st_events s → is_ok (Names.try_from Names.BackendName (ev_backend_id e)) = true;
  sw_known : ∀ e, e ∈ st_events s → is_Some (st_backends s !! ev_backend_id e);
  sw_backends : ∀ b st, st_backends s !! b = Some st →
    is_ok (Names.try_from Names.BackendName b) = true
}.

Lemma store_wf_new : store_wf new.
Proof. constructor; simpl; try set_solver. constructor. Qed.

Lemma store_wf_register b st t s :
  store_wf s → is_ok (Names.try_from Names.BackendName b) = true →
  store_wf (register_event b st t s).1.
Proof.
  intros [] Hb. constructor; simpl.
  - apply StronglySorted_snoc. split; [done|]. intros e He. simpl. by apply sw_seq0.
  - intros e [He|He]%elem_of_app; [apply sw_seq0 in He; lia|].
    apply list_elem_of_singleton in He as ->. simpl. lia.
  - intros e [He|He]%elem_of_app; [auto|]. by apply list_elem_of_singleton in He as ->.
  - intros e [He|He]%elem_of_app; apply lookup_insert_is_Some'; [auto|].
    apply list_elem_of_singleton in He as ->. by left.
  - intros b' st'. rewrite lookup_insert_Some. intros [[<- _]|[_ ?]]; eauto.
Qed.

Lemma store_wf_ack id s : store_wf s → store_wf (ack_event id s).
Proof.
  intros []. constructor; simpl; try (intros e [_ He]%list_elem_of_filter; auto).
  - by apply StronglySorted_filter.
  - done.
Qed.

Lemma event_message_ok e :
  is_ok (Names.try_from Names.BackendName (ev_backend_id e)) = true →
  event_message e =
    Ok {| Protocol.bsm_event_id := ev_id e; Protocol.bsm_backend_id := ev_backend_id e;
          Protocol.bsm_state := ev_state e;
          Protocol.bsm_timestamp := from_millis (ev_timestamp e) |}.
Proof.
  unfold event_message. destruct (Names.try_from _ _) as [n|] eqn:E; [|done].
  by apply Names.try_from_Ok in E as [-> _].
Qed.

(** Replaying never fails: exactly the stored events, by time. *)
Lemma unacked_events_eq s :
  store_wf s →
  unacked_events s =
    Ok ((λ e, {| Protocol.bsm_event_id := ev_id e; Protocol.bsm_backend_id := ev_backend_id e;
                 Protocol.bsm_state := ev_state e;
                 Protocol.bsm_timestamp := from_millis (ev_timestamp e) |}) <$>
          merge_sort ts_le (st_events s)).
Proof.
  intros Hwf. unfold unacked_events.
  assert (∀ e, e ∈ merge_sort ts_le (st_events s) → e ∈ st_events s) as Hin.
  { intros e. by rewrite (merge_sort_Permutation ts_le). }
  revert Hin. generalize (merge_sort ts_le (st_events s)). intros l Hin.
  induction l as [|e l IH]; [done|]. simpl.
  rewrite event_message_ok by (apply (sw_names _ Hwf), Hin; set_solver).
  by rewrite IH by set_solver.
Qed.

(** ** Runs *)

(** The operations a drone performs on its store. *)
Inductive op :=
| Register (backend_id : string) (state : BackendState) (timestamp : Z)
| Ack (event_id : Z)
| Listen.

Definition apply (s : Store) (o : op) : Store :=
  match o with
  | Register b st t => (register_event b st t s).1
  | Ack id => ack_event id s
  | Listen => (register_listener s).1
  end.

Definition valid_op (o : op) : bool :=
  match o with Register b _ _ => is_ok (Names.try_from Names.BackendName b) | _ => true end.

Lemma store_wf_apply s o : store_wf s → valid_op o = true → store_wf (apply s o).
Proof.
  intros Hwf Hv. destruct o as [b st t|id|]; simpl.
  - by apply store_wf_register.
  - by apply store_wf_ack.
  - unfold register_listener. rewrite unacked_events_eq by done. by destruct Hwf.
Qed.

Lemma store_wf_run ops s : store_wf s → forallb valid_op ops = true → store_wf (foldl apply s ops).
Proof.
  revert s. induction ops as [|o ops IH]; intros s Hwf; [done|]. simpl.
  intros [Ho Hops]%andb_true_iff. by apply IH; [apply store_wf_apply|].
Qed.

(** The ids acknowledged by a run, and the last state it registered for a backend. *)
Definition acked (ops : list op) : list Z :=
  omap (λ o, match o with Ack id => Some id | _ => None end) ops.

Lemma event_kept ops s e :
  e ∈ st_events s → ev_id e ∉ acked ops → e ∈ st_events (foldl apply s ops).
Proof.
  revert s. induction ops as [|o ops IH]; intros s He Hid; [done|]. simpl.
  apply IH; [|destruct o; set_solver]. destruct o as [b st t|id|]; simpl.
  - set_solver.
  - apply list_elem_of_filter. split; [|done]. set_solver.
  - unfold register_listener. by destruct (unacked_events s).
Qed.

End StateStore.

Module StateStoreProps.
Import StateStore.



End StateStoreProps.
