(* ===== verification/KeyManager.v ===== *)
(** * The drone's key manager

    [plane/src/drone/key_manager.rs]: for each key a task that renews it and, when it
    cannot be renewed, terminates the backend before the lease ends. Times are the
    drone's clock. *)

From S2P Require Import Prelude Names BackendState Types Database Keys Backends Nodes.
From S2P Require Import Connect Invariant Scenario Controller.
Import Db.

Module KeyManager.

(** What the task does to the outside. *)
Inductive Effect :=
| ApplyTerminate (kind : TerminationKind)
| SendRenew (request : Protocol.RenewKeyRequest).

Inductive Next := Break | Sleep (d : Z).

(** [signed_duration_since(now).to_std()]: no sleep when the instant has passed. *)
Definition sleep_until (t now : Z) : Next := Sleep (if decide (now ≤ t)%Z then t - now else 0).

(** One pass through the body of [renew_key_loop]'s loop at time [now]; [apply_ok] is the
    outcome of [apply_action], [request_time] the second reading of the clock. *)
Definition renew_iteration (d : Protocol.KeyDeadlines) (backend : string) (has_sender apply_ok : bool)
    (request_time now : Z) : list Effect * Next :=
  if decide (Protocol.hard_terminate_at d ≤ now)%Z then
    ([ApplyTerminate BackendState.Hard], if apply_ok then Break else Sleep (from_secs 1))
  else if decide (Protocol.soft_terminate_at d ≤ now)%Z then
    ([ApplyTerminate BackendState.Soft],
     if apply_ok then sleep_until (Protocol.hard_terminate_at d) now else Sleep (from_secs 1))
  else if decide (Protocol.renew_at d ≤ now)%Z then
    (if has_sender
     then [SendRenew {| Protocol.rkr_backend := backend; Protocol.rkr_local_time := request_time |}]
     else [],
     sleep_until (Protocol.soft_terminate_at d) now)
  else ([], sleep_until (Protocol.renew_at d) now).

(** The surroundings of a run of the loop: for its [i]-th pass, how much later than asked
    the task wakes up (scheduling and the duration of the pass itself), whether applying
    the action worked, and how much later the second clock reading is. *)
Record Timing := { late : nat → Z; apply_ok : nat → bool; read_delay : nat → Z }.

(** The effects with their times; [true] when the loop has ended. *)
Fixpoint renew_key_loop (fuel i : nat) (w : Timing) (d : Protocol.KeyDeadlines) (backend : string)
    (has_sender : bool) (now : Z) : list (Z * Effect) * bool :=
  match fuel with
  | O => ([], false)
  | S fuel =>
      let '(effects, next) :=
        renew_iteration d backend has_sender (apply_ok w i) (now + read_delay w i) now in
      let timed := (now,.) <$> effects in
      match next with
      | Break => (timed, true)
      | Sleep t =>
          let '(rest, ended) :=
            renew_key_loop fuel (S i) w d backend has_sender (now + t + late w i) in
          (timed ++ rest, ended)
      end
  end.

(** ** The table of keys

    An entry holds the key; its task is the loop over the key's deadlines, started with the
    sender the manager had, and is replaced (the old one aborted) with the entry. *)
Record KeyManager := MkKeyManager {
  handles : gmap string (Protocol.AcquiredKey * bool);
  sender : bool
}.

Definition new : KeyManager := MkKeyManager ∅ false.

(** Every task is restarted with the new sender. *)
Definition set_sender (m : KeyManager) : KeyManager :=
  MkKeyManager ((λ e : Protocol.AcquiredKey * bool, (e.1, true)) <$> handles m) true.

Definition register_key (backend : string) (key : Protocol.AcquiredKey) (m : KeyManager)
  : KeyManager * bool :=
  match handles m !! backend with
  | Some _ => (m, false)
  | None => (MkKeyManager (<[backend := (key, sender m)]> (handles m)) (sender m), true)
  end.

Definition with_deadlines (d : Protocol.KeyDeadlines) (k : Protocol.AcquiredKey)
  : Protocol.AcquiredKey :=
  {| Protocol.ak_key := Protocol.ak_key k; Protocol.ak_deadlines := d;
     Protocol.ak_token := Protocol.ak_token k |}.

Definition update_deadlines (backend : string) (d : Protocol.KeyDeadlines) (m : KeyManager)
  : KeyManager :=
  match handles m !! backend with
  | Some (key, _) =>
      MkKeyManager (<[backend := (with_deadlines d key, sender m)]> (handles m)) (sender m)
  | None => m
  end.

Definition unregister_key (backend : string) (m : KeyManager) : KeyManager :=
  MkKeyManager (delete backend (handles m)) (sender m).

(** ** Lemmas *)

(** The phase of the loop at a time: how many passes are still needed. *)
Definition phase (d : Protocol.KeyDeadlines) (now : Z) : nat :=
  if decide (Protocol.hard_terminate_at d ≤ now)%Z then 1
  else if decide (Protocol.soft_terminate_at d ≤ now)%Z then 2
  else if decide (Protocol.renew_at d ≤ now)%Z then 3 else 4.

Definition ordered (d : Protocol.KeyDeadlines) : Prop :=
  (Protocol.renew_at d ≤ Protocol.soft_terminate_at d ≤ Protocol.hard_terminate_at d)%Z.

(** An effect respects its window: renewal between the first two deadlines, soft
    termination between the last two, hard termination after the last. *)
Definition in_window (d : Protocol.KeyDeadlines) (e : Z * Effect) : Prop :=
  match e.2 with
  | SendRenew r => (Protocol.renew_at d ≤ e.1 < Protocol.soft_terminate_at d)%Z ∧
                   (e.1 < Protocol.hard_terminate_at d)%Z
  | ApplyTerminate BackendState.Soft =>
      (Protocol.soft_terminate_at d ≤ e.1 < Protocol.hard_terminate_at d)%Z
  | ApplyTerminate BackendState.Hard => (Protocol.hard_terminate_at d ≤ e.1)%Z
  end.

Lemma phase_mono d now now' : ordered d → (now ≤ now')%Z → phase d now' ≤ phase d now.
Proof. unfold ordered, phase. intros. repeat case_decide; lia. Qed.

(** A pass either ends the loop, or moves to a later phase, or failed to apply an action;
    its effects are in their windows. *)
Lemma renew_iteration_progress d backend has_sender ok rt now :
  ordered d →
  let '(effects, next) := renew_iteration d backend has_sender ok rt now in
  Forall (in_window d) ((now,.) <$> effects) ∧
  match next with
  | Break => ok = true ∧ effects = [ApplyTerminate BackendState.Hard]
  | Sleep t =>
      (0 ≤ t)%Z ∧
      (ok = true → phase d (now + t) < phase d now ∧ (now + t ≤ Protocol.hard_terminate_at d)%Z ∧
                   Forall (λ e, e ≠ ApplyTerminate BackendState.Hard) effects)
  end.
Proof.
  intros Hord. unfold renew_iteration, sleep_until, ordered, phase in *.
  assert (∀ e, in_window d (now, e) → Forall (in_window d) ((now,.) <$> [e])) as Hone
    by (intros e He; by apply Forall_singleton).
  destruct (decide (Protocol.hard_terminate_at d ≤ now)%Z).
  { split; [by apply Hone|]. destruct ok; [done|]. unfold from_secs. split; [lia|done]. }
  destruct (decide (Protocol.soft_terminate_at d ≤ now)%Z).
  { split; [apply Hone; unfold in_window; simpl; lia|]. rewrite (decide_True (P := (now ≤ _)%Z)) by lia.
    destruct ok; unfold from_secs; (split; [lia|]); [intros _|done].
    split_and!; [rewrite decide_True; lia|lia|by repeat constructor]. }
  destruct (decide (Protocol.renew_at d ≤ now)%Z).
  { split; [destruct has_sender; [apply Hone; unfold in_window; simpl; lia|apply Forall_nil_2]|].
    rewrite (decide_True (P := (now ≤ _)%Z)) by lia. split; [lia|]. intros _.
    split_and!; [repeat case_decide; lia|lia|destruct has_sender; by repeat constructor]. }
  split; [apply Forall_nil_2|]. rewrite (decide_True (P := (now ≤ _)%Z)) by lia.
  split; [lia|]. intros _. split_and!; [repeat case_decide; lia|lia|constructor].
Qed.

(** One pass of a loop that goes on. *)
Lemma renew_loop_next fuel i w d backend has_sender now trace t ended effects d0 :
  renew_iteration d backend has_sender (apply_ok w i) (now + read_delay w i) now =
    (effects, Sleep d0) →
  renew_key_loop fuel (S i) w d backend has_sender (now + d0 + late w i) =
    (trace ++ [t], ended) →
  renew_key_loop (S fuel) i w d backend has_sender now =
    ((((now,.) <$> effects) ++ trace) ++ [t], ended).
Proof. intros H1 H2. simpl. rewrite H1, H2. by rewrite app_assoc. Qed.

(** Applying an action may fail any finite number of times, here before the [n]-th pass. *)
Lemma renew_loop_retries n fuel i w d backend has_sender now :
  ordered d → (∀ j, n ≤ j → apply_ok w j = true) → (∀ j, (0 ≤ late w j)%Z) →
  (n - i) + phase d now ≤ fuel →
  ∃ trace t,
    renew_key_loop fuel i w d backend has_sender now =
      (trace ++ [(t, ApplyTerminate BackendState.Hard)], true) ∧
    Forall (in_window d) (trace ++ [(t, ApplyTerminate BackendState.Hard)]).
Proof.
  intros Hord Hok Hlate. revert i now. induction fuel as [|fuel IH]; intros i now Hf.
  { exfalso. unfold phase in Hf. repeat case_decide; lia. }
  pose proof (renew_iteration_progress d backend has_sender (apply_ok w i)
    (now + read_delay w i) now Hord) as Hit.
  destruct (renew_iteration _ _ _ _ _ _) as [effects [|t]] eqn:Hi; destruct Hit as [Hw Hnext].
  { destruct Hnext as [_ ->]. exists [], now. simpl. by rewrite Hi. }
  destruct Hnext as [Ht Hph]. pose proof (Hlate i).
  pose proof (phase_mono d (now + t) (now + t + late w i) Hord ltac:(lia)).
  destruct (IH (S i) (now + t + late w i)%Z) as (trace & t' & Hrest & Hfa).
  { pose proof (phase_mono d now (now + t) Hord ltac:(lia)).
    destruct (decide (n ≤ i)) as [Hn|Hn]; [specialize (Hph (Hok i Hn)); lia|lia]. }
  exists (((now,.) <$> effects) ++ trace), t'.
  rewrite (renew_loop_next _ _ _ _ _ _ _ _ _ _ _ _ Hi Hrest).
  split; [done|]. rewrite <- app_assoc. by apply Forall_app.
Qed.

(** When they all succeed, there is one hard termination and it is in time. *)
Lemma renew_loop_in_time fuel i w d backend has_sender now late_max :
  ordered d → (∀ j, apply_ok w j = true) → (∀ j, (0 ≤ late w j ≤ late_max)%Z) →
  phase d now ≤ fuel →
  ∃ trace t,
    renew_key_loop fuel i w d backend has_sender now =
      (trace ++ [(t, ApplyTerminate BackendState.Hard)], true) ∧
    Forall (λ e, e.2 ≠ ApplyTerminate BackendState.Hard) trace ∧
    (t ≤ Z.max now (Protocol.hard_terminate_at d + late_max))%Z.
Proof.
  intros Hord Hok Hlate. revert i now. induction fuel as [|fuel IH]; intros i now Hf.
  { exfalso. unfold phase in Hf. repeat case_decide; lia. }
  pose proof (renew_iteration_progress d backend has_sender (apply_ok w i)
    (now + read_delay w i) now Hord) as Hit.
  destruct (renew_iteration _ _ _ _ _ _) as [effects [|t]] eqn:Hi; destruct Hit as [Hw Hnext].
  { destruct Hnext as [_ ->]. exists [], now. simpl. rewrite Hi. split_and!; [done|done|lia]. }
  destruct Hnext as [Ht Hph]. destruct (Hph (Hok i)) as (Hlt & Hle & Hno). pose proof (Hlate i).
  pose proof (phase_mono d (now + t) (now + t + late w i) Hord ltac:(lia)).
  destruct (IH (S i) (now + t + late w i)%Z) as (trace & t' & Hrest & Hfa & Hb); [lia|].
  exists (((now,.) <$> effects) ++ trace), t'.
  rewrite (renew_loop_next _ _ _ _ _ _ _ _ _ _ _ _ Hi Hrest).
  split_and!; [done| |lia]. apply Forall_app. split; [by apply Forall_fmap|done].
Qed.

End KeyManager.

Module KeyManagerProps.
Import KeyManager.
Section KeyManagerProps.
Context `{Ext : Externals}.

Lemma renewal_deadlines_ordered t : ordered (Controller.renewal_deadlines t).
Proof.
  unfold ordered, Controller.renewal_deadlines, Keys.KEY_LEASE_RENEW_AFTER,
    Keys.KEY_LEASE_SOFT_TERMINATE_AFTER, Keys.KEY_LEASE_HARD_TERMINATE_AFTER, from_secs. simpl. lia.
Qed.

Lemma phase_bound d now : phase d now ≤ 4.
Proof. unfold phase. repeat case_decide; lia. Qed.


(** A drone that cannot renew gives a key up before the controller can give
    it to another backend: when the controller renews a key for a request written before
    the renewal (on a drone clock [skew] ahead of the controller's), the task restarted
    with the deadlines of the response hard-terminates the backend no later than ten
    seconds (less the wake-up latency) before the new end of the lease. *)
Theorem hard_termination_before_expiry db db' drone_id r resp d skew late_max w has_sender start :
  Controller.handle_message_from_drone (Protocol.MRenewKey r) drone_id true db =
    (db', Ok [Protocol.TDRenewKeyResponse resp]) →
  Protocol.rkp_deadlines resp = Some d →
  (Protocol.rkr_local_time r ≤ clock db + skew)%Z →
  (∀ j, apply_ok w j = true) → (∀ j, (0 ≤ late w j ≤ late_max)%Z) →
  (start ≤ Protocol.hard_terminate_at d)%Z →
  ∃ k trace t,
    keys db' !! Protocol.rkr_backend r = Some k ∧
    renew_key_loop 4 0 w d (Protocol.rkr_backend r) has_sender start =
      (trace ++ [(t, ApplyTerminate BackendState.Hard)], true) ∧
    (t - skew ≤ k_expires_at k - from_secs 10 + late_max)%Z.
Proof.
  simpl. unfold Keys.renew_key. destruct (keys db !! Protocol.rkr_backend r) as [k|] eqn:Hk; [|done].
  destruct (k_allow_renew k); [|done]. intros Heq Hd Hsk Hok Hlate Hstart.
  injection Heq as <- <-. simpl in Hd. injection Hd as <-.
  destruct (renew_loop_in_time 4 0 w (Controller.renewal_deadlines (Protocol.rkr_local_time r))
    (Protocol.rkr_backend r) has_sender start late_max) as (trace & t & Hrun & _ & Ht);
    [apply renewal_deadlines_ordered|done|done|apply phase_bound|].
  eexists _, trace, t. simpl. rewrite lookup_insert_eq. split_and!; [done|done|].
  pose proof (Hlate 0). unfold Controller.renewal_deadlines, Keys.KEY_LEASE_EXPIRATION,
    Keys.KEY_LEASE_HARD_TERMINATE_AFTER, from_secs in *. simpl in *. lia.
Qed.

(** With the deadlines sent with a spawn action, whose hard deadline equals
    the soft one, the key's task never soft-terminates a backend: if its key is not renewed
    once, the backend is killed without a graceful shutdown. *)
Theorem spawn_deadlines_never_soft fuel i w last_local_time backend has_sender now :
  Forall (λ e, e.2 ≠ ApplyTerminate BackendState.Soft)
    (renew_key_loop fuel i w (Connect.spawn_deadlines last_local_time) backend has_sender now).1.
Proof.
  revert i now. induction fuel as [|fuel IH]; intros i now; simpl; [constructor|].
  set (d := Connect.spawn_deadlines last_local_time).
  assert (Protocol.soft_terminate_at d = Protocol.hard_terminate_at d) as Heq by done.
  assert (Forall (λ e, e ≠ ApplyTerminate BackendState.Soft)
    (renew_iteration d backend has_sender (apply_ok w i) (now + read_delay w i) now).1) as Hit.
  { unfold renew_iteration. rewrite Heq. case_decide; [by repeat constructor|].
    case_decide; [destruct has_sender|]; by repeat constructor. }
  destruct (renew_iteration _ _ _ _ _ _) as [effects next]. simpl in Hit.
  assert (Forall (λ e : Z * Effect, e.2 ≠ ApplyTerminate BackendState.Soft) ((now,.) <$> effects))
    as Hmap by by apply Forall_fmap.
  destruct next as [|t]; [done|]. specialize (IH (S i) (now + t + late w i)%Z).
  destruct (renew_key_loop _ _ _ _ _ _ _). simpl in *. by apply Forall_app.
Qed.

End KeyManagerProps.

(** ** Witnesses *)

(** Woken a tenth of a second late, with one failed action. *)
Definition timing : Timing :=
  {| late := λ _, from_millis 100; apply_ok := λ i, 1 <=? i; read_delay := λ _, 0%Z |}.


End KeyManagerProps.

Module KeyManagerWitness.
Import KeyManager KeyManagerProps Scenario.
#[local] Existing Instance ExampleExternals.example_externals.

Definition punctual : Timing :=
  {| late := λ _, from_millis 100; apply_ok := λ _, true; read_delay := λ _, 0%Z |}.

Lemma hard_termination_before_expiry_witness :
  ∃ db' k trace t,
    keys db' !! "b1" = Some k ∧
    renew_key_loop 4 0 punctual (Controller.renewal_deadlines 0) "b1" true 0 =
      (trace ++ [(t, ApplyTerminate BackendState.Hard)], true) ∧
    (t - 0 ≤ k_expires_at k - from_secs 10 + from_millis 100)%Z.
Proof.
  exists (Keys.renew_key "b1" db6).1.
  apply (hard_termination_before_expiry db6 (Keys.renew_key "b1" db6).1 1
    {| Protocol.rkr_backend := "b1"; Protocol.rkr_local_time := 0 |}
    {| Protocol.rkp_backend := "b1";
       Protocol.rkp_deadlines := Some (Controller.renewal_deadlines 0) |}
    (Controller.renewal_deadlines 0) 0 (from_millis 100) punctual true 0).
  - vm_compute. reflexivity.
  - reflexivity.
  - apply Z.leb_le. vm_compute. reflexivity.
  - intros j. reflexivity.
  - intros j. split; apply Z.leb_le; reflexivity.
  - apply Z.leb_le. reflexivity.
Defined.

End KeyManagerWitness.
