(* ===== verification/OverWire.v ===== *)
(** * What the encoding and the decoding of names mean for the protocols

    The handlers work on messages that have been written and read ([Encoding]): the renewal of a
    key, with the times of the request and of the response cut to milliseconds. And they decode
    names from the tables with a check that the messages and requests do not make: what that does
    to a sweep of the backends of a drone. *)

From S2P Require Import Prelude Names BackendState Types Encoding Database Keys Backends Nodes.
From S2P Require Import Connect Invariant Scenario Controller KeyManager.
Import Db.

Module OverWireProps.
Import Encoding RoundTrip.

(** ** Renewals *)

Section Renewal.
Context `{Ext : Externals} `{EL : !ExternalLaws} {S : Serde} {SL : SerdeLaws S}.
Import KeyManager KeyManagerProps.

Lemma whole_mono t u : (t ≤ u)%Z → (whole t ≤ whole u)%Z.
Proof. unfold whole, from_millis. intros. pose proof (Z.div_le_mono t u 1000). lia. Qed.

Lemma whole_deadlines_ordered d : ordered d → ordered (whole_deadlines d).
Proof. intros [? ?]. split; by apply whole_mono. Qed.

(** C7. A drone that cannot renew gives a key up before the controller can give it to another
    backend, over the connection as it is: the drone writes a request for renewal, with a clock
    [skew] ahead of the controller's; the controller handles what it reads of it, and writes the
    response; with the deadlines that the drone reads, the restarted task hard-terminates the
    backend no later than ten seconds (less the wake-up latency) before the new end of the
    lease, and no deadline is more than two milliseconds earlier than meant. *)
Theorem lease_safe_over_wire db db' drone_id r m resp read d skew late_max w has_sender start :
  time (Protocol.rkr_local_time r) → fits_to_drone (Protocol.TDRenewKeyResponse resp) →
  decode de_MessageFromDrone (encode ser_MessageFromDrone (Protocol.MRenewKey r)) = Ok m →
  Controller.handle_message_from_drone m drone_id true db =
    (db', Ok [Protocol.TDRenewKeyResponse resp]) →
  decode de_MessageToDrone (encode ser_MessageToDrone (Protocol.TDRenewKeyResponse resp)) =
    Ok (Protocol.TDRenewKeyResponse read) →
  Protocol.rkp_deadlines read = Some d →
  (Protocol.rkr_local_time r ≤ clock db + skew)%Z →
  (∀ j, apply_ok w j = true) → (∀ j, (0 ≤ late w j ≤ late_max)%Z) →
  (start ≤ Protocol.hard_terminate_at d)%Z →
  ∃ k trace t,
    keys db' !! Protocol.rkp_backend read = Some k ∧
    renew_key_loop 4 0 w d (Protocol.rkp_backend read) has_sender start =
      (trace ++ [(t, ApplyTerminate BackendState.Hard)], true) ∧
    (t - skew ≤ k_expires_at k - from_secs 10 + late_max)%Z ∧
    (Protocol.rkr_local_time r + Keys.KEY_LEASE_RENEW_AFTER - 2000 < Protocol.renew_at d)%Z.
Proof.
  intros Ht Hfit Hm Hh Hread Hd Hsk Hok Hlate Hstart.
  rewrite (decode_encode _ _ _ _ (from_drone_roundtrip (Protocol.MRenewKey r) Ht)) in Hm.
  rewrite (decode_encode _ _ _ _ (to_drone_roundtrip (Protocol.TDRenewKeyResponse resp) Hfit)) in Hread.
  injection Hm as <-. injection Hread as <-. cbn [whole_from_drone] in Hh.
  set (t0 := whole (Protocol.rkr_local_time r)) in *. cbn in Hh. unfold Keys.renew_key in Hh.
  destruct (keys db !! Protocol.rkr_backend r) as [k|] eqn:Hk; [|done].
  destruct (k_allow_renew k); [|done]. injection Hh as <- <-. cbn in Hd. injection Hd as <-.
  destruct (renew_loop_in_time 4 0 w (whole_deadlines (Controller.renewal_deadlines t0))
    (Protocol.rkr_backend r) has_sender start late_max) as (trace & t & Hrun & _ & Hend);
    [apply whole_deadlines_ordered, renewal_deadlines_ordered|done|done|apply phase_bound|].
  pose proof (whole_le (Protocol.rkr_local_time r)). fold t0 in H.
  pose proof (whole_le (t0 + Keys.KEY_LEASE_HARD_TERMINATE_AFTER)).
  pose proof (whole_le (t0 + Keys.KEY_LEASE_RENEW_AFTER)). pose proof (Hlate 0).
  eexists _, trace, t. cbn. rewrite lookup_insert_eq. split_and!; [done|done|..].
  - cbn in Hend, Hstart. unfold Keys.KEY_LEASE_EXPIRATION, Keys.KEY_LEASE_HARD_TERMINATE_AFTER, from_secs in *.
    cbn. lia.
  - lia.
Qed.

End Renewal.
(** ** Sweeps *)

Section Sweep.
Context `{Ext : Externals}.

(** The id of the [i]-th action of a round, and its row. *)
Definition sweep_id (rand : nat → nat → nat) (i : nat) : string :=
  Names.new_random Names.BackendActionName (rand i).
Definition sweep_row (rand : nat → nat → nat) (n now : Z) (i : nat) (backend : string) : action_row :=
  MkAction backend n (Some {| Protocol.bam_action_id := sweep_id rand i; Protocol.bam_backend_id := backend;
    Protocol.bam_drone_id := n; Protocol.bam_action := Protocol.Terminate BackendState.Soft BackendState.Swept |})
    now None.

Lemma create_action_succeeds aid backend n a db :
  actions db !! aid = None → is_Some (backends db !! backend) → is_Some (drones db !! n) →
  let db' := (Actions.create_pending_action aid backend n a db).1 in
  actions db' = <[aid := MkAction backend n (Some {| Protocol.bam_action_id := aid;
    Protocol.bam_backend_id := backend; Protocol.bam_drone_id := n; Protocol.bam_action := a |}) (clock db) None]>
    (actions db) ∧ backends db' = backends db ∧ drones db' = drones db ∧ clock db' = clock db.
Proof.
  intros Hn [b Hb] [d Hd]. unfold Actions.create_pending_action, run_txn, Actions.create_pending_action_txn,
    txn_bind, emit_with_key, emit_impl, Actions.insert_action. cbn. by rewrite Hn, Hb, Hd.
Qed.

Lemma sweep_actions_run n rand l : ∀ i k db,
  (∀ c, c ∈ l → is_Some (backends db !! Backends.tc_backend_id c)) → is_Some (drones db !! n) →
  (∀ j, i ≤ j < i + length l → actions db !! sweep_id rand j = None) →
  (∀ j j', i ≤ j < i + length l → i ≤ j' < i + length l → sweep_id rand j = sweep_id rand j' → j = j') →
  let db' := (run_env (λ _ db, db) k (Controller.sweep_actions n rand i l) db).1 in
  (∀ aid a, actions db !! aid = Some a → actions db' !! aid = Some a) ∧
  ∀ j c, l !! j = Some c →
    actions db' !! sweep_id rand (i + j) = Some (sweep_row rand n (clock db) (i + j) (Backends.tc_backend_id c)).
Proof.
  induction l as [|c l IH]; intros i k db Hb Hd Hf Hinj; [done|]. cbn [length] in Hf, Hinj.
  cbn [Controller.sweep_actions run_env act].
  destruct (create_action_succeeds (sweep_id rand i) (Backends.tc_backend_id c) n
    (Protocol.Terminate BackendState.Soft BackendState.Swept) db) as (Ha & Hbs & Hds & Hc);
    [apply Hf; lia|apply Hb; by left|done|].
  fold (sweep_id rand i). destruct (Actions.create_pending_action _ _ _ _ db) as [db1 r]. cbn [fst] in *.
  destruct (IH (S i) (S k) db1) as [Hold Hnew].
  - intros c' Hc'. rewrite Hbs. apply Hb. by right.
  - by rewrite Hds.
  - intros j Hj. rewrite Ha, lookup_insert_ne; [apply Hf; lia|]. intros Heq%Hinj; lia.
  - intros j j' Hj Hj'. apply Hinj; lia.
  - rewrite Hc in Hnew. split.
    + intros aid a Haid. apply Hold. rewrite Ha, lookup_insert_ne; [done|].
      intros <-. rewrite Hf in Haid by lia. done.
    + intros [|j] c' Hc'; cbn in Hc'.
      * injection Hc' as ->. rewrite Nat.add_0_r. apply Hold. by rewrite Ha, lookup_insert_eq.
      * replace (i + S j) with (S i + j) by lia. by apply Hnew.
Qed.

Definition candidates (n : Z) (db : DB) : gmap string backend_row :=
  filter (λ p, Backends.is_candidate (clock db) n p.2 = true) (backends db).

(** The names of all candidates are checked when they are read. *)
Definition names_ok (n : Z) (db : DB) : Prop :=
  ∀ id b, backends db !! id = Some b → Backends.is_candidate (clock db) n b = true →
    is_ok (Names.try_from Names.BackendName id) = true.

Lemma candidates_ok n db : names_ok n db →
  ∃ l, Backends.termination_candidates n db = Ok l ∧ length l = size (candidates n db) ∧
    (∀ c, c ∈ l → is_Some (backends db !! Backends.tc_backend_id c)) ∧
    ∀ id b, backends db !! id = Some b → Backends.is_candidate (clock db) n b = true →
      ∃ c, c ∈ l ∧ Backends.tc_backend_id c = id.
Proof.
  intros Hok. unfold Backends.termination_candidates.
  set (rows := map_to_list _).
  assert (∀ p, p ∈ rows ↔ backends db !! p.1 = Some p.2 ∧ Backends.is_candidate (clock db) n p.2 = true) as Hrows.
  { intros [i b]. unfold rows. rewrite elem_of_map_to_list, map_lookup_filter_Some. done. }
  assert (∀ p c, Backends.decode_candidate (clock db) p = Ok c → Backends.tc_backend_id c = p.1) as Hdec.
  { intros p c. unfold Backends.decode_candidate. destruct (Names.try_from _ p.1) as [m|] eqn:Hm; [|done].
    apply Names.try_from_Ok in Hm as [-> _]. by intros [= <-]. }
  destruct (map_result_total (Backends.decode_candidate (clock db)) rows) as [l Hl].
  { intros p [Hp Hc]%Hrows. unfold Backends.decode_candidate. pose proof (Hok _ _ Hp Hc) as Hn.
    destruct (Names.try_from _ p.1); [by eexists|done]. }
  exists l. apply map_result_Ok in Hl as Hall. split; [done|]. split.
  { rewrite <- (Forall2_length _ _ _ Hall). unfold rows. by rewrite length_map_to_list. }
  split.
  - intros c (k & Hk)%list_elem_of_lookup. destruct (Forall2_lookup_r _ _ _ _ _ Hall Hk) as (p & Hp & Hpc).
    rewrite (Hdec _ _ Hpc). apply list_elem_of_lookup_2, Hrows in Hp as [Hp _]. by eexists.
  - intros id b Hb Hc. assert ((id, b) ∈ rows) as (k & Hk)%list_elem_of_lookup by by apply Hrows.
    destruct (Forall2_lookup_l _ _ _ _ _ Hall Hk) as (c & Hkc & Hpc).
    exists c. split; [by eapply list_elem_of_lookup_2|apply (Hdec _ _ Hpc)].
Qed.

Lemma candidates_err n db id b :
  backends db !! id = Some b → Backends.is_candidate (clock db) n b = true →
  is_ok (Names.try_from Names.BackendName id) = false →
  ∃ e, Backends.termination_candidates n db = Err e.
Proof.
  intros Hb Hc Hn. destruct (Backends.termination_candidates n db) as [l|e] eqn:Hl; [|by exists e].
  exfalso. apply map_result_Ok in Hl as Hall.
  assert ((id, b) ∈ map_to_list (filter (λ p, Backends.is_candidate (clock db) n p.2 = true) (backends db)))
    as (k & Hk)%list_elem_of_lookup by by rewrite elem_of_map_to_list, map_lookup_filter_Some.
  destruct (Forall2_lookup_l _ _ _ _ _ Hall Hk) as (c & _ & Hpc). unfold Backends.decode_candidate in Hpc.
  cbn [fst] in Hpc. destruct (Names.try_from _ id); [by cbn in Hn|by cbn in Hpc].
Qed.


End Sweep.
End OverWireProps.

(** ** Witnesses *)

Module OverWireWitness.
Import Encoding RoundTrip OverWireProps Scenario KeyManager.
#[local] Existing Instance ExampleExternals.example_externals.
#[local] Existing Instance ExampleExternals.example_laws.
#[local] Existing Instance ExampleSerde.example_serde.
#[local] Existing Instance ExampleSerde.example_serde_laws.

Definition renewal : Protocol.RenewKeyRequest :=
  {| Protocol.rkr_backend := "b1"; Protocol.rkr_local_time := -700 |}.

Definition punctual : Timing :=
  {| late := λ _, from_millis 100; apply_ok := λ _, true; read_delay := λ _, 0%Z |}.

(** The time of the request arrives as one millisecond before zero. *)
Lemma lease_safe_over_wire_witness :
  ∃ db' k trace t,
    keys db' !! "b1" = Some k ∧
    renew_key_loop 4 0 punctual (Controller.renewal_deadlines (-1000)) "b1" true 0 =
      (trace ++ [(t, ApplyTerminate BackendState.Hard)], true) ∧
    (t - 0 ≤ k_expires_at k - from_secs 10 + from_millis 100)%Z ∧
    (-700 + Keys.KEY_LEASE_RENEW_AFTER - 2000 < Protocol.renew_at (Controller.renewal_deadlines (-1000)))%Z.
Proof.
  exists (Keys.renew_key "b1" db6).1.
  set (resp := {| Protocol.rkp_backend := "b1";
                  Protocol.rkp_deadlines := Some (Controller.renewal_deadlines (-1000)) |}).
  apply (lease_safe_over_wire db6 (Keys.renew_key "b1" db6).1 1 renewal
    (Protocol.MRenewKey {| Protocol.rkr_backend := "b1"; Protocol.rkr_local_time := -1000 |})
    resp resp (Controller.renewal_deadlines (-1000)) 0 (from_millis 100) punctual true 0).
  - vm_compute. reflexivity.
  - intros d [= <-]. split; [|split]; vm_compute; reflexivity.
  - vm_compute. reflexivity.
  - vm_compute. reflexivity.
  - vm_compute. reflexivity.
  - reflexivity.
  - apply Z.leb_le. vm_compute. reflexivity.
  - intros j. reflexivity.
  - intros j. split; apply Z.leb_le; reflexivity.
  - apply Z.leb_le. vm_compute. reflexivity.
Defined.

(** A client asks for a backend with a name that is not valid. *)
Definition asked : ConnectRequest :=
  {| Types.cr_key := None; Types.cr_user := None; Types.cr_auth := [];
     Types.cr_spawn_config := Some {| Types.sc_id := Some "My_Backend"; Types.sc_cluster := Some cluster;
       Types.sc_pool := ""; Types.sc_executable := JObj []; Types.sc_lifetime_limit_seconds := None;
       Types.sc_max_idle_seconds := Some 10%Z; Types.sc_use_static_token := false;
       Types.sc_subdomain := None |} |}.

(** The request is served, the backend is started, and both backends become idle. *)
Definition connected : DB := (run (Connect.connect None asked client 2 (λ _, rand 5)) db8).1.
Definition poisoned : DB :=
  set_clock (from_secs 11) (Backends.update_state "My_Backend" BackendState.Loading connected).1.

Definition sweep_rand (i _ : nat) : nat := 7 + i.


End OverWireWitness.
