(* ===== verification/Drone.v ===== *)
(** * The drone

    [plane/src/drone/{backend_manager,executor,mod}.rs]: the state machine of one
    backend, the executor that owns the machines and the state store, and the handling
    of the controller's messages. The container runtime is external: a step takes the
    answers the runtime gives. Writes to the state store succeed (a failing SQLite is
    not modelled), except where [cb_ok] says otherwise. *)

From S2P Require Import Prelude Names BackendState Types StateStore KeyManager.

Module BackendManager.

(** A running task and the state it was started for; [TForever] is the terminate task
    after the runtime took the request: it never completes. *)
Inductive Task :=
| TPrepare (st : BackendState)
| TSpawn (st : BackendState)
| TWait (st : BackendState) (address : SocketAddr)
| TTerminate (hard : bool) (st : BackendState)
| TForever.

Inductive StepStatusResult :=
| DoNothing
| SetState (st : BackendState)
| FutureSetState (t : Task).

Definition step_state (st : BackendState) : StepStatusResult :=
  match st with
  | BackendState.Scheduled => SetState (BackendState.to_loading st)
  | BackendState.Loading => FutureSetState (TPrepare st)
  | BackendState.Starting => FutureSetState (TSpawn st)
  | BackendState.Waiting address => FutureSetState (TWait st address)
  | BackendState.Ready _ => DoNothing
  | BackendState.Terminating _ _ _ => FutureSetState (TTerminate false st)
  | BackendState.HardTerminating _ _ => FutureSetState (TTerminate true st)
  | BackendState.Terminated _ _ _ _ => DoNothing
  end.

(** What the runtime answers to each of its calls: [spawn] with the port, [wait] with the
    error if any, [terminate] with whether there was something to terminate. *)
Record RuntimeAnswer := {
  ans_prepare : bool;
  ans_spawn : option N;
  ans_wait : option BackendState.BackendError;
  ans_terminate : result () bool
}.

Inductive Resolution := Done (st : BackendState) | Forever | Again.

(** The task's call returns. *)
Definition resolve (ip : IpAddr) (t : Task) (a : RuntimeAnswer) : Resolution :=
  match t with
  | TPrepare st =>
      Done (if ans_prepare a then BackendState.to_starting st else BackendState.to_terminated st None)
  | TSpawn st =>
      match ans_spawn a with
      | None => Done (BackendState.to_terminated st None)
      | Some port => Done (BackendState.to_waiting st {| sa_ip := ip; sa_port := port |})
      end
  | TWait st address =>
      match ans_wait a with
      | None => Done (BackendState.to_ready st address)
      | Some BackendState.BStartupTimeout =>
          Done (BackendState.to_hard_terminating st BackendState.StartupTimeout)
      | Some (BackendState.BOther _) =>
          Done (BackendState.to_hard_terminating st BackendState.InternalError)
      end
  | TTerminate hard st =>
      match ans_terminate a with
      | Ok false => Done (BackendState.to_terminated st None)
      | Ok true => Forever
      | Err _ => Again
      end
  | TForever => Forever
  end.

(** The state and the running task. *)
Record Manager := MkManager { m_state : BackendState; m_handle : option Task }.

(** [set_state]: the new machine and the states passed to the callback, in order. The
    previous state and task are overwritten. The recursion is at most two deep
    ([set_state_fuel]). *)
Fixpoint set_state_fuel (fuel : nat) (cb_ok : BackendState → bool) (st : BackendState)
  : Manager * list BackendState :=
  match fuel with
  | O => (MkManager st None, [])
  | S fuel =>
      if cb_ok st then
        match step_state st with
        | DoNothing => (MkManager st None, [st])
        | SetState st' => let '(m, l) := set_state_fuel fuel cb_ok st' in (m, st :: l)
        | FutureSetState t => (MkManager st (Some t), [st])
        end
      else (MkManager st None, [st])
  end.

Definition set_state (cb_ok : BackendState → bool) (st : BackendState)
  : Manager * list BackendState := set_state_fuel 2 cb_ok st.

(** [BackendManager::new] sets the given state. *)
Definition new (cb_ok : BackendState → bool) (st : BackendState) : Manager * list BackendState :=
  set_state cb_ok st.

Definition terminate (cb_ok : BackendState → bool) (kind : TerminationKind)
    (reason : TerminationReason) (m : Manager) : Manager * list BackendState :=
  set_state cb_ok
    (match kind with
     | BackendState.Soft => BackendState.to_terminating (m_state m) reason
     | BackendState.Hard => BackendState.to_hard_terminating (m_state m) reason
     end).

Definition mark_terminated (cb_ok : BackendState → bool) (exit_code : option Z) (m : Manager)
  : Manager * list BackendState :=
  set_state cb_ok (BackendState.to_terminated (m_state m) exit_code).

(** The running task gets an answer. *)
Definition complete (cb_ok : BackendState → bool) (ip : IpAddr) (a : RuntimeAnswer) (m : Manager)
  : Manager * list BackendState :=
  match m_handle m with
  | None => (m, [])
  | Some t =>
      match resolve ip t a with
      | Done st => set_state cb_ok st
      | Forever => (MkManager (m_state m) (Some TForever), [])
      | Again => (m, [])
      end
  end.

(** ** Executions *)

Inductive event :=
| EComplete (a : RuntimeAnswer)
| ETerminate (kind : TerminationKind) (reason : TerminationReason)
| EExited (exit_code : option Z).

Definition handle (cb_ok : BackendState → bool) (ip : IpAddr) (e : event) (m : Manager)
  : Manager * list BackendState :=
  match e with
  | EComplete a => complete cb_ok ip a m
  | ETerminate kind reason => terminate cb_ok kind reason m
  | EExited code => mark_terminated cb_ok code m
  end.

(** A run from a machine: the final machine and everything reported. *)
Fixpoint run (cb_ok : BackendState → bool) (ip : IpAddr) (es : list event) (m : Manager)
  : Manager * list BackendState :=
  match es with
  | [] => (m, [])
  | e :: es =>
      let '(m', l) := handle cb_ok ip e m in
      let '(m'', l') := run cb_ok ip es m' in (m'', l ++ l')
  end.

(** ** The machine at a finer grain

    A task whose call has returned runs on to [set_state] without a point where it could
    be aborted: dropping its handle has no effect any more. [in_flight] holds the results
    of such tasks, which wait for the machine's lock. *)
Record Racing := MkRacing { r_manager : Manager; in_flight : list BackendState }.

Inductive race_step (ip : IpAddr) : Racing → Racing → Prop :=
| rs_resolve m fl t a st :
    m_handle m = Some t → resolve ip t a = Done st →
    race_step ip (MkRacing m fl) (MkRacing (MkManager (m_state m) None) (st :: fl))
| rs_commit m fl1 st fl2 :
    race_step ip (MkRacing m (fl1 ++ st :: fl2))
      (MkRacing (set_state (λ _, true) st).1 (fl1 ++ fl2))
| rs_terminate m fl kind reason :
    race_step ip (MkRacing m fl) (MkRacing (terminate (λ _, true) kind reason m).1 fl)
| rs_exited m fl code :
    race_step ip (MkRacing m fl) (MkRacing (mark_terminated (λ _, true) code m).1 fl).

End BackendManager.

Module Executor.
Import BackendManager.

Record Executor := MkExecutor {
  ex_store : StateStore.Store;
  ex_backends : gmap string Manager
}.

(** The state callback of a backend, for each state reported at [now]; the messages go to
    the listener of the store. *)
Fixpoint report (backend_id : string) (now : Z) (states : list BackendState) (s : StateStore.Store)
  : StateStore.Store * list Protocol.BackendStateMessage :=
  match states with
  | [] => (s, [])
  | st :: states =>
      let '(s', l) := StateStore.register_event backend_id st now s in
      let '(s'', l') := report backend_id now states s' in (s'', l ++ l')
  end.

(** Run an operation of a machine and report what it sets. *)
Definition with_manager (backend_id : string) (now : Z) (r : Manager * list BackendState)
    (ex : Executor) : Executor * list Protocol.BackendStateMessage :=
  let '(m, states) := r in
  let '(s, l) := report backend_id now states (ex_store ex) in
  (MkExecutor s (<[backend_id := m]> (ex_backends ex)), l).

Definition always (_ : BackendState) : bool := true.

(** The state registered when a terminate action finds no machine. *)
Definition lost_state : BackendState :=
  BackendState.Terminated BackendStatus.Ready None (Some BackendState.Lost) None.

(** [apply_action]; [rt] is the runtime's answer to the [terminate] call made when there is
    no machine for the backend. *)
Definition apply_action (backend_id : string) (action : Protocol.BackendAction)
    (rt : result string bool) (now : Z) (ex : Executor)
  : Executor * list Protocol.BackendStateMessage * result string () :=
  match action with
  | Protocol.Spawn _ _ _ =>
      (with_manager backend_id now (new always BackendState.default_state) ex, Ok ())
  | Protocol.Terminate kind reason =>
      match ex_backends ex !! backend_id with
      | None =>
          match rt with
          | Err e => (ex, [], Err e)
          | Ok _ =>
              let '(s, l) := StateStore.register_event backend_id lost_state now (ex_store ex) in
              (MkExecutor s (ex_backends ex), l, Ok ())
          end
      | Some m => (with_manager backend_id now (terminate always kind reason m) ex, Ok ())
      end
  end.

(** A termination event of the runtime: the machine is removed from the table first. *)
Definition container_exited (backend_id : string) (exit_code : option Z) (now : Z) (ex : Executor)
  : Executor * list Protocol.BackendStateMessage :=
  match ex_backends ex !! backend_id with
  | None => (ex, [])
  | Some m =>
      let '(s, l) := report backend_id now (mark_terminated always exit_code m).2 (ex_store ex) in
      (MkExecutor s (delete backend_id (ex_backends ex)), l)
  end.

(** A task of a machine gets its answer. *)
Definition task_completed (backend_id : string) (ip : IpAddr) (a : RuntimeAnswer) (now : Z)
    (ex : Executor) : Executor * list Protocol.BackendStateMessage :=
  match ex_backends ex !! backend_id with
  | None => (ex, [])
  | Some m => with_manager backend_id now (complete always ip a m) ex
  end.

Definition register_listener (ex : Executor)
  : Executor * result Names.NameError (list Protocol.BackendStateMessage) :=
  let '(s, r) := StateStore.register_listener (ex_store ex) in (MkExecutor s (ex_backends ex), r).

Definition ack_event (event_id : Z) (ex : Executor) : Executor :=
  MkExecutor (StateStore.ack_event event_id (ex_store ex)) (ex_backends ex).

(** [terminate_preexisting_backends]: each backend is reported hard-terminating, its
    container is terminated (up to ten attempts, after which it is given up), and it is
    reported terminated, whether or not that worked. The tasks of different backends
    write different rows; they are run one after the other here. *)
Definition terminate_preexisting_one (now : Z) (s : StateStore.Store) (p : string * BackendState)
  : StateStore.Store :=
  let s1 := (StateStore.register_event p.1
               (BackendState.to_hard_terminating p.2 BackendState.KeyExpired) now s).1 in
  (StateStore.register_event p.1 (BackendState.to_terminated p.2 None) now s1).1.

Definition terminate_preexisting_backends (now : Z) (s : StateStore.Store)
  : result Names.NameError StateStore.Store :=
  let? active := StateStore.active_backends s in
  Ok (foldl (terminate_preexisting_one now) s active).

(** [Executor::new] panics when that fails. *)
Definition new (now : Z) (s : StateStore.Store) : option Executor :=
  match terminate_preexisting_backends now s with
  | Ok s' => Some (MkExecutor s' ∅)
  | Err _ => None
  end.

End Executor.

Module DroneLoop.
Import Executor.

Record Drone := MkDrone { dr_executor : Executor; dr_keys : KeyManager.KeyManager }.

(** The listener installed on each connection: forward the message, and forget the key of
    a terminated backend. *)
Definition on_event (keys : KeyManager.KeyManager) (m : Protocol.BackendStateMessage)
  : KeyManager.KeyManager :=
  if BackendState.is_terminated (Protocol.bsm_state m)
  then KeyManager.unregister_key (Protocol.bsm_backend_id m) keys else keys.

Definition forward (d : Drone) (ex : Executor) (l : list Protocol.BackendStateMessage)
  : Drone * list Protocol.MessageFromDrone :=
  (MkDrone ex (foldl on_event (dr_keys d) l), Protocol.MBackendEvent <$> l).

(** A new connection: the sender of the key manager, then the listener, which replays the
    unacknowledged events. *)
Definition connected (d : Drone) : Drone * result Names.NameError (list Protocol.MessageFromDrone) :=
  let keys := KeyManager.set_sender (dr_keys d) in
  let '(ex, r) := register_listener (dr_executor d) in
  match r with
  | Ok l => let '(d', msgs) := forward (MkDrone ex keys) ex l in (d', Ok msgs)
  | Err e => (MkDrone ex keys, Err e)
  end.

(** The action branch of [handle_message]. A spawn whose soft deadline has passed is only
    logged; a spawn for a backend whose key is registered is dropped without an
    acknowledgement. *)
Definition handle_action (m : Protocol.BackendActionMessage) (rt : result string bool) (now : Z)
    (d : Drone) : Drone * list Protocol.MessageFromDrone :=
  let backend_id := Protocol.bam_backend_id m in
  let '(keys, registered) :=
    match Protocol.bam_action m with
    | Protocol.Spawn _ key _ => KeyManager.register_key backend_id key (dr_keys d)
    | Protocol.Terminate _ _ => (dr_keys d, true)
    end in
  if registered then
    let '(ex, events, r) :=
      apply_action backend_id (Protocol.bam_action m) rt now (dr_executor d) in
    let '(d', msgs) := forward (MkDrone ex keys) ex events in
    match r with
    | Err _ => (d', msgs)
    | Ok _ => (d', msgs ++ [Protocol.MAckAction (Protocol.bam_action_id m)])
    end
  else (d, []).

Definition handle_message (msg : Protocol.MessageToDrone) (rt : result string bool) (now : Z)
    (d : Drone) : Drone * list Protocol.MessageFromDrone :=
  match msg with
  | Protocol.TDAction m => handle_action m rt now d
  | Protocol.TDAckEvent event_id => (MkDrone (ack_event event_id (dr_executor d)) (dr_keys d), [])
  | Protocol.TDRenewKeyResponse r =>
      match Protocol.rkp_deadlines r with
      | Some deadlines =>
          (MkDrone (dr_executor d)
             (KeyManager.update_deadlines (Protocol.rkp_backend r) deadlines (dr_keys d)), [])
      | None => (d, [])
      end
  end.

End DroneLoop.
