(* ===== verification/DroneProps.v ===== *)
(** * Properties of the drone

    The backend state machine never goes backwards and never gets stuck, the executor's
    store agrees with its machines, a restart leaves nothing running, and what a drone
    reports brings the controller to the same status. *)

From S2P Require Import Prelude Names BackendState Types Database Keys Backends Nodes.
From S2P Require Import Connect Invariant Scenario Changes Safety BackendProps Controller.
From S2P Require Import StateStore KeyManager Drone.
Import Db.

Module DroneProps.
Import BackendManager.

(** ** The machine *)

(** The running task is the one [step_state] starts, or the terminate task that never
    completes. *)
Definition manager_ok (m : Manager) : Prop :=
  match m_handle m with
  | None => True
  | Some TForever => ∃ hard, step_state (m_state m) = FutureSetState (TTerminate hard (m_state m))
  | Some t => step_state (m_state m) = FutureSetState t
  end.

Lemma set_state_facts cb st :
  let '(m, l) := set_state cb st in
  manager_ok m ∧ last l = Some (m_state m) ∧
  StronglySorted Z.le (BackendState.status_int st :: (BackendState.status_int <$> l)) ∧
  (BackendState.is_terminated st = true → m_state m = st).
Proof.
  assert (∀ a : Z, StronglySorted Z.le [a; a]) as Hone by (repeat constructor; lia).
  unfold set_state, set_state_fuel.
  destruct st; simpl; repeat (destruct (cb _); simpl);
    (split_and!; [by try eexists|done|try apply Hone|done]);
    repeat constructor; unfold BackendState.status_int; simpl; lia.
Qed.

Lemma resolve_later ip st t a st' :
  step_state st = FutureSetState t → resolve ip t a = Done st' →
  (BackendState.status_int st < BackendState.status_int st')%Z.
Proof.
  destruct st; simpl; intros [= <-]; simpl; repeat case_match; intros; simplify_eq;
    unfold BackendState.status_int; simpl; try lia.
  all: unfold BackendState.to_hard_terminating; simpl; lia.
Qed.

(** One event: sorted reports above the current status, and the last is the new state. *)
Definition step_facts (m : Manager) (r : Manager * list BackendState) : Prop :=
  manager_ok r.1 ∧ default (m_state m) (last r.2) = m_state r.1 ∧
  StronglySorted Z.le (BackendState.status_int (m_state m) :: (BackendState.status_int <$> r.2)) ∧
  (BackendState.is_terminated (m_state m) = true → m_state r.1 = m_state m).

Lemma sorted_lower (x y : Z) l :
  (x ≤ y)%Z → StronglySorted Z.le (y :: l) → StronglySorted Z.le (x :: l).
Proof.
  intros Hxy [Hs Hf]%StronglySorted_inv. constructor; [done|].
  eapply Forall_impl; [exact Hf|]. simpl. lia.
Qed.

Lemma set_state_step cb m st :
  (BackendState.status_int (m_state m) ≤ BackendState.status_int st)%Z →
  (BackendState.is_terminated (m_state m) = true → st = m_state m) →
  step_facts m (set_state cb st).
Proof.
  intros Hle Ht. pose proof (set_state_facts cb st) as Hf.
  destruct (set_state cb st) as [m' l]. destruct Hf as (Hok & Hl & Hs & Hterm).
  unfold step_facts. simpl. rewrite Hl. split_and!; [done|done|by eapply sorted_lower|].
  intros Hm. specialize (Ht Hm). subst st. auto.
Qed.

Lemma handle_facts cb ip e m : manager_ok m → step_facts m (handle cb ip e m).
Proof.
  intros Hok.
  assert (∀ m', manager_ok m' → m_state m' = m_state m → step_facts m (m', [])) as Hstay.
  { intros m' Hm' Heq. unfold step_facts. simpl. rewrite Heq. split_and!; [done|done|by repeat constructor|done]. }
  destruct e as [a|kind reason|code]; simpl.
  - unfold complete, manager_ok in *. destruct (m_handle m) as [t|] eqn:Hh; [|by apply Hstay; unfold manager_ok; rewrite ?Hh].
    destruct (resolve ip t a) as [st'| |] eqn:Hr.
    + assert (step_state (m_state m) = FutureSetState t) as Hst by (destruct t; try done).
      pose proof (resolve_later _ _ _ _ _ Hst Hr). apply set_state_step; [lia|].
      intros Ht. by destruct (m_state m).
    + apply Hstay; [|done]. unfold manager_ok. simpl.
      destruct t; simpl in Hr; repeat case_match; try done. all: destruct (m_state m); simplify_eq/=; eauto.
    + apply Hstay; [|done]. unfold manager_ok. by rewrite Hh.
  - apply set_state_step; destruct kind.
    + apply BackendState.to_terminating_ge.
    + apply BackendState.to_hard_terminating_ge.
    + by destruct (m_state m).
    + by destruct (m_state m).
  - apply set_state_step; [apply BackendState.to_terminated_ge|]. by destruct (m_state m).
Qed.

Lemma sorted_app_last (x : Z) l1 l2 y :
  StronglySorted Z.le (x :: l1) → default x (last l1) = y → StronglySorted Z.le (y :: l2) →
  StronglySorted Z.le (x :: l1 ++ l2).
Proof.
  revert x. induction l1 as [|z l1 IH]; intros x H1 Hy H2; simpl in *; [by subst|].
  apply StronglySorted_inv in H1 as [H1 Hf]. inversion Hf as [|? ? Hxz Hf']; subst.
  assert (StronglySorted Z.le (z :: l1 ++ l2)) as Hz.
  { apply IH; [done| |done]. rewrite last_cons. by destruct (last l1). }
  constructor; [done|]. apply StronglySorted_inv in Hz as [_ Hz'].
  constructor; [done|]. eapply Forall_impl; [exact Hz'|]. simpl. lia.
Qed.

Lemma run_facts cb ip es m : manager_ok m → step_facts m (run cb ip es m).
Proof.
  revert m. induction es as [|e es IH]; intros m Hok; simpl.
  { unfold step_facts. simpl. split_and!; [done|done|by repeat constructor|done]. }
  pose proof (handle_facts cb ip e m Hok) as Hf. destruct (handle cb ip e m) as [m' l].
  destruct Hf as (Hok' & Hl & Hs & Ht). simpl in *. specialize (IH m' Hok').
  destruct (run cb ip es m') as [m'' l']. destruct IH as (Hok'' & Hl' & Hs' & Ht'). simpl in *.
  unfold step_facts. simpl. split_and!; [done| | |].
  - rewrite last_app, <- Hl'. destruct (last l'); [done|]. simpl. by rewrite Hl.
  - rewrite fmap_app. eapply sorted_app_last; [done| |exact Hs'].
    rewrite fmap_last, <- Hl. by destruct (last l).
  - intros Hm. rewrite Ht' by (rewrite Ht; done). auto.
Qed.

Lemma new_ok cb st : manager_ok (new cb st).1.
Proof. unfold new. pose proof (set_state_facts cb st). destruct (set_state cb st). naive_solver. Qed.


(** A machine without a task has nothing left to do. *)
Definition settled (m : Manager) : Prop :=
  m_handle m = None →
  BackendState.is_terminated (m_state m) = true ∨ ∃ addr, m_state m = BackendState.Ready addr.

Lemma set_state_settled st : settled (set_state Executor.always st).1.
Proof. unfold settled. destruct st; simpl; eauto; done. Qed.

Lemma run_settled ip es m : settled m → settled (run Executor.always ip es m).1.
Proof.
  revert m. induction es as [|e es IH]; intros m Hm; [done|]. simpl.
  assert (settled (handle Executor.always ip e m).1) as Hm'.
  { destruct e as [a|k r|c]; [|apply set_state_settled..]. simpl. unfold complete.
    destruct (m_handle m) as [t|] eqn:Hh; [|done].
    destruct (resolve ip t a); [apply set_state_settled|done|done]. }
  destruct (handle _ ip e m) as [m' l]. specialize (IH m' Hm'). by destruct (run _ ip es m').
Qed.

(** A task that completes moves the machine forward. *)
Lemma complete_later cb ip a m t st :
  manager_ok m → m_handle m = Some t → t ≠ TForever → resolve ip t a = Done st →
  (BackendState.status_int (m_state m) < BackendState.status_int (m_state (complete cb ip a m).1))%Z.
Proof.
  intros Hok Hh Ht Hr. unfold complete, manager_ok in *. rewrite Hh in *. rewrite Hr.
  assert (step_state (m_state m) = FutureSetState t) as Hstep by by destruct t.
  pose proof (resolve_later _ _ _ _ _ Hstep Hr). pose proof (set_state_facts cb st) as Hf.
  destruct (set_state cb st) as [m' l]. destruct Hf as (_ & Hl & Hsort & _). simpl in *.
  apply StronglySorted_inv in Hsort as [_ Hall]. rewrite Forall_fmap, Forall_forall in Hall.
  apply last_Some_elem_of in Hl. specialize (Hall _ Hl). simpl in Hall. lia.
Qed.


(** ** A race between a termination and a completing task *)

(** A termination request can be lost: a hard termination set while the readiness check of
    the backend has just succeeded is overwritten by the ready state, and nothing is left
    running that would terminate the backend. *)
Theorem termination_can_be_lost ip port reason :
  let start := MkRacing (new Executor.always BackendState.Scheduled).1 [] in
  let addr := {| sa_ip := ip; sa_port := port |} in
  ∃ r,
    rtc (race_step ip) start r ∧
    m_state (r_manager r) = BackendState.HardTerminating BackendStatus.Waiting reason ∧
    race_step ip r (MkRacing (MkManager (BackendState.Ready addr) None) []).
Proof.
  intros start addr.
  set (good := {| ans_prepare := true; ans_spawn := Some port; ans_wait := None;
                  ans_terminate := Ok true |}).
  exists (MkRacing (terminate (λ _, true) BackendState.Hard reason
    (MkManager (BackendState.Waiting addr) None)).1 [BackendState.Ready addr]).
  split_and!; [|done|].
  - eapply rtc_l; [eapply (rs_resolve ip _ _ _ good); reflexivity|].
    eapply rtc_l; [apply (rs_commit _ _ [] _ [])|].
    eapply rtc_l; [eapply (rs_resolve ip _ _ _ good); reflexivity|].
    eapply rtc_l; [apply (rs_commit _ _ [] _ [])|].
    eapply rtc_l; [eapply (rs_resolve ip _ _ _ good); reflexivity|].
    eapply rtc_l; [apply (rs_terminate _ _ _ BackendState.Hard reason)|]. apply rtc_refl.
  - apply (rs_commit ip _ [] (BackendState.Ready addr) []).
Qed.

(** ** From the drone to the controller *)

Section EndToEnd.
Context `{Ext : Externals}.


End EndToEnd.

(** ** The executor and its store *)

Import StateStore Executor.

Lemma report_state id now l s id' :
  st_backends (report id now l s).1 !! id' =
    if decide (id' = id) then match last l with Some st => Some st | None => st_backends s !! id' end
    else st_backends s !! id'.
Proof.
  revert s. induction l as [|st l IH]; intros s; [by case_decide|]. cbn [report].
  destruct (register_event id st now s) as [s' ms] eqn:Hr. specialize (IH s').
  destruct (report id now l s') as [s'' l'].
  simpl in *. rewrite IH. injection Hr as <- _. simpl.
  destruct (decide (id' = id)) as [->|]; [|by rewrite lookup_insert_ne].
  rewrite last_cons, lookup_insert_eq. by destruct (last l).
Qed.

Lemma report_wf id now l s :
  store_wf s → is_ok (Names.try_from Names.BackendName id) = true → store_wf (report id now l s).1.
Proof.
  intros Hs Hid. revert s Hs. induction l as [|st l IH]; intros s Hs; [done|]. cbn [report].
  pose proof (store_wf_register id st now s Hs Hid) as Hs'.
  destruct (register_event id st now s) as [s' ms]. specialize (IH s' Hs').
  by destruct (report id now l s').
Qed.

(** The store knows the state of every machine. *)
Definition exec_ok (ex : Executor) : Prop :=
  store_wf (ex_store ex) ∧
  ∀ id m, ex_backends ex !! id = Some m →
    manager_ok m ∧ st_backends (ex_store ex) !! id = Some (m_state m) ∧
    is_ok (Names.try_from Names.BackendName id) = true.

Lemma with_manager_ok id now r ex :
  exec_ok ex → is_ok (Names.try_from Names.BackendName id) = true → manager_ok r.1 →
  (last r.2 = Some (m_state r.1) ∨
   ∃ m, ex_backends ex !! id = Some m ∧ r.2 = [] ∧ m_state r.1 = m_state m) →
  exec_ok (with_manager id now r ex).1.
Proof.
  intros [Hs Hex] Hid Hm Hl. destruct r as [m l]. simpl in *. unfold with_manager.
  pose proof (report_state id now l (ex_store ex)) as Hst.
  pose proof (report_wf id now l _ Hs Hid) as Hwf.
  destruct (report id now l (ex_store ex)) as [s msgs]. simpl in *. split; [done|].
  intros i mi. simpl. rewrite lookup_insert_Some. intros [[<- <-]|[Hne Hi]]; rewrite Hst.
  - rewrite decide_True by done. destruct Hl as [->|(m0 & Hm0 & -> & ->)]; [done|]. simpl.
    by destruct (Hex _ _ Hm0) as (_ & ? & _).
  - rewrite decide_False by done. auto.
Qed.

(** The operations on an executor; names are validated when messages are decoded. *)
Inductive xop :=
| XAction (id : string) (action : Protocol.BackendAction) (rt : result string bool) (now : Z)
| XExited (id : string) (code : option Z) (now : Z)
| XTask (id : string) (ip : IpAddr) (a : RuntimeAnswer) (now : Z)
| XAck (event_id : Z)
| XListen.

Definition xop_id_ok (o : xop) : bool :=
  match o with
  | XAction id _ _ _ => is_ok (Names.try_from Names.BackendName id)
  | _ => true
  end.

Definition xapply (ex : Executor) (o : xop) : Executor :=
  match o with
  | XAction id action rt now => (apply_action id action rt now ex).1.1
  | XExited id code now => (container_exited id code now ex).1
  | XTask id ip a now => (task_completed id ip a now ex).1
  | XAck id => ack_event id ex
  | XListen => (register_listener ex).1
  end.

Lemma handle_default cb ip e m :
  manager_ok m → let r := handle cb ip e m in
  last r.2 = Some (m_state r.1) ∨ (r.2 = [] ∧ m_state r.1 = m_state m).
Proof.
  intros Hm r. destruct (handle_facts cb ip e m Hm) as (_ & Hl & _). fold r in Hl.
  destruct (last r.2) as [x|] eqn:E; simpl in Hl; [left; by f_equal|right].
  apply last_None in E. done.
Qed.

Lemma xapply_ok o ex : exec_ok ex → xop_id_ok o = true → exec_ok (xapply ex o).
Proof.
  intros Hex Ho. pose proof Hex as [Hs Hm].
  destruct o as [id action rt now|id code now|id ip a now|e|]; cbn [xapply]; simpl in Ho.
  - destruct action as [exe key tok|kind reason]; cbn [apply_action].
    + apply (with_manager_ok id now (BackendManager.new always BackendState.default_state) ex);
        [done|done|apply new_ok|by left].
    + destruct (ex_backends ex !! id) as [m|] eqn:Hid.
      * destruct (Hm _ _ Hid) as (Hok & _ & _). pose proof (handle_facts always (IpV4 0)
          (ETerminate kind reason) m Hok) as (Hok' & _).
        apply (with_manager_ok id now (terminate always kind reason m) ex); [done|done|exact Hok'|].
        destruct (handle_default always (IpV4 0) (ETerminate kind reason) m Hok) as [?|[? ?]];
          [by left|right; by exists m].
      * destruct rt as [b|e]; [|done]. split; [by apply store_wf_register|].
        simpl. intros i mi Hi. rewrite lookup_insert_ne; [auto|]. intros ->. congruence.
  - unfold container_exited. destruct (ex_backends ex !! id) as [m|] eqn:Hid; [|done].
    destruct (Hm _ _ Hid) as (Hok & _ & Hn).
    pose proof (report_state id now (mark_terminated always code m).2 (ex_store ex)) as Hst.
    pose proof (report_wf id now (mark_terminated always code m).2 _ Hs Hn) as Hwf.
    destruct (report _ _ _ _) as [s l]. simpl in *. split; [done|].
    intros i mi. simpl. rewrite lookup_delete_Some. intros [Hne Hi]. rewrite Hst, decide_False by done.
    auto.
  - unfold task_completed. destruct (ex_backends ex !! id) as [m|] eqn:Hid; [|done].
    destruct (Hm _ _ Hid) as (Hok & _ & Hn).
    pose proof (handle_facts always ip (EComplete a) m Hok) as (Hok' & _).
    apply (with_manager_ok id now (complete always ip a m) ex); [done|done|exact Hok'|].
    destruct (handle_default always ip (EComplete a) m Hok) as [?|[? ?]]; [by left|right; by exists m].
  - split; [by apply store_wf_ack|done].
  - unfold Executor.register_listener, StateStore.register_listener.
    destruct (unacked_events (ex_store ex)); simpl; [|by destruct ex].
    split; [|done]. destruct Hs. by constructor.
Qed.

Lemma xapply_run ops s :
  store_wf s → forallb xop_id_ok ops = true → exec_ok (foldl xapply (MkExecutor s ∅) ops).
Proof.
  intros Hs. assert (exec_ok (MkExecutor s ∅)) as Hex by done. revert Hex.
  generalize (MkExecutor s ∅). induction ops as [|o ops IH]; intros ex Hex; [done|]. simpl.
  intros [Ho Hops]%andb_true_iff. by apply IH; [apply xapply_ok|].
Qed.

(** The state store always agrees with the machines: after any sequence of actions,
    task completions, container exits, acknowledgements and reconnections, the stored
    state of every backend with a machine is the machine's state, so what a restart (or the
    controller, through the replayed events) reads is current. *)
Theorem executor_store_consistent ops s :
  store_wf s → forallb xop_id_ok ops = true →
  let ex := foldl xapply (MkExecutor s ∅) ops in
  store_wf (ex_store ex) ∧
  ∀ id m, ex_backends ex !! id = Some m → backend_state id (ex_store ex) = Ok (m_state m).
Proof.
  intros Hs Hops. destruct (xapply_run ops s Hs Hops) as [Hwf Hex].
  split; [done|]. intros id m Hm. destruct (Hex id m Hm) as (_ & Hst & _).
  unfold backend_state. by rewrite Hst.
Qed.

(** ** Restart *)

Lemma active_backends_eq s :
  store_wf s →
  active_backends s =
    Ok (filter (λ p, BackendState.is_terminated p.2 = false) (map_to_list (st_backends s))).
Proof.
  intros Hs. unfold active_backends.
  assert (∀ p, p ∈ filter (λ p, BackendState.is_terminated p.2 = false)
    (map_to_list (st_backends s)) → Names.try_from Names.BackendName p.1 = Ok p.1) as Hn.
  { intros [i st] [_ Hin%elem_of_map_to_list]%list_elem_of_filter. apply (sw_backends _ Hs) in Hin.
    simpl. destruct (Names.try_from _ i) as [n|] eqn:E; [|done].
    by apply Names.try_from_Ok in E as [-> _]. }
  revert Hn. generalize (filter (λ p : string * BackendState, BackendState.is_terminated p.2 = false)
    (map_to_list (st_backends s))). intros l Hn. induction l as [|[i st] l IH]; [done|]. simpl.
  pose proof (Hn (i, st) ltac:(set_solver)) as Hi. simpl in Hi. rewrite Hi. simpl.
  by rewrite IH by set_solver.
Qed.

Lemma terminate_all_wf now l s :
  store_wf s → (∀ p, p ∈ l → is_ok (Names.try_from Names.BackendName p.1) = true) →
  store_wf (foldl (terminate_preexisting_one now) s l).
Proof.
  revert s. induction l as [|p l IH]; intros s Hs Hl; [done|]. cbn [foldl]. apply IH; [|set_solver].
  unfold terminate_preexisting_one. by do 2 (apply store_wf_register; [|apply Hl; set_solver]).
Qed.

Lemma terminate_all_state now l s :
  NoDup l.*1 →
  ∀ id, st_backends (foldl (terminate_preexisting_one now) s l) !! id =
    match (list_to_map l : gmap string BackendState) !! id with
    | Some st => Some (BackendState.to_terminated st None)
    | None => st_backends s !! id
    end.
Proof.
  revert s. induction l as [|[i st] l IH]; intros s Hnd id; [done|].
  apply NoDup_cons in Hnd as [Hi Hnd]. cbn [foldl]. rewrite IH by done. simpl.
  destruct (decide (id = i)) as [->|Hne].
  - rewrite not_elem_of_list_to_map_1 by done. by rewrite !lookup_insert_eq.
  - by rewrite !lookup_insert_ne.
Qed.

Lemma terminate_all_events now l s e :
  e ∈ st_events s → e ∈ st_events (foldl (terminate_preexisting_one now) s l).
Proof.
  revert s. induction l as [|p l IH]; intros s He; [done|]. cbn [foldl]. apply IH. simpl. set_solver.
Qed.

(** A restart leaves nothing active: terminating the preexisting backends always
    succeeds, turns the state of every backend that was not terminated into its terminated
    form and leaves the others as they were, so that no backend is active, and queues for
    the controller an event with that terminated state. *)
Theorem restart_terminates_all now s :
  store_wf s →
  ∃ s', terminate_preexisting_backends now s = Ok s' ∧
    active_backends s' = Ok [] ∧
    ∀ id st, st_backends s !! id = Some st →
      st_backends s' !! id =
        Some (if BackendState.is_terminated st then st else BackendState.to_terminated st None) ∧
      (BackendState.is_terminated st = false →
       ∃ n, MkEvent n id (BackendState.to_terminated st None) (millis now) ∈ st_events s').
Proof.
  intros Hs. unfold terminate_preexisting_backends. rewrite active_backends_eq by done. simpl.
  set (l := filter _ (map_to_list (st_backends s))). eexists. split; [reflexivity|].
  assert (NoDup l.*1) as Hnd.
  { eapply sublist_NoDup; [apply (NoDup_fst_map_to_list (st_backends s))|].
    apply fmap_sublist, sublist_filter. }
  assert (∀ p, p ∈ l → is_ok (Names.try_from Names.BackendName p.1) = true) as Hnames.
  { intros [i st] [_ Hin%elem_of_map_to_list]%list_elem_of_filter. by apply (sw_backends _ Hs) in Hin. }
  assert (∀ id, (list_to_map l : gmap string BackendState) !! id =
    (filter (λ p, BackendState.is_terminated p.2 = false) (st_backends s)) !! id) as Hl.
  { intros id. unfold l. by rewrite map_filter_alt. }
  assert (∀ id st, st_backends s !! id = Some st →
    st_backends (foldl (terminate_preexisting_one now) s l) !! id =
      Some (if BackendState.is_terminated st then st else BackendState.to_terminated st None)) as Hst.
  { intros id st Hid. rewrite terminate_all_state, Hl by done.
    destruct (BackendState.is_terminated st) eqn:Ht.
    - rewrite (proj2 (map_lookup_filter_None _ _ _)); [done|]. right. intros x Hx. simpl. congruence.
    - by rewrite (proj2 (map_lookup_filter_Some _ _ _ st)). }
  split_and!.
  - rewrite active_backends_eq by by apply terminate_all_wf. f_equal.
    apply elem_of_nil_inv. intros [i st'] [Hact Hin%elem_of_map_to_list]%list_elem_of_filter.
    simpl in Hact.
    rewrite terminate_all_state, Hl in Hin by done.
    destruct (filter _ (st_backends s) !! i) as [st|] eqn:Hf.
    + simplify_eq. by rewrite BackendState.to_terminated_is_terminated in Hact.
    + apply map_lookup_filter_None in Hf as [Hf|Hf]; [congruence|]. by apply (Hf st' Hin).
  - intros id st Hid. split; [auto|]. intros Ht.
    assert ((id, st) ∈ l) as Hin by by apply list_elem_of_filter; (split; [|apply elem_of_map_to_list]).
    apply list_elem_of_split in Hin as (l1 & l2 & ->).
    rewrite foldl_app. cbn [foldl].
    set (s1 := foldl _ s l1). exists (st_seq s1 + 1)%Z.
    apply terminate_all_events. unfold terminate_preexisting_one. simpl. set_solver.
Qed.

(** ** The drone's handling of actions *)

Import DroneLoop.

(** What happens to a drone during one connection. *)
Inductive dop :=
| DMessage (msg : Protocol.MessageToDrone) (rt : result string bool) (now : Z)
| DExited (id : string) (code : option Z) (now : Z)
| DTask (id : string) (ip : IpAddr) (a : RuntimeAnswer) (now : Z).

Definition dapply (d : Drone) (o : dop) : Drone :=
  match o with
  | DMessage msg rt now => (handle_message msg rt now d).1
  | DExited id code now =>
      let '(ex, l) := container_exited id code now (dr_executor d) in (forward d ex l).1
  | DTask id ip a now =>
      let '(ex, l) := task_completed id ip a now (dr_executor d) in (forward d ex l).1
  end.

Definition live (id : string) (ex : Executor) : Prop :=
  ∃ m, ex_backends ex !! id = Some m ∧ BackendState.is_terminated (m_state m) = false.

(** Machines are well-formed and the key of a live backend is registered. *)
Definition drone_ok (d : Drone) : Prop :=
  (∀ id m, ex_backends (dr_executor d) !! id = Some m → manager_ok m) ∧
  ∀ id, live id (dr_executor d) → is_Some (KeyManager.handles (dr_keys d) !! id).

Lemma report_messages id now l s m :
  m ∈ (report id now l s).2 → Protocol.bsm_backend_id m = id ∧ Protocol.bsm_state m ∈ l.
Proof.
  revert s. induction l as [|st l IH]; intros s; [by intros ?%elem_of_nil|]. cbn [report].
  destruct (register_event id st now s) as [s' ms] eqn:Hr. specialize (IH s').
  destruct (report id now l s') as [s'' l']. simpl in *. intros [Hm|Hm]%elem_of_app.
  - injection Hr as _ <-. destruct (st_listener s); [|by apply elem_of_nil in Hm].
    apply list_elem_of_singleton in Hm as ->. simpl. set_solver.
  - destruct (IH Hm). set_solver.
Qed.

Lemma on_event_keeps id l keys :
  is_Some (KeyManager.handles keys !! id) →
  (∀ m, m ∈ l → Protocol.bsm_backend_id m = id → BackendState.is_terminated (Protocol.bsm_state m) = false) →
  is_Some (KeyManager.handles (foldl on_event keys l) !! id).
Proof.
  revert keys. induction l as [|m l IH]; intros keys Hk Hl; [done|]. simpl. apply IH; [|set_solver].
  unfold on_event. destruct (BackendState.is_terminated (Protocol.bsm_state m)) eqn:Ht; [|done].
  simpl. rewrite lookup_delete_ne; [done|]. intros Heq.
  rewrite (Hl m) in Ht; [done|apply elem_of_cons; by left|done].
Qed.

(** A machine that reported a terminated state is terminated. *)
Lemma step_terminated m r st :
  step_facts m r → st ∈ r.2 → BackendState.is_terminated st = true →
  BackendState.is_terminated (m_state r.1) = true.
Proof.
  intros (_ & Hl & Hs & _) Hst Ht. apply StronglySorted_inv in Hs as [Hs _].
  destruct (last r.2) as [x|] eqn:Hlast; [|apply last_None in Hlast; rewrite Hlast in Hst; by apply elem_of_nil in Hst].
  simpl in Hl. subst x.
  assert (BackendState.status_int st ≤ BackendState.status_int (m_state r.1))%Z as Hle.
  { apply (sorted_last_bound Z.le _ _ _ ltac:(done) Hs);
      [by rewrite fmap_last, Hlast|by apply list_elem_of_fmap_2]. }
  destruct st; try done. revert Hle. by destruct (m_state r.1); unfold BackendState.status_int.
Qed.

(** Running a machine's operation and forwarding what it reports keeps the invariant. *)
Lemma forward_manager_ok d keys id m0 r now :
  drone_ok d → step_facts m0 r → is_Some (KeyManager.handles keys !! id) ∨
    BackendState.is_terminated (m_state r.1) = true →
  (∀ id', id' ≠ id → is_Some (KeyManager.handles (dr_keys d) !! id') →
          is_Some (KeyManager.handles keys !! id')) →
  let '(ex, l) := with_manager id now r (dr_executor d) in
  drone_ok (forward (MkDrone ex keys) ex l).1.
Proof.
  intros [Hm Hlive] Hf Hkey Hkeys. destruct r as [m states]. unfold with_manager.
  pose proof (report_messages id now states (ex_store (dr_executor d))) as Hmsg.
  destruct (report id now states (ex_store (dr_executor d))) as [s l]. simpl in *. split; simpl.
  - intros i mi. rewrite lookup_insert_Some. intros [[<- <-]|[_ ?]]; [apply Hf|eauto].
  - intros i (mi & Hi & Ht). simpl in Hi. apply lookup_insert_Some in Hi as [[<- <-]|[Hne Hi]].
    + apply on_event_keeps; [destruct Hkey; [done|congruence]|]. intros msg Hin _.
      destruct (Hmsg msg Hin) as [_ Hst]. apply not_true_is_false. intros Hterm.
      pose proof (step_terminated m0 (m, states) _ Hf Hst Hterm) as Hx. simpl in Hx. congruence.
    + apply on_event_keeps; [apply Hkeys; [done|]; apply Hlive; by exists mi|].
      intros msg Hin Heq. destruct (Hmsg msg Hin). congruence.
Qed.

Lemma machine_key d id m r :
  drone_ok d → ex_backends (dr_executor d) !! id = Some m → step_facts m r →
  is_Some (KeyManager.handles (dr_keys d) !! id) ∨ BackendState.is_terminated (m_state r.1) = true.
Proof.
  intros [_ Hlive] Hm (_ & _ & _ & Ht). destruct (BackendState.is_terminated (m_state m)) eqn:E.
  - right. by rewrite Ht.
  - left. apply Hlive. by exists m.
Qed.

Lemma forward_others_ok d ex l id :
  drone_ok d → ex_backends ex = delete id (ex_backends (dr_executor d)) ∨
    (ex_backends ex = ex_backends (dr_executor d) ∧ ex_backends ex !! id = None) →
  (∀ m, m ∈ l → Protocol.bsm_backend_id m = id) → drone_ok (forward d ex l).1.
Proof.
  intros [Hm Hlive] Hex Hl. 
  assert (∀ i m, ex_backends ex !! i = Some m → i ≠ id ∧ ex_backends (dr_executor d) !! i = Some m) as Hback.
  { intros i m Hi. destruct Hex as [Heq|[Heq Hno]].
    - rewrite Heq, lookup_delete_Some in Hi. destruct Hi. by split.
    - split; [congruence|by rewrite <- Heq]. }
  split; simpl.
  - intros i m Hi. apply Hback in Hi as [_ Hi]. eauto.
  - intros i (m & Hi & Ht). simpl in Hi. apply Hback in Hi as [Hne Hi].
    apply on_event_keeps; [apply Hlive; by exists m|]. intros msg Hin Heq. by rewrite Hl in Heq.
Qed.

Lemma handle_action_ok d msg rt now : drone_ok d → drone_ok (handle_action msg rt now d).1.
Proof.
  intros Hd. unfold handle_action. destruct (Protocol.bam_action msg) as [exe key tok|kind reason].
  - unfold KeyManager.register_key.
    destruct (KeyManager.handles (dr_keys d) !! Protocol.bam_backend_id msg) eqn:Hk; [done|].
    cbn [apply_action]. set (keys := KeyManager.MkKeyManager _ _).
    pose proof (forward_manager_ok d keys (Protocol.bam_backend_id msg)
      (MkManager BackendState.default_state None)
      (BackendManager.new always BackendState.default_state) now Hd) as Hf.
    destruct (with_manager _ _ _ _) as [ex l].
    destruct (forward _ ex l) as [d' out] eqn:Hfw. simpl.
    apply Hf.
    + by apply set_state_step.
    + left. unfold keys. simpl. by rewrite lookup_insert_eq.
    + intros id' Hne Hsome. unfold keys. simpl. by rewrite lookup_insert_ne.
  - cbn [apply_action].
    destruct (ex_backends (dr_executor d) !! Protocol.bam_backend_id msg) as [m|] eqn:Hm.
    + pose proof (handle_facts always (IpV4 0) (ETerminate kind reason) m (proj1 Hd _ _ Hm)) as Hst.
      pose proof (forward_manager_ok d (dr_keys d) (Protocol.bam_backend_id msg) m _ now Hd Hst
        (machine_key _ _ _ _ Hd Hm Hst)) as Hf. cbn [handle] in Hf.
      destruct (with_manager _ _ _ _) as [ex l]. apply Hf. auto.
    + destruct rt as [b|e]; [|by destruct d as [[] []]].
      destruct (register_event _ _ _ _) as [s l] eqn:Hr.
      apply (forward_others_ok d (MkExecutor s (ex_backends (dr_executor d))) l
        (Protocol.bam_backend_id msg)); [done|by right|].
      injection Hr as _ <-. destruct (st_listener _); [|by intros ? ?%elem_of_nil].
      by intros ? ->%list_elem_of_singleton.
Qed.

Lemma dapply_ok d o : drone_ok d → drone_ok (dapply d o).
Proof.
  intros Hd. pose proof Hd as [Hms Hlive]. destruct o as [msg rt now|id code now|id ip a now]; cbn [dapply].
  - destruct msg as [am|e|r]; cbn [handle_message]; [by apply handle_action_ok|done|].
    destruct (Protocol.rkp_deadlines r) as [dl|]; [|done]. split; [done|]. simpl. intros id Hid.
    unfold KeyManager.update_deadlines. destruct (KeyManager.handles _ !! Protocol.rkp_backend r) as [[]|];
      [|by apply Hlive]. simpl. apply lookup_insert_is_Some'. right. by apply Hlive.
  - unfold container_exited. destruct (ex_backends (dr_executor d) !! id) as [m|] eqn:Hm;
      [|by destruct d as [[] []]].
    pose proof (report_messages id now (mark_terminated always code m).2 (ex_store (dr_executor d))) as Hr.
    destruct (report _ _ _ _) as [s l]. apply (forward_others_ok _ _ _ id); [done|by left|].
    intros ? Hin. by apply Hr in Hin as [].
  - unfold task_completed. destruct (ex_backends (dr_executor d) !! id) as [m|] eqn:Hm;
      [|by destruct d as [[] []]].
    pose proof (handle_facts always ip (EComplete a) m (Hms _ _ Hm)) as Hst.
    pose proof (forward_manager_ok d (dr_keys d) id m _ now Hd Hst
      (machine_key _ _ _ _ Hd Hm Hst)) as Hf. cbn [handle] in Hf.
    destruct (with_manager _ _ _ _) as [ex l]. apply Hf. auto.
Qed.

(** C15. A spawn action takes effect at most once per live backend: during a
    connection, whatever messages, container exits and task completions come in whatever
    order, a spawn for a backend that has a machine which is not terminated changes
    nothing (and is not acknowledged). A spawn for a backend without a registered key is
    acknowledged and leaves it loading, with its key registered. *)
Theorem spawn_action_correct ops d0 msg executable key token rt now :
  drone_ok d0 → Protocol.bam_action msg = Protocol.Spawn executable key token →
  let id := Protocol.bam_backend_id msg in
  let d := foldl dapply d0 ops in
  let '(d', sent) := handle_action msg rt now d in
  (live id (dr_executor d) → d' = d ∧ sent = []) ∧
  (KeyManager.handles (dr_keys d) !! id = None →
     m_state <$> ex_backends (dr_executor d') !! id = Some BackendState.Loading ∧
     fst <$> KeyManager.handles (dr_keys d') !! id = Some key ∧
     last sent = Some (Protocol.MAckAction (Protocol.bam_action_id msg))).
Proof.
  intros Hd0 Hact id d.
  assert (drone_ok d) as [_ Hlive].
  { unfold d. clear -Hd0. revert d0 Hd0. induction ops as [|o ops IH]; intros d0 Hd0; [done|].
    by apply IH, dapply_ok. }
  unfold handle_action. rewrite Hact. fold id. unfold KeyManager.register_key.
  destruct (KeyManager.handles (dr_keys d) !! id) as [k|] eqn:Hk; [by split|].
  destruct (apply_action _ _ _ _ _) as [[ex l] r] eqn:Ha. injection Ha as <- <- <-.
  split; [intros Hl; destruct (Hlive _ Hl); congruence|]. intros _.
  split_and!; [by simpl; rewrite lookup_insert_eq| |by rewrite last_snoc].
  simpl. destruct (st_listener _); simpl; by rewrite lookup_insert_eq.
Qed.

(** A spawn whose acknowledgement is lost is carried out again when it is redelivered after
    the container has exited: the key was forgotten with the termination, so the second
    delivery is not recognised. *)
Theorem lost_ack_respawns msg executable key token rt now code :
  Protocol.bam_action msg = Protocol.Spawn executable key token →
  let d0 := (connected (MkDrone (MkExecutor StateStore.new ∅) KeyManager.new)).1 in
  let spawn := DMessage (Protocol.TDAction msg) rt now in
  let d1 := foldl dapply d0 [spawn; DExited (Protocol.bam_backend_id msg) code now] in
  BackendState.is_terminated <$> st_backends (ex_store (dr_executor d1)) !! Protocol.bam_backend_id msg
    = Some true ∧
  live (Protocol.bam_backend_id msg) (dr_executor (dapply d1 spawn)).
Proof.
  destruct msg as [aid id did act]. intros Hact d0 spawn. simpl in Hact. subst act.
  unfold d0, spawn. simpl. unfold handle_action, KeyManager.register_key. simpl.
  rewrite !fmap_empty, !lookup_empty. unfold container_exited. simpl. rewrite !lookup_insert_eq.
  simpl. rewrite !lookup_delete_eq. simpl.
  split; [by rewrite lookup_insert_eq|]. eexists. simpl. by rewrite lookup_insert_eq.
Qed.

End DroneProps.

(** ** Witnesses *)

Module DroneWitness.
Import BackendManager Executor DroneLoop DroneProps Scenario.
#[local] Existing Instance ExampleExternals.example_externals.

Definition ip : IpAddr := IpV4 2130706433.

(** The container starts on port 8080, answers at once, and is gone when terminated. *)
Definition good : RuntimeAnswer :=
  {| ans_prepare := true; ans_spawn := Some 8080%N; ans_wait := None; ans_terminate := Ok false |}.

Definition lifetime : list event :=
  [EComplete good; EComplete good; EComplete good; ETerminate BackendState.Soft BackendState.Swept;
   EComplete good].

(** Asked to stop while it starts, then gone. *)
Definition starting : Manager :=
  (run always ip [EComplete good] (BackendManager.new always BackendState.Scheduled).1).1.


(** Everything the machine reports, in the reverse order. *)
Definition reported : list BackendState :=
  reverse ((BackendManager.new always BackendState.Scheduled).2 ++
           (run always ip lifetime (BackendManager.new always BackendState.Scheduled).1).2).


Definition spawn_action : Protocol.BackendAction :=
  Protocol.Spawn (JObj [])
    {| Protocol.ak_key := key; Protocol.ak_deadlines := Controller.renewal_deadlines 0;
       Protocol.ak_token := 1 |} None.

Definition operations : list xop :=
  [XListen; XAction "b1" spawn_action (Ok true) 0; XTask "b1" ip good 1000; XAck 1;
   XAction "b2" spawn_action (Ok true) 2000; XExited "b2" (Some 1%Z) 3000].

Lemma executor_store_consistent_witness :
  ∃ m, ex_backends (foldl xapply (MkExecutor StateStore.new ∅) operations) !! "b1" = Some m ∧
    StateStore.backend_state "b1" (ex_store (foldl xapply (MkExecutor StateStore.new ∅) operations))
      = Ok (m_state m).
Proof.
  assert (∃ m, ex_backends (foldl xapply (MkExecutor StateStore.new ∅) operations) !! "b1" = Some m)
    as [m Hm] by (vm_compute; eauto).
  exists m. split; [exact Hm|].
  apply (proj2 (executor_store_consistent operations StateStore.new StateStore.store_wf_new eq_refl)
    "b1" m Hm).
Defined.

Lemma restart_terminates_all_witness :
  ∃ s', terminate_preexisting_backends 5000
      (ex_store (foldl xapply (MkExecutor StateStore.new ∅) operations)) = Ok s' ∧
    StateStore.active_backends s' = Ok [].
Proof.
  destruct (restart_terminates_all 5000
    (ex_store (foldl xapply (MkExecutor StateStore.new ∅) operations))) as (s' & H1 & H2 & _).
  - apply (proj1 (xapply_run operations StateStore.new StateStore.store_wf_new eq_refl)).
  - exists s'. split; [exact H1|exact H2].
Defined.

Definition spawn_message : Protocol.BackendActionMessage :=
  {| Protocol.bam_action_id := "ak1"; Protocol.bam_backend_id := "b1"; Protocol.bam_drone_id := 1;
     Protocol.bam_action := spawn_action |}.

(** A new drone, connected. *)
Definition fresh : Drone :=
  (connected (MkDrone (MkExecutor StateStore.new ∅) KeyManager.new)).1.

(** Backend [b1] is starting. *)
Definition busy : Drone :=
  foldl dapply fresh
    [DMessage (Protocol.TDAction spawn_message) (Ok true) 0; DTask "b1" ip good 1000].

Lemma spawn_action_correct_witness :
  live "b1" (dr_executor busy) ∧ (handle_action spawn_message (Ok true) 2000 busy).2 = [].
Proof.
  assert (live "b1" (dr_executor busy)) as Hlive by (vm_compute; eauto).
  split; [exact Hlive|].
  assert (drone_ok fresh) as Hok by (split; intros id; intros; vm_compute in *; naive_solver).
  pose proof (spawn_action_correct
    [DMessage (Protocol.TDAction spawn_message) (Ok true) 0; DTask "b1" ip good 1000] fresh
    spawn_message _ _ _ (Ok true) 2000 Hok eq_refl) as H.
  cbv zeta in H. fold busy in H.
  destruct (handle_action spawn_message (Ok true) 2000 busy) as [d' sent].
  apply H. exact Hlive.
Defined.

End DroneWitness.
