(* ===== verification/Proxy.v ===== *)
(** * The proxy

    [plane/src/proxy/{route_map,connection_monitor,request,proxy_server,
    proxy_connection}.rs] and the request builder of [dynamic-proxy/src/request.rs]: the
    cache of routes, the keepalives of connected backends, and the checks and rewriting
    of a request on its way to a backend. *)

From S2P Require Import Prelude Names BackendState Types Nodes.

(** ** The [lru] crate

    A cache with string keys; [lru_entries] is its content, most recently used first. *)

Class LruCache := {
  lru : Type → Type;
  lru_new : ∀ {V}, nat → lru V;
  lru_get : ∀ {V}, string → lru V → lru V * option V;
  lru_push : ∀ {V}, string → V → lru V → lru V;
  (** assign to every value through [iter_mut] *)
  lru_iter_mut : ∀ {V}, (V → V) → lru V → lru V;
  lru_cap : ∀ {V}, lru V → nat;
  lru_entries : ∀ {V}, lru V → list (string * V)
}.

(** The value of a key in a list of entries, and the entries of the other keys. *)
Definition entry {V} (k : string) (l : list (string * V)) : option V :=
  snd <$> head (filter (λ e, e.1 = k) l).
Definition others {V} (k : string) (l : list (string * V)) : list (string * V) :=
  filter (λ e, e.1 ≠ k) l.

Class LruLaws `{LruCache} := {
  lru_entries_new : ∀ {V} n, lru_entries (lru_new (V := V) n) = [];
  lru_cap_new : ∀ {V} n, lru_cap (lru_new (V := V) n) = n;
  lru_get_value : ∀ {V} k (c : lru V), (lru_get k c).2 = entry k (lru_entries c);
  lru_get_entries : ∀ {V} k (c : lru V),
    lru_entries (lru_get k c).1 =
      match entry k (lru_entries c) with
      | Some v => (k, v) :: others k (lru_entries c)
      | None => lru_entries c
      end;
  lru_get_cap : ∀ {V} k (c : lru V), lru_cap (lru_get k c).1 = lru_cap c;
  lru_push_entries : ∀ {V} k v (c : lru V),
    lru_entries (lru_push k v c) = take (lru_cap c) ((k, v) :: others k (lru_entries c));
  lru_push_cap : ∀ {V} k v (c : lru V), lru_cap (lru_push k v c) = lru_cap c;
  lru_iter_mut_entries : ∀ {V} f (c : lru V),
    lru_entries (lru_iter_mut f c) = (λ e, (e.1, f e.2)) <$> lru_entries c;
  lru_iter_mut_cap : ∀ {V} f (c : lru V), lru_cap (lru_iter_mut f c) = lru_cap c
}.

Module RouteMap.
Section RouteMap.
Context `{Lru : LruCache}.

Definition CACHE_SIZE : nat := 1000.

(** [listeners] maps a token to the lookups subscribed to its watch channel. *)
Record RouteMap := MkRouteMap {
  routes : lru (option Protocol.RouteInfo);
  request_sender : bool;
  listeners : gmap string (list nat)
}.

Definition new : RouteMap := MkRouteMap (lru_new CACHE_SIZE) false ∅.

Definition set_sender (m : RouteMap) : RouteMap := MkRouteMap (routes m) true (listeners m).

(** *** [lookup], by critical sections

    The future locks the routes, then the listeners, then reads the sender; it waits for the
    channel and locks the routes again. Other calls may come in between. *)

Definition lookup_cached (token : string) (m : RouteMap)
  : RouteMap * option (option Protocol.RouteInfo) :=
  let '(c, r) := lru_get token (routes m) in (MkRouteMap c (request_sender m) (listeners m), r).

Definition lookup_subscribe (lookup : nat) (token : string) (m : RouteMap) : RouteMap :=
  MkRouteMap (routes m) (request_sender m)
    (<[token := default [] (listeners m !! token) ++ [lookup]]> (listeners m)).

(** The request sent; without a sender the lookup returns [None]. *)
Definition lookup_request (token : string) (m : RouteMap) : option string :=
  if request_sender m then Some token else None.

Definition lookup_finish (token : string) (m : RouteMap) : RouteMap * option Protocol.RouteInfo :=
  let '(m', r) := lookup_cached token m in (m', mjoin r).

(** *** [insert], by critical sections *)

Definition insert_route (token : string) (r : option Protocol.RouteInfo) (m : RouteMap) : RouteMap :=
  MkRouteMap (lru_push token r (routes m)) (request_sender m) (listeners m).

(** The lookups whose [changed()] resolves. *)
Definition notify (token : string) (m : RouteMap) : RouteMap * list nat :=
  match listeners m !! token with
  | Some woken => (MkRouteMap (routes m) (request_sender m) (delete token (listeners m)), woken)
  | None => (m, [])
  end.

Definition receive (response : Protocol.RouteInfoResponse) (m : RouteMap) : RouteMap * list nat :=
  notify (Protocol.rir_token response)
    (insert_route (Protocol.rir_token response) (Protocol.rir_route_info response) m).

(** A route to the backend is replaced by [None]. *)
Definition invalidate (backend : string) (r : option Protocol.RouteInfo) : option Protocol.RouteInfo :=
  match r with
  | Some ri => if decide (Protocol.ri_backend_id ri = backend) then None else r
  | None => None
  end.

Definition remove_backend (backend : string) (m : RouteMap) : RouteMap :=
  MkRouteMap (lru_iter_mut (invalidate backend) (routes m)) (request_sender m) (listeners m).

End RouteMap.
End RouteMap.

Module ConnectionMonitor.

(** [active_connections] is a [u32]; arithmetic wraps, as in the release builds. *)
Record BackendEntry := MkEntry { active_connections : Z; had_recent_connection : bool }.

Definition wrap_u32 (n : Z) : Z := n mod 2 ^ 32.

Record ConnectionMonitor := MkMonitor {
  visit_queue : list (Z * string);
  backends : gmap string BackendEntry;
  listener : bool
}.

Definition new : ConnectionMonitor := MkMonitor [] ∅ false.

(** The keepalives given to the listener. *)
Definition notify (b : string) (m : ConnectionMonitor) : list string := if listener m then [b] else [].

Definition set_listener (m : ConnectionMonitor) : ConnectionMonitor :=
  MkMonitor (visit_queue m) (backends m) true.

Definition remove_backend (b : string) (m : ConnectionMonitor) : ConnectionMonitor :=
  MkMonitor (visit_queue m) (delete b (backends m)) (listener m).

Definition set_entry (b : string) (e : BackendEntry) (m : ConnectionMonitor) : ConnectionMonitor :=
  MkMonitor (visit_queue m) (<[b := e]> (backends m)) (listener m).

Definition enqueue (t : Z) (b : string) (m : ConnectionMonitor) : ConnectionMonitor :=
  MkMonitor (visit_queue m ++ [(t, b)]) (backends m) (listener m).

Definition touch_backend (now : Z) (b : string) (m : ConnectionMonitor)
  : ConnectionMonitor * list string :=
  match backends m !! b with
  | Some e => (set_entry b (MkEntry (active_connections e) true) m, [])
  | None => (set_entry b (MkEntry 0 true) (enqueue (now + HeartbeatConsts.HEARTBEAT_INTERVAL) b m), notify b m)
  end.

Definition inc_connection (now : Z) (b : string) (m : ConnectionMonitor)
  : ConnectionMonitor * list string :=
  match backends m !! b with
  | Some e => (set_entry b (MkEntry (wrap_u32 (active_connections e + 1)) true) m, [])
  | None => (set_entry b (MkEntry 1 true) (enqueue (now + HeartbeatConsts.HEARTBEAT_INTERVAL) b m), notify b m)
  end.

Definition dec_connection (b : string) (m : ConnectionMonitor) : ConnectionMonitor :=
  match backends m !! b with
  | Some e =>
      set_entry b (MkEntry (wrap_u32 (active_connections e - 1)) (had_recent_connection e)) m
  | None => m
  end.

(** The task: take the first visit, sleep until it is due, visit. *)
Definition pop_front (m : ConnectionMonitor) : option ((Z * string) * ConnectionMonitor) :=
  match visit_queue m with
  | [] => None
  | v :: q => Some (v, MkMonitor q (backends m) (listener m))
  end.

Definition visit (now : Z) (b : string) (m : ConnectionMonitor) : ConnectionMonitor * list string :=
  match backends m !! b with
  | None => (m, [])
  | Some e =>
      if (0 <? active_connections e)%Z || had_recent_connection e then
        (enqueue (now + HeartbeatConsts.HEARTBEAT_INTERVAL) b
           (set_entry b (MkEntry (active_connections e) false) m), notify b m)
      else (remove_backend b m, [])
  end.

End ConnectionMonitor.

(** ** The [http] crate

    A [PathAndQuery] has a path, which starts with a slash, and an optional query. A
    [HeaderMap] is a multimap; [hm_list] is its iteration. Header names are lower case. *)

Class Http := {
  path_and_query : Type;
  pq_path : path_and_query → string;
  pq_query : path_and_query → option string;
  pq_from_str : string → option path_and_query;
  (** [Uri::from_parts] accepts the parts of a request's URI with this path *)
  uri_from_parts_ok : path_and_query → bool;
  header_map : Type;
  hm_empty : header_map;
  hm_list : header_map → list (string * string);
  hm_get : string → header_map → option string;
  hm_contains : string → header_map → bool;
  hm_remove : string → header_map → header_map;
  hm_append : string → string → header_map → header_map;
  hm_insert : string → string → header_map → header_map;
  (** [HeaderValue::to_str] succeeds; [HeaderName::from_str]; [HeaderValue::from_str] *)
  value_to_str_ok : string → bool;
  header_name_ok : string → bool;
  header_value_ok : string → bool;
  (** [serde_json::to_string] *)
  json_to_string : json → string
}.

Definition format_query (q : option string) : string :=
  match q with Some q => "?" +:+ q | None => "" end.

Class HttpLaws `{Http} := {
  pq_suffix : ∀ pq p s, pq_path pq = p +:+ s →
    ∃ pq', pq_from_str ("/" +:+ s +:+ format_query (pq_query pq)) = Some pq' ∧
      pq_path pq' = "/" +:+ s ∧ pq_query pq' = pq_query pq;
  hm_empty_spec : hm_list hm_empty = [];
  hm_contains_spec : ∀ n h, hm_contains n h = bool_decide (is_Some (entry n (hm_list h)));
  hm_get_spec : ∀ n h, hm_get n h = entry n (hm_list h);
  hm_remove_spec : ∀ n h, hm_list (hm_remove n h) ≡ₚ others n (hm_list h);
  hm_append_spec : ∀ n v h, hm_list (hm_append n v h) ≡ₚ hm_list h ++ [(n, v)];
  hm_insert_spec : ∀ n v h, hm_list (hm_insert n v h) ≡ₚ others n (hm_list h) ++ [(n, v)]
}.

Module Request.

Definition HTTPS_PORT_SUFFIX : string := ":443".

(** [Ok None]: the host is the cluster itself. *)
Definition subdomain_from_host (host cluster : string) : result () (option string) :=
  let host := default host (strip_suffix HTTPS_PORT_SUFFIX host) in
  match strip_suffix cluster host with
  | Some "" => Ok None
  | Some subdomain =>
      match strip_suffix "." subdomain with
      | Some subdomain => Ok (Some subdomain)
      | None => Err ()
      end
  | None => Err ()
  end.

Section Request.
Context `{H : Http}.

Definition slash : ascii := "/".

(** The path after its slash: the token and the rest. *)
Definition split_token (full_path : string) : string * string :=
  default (full_path, "") (split_once slash full_path).

(** On the URI's [path_and_query]; the outer [None] is the panic of the [expect]. *)
Definition get_and_maybe_remove_bearer_token (parts : option path_and_query)
  : option (option path_and_query * option string) :=
  match parts with
  | None => Some (parts, None)
  | Some pq =>
      match strip_prefix "/" (pq_path pq) with
      | None => Some (parts, None)
      | Some full_path =>
          let '(token, path) := split_token full_path in
          if bool_decide (token = "") then Some (parts, None)
          else if Types.is_static token then Some (parts, Some token)
          else match pq_from_str ("/" +:+ path +:+ format_query (pq_query pq)) with
               | None => None
               | Some pq' => Some (Some pq', Some token)
               end
      end
  end.

End Request.
End Request.

Module ProxyServer.
Section ProxyServer.
Context `{Ext : Externals} `{H : Http}.

(** The name in the [Server] header of every response ([version.rs]). *)
Context (SERVER_NAME : string).

Record MutableRequest := MkRequest {
  rq_scheme : option string;
  rq_authority : option string;
  rq_path_and_query : option path_and_query;
  rq_headers : header_map
}.

Definition uri_path (rq : MutableRequest) : string :=
  match rq_path_and_query rq with Some pq => pq_path pq | None => "" end.

Definition set_path_and_query (pq : option path_and_query) (rq : MutableRequest) : MutableRequest :=
  MkRequest (rq_scheme rq) (rq_authority rq) pq (rq_headers rq).

Definition set_headers (h : header_map) (rq : MutableRequest) : MutableRequest :=
  MkRequest (rq_scheme rq) (rq_authority rq) (rq_path_and_query rq) h.

(** An address is always a valid authority. *)
Definition set_upstream_address (a : SocketAddr) (rq : MutableRequest) : MutableRequest :=
  MkRequest (Some "http") (Some (addr_to_string a)) (rq_path_and_query rq) (rq_headers rq).

Definition add_header (key value : string) (h : header_map) : header_map :=
  if header_name_ok key then if header_value_ok value then hm_append key value h else h else h.

Definition add_header_opt (key : string) (value : option string) (h : header_map) : header_map :=
  match value with Some v => add_header key v h | None => h end.

Record Response := MkResponse { rp_status : N; rp_headers : header_map }.

Definition apply_general_headers (h : header_map) : header_map :=
  let any_cors_headers_present :=
    hm_contains "access-control-allow-origin" h || hm_contains "access-control-allow-methods" h
    || hm_contains "access-control-allow-headers" h in
  let h :=
    if any_cors_headers_present then h
    else hm_insert "access-control-allow-headers" "*, Authorization"
           (hm_insert "access-control-allow-methods" "*"
             (hm_insert "access-control-allow-origin" "*" h)) in
  hm_insert "server" SERVER_NAME h.

Definition status_code_to_response (status : N) : Response :=
  MkResponse status (apply_general_headers hm_empty).

Definition VERIFIED_PREFIX : string := "x-verified-".

(** Remove the [x-verified-*] headers of the inbound request: collect, then remove. *)
Definition remove_verified (h : header_map) : header_map :=
  foldl (λ h n, hm_remove n h) h (filter (λ n, starts_with VERIFIED_PREFIX n = true) (hm_list h).*1).

Definition add_verified (r : Protocol.RouteInfo) (original_path : string) (h : header_map) : header_map :=
  add_header "x-verified-secret" (Protocol.ri_secret_token r)
    (add_header "x-verified-backend" (Protocol.ri_backend_id r)
      (add_header "x-verified-path" original_path
        (add_header_opt "x-verified-user-data" (json_to_string <$> Protocol.ri_user_data r)
          (add_header_opt "x-verified-username" (Protocol.ri_user r) h)))).

(** The [Err] is the status of the response. *)
Definition prepare_request (r : Protocol.RouteInfo) (original_path : string) (rq : MutableRequest)
  : result N MutableRequest :=
  match hm_get "host" (rq_headers rq) with
  | None => Err 400%N
  | Some host =>
      if value_to_str_ok host then
        match Request.subdomain_from_host host (Protocol.ri_cluster r) with
        | Err _ => Err 403%N
        | Ok request_subdomain =>
            if match Protocol.ri_subdomain r with
               | Some subdomain => bool_decide (request_subdomain ≠ Some subdomain)
               | None => false
               end
            then Err 403%N
            else
              let rq := set_upstream_address (Protocol.ri_address r) rq in
              Ok (set_headers (add_verified r original_path (remove_verified (rq_headers rq))) rq)
        end
      else Err 400%N
  end.

(** [call] up to the lookup of the route. The URI panic of the token extraction is the outer
    [None]. *)
Inductive CallStart :=
| Respond (r : Response)
| Lookup (token : string) (rq : MutableRequest) (original_path : string).

Definition call_start (ready : bool) (root_redirect_url : option string) (rq : MutableRequest)
  : option CallStart :=
  if bool_decide (uri_path rq = "/ready") then
    Some (Respond (status_code_to_response (if ready then 200 else 503)%N))
  else if bool_decide (uri_path rq = "/") then
    Some (Respond
      match root_redirect_url with
      | Some url => MkResponse 301 (apply_general_headers (hm_append "location" url hm_empty))
      | None => status_code_to_response 400
      end)
  else
    match Request.get_and_maybe_remove_bearer_token (rq_path_and_query rq) with
    | None => None
    | Some (_, None) => Some (Respond (status_code_to_response 400))
    | Some (pq, Some token) =>
        if match pq with Some pq => uri_from_parts_ok pq | None => true end
        then Some (Lookup token (set_path_and_query pq rq) (uri_path rq))
        else Some (Respond (status_code_to_response 400))
    end.

(** [call] after the lookup, up to the request to the backend. *)
Inductive CallFinish :=
| Refuse (r : Response)
| Forward (rq : MutableRequest).

Definition call_finish (route_info : option Protocol.RouteInfo) (rq : MutableRequest)
    (original_path : string) : CallFinish :=
  match route_info with
  | None => Refuse (status_code_to_response 410)
  | Some r =>
      match prepare_request r original_path rq with
      | Err status => Refuse (status_code_to_response status)
      | Ok rq => Forward rq
      end
  end.

(** The backend's answer: [None] when the request failed. An upgrade opens a connection, which
    [upgrade_ended] closes; another answer is a visit. *)
Definition call_respond (r : Protocol.RouteInfo) (answer : option Response) (upgrade : bool) (now : Z)
    (m : ConnectionMonitor.ConnectionMonitor)
  : Response * (ConnectionMonitor.ConnectionMonitor * list string) :=
  match answer with
  | None => (status_code_to_response 500, (m, []))
  | Some res =>
      (MkResponse (rp_status res)
         (hm_insert "x-plane-backend-id" (Protocol.ri_backend_id r)
            (apply_general_headers (rp_headers res))),
       if upgrade then ConnectionMonitor.inc_connection now (Protocol.ri_backend_id r) m
       else ConnectionMonitor.touch_backend now (Protocol.ri_backend_id r) m)
  end.

Definition upgrade_ended (r : Protocol.RouteInfo) (m : ConnectionMonitor.ConnectionMonitor)
  : ConnectionMonitor.ConnectionMonitor :=
  ConnectionMonitor.dec_connection (Protocol.ri_backend_id r) m.

End ProxyServer.
End ProxyServer.

(** ** The proxy's connection to the controller *)
Module ProxyConnection.
Section ProxyConnection.
Context `{Lru : LruCache}.

Record State := MkState {
  ps_routes : RouteMap.RouteMap;
  ps_monitor : ConnectionMonitor.ConnectionMonitor
}.

(** A new connection to the controller. *)
Definition connected (s : State) : State :=
  MkState (RouteMap.set_sender (ps_routes s)) (ConnectionMonitor.set_listener (ps_monitor s)).

(** The messages of the controller; the second component is the woken lookups. Responses for
    the certificate manager are passed on. *)
Definition handle_message (msg : Protocol.MessageToProxy) (s : State) : State * list nat :=
  match msg with
  | Protocol.TPRouteInfoResponse r =>
      let '(m, woken) := RouteMap.receive r (ps_routes s) in (MkState m (ps_monitor s), woken)
  | Protocol.TPCertManagerResponse _ => (s, [])
  | Protocol.TPBackendRemoved b =>
      (MkState (RouteMap.remove_backend b (ps_routes s))
         (ConnectionMonitor.remove_backend b (ps_monitor s)), [])
  end.

End ProxyConnection.
End ProxyConnection.
