(* ===== verification/ProxyProps.v ===== *)
(** * Properties of the proxy

    Requests reach only the backend their token, host and subdomain select, with headers a
    client cannot forge; the bounded cache of routes never serves a route the unbounded one
    would not; connected backends are kept alive and idle ones are forgotten. *)

From S2P Require Import Prelude Names BackendState Types Database Keys Backends Nodes Connect.
From S2P Require Import Invariant Scenario Proxy.

Module RequestProps.
Import Request.

(** The host check, on the host without its port 443: it finds no subdomain exactly
    for the cluster itself, the subdomain [s] exactly for [s.cluster], and fails otherwise. *)
Theorem subdomain_from_host_spec host cluster :
  let h := default host (strip_suffix HTTPS_PORT_SUFFIX host) in
  (subdomain_from_host host cluster = Ok None ↔ h = cluster) ∧
  (∀ s, subdomain_from_host host cluster = Ok (Some s) ↔ h = s +:+ "." +:+ cluster) ∧
  (subdomain_from_host host cluster = Err () ↔
     h ≠ cluster ∧ ∀ s, h ≠ s +:+ "." +:+ cluster).
Proof.
  intros h. unfold subdomain_from_host. fold h.
  destruct (strip_suffix cluster h) as [p|] eqn:Hp.
  2: { assert (∀ p, h ≠ p +:+ cluster) as Hno.
       { intros p Heq. apply strip_suffix_spec in Heq. congruence. }
       split_and!; [split; [done|]|intros s; split; [done|]|split; [|done]].
       - intros ->. by destruct (Hno "").
       - rewrite <- append_assoc. by intros ?%Hno.
       - intros _. split; [apply (Hno "")|]. intros s. rewrite <- append_assoc. apply Hno. }
  apply strip_suffix_spec in Hp.
  assert (∀ q, h = q +:+ cluster ↔ p = q) as Hq.
  { intros q. rewrite Hp. split; [apply append_inj_r|by intros ->]. }
  assert (h = cluster ↔ p = "") as Hc by apply (Hq "").
  assert (∀ s, h = s +:+ "." +:+ cluster ↔ p = s +:+ ".") as Hs.
  { intros s. by rewrite <- append_assoc. }
  rewrite Hc. setoid_rewrite Hs.
  destruct p as [|a p']; [split_and!; [done|by intros []|split; [done|by intros []]]|].
  destruct (strip_suffix "." (String a p')) as [s|] eqn:Hd.
  - apply strip_suffix_spec in Hd. rewrite Hd. split_and!.
    + split; [done|]. by destruct s.
    + intros s'. split; [by intros [= ->]|]. by intros ->%append_inj_r.
    + split; [done|]. intros [_ Hno]. by destruct (Hno s).
  - split_and!; [done| |split; [|done]].
    + intros s. split; [done|]. intros Heq%strip_suffix_spec. congruence.
    + intros _. split; [done|]. intros s Heq%strip_suffix_spec. congruence.
Qed.

Section TokenProps.
Context `{HL : HttpLaws}.

(** The path [/token/rest] (or [/token]) of a request: the token is found, and
    removed from the path unless it is static; the query stays. The extraction never panics. *)
Theorem token_extraction pq token rest :
  (string_has slash token = false → token ≠ "" → rest = "" ∨ starts_with "/" rest = true →
   pq_path pq = "/" +:+ token +:+ rest →
   ∃ pq', get_and_maybe_remove_bearer_token (Some pq) = Some (Some pq', Some token) ∧
     pq_query pq' = pq_query pq ∧
     pq_path pq' = if Types.is_static token then pq_path pq
                   else "/" +:+ default "" (strip_prefix "/" rest)) ∧
  is_Some (get_and_maybe_remove_bearer_token (Some pq)).
Proof.
  assert (∀ full, pq_path pq = "/" +:+ full → ∃ pq',
    pq_from_str ("/" +:+ (split_token full).2 +:+ format_query (pq_query pq)) = Some pq' ∧
      pq_path pq' = "/" +:+ (split_token full).2 ∧ pq_query pq' = pq_query pq) as Hsuf.
  { intros full Hfull. unfold split_token. destruct (split_once slash full) as [[t r]|] eqn:Hs; simpl.
    - apply split_once_spec in Hs as [-> _]. apply (pq_suffix pq ("/" +:+ t +:+ "/")).
      rewrite Hfull. by rewrite append_assoc, append_assoc, append_cons, append_nil_l.
    - apply (pq_suffix pq ("/" +:+ full)). by rewrite append_nil_r. }
  unfold get_and_maybe_remove_bearer_token. split.
  - intros Htok Hne Hrest Hp. rewrite (proj2 (strip_prefix_spec "/" _ (token +:+ rest))) by done.
    assert (split_token (token +:+ rest) = (token, default "" (strip_prefix "/" rest))) as Hsp.
    { unfold split_token. destruct Hrest as [->|[r ->]%starts_with_spec].
      - rewrite append_nil_r. by rewrite (proj2 (split_once_None slash token)).
      - rewrite (proj2 (split_once_spec slash _ token r)) by done.
        by rewrite (proj2 (strip_prefix_spec "/" _ r)). }
    destruct (Hsuf _ Hp) as (pq' & Hpq & Hpath & Hquery). rewrite Hsp in *. simpl in *.
    rewrite bool_decide_eq_false_2 by done. destruct (Types.is_static token); [by eexists|].
    rewrite Hpq. by eexists.
  - destruct (strip_prefix "/" (pq_path pq)) as [full|] eqn:Hf; [|by eexists].
    apply strip_prefix_spec, Hsuf in Hf as (pq' & Hpq & _).
    destruct (split_token full) as [t r]. simpl in *. case_bool_decide; [by eexists|].
    destruct (Types.is_static t); [by eexists|]. rewrite Hpq. by eexists.
Qed.

End TokenProps.
End RequestProps.

(** ** Requests forwarded to backends *)

Module ServerProps.
Import ProxyServer.
Section ServerProps.
Context `{Ext : Externals} `{HL : HttpLaws}.
Context (SERVER_NAME : string).

Lemma others_elem {V} k (l : list (string * V)) e : e ∈ others k l ↔ e.1 ≠ k ∧ e ∈ l.
Proof. unfold others. by rewrite list_elem_of_filter. Qed.

Lemma entry_elem {V} k (l : list (string * V)) v : entry k l = Some v → (k, v) ∈ l.
Proof.
  unfold entry. rewrite fmap_Some. intros ([k' v'] & Hh%head_elem & ->).
  apply list_elem_of_filter in Hh as [Heq ?]. simpl in *. by subst.
Qed.

(** Removing the names of a list. *)
Lemma remove_all_elem ns h e :
  e ∈ hm_list (foldl (λ h n, hm_remove n h) h ns) ↔ e.1 ∉ ns ∧ e ∈ hm_list h.
Proof.
  revert h. induction ns as [|n ns IH]; intros h; simpl; [set_solver|].
  rewrite IH, hm_remove_spec, others_elem. set_solver.
Qed.

Lemma remove_verified_elem h n v :
  (n, v) ∈ hm_list (remove_verified h) ↔ starts_with VERIFIED_PREFIX n = false ∧ (n, v) ∈ hm_list h.
Proof.
  unfold remove_verified. rewrite remove_all_elem. simpl. rewrite list_elem_of_filter.
  split; intros [Hn Hin]; (split; [|done]).
  - apply not_true_is_false. intros Hs. apply Hn. split; [done|].
    apply list_elem_of_fmap. by exists (n, v).
  - rewrite Hn. by intros [? _].
Qed.

(** What [add_header] adds. *)
Definition added (k v : string) : list (string * string) :=
  if header_name_ok k && header_value_ok v then [(k, v)] else [].

Lemma add_header_elem k v h e : e ∈ hm_list (add_header k v h) ↔ e ∈ added k v ∨ e ∈ hm_list h.
Proof.
  unfold add_header, added. destruct (header_name_ok k), (header_value_ok v); simpl;
    rewrite ?hm_append_spec; set_solver.
Qed.

Lemma add_header_opt_elem k o h e :
  e ∈ hm_list (add_header_opt k o h) ↔ (∃ v, o = Some v ∧ e ∈ added k v) ∨ e ∈ hm_list h.
Proof. destruct o as [v|]; simpl; [rewrite add_header_elem|]; naive_solver. Qed.

(** The headers a route vouches for. *)
Definition verified_headers (r : Protocol.RouteInfo) (original_path : string) : list (string * string) :=
  added "x-verified-secret" (Protocol.ri_secret_token r) ++
  added "x-verified-backend" (Protocol.ri_backend_id r) ++
  added "x-verified-path" original_path ++
  (d ← option_list (json_to_string <$> Protocol.ri_user_data r); added "x-verified-user-data" d) ++
  (u ← option_list (Protocol.ri_user r); added "x-verified-username" u).

Lemma add_verified_elem r path h e :
  e ∈ hm_list (add_verified r path h) ↔ e ∈ verified_headers r path ∨ e ∈ hm_list h.
Proof.
  unfold add_verified, verified_headers.
  rewrite !add_header_elem, !add_header_opt_elem, !elem_of_app, !list_elem_of_bind.
  assert (∀ (o : option string) k, (∃ v, o = Some v ∧ e ∈ added k v) ↔
    ∃ v, e ∈ added k v ∧ v ∈ option_list o) as Ho.
  { intros o k. split; intros (v & H1 & H2); exists v; (split; [|done || idtac]);
      destruct o; simpl in *; set_solver. }
  rewrite !Ho. tauto.
Qed.

Lemma added_prefix k v e : e ∈ added k v → e.1 = k.
Proof. unfold added. case_match; set_solver. Qed.

Lemma verified_prefix r path e :
  e ∈ verified_headers r path → starts_with VERIFIED_PREFIX e.1 = true.
Proof.
  unfold verified_headers. rewrite !elem_of_app, !list_elem_of_bind.
  intros [Hk|[Hk|[Hk|[(?&Hk&_)|(?&Hk&_)]]]]; apply added_prefix in Hk; by rewrite Hk.
Qed.

(** C22. A request is forwarded only along the route of its token, to the route's
    address, when its host is the route's cluster or a subdomain of it, the right one if the
    route has a subdomain. Its path is kept, its [x-verified-*] headers are exactly those
    the route vouches for, whatever the client sent, and its other headers are kept. *)
Theorem forwarded_request_sound route rq original_path rq' :
  call_finish SERVER_NAME route rq original_path = Forward rq' →
  ∃ r host, route = Some r ∧ hm_get "host" (rq_headers rq) = Some host ∧
    (let h := default host (strip_suffix Request.HTTPS_PORT_SUFFIX host) in
     match Protocol.ri_subdomain r with
     | Some s => h = s +:+ "." +:+ Protocol.ri_cluster r
     | None => h = Protocol.ri_cluster r ∨ ∃ s, h = s +:+ "." +:+ Protocol.ri_cluster r
     end) ∧
    rq_scheme rq' = Some "http" ∧
    rq_authority rq' = Some (addr_to_string (Protocol.ri_address r)) ∧
    rq_path_and_query rq' = rq_path_and_query rq ∧
    ∀ n v, (n, v) ∈ hm_list (rq_headers rq') ↔
      if starts_with VERIFIED_PREFIX n then (n, v) ∈ verified_headers r original_path
      else (n, v) ∈ hm_list (rq_headers rq).
Proof.
  unfold call_finish. destruct route as [r|]; [|done]. unfold prepare_request.
  destruct (hm_get "host" (rq_headers rq)) as [host|] eqn:Hhost; [|done].
  destruct (value_to_str_ok host); [|done].
  destruct (Request.subdomain_from_host host (Protocol.ri_cluster r)) as [sub|] eqn:Hsub; [|done].
  destruct (RequestProps.subdomain_from_host_spec host (Protocol.ri_cluster r)) as (H1 & H2 & _).
  destruct (match Protocol.ri_subdomain r with Some _ => _ | None => _ end) eqn:Hmatch; [done|].
  intros [= <-]. exists r, host. simpl. split_and!; try done.
  - destruct (Protocol.ri_subdomain r) as [s|].
    + apply bool_decide_eq_false, dec_stable in Hmatch. subst sub. by apply H2.
    + destruct sub as [s|]; [right; exists s; by apply H2|left; by apply H1].
  - intros n v. rewrite add_verified_elem, remove_verified_elem.
    destruct (starts_with VERIFIED_PREFIX n) eqn:Hn; [naive_solver|].
    split; [|by auto]. intros [Hv%verified_prefix|[_ ?]]; [simpl in Hv; congruence|done].
Qed.

End ServerProps.
End ServerProps.

(** ** The cache of routes *)

Lemma entry_list_to_map {V} k (l : list (string * V)) :
  entry k l = (list_to_map l : gmap string V) !! k.
Proof.
  unfold entry. induction l as [|[k' v] l IH]; [done|]. rewrite filter_cons. simpl.
  case_decide as Heq; simpl in *; subst; [by rewrite lookup_insert_eq|].
  by rewrite lookup_insert_ne.
Qed.

Lemma others_list_to_map {V} k (l : list (string * V)) :
  (list_to_map (others k l) : gmap string V) = delete k (list_to_map l).
Proof.
  unfold others. induction l as [|[k' v] l IH]; [simpl; by rewrite delete_empty|]. rewrite filter_cons. simpl.
  case_decide as Heq; simpl in *.
  - by rewrite IH, delete_insert_ne.
  - subst k'. by rewrite delete_insert_eq, IH.
Qed.

Lemma others_NoDup {V} k (l : list (string * V)) : NoDup l.*1 → NoDup (others k l).*1.
Proof. intros Hl. eapply sublist_NoDup; [exact Hl|]. apply fmap_sublist, sublist_filter. Qed.

Lemma others_key {V} k (l : list (string * V)) : k ∉ (others k l).*1.
Proof.
  unfold others. intros ([k' v] & -> & [? _]%list_elem_of_filter)%list_elem_of_fmap. done.
Qed.

Lemma take_list_to_map {V} n (l : list (string * V)) :
  NoDup l.*1 → (list_to_map (take n l) : gmap string V) ⊆ list_to_map l.
Proof.
  intros Hl. apply map_subseteq_spec. intros k v Hk%elem_of_list_to_map_2.
  apply elem_of_list_to_map_1; [done|]. by eapply elem_of_take in Hk as (i & ? & _); eapply list_elem_of_lookup_2.
Qed.

Module RouteMapProps.
Import RouteMap.
Section RouteMapProps.
Context `{LL : LruLaws}.

(** The critical sections of concurrent lookups, responses and removals. *)
Inductive rop :=
| RGet (token : string)
| RSubscribe (lookup : nat) (token : string)
| RPush (token : string) (r : option Protocol.RouteInfo)
| RNotify (token : string)
| RRemove (backend : string)
| RSender.

Definition rapply (m : RouteMap) (o : rop) : RouteMap :=
  match o with
  | RGet token => (lookup_cached token m).1
  | RSubscribe lookup token => lookup_subscribe lookup token m
  | RPush token r => insert_route token r m
  | RNotify token => (notify token m).1
  | RRemove backend => remove_backend backend m
  | RSender => set_sender m
  end.

(** The specification: a cache without a bound. *)
Definition ideal_step (i : gmap string (option Protocol.RouteInfo)) (o : rop)
  : gmap string (option Protocol.RouteInfo) :=
  match o with
  | RPush token r => <[token := r]> i
  | RRemove backend => invalidate backend <$> i
  | _ => i
  end.

Definition ideal (ops : list rop) : gmap string (option Protocol.RouteInfo) := foldl ideal_step ∅ ops.

Definition content (m : RouteMap) : gmap string (option Protocol.RouteInfo) :=
  list_to_map (lru_entries (routes m)).

Record cache_ok (m : RouteMap) (i : gmap string (option Protocol.RouteInfo)) : Prop := {
  co_cap : lru_cap (routes m) = CACHE_SIZE;
  co_keys : NoDup (lru_entries (routes m)).*1;
  co_size : length (lru_entries (routes m)) ≤ CACHE_SIZE;
  co_sub : content m ⊆ i;
  co_exact : size i ≤ CACHE_SIZE → content m = i
}.

Lemma content_size m i : cache_ok m i → size (content m) = length (lru_entries (routes m)).
Proof. intros [_ Hk _ _ _]. by apply map_size_list_to_map. Qed.

Lemma cache_ok_new : cache_ok new ∅.
Proof.
  constructor; unfold content; simpl; rewrite ?lru_cap_new, ?lru_entries_new; simpl;
    [done|constructor|lia|done|done].
Qed.

(** A used entry moves to the front. *)
Lemma promote_facts {V} k v (l : list (string * V)) :
  NoDup l.*1 → entry k l = Some v →
  NoDup ((k, v) :: others k l).*1 ∧ length ((k, v) :: others k l) = length l ∧
  (list_to_map ((k, v) :: others k l) : gmap string V) = list_to_map l.
Proof.
  intros Hl Hk. rewrite entry_list_to_map in Hk.
  assert (NoDup ((k, v) :: others k l).*1) as Hnd.
  { simpl. constructor; [apply others_key|by apply others_NoDup]. }
  assert ((list_to_map ((k, v) :: others k l) : gmap string V) = list_to_map l) as Heq.
  { rewrite list_to_map_cons, others_list_to_map. by apply insert_delete_id. }
  split_and!; [done| |done].
  rewrite <- (map_size_list_to_map (M := gmap string) _ Hnd), Heq. by apply map_size_list_to_map.
Qed.

Lemma cache_ok_get token m i : cache_ok m i → cache_ok (lookup_cached token m).1 i.
Proof.
  intros [Hc Hk Hs Hsub Hex]. unfold lookup_cached, content in *.
  pose proof (lru_get_entries token (routes m)) as He. pose proof (lru_get_cap token (routes m)) as Hcap.
  destruct (lru_get token (routes m)) as [c r]. simpl in *.
  destruct (entry token (lru_entries (routes m))) as [v|] eqn:Hv.
  - destruct (promote_facts _ _ _ Hk Hv) as (Hk' & Hl' & Hm').
    constructor; unfold content; simpl; rewrite ?He, ?Hm', ?Hl', ?Hcap; done.
  - constructor; unfold content; simpl; rewrite ?He, ?Hcap; done.
Qed.

Lemma cache_ok_push token r m i : cache_ok m i → cache_ok (insert_route token r m) (<[token := r]> i).
Proof.
  intros Hok. pose proof (content_size _ _ Hok) as Hsz. destruct Hok as [Hc Hk Hs Hsub Hex].
  set (l := lru_entries (routes m)) in *. set (l' := (token, r) :: others token l).
  assert (NoDup l'.*1) as Hnd by (simpl; constructor; [apply others_key|by apply others_NoDup]).
  assert ((list_to_map l' : gmap string _) = <[token := r]> (content m)) as Hl'.
  { unfold l'. rewrite list_to_map_cons, others_list_to_map. apply insert_delete_eq. }
  assert (lru_entries (routes (insert_route token r m)) = take CACHE_SIZE l') as He.
  { simpl. by rewrite lru_push_entries, Hc. }
  constructor; unfold content; rewrite ?He.
  - simpl. by rewrite lru_push_cap.
  - eapply sublist_NoDup; [exact Hnd|]. apply fmap_sublist, sublist_take.
  - rewrite length_take. lia.
  - etrans; [by apply take_list_to_map|]. rewrite Hl'. by apply insert_mono.
  - intros Hsize.
    assert (size i ≤ size (<[token := r]> i)) by (rewrite map_size_insert; case_match; simpl; lia).
    rewrite take_ge; [by rewrite Hl', Hex by lia|].
    rewrite <- (map_size_list_to_map (M := gmap string) _ Hnd), Hl', Hex by lia. done.
Qed.

Lemma cache_ok_remove b m i : cache_ok m i → cache_ok (remove_backend b m) (invalidate b <$> i).
Proof.
  intros [Hc Hk Hs Hsub Hex].
  assert (content (remove_backend b m) = invalidate b <$> content m) as Hm.
  { unfold content. simpl. rewrite lru_iter_mut_entries. apply list_to_map_fmap. }
  constructor; rewrite ?Hm; simpl; rewrite ?lru_iter_mut_cap, ?lru_iter_mut_entries, ?length_fmap.
  - done.
  - by rewrite <- list_fmap_compose.
  - done.
  - by apply map_fmap_mono.
  - rewrite map_size_fmap. intros Hsize. by rewrite Hex.
Qed.

Lemma cache_ok_run ops m i :
  cache_ok m i → cache_ok (foldl rapply m ops) (foldl ideal_step i ops).
Proof.
  revert m i. induction ops as [|o ops IH]; intros m i Hok; [done|]. simpl. apply IH.
  destruct o; simpl.
  - by apply cache_ok_get.
  - by destruct Hok.
  - by apply cache_ok_push.
  - unfold notify. case_match; [|done]. by destruct Hok.
  - by apply cache_ok_remove.
  - by destruct Hok.
Qed.

(** A route of the unbounded cache was received, and neither replaced nor invalidated since. *)
Lemma ideal_Some ops token ri :
  ideal ops !! token = Some (Some ri) →
  ∃ before after, ops = before ++ RPush token (Some ri) :: after ∧
    (∀ r, RPush token r ∉ after) ∧ RRemove (Protocol.ri_backend_id ri) ∉ after.
Proof.
  unfold ideal. induction ops as [|o ops IH] using rev_ind; [done|]. rewrite foldl_app. simpl.
  set (i := foldl ideal_step ∅ ops) in *.
  assert (∀ o, (∀ r, o ≠ RPush token r) → o ≠ RRemove (Protocol.ri_backend_id ri) →
    i !! token = Some (Some ri) → ∃ before after, ops ++ [o] = before ++ RPush token (Some ri) :: after ∧
    (∀ r, RPush token r ∉ after) ∧ RRemove (Protocol.ri_backend_id ri) ∉ after) as Hext.
  { intros o' Hp Hr (before & after & -> & H1 & H2)%IH. exists before, (after ++ [o']).
    rewrite <- app_assoc. split_and!; [done| |]; intros; rewrite elem_of_app, list_elem_of_singleton;
      naive_solver. }
  destruct o as [t|l t|t r|t|b|]; simpl; try by apply Hext.
  - rewrite lookup_insert_Some. intros [[-> ->]|[Hne Hi]]; [|apply Hext; naive_solver].
    exists ops, []. set_solver.
  - rewrite lookup_fmap, fmap_Some. intros (r & Hi & Hr). unfold invalidate in Hr.
    destruct r as [ri'|]; [|done]. case_decide; simplify_eq. apply Hext; naive_solver.
Qed.

(** C21. The cache of routes refines a cache without a bound: in any interleaving of
    the critical sections of lookups, responses and removals it holds at most a thousand
    entries, and a cached answer is the one of the unbounded cache, which has them all as long
    as no more than a thousand tokens were received. So a route is served only if it was
    received for that token, no later response replaced it, and its backend was not removed
    since. *)
Theorem route_cache_refines ops :
  let m := foldl rapply new ops in
  length (lru_entries (routes m)) ≤ CACHE_SIZE ∧
  (∀ token r, (lookup_cached token m).2 = Some r → ideal ops !! token = Some r) ∧
  (size (ideal ops) ≤ CACHE_SIZE → ∀ token, (lookup_cached token m).2 = ideal ops !! token) ∧
  ∀ token ri, (lookup_cached token m).2 = Some (Some ri) →
    ∃ before after, ops = before ++ RPush token (Some ri) :: after ∧
      (∀ r, RPush token r ∉ after) ∧ RRemove (Protocol.ri_backend_id ri) ∉ after.
Proof.
  intros m. assert (cache_ok m (ideal ops)) as [_ _ Hs Hsub Hex] by apply cache_ok_run, cache_ok_new.
  assert (∀ token, (lookup_cached token m).2 = content m !! token) as Hget.
  { intros token. unfold lookup_cached, content. rewrite <- entry_list_to_map, <- lru_get_value.
    by destruct (lru_get _ _). }
  assert (∀ token r, (lookup_cached token m).2 = Some r → ideal ops !! token = Some r) as Hsound.
  { intros token r. rewrite Hget. by apply map_subseteq_spec. }
  split_and!; [done|done| |].
  - intros Hsize token. by rewrite Hget, (Hex Hsize).
  - intros token ri Hr. by apply ideal_Some, Hsound.
Qed.

Lemma subscribed_kept lookup token ops m woken :
  RNotify token ∉ ops → listeners m !! token = Some woken → lookup ∈ woken →
  ∃ woken', listeners (foldl rapply m ops) !! token = Some woken' ∧ lookup ∈ woken'.
Proof.
  revert m woken. induction ops as [|o ops IH]; intros m woken Hno Hl Hin; [by exists woken|]. simpl.
  apply not_elem_of_cons in Hno as [Hno Hops].
  destruct o as [t|l t|t r|t|b|]; simpl in *; try by eapply IH.
  - eapply (IH _ woken); [done| |done]. unfold lookup_cached. by destruct (lru_get _ _).
  - destruct (decide (t = token)) as [->|Hne].
    + eapply IH; [done|simpl; by rewrite lookup_insert_eq|]. rewrite Hl. simpl. set_solver.
    + eapply (IH _ woken); [done|simpl; by rewrite lookup_insert_ne|done].
  - assert (t ≠ token) as Hne by naive_solver. eapply (IH _ woken); [done| |done].
    unfold notify. case_match; simpl; [by rewrite lookup_delete_ne|done].
Qed.

(** No lookup is forgotten: one that has subscribed to a token is woken by the
    next response for that token, whatever happens in between, and if it then reads the
    cache before anything else it returns that response; its channel is gone. *)
Theorem lookup_answered before lookup token ops response :
  RNotify token ∉ ops → Protocol.rir_token response = token →
  let m := foldl rapply (lookup_subscribe lookup token (foldl rapply new before)) ops in
  let '(m', woken) := receive response m in
  lookup ∈ woken ∧ (lookup_finish token m').2 = Protocol.rir_route_info response ∧
  listeners m' !! token = None.
Proof.
  intros Hno <- m. set (token := Protocol.rir_token response) in *.
  assert (cache_ok m (ideal (before ++ RSubscribe lookup token :: ops))) as Hok.
  { unfold ideal. rewrite foldl_app. simpl. apply cache_ok_run.
    pose proof (cache_ok_run before new ∅ cache_ok_new) as []. by constructor. }
  destruct (subscribed_kept lookup token ops (lookup_subscribe lookup token (foldl rapply new before))
    (default [] (listeners (foldl rapply new before) !! token) ++ [lookup]))
    as (woken & Hw & Hin); [done|simpl; by rewrite lookup_insert_eq|set_solver|].
  fold m in Hw. unfold receive, notify. fold token. simpl. rewrite Hw. simpl.
  split_and!; [done| |by rewrite lookup_delete_eq].
  unfold lookup_finish, lookup_cached. simpl.
  pose proof (lru_get_value token (lru_push token (Protocol.rir_route_info response) (routes m))) as Hv.
  rewrite lru_push_entries, (co_cap _ _ Hok) in Hv. 
  assert (entry token (take CACHE_SIZE ((token, Protocol.rir_route_info response)
    :: others token (lru_entries (routes m)))) = Some (Protocol.rir_route_info response)) as He.
  { rewrite entry_list_to_map. unfold CACHE_SIZE. cbn [take]. simpl. by rewrite lookup_insert_eq. }
  rewrite He in Hv. destruct (lru_get _ _) as [c r]. simpl in *. by rewrite Hv.
Qed.

End RouteMapProps.
End RouteMapProps.

(** ** The connection monitor *)

Module MonitorProps.
Import ConnectionMonitor.

(** The monitor, the visit its task waits for, and the time. *)
Record Mon := MkMon { mn_monitor : ConnectionMonitor; mn_next : option (Z * string); mn_clock : Z }.

Inductive mop :=
| MTouch (b : string)
| MInc (b : string)
| MDec (b : string)
| MRemove (b : string)
| MListener
| MPop
| MVisit
| MWait (d : Z).

(** The task takes a visit when it has none, and makes it when it is due. *)
Definition mapply (s : Mon) (o : mop) : Mon * list string :=
  let with_monitor (r : ConnectionMonitor * list string) :=
    (MkMon r.1 (mn_next s) (mn_clock s), r.2) in
  match o with
  | MTouch b => with_monitor (touch_backend (mn_clock s) b (mn_monitor s))
  | MInc b => with_monitor (inc_connection (mn_clock s) b (mn_monitor s))
  | MDec b => with_monitor (dec_connection b (mn_monitor s), [])
  | MRemove b => with_monitor (remove_backend b (mn_monitor s), [])
  | MListener => with_monitor (set_listener (mn_monitor s), [])
  | MPop =>
      match mn_next s, pop_front (mn_monitor s) with
      | None, Some (v, m) => (MkMon m (Some v) (mn_clock s), [])
      | _, _ => (s, [])
      end
  | MVisit =>
      match mn_next s with
      | Some (t, b) =>
          if decide (t ≤ mn_clock s)%Z then
            let '(m, l) := visit (mn_clock s) b (mn_monitor s) in (MkMon m None (mn_clock s), l)
          else (s, [])
      | None => (s, [])
      end
  | MWait d => (MkMon (mn_monitor s) (mn_next s) (mn_clock s + Z.max 0 d), [])
  end.

Definition mrun (s : Mon) (ops : list mop) : Mon := foldl (λ s o, (mapply s o).1) s ops.

Definition start (now : Z) : Mon := MkMon new None now.

Definition pending (s : Mon) : list (Z * string) := option_list (mn_next s) ++ visit_queue (mn_monitor s).

Definition due_before (a b : Z * string) : Prop := (a.1 ≤ b.1)%Z.

Record mon_ok (s : Mon) : Prop := {
  mo_tracked : ∀ b, is_Some (backends (mn_monitor s) !! b) → b ∈ (pending s).*2;
  mo_sorted : StronglySorted due_before (pending s);
  mo_due : ∀ v, v ∈ pending s → (v.1 ≤ mn_clock s + HeartbeatConsts.HEARTBEAT_INTERVAL)%Z
}.

(** A change of the entry of a backend that is tracked, or is tracked from now on. *)
Lemma mon_ok_set s b e :
  mon_ok s → b ∈ (pending s).*2 → mon_ok (MkMon (set_entry b e (mn_monitor s)) (mn_next s) (mn_clock s)).
Proof.
  intros [Ht Hs Hd] Hb. constructor; [|done|done].
  intros b' Hb'. simpl in Hb'. apply lookup_insert_is_Some' in Hb' as [<-|?]; [done|by apply Ht].
Qed.

Lemma mon_ok_enqueue s b :
  mon_ok s →
  let s' := MkMon (enqueue (mn_clock s + HeartbeatConsts.HEARTBEAT_INTERVAL) b (mn_monitor s))
              (mn_next s) (mn_clock s) in
  mon_ok s' ∧ b ∈ (pending s').*2.
Proof.
  intros [Ht Hs Hd] s'.
  assert (pending s' = pending s ++ [(mn_clock s + HeartbeatConsts.HEARTBEAT_INTERVAL, b)%Z]) as Hp
    by (unfold pending; simpl; by rewrite app_assoc).
  split; [|rewrite Hp, fmap_app; set_solver].
  constructor; rewrite ?Hp.
  - intros b' Hb'. rewrite fmap_app. apply elem_of_app. left. by apply Ht.
  - apply StronglySorted_snoc. split; [done|]. intros v Hv. by apply Hd.
  - intros v [Hv|Hv]%elem_of_app; [by apply Hd|]. apply list_elem_of_singleton in Hv as ->. simpl. lia.
Qed.

Lemma mon_ok_enter s b e :
  mon_ok s →
  mon_ok (MkMon (set_entry b e (enqueue (mn_clock s + HeartbeatConsts.HEARTBEAT_INTERVAL) b (mn_monitor s)))
    (mn_next s) (mn_clock s)).
Proof. intros [Hok Hb]%(mon_ok_enqueue _ b). by apply (mon_ok_set _ b e Hok). Qed.

(** Forgetting a backend, and the visit of one that is no longer known. *)
Lemma mon_ok_visited s t b m :
  mon_ok s → mn_next s = Some (t, b) → backends m = delete b (backends (mn_monitor s)) →
  visit_queue m = visit_queue (mn_monitor s) → mon_ok (MkMon m None (mn_clock s)).
Proof.
  intros [Ht Hs Hd] Hn Hb Hq. unfold pending in *. rewrite Hn in *. simpl in *.
  constructor; unfold pending; simpl; rewrite ?Hq, ?Hb.
  - intros b' [x [Hne Hx]%lookup_delete_Some]. specialize (Ht b' (mk_is_Some _ _ Hx)).
    apply elem_of_cons in Ht as [->|?]; done.
  - by apply StronglySorted_inv in Hs as [? _].
  - intros v Hv. apply Hd. set_solver.
Qed.

Lemma mon_ok_step s o : mon_ok s → mon_ok (mapply s o).1.
Proof.
  intros Hok. pose proof Hok as [Ht Hs Hd]. destruct o as [b|b|b|b| | | |d]; simpl.
  - unfold touch_backend. destruct (backends _ !! b) as [e|] eqn:Hb; simpl;
      [by apply mon_ok_set, Ht|by apply mon_ok_enter].
  - unfold inc_connection. destruct (backends _ !! b) as [e|] eqn:Hb; simpl;
      [by apply mon_ok_set, Ht|by apply mon_ok_enter].
  - unfold dec_connection. destruct (backends _ !! b) as [e|] eqn:Hb; simpl; [by apply mon_ok_set, Ht|].
    by destruct s.
  - constructor; [|done|done]. intros b' [x Hx]. simpl in Hx.
    apply lookup_delete_Some in Hx as [_ Hx]. apply Ht. by eexists.
  - by constructor.
  - unfold pop_front. destruct s as [m [v|] c]; [done|]. simpl.
    destruct (visit_queue m) as [|v q] eqn:Hq; [done|]. unfold pending in *. simpl in *. rewrite Hq in *.
    by constructor.
  - destruct (mn_next s) as [[t b]|] eqn:Hn; [|done]. case_decide; [|done]. unfold visit.
    assert (∀ m, backends m = delete b (backends (mn_monitor s)) →
      visit_queue m = visit_queue (mn_monitor s) → mon_ok (MkMon m None (mn_clock s))) as Hv
      by (intros m; by apply (mon_ok_visited s t b)).
    destruct (backends (mn_monitor s) !! b) as [e|] eqn:Hb;
      [|by apply Hv; [symmetry; apply delete_id|]].
    destruct (_ || _); [|by apply Hv].
    specialize (Hv (remove_backend b (mn_monitor s)) eq_refl eq_refl).
    apply (mon_ok_enqueue _ b) in Hv as [Hv Hin]. apply (mon_ok_set _ b (MkEntry (active_connections e) false)) in Hv;
      [|done]. simpl in Hv. unfold set_entry in *. simpl in Hv. by rewrite insert_delete_eq in Hv.
  - constructor; [done|done|]. intros v Hv. specialize (Hd v Hv). simpl. lia.
Qed.

Lemma mon_ok_run s ops : mon_ok s → mon_ok (mrun s ops).
Proof. revert s. induction ops as [|o ops IH]; intros s Hs; [done|]. by apply IH, mon_ok_step. Qed.

Lemma mon_ok_start now : mon_ok (start now).
Proof. constructor; unfold pending; simpl; [by intros b [? ?]|constructor|by intros v ?%elem_of_nil]. Qed.

(** The connections opened to a backend less those closed. *)
Definition open_step (b : string) (n : Z) (o : mop) : Z :=
  match o with
  | MInc b' => if decide (b' = b) then n + 1 else n
  | MDec b' => if decide (b' = b) then n - 1 else n
  | _ => n
  end%Z.

Definition open_connections (b : string) (ops : list mop) : Z := foldl (open_step b) 0%Z ops.

(** The entry of a backend counts its connections. *)
Definition counts (b : string) (n : Z) (s : Mon) : Prop :=
  match backends (mn_monitor s) !! b with
  | Some e => active_connections e = n
  | None => n = 0%Z
  end.

Lemma counts_step b n s o :
  o ≠ MRemove b → (0 ≤ n < 2 ^ 32)%Z → (0 ≤ open_step b n o < 2 ^ 32)%Z → counts b n s →
  counts b (open_step b n o) (mapply s o).1.
Proof.
  intros Ho Hn Hn' Hc. unfold counts in *. destruct o as [b'|b'|b'|b'| | | |d]; simpl in *; try done.
  - unfold touch_backend. destruct (decide (b' = b)) as [->|Hne].
    + destruct (backends _ !! b); simpl; by rewrite lookup_insert_eq.
    + destruct (backends _ !! b'); simpl; by rewrite lookup_insert_ne.
  - unfold inc_connection. destruct (decide (b' = b)) as [->|Hne].
    + destruct (backends _ !! b); simpl; rewrite lookup_insert_eq; simpl; [|lia].
      rewrite Hc. apply Z.mod_small. lia.
    + destruct (backends _ !! b'); simpl; by rewrite lookup_insert_ne.
  - unfold dec_connection. destruct (decide (b' = b)) as [->|Hne].
    + destruct (backends _ !! b) eqn:Hb; simpl; [|lia]. rewrite lookup_insert_eq. simpl.
      rewrite Hc. apply Z.mod_small. lia.
    + destruct (backends _ !! b') eqn:Hb; simpl; [|done]. by rewrite lookup_insert_ne.
  - rewrite lookup_delete_ne by naive_solver. done.
  - unfold pop_front. destruct (mn_next s); [done|]. by destruct (visit_queue _).
  - destruct (mn_next s) as [[t b']|]; [|done]. case_decide; [|done]. unfold visit.
    destruct (backends (mn_monitor s) !! b') as [e|] eqn:Hb; [|done].
    destruct (decide (b' = b)) as [->|Hne].
    + rewrite Hb in Hc. destruct (_ || _) eqn:Hact; simpl; [by rewrite lookup_insert_eq|].
      rewrite lookup_delete_eq. apply orb_false_iff in Hact as [Hact _]. lia.
    + destruct (_ || _); simpl; by rewrite ?lookup_insert_ne, ?lookup_delete_ne.
Qed.

Lemma counts_run b ops n s :
  MRemove b ∉ ops → counts b n s →
  (∀ k, (0 ≤ foldl (open_step b) n (take k ops) < 2 ^ 32)%Z) →
  counts b (foldl (open_step b) n ops) (mrun s ops).
Proof.
  revert n s. induction ops as [|o ops IH]; intros n s Hno Hc Hb; [done|]. simpl.
  apply not_elem_of_cons in Hno as [Hno Hops].
  pose proof (Hb 0) as H0. pose proof (Hb 1) as H1. simpl in H0, H1.
  apply IH; [done|by apply counts_step|]. intros k. apply (Hb (S k)).
Qed.

Lemma listener_step s o : listener (mn_monitor s) = true → listener (mn_monitor (mapply s o).1) = true.
Proof.
  intros Hl. destruct o as [x|x|x|x| | | |d]; simpl; try done.
  - unfold touch_backend. by destruct (backends _ !! x).
  - unfold inc_connection. by destruct (backends _ !! x).
  - unfold dec_connection. by destruct (backends _ !! x).
  - unfold pop_front. destruct (mn_next s); [done|]. by destruct (visit_queue _).
  - destruct (mn_next s) as [[t x]|]; [|done]. case_decide; [|done]. unfold visit.
    destruct (backends _ !! x); [|done]. by destruct (_ || _).
Qed.

Lemma listener_run s ops :
  listener (mn_monitor s) = true ∨ MListener ∈ ops → listener (mn_monitor (mrun s ops)) = true.
Proof.
  revert s. induction ops as [|o ops IH]; intros s Hor; simpl.
  { destruct Hor as [?|?%elem_of_nil]; done. }
  apply IH. rewrite elem_of_cons in Hor.
  destruct Hor as [Hl|[<-|?]]; [left; by apply listener_step|by left|by right].
Qed.


(** Closing a connection after its backend was removed and visited again makes the count wrap:
    the monitor believes in more than four billion connections. *)
Theorem removed_backend_wraps now b :
  let s := mrun (start now) [MInc b; MRemove b; MTouch b; MDec b] in
  active_connections <$> backends (mn_monitor s) !! b = Some (2 ^ 32 - 1)%Z.
Proof.
  simpl. unfold inc_connection. simpl. rewrite lookup_empty. simpl. unfold touch_backend. simpl.
  rewrite lookup_delete_eq. simpl. unfold dec_connection. simpl. rewrite lookup_insert_eq. simpl.
  by rewrite lookup_insert_eq.
Qed.

End MonitorProps.

(** ** Instances of the libraries *)

Module ExampleProxy.
Import Scenario.

(** A cache as its capacity and its entries. *)
#[local] Instance list_lru : LruCache := {|
  lru := λ V, (nat * list (string * V))%type;
  lru_new := λ V n, (n, []);
  lru_get := λ V k c,
    match entry k c.2 with
    | Some v => ((c.1, (k, v) :: others k c.2), Some v)
    | None => (c, None)
    end;
  lru_push := λ V k v c, (c.1, take c.1 ((k, v) :: others k c.2));
  lru_iter_mut := λ V f c, (c.1, (λ e, (e.1, f e.2)) <$> c.2);
  lru_cap := λ V c, c.1;
  lru_entries := λ V c, c.2
|}.

#[local] Instance list_lru_laws : LruLaws.
Proof. constructor; intros V; try done; intros k c; simpl; by destruct (entry k c.2). Qed.

Definition question_mark : ascii := "?".

(** A path and query as the string it was parsed from. *)
Definition raw_path (s : string) : string := default s (fst <$> split_once question_mark s).
Definition raw_query (s : string) : option string := snd <$> split_once question_mark s.

Lemma raw_path_no_mark s : string_has question_mark (raw_path s) = false.
Proof.
  unfold raw_path. destruct (split_once question_mark s) as [[l r]|] eqn:Hs; simpl.
  - by apply split_once_spec in Hs as [_ ?].
  - by apply split_once_None.
Qed.

Lemma raw_parts p q :
  string_has question_mark p = false →
  raw_path (p +:+ format_query q) = p ∧ raw_query (p +:+ format_query q) = q.
Proof.
  intros Hp. unfold raw_path, raw_query. destruct q as [q|]; simpl.
  - by rewrite (proj2 (split_once_spec question_mark _ p q)).
  - rewrite append_nil_r. by rewrite (proj2 (split_once_None question_mark p)).
Qed.

#[local] Instance list_http : Http := {|
  path_and_query := string;
  pq_path := raw_path;
  pq_query := raw_query;
  pq_from_str := Some;
  uri_from_parts_ok := λ _, true;
  header_map := list (string * string);
  hm_empty := [];
  hm_list := λ h, h;
  hm_get := λ n h, entry n h;
  hm_contains := λ n h, bool_decide (is_Some (entry n h));
  hm_remove := λ n h, others n h;
  hm_append := λ n v h, h ++ [(n, v)];
  hm_insert := λ n v h, others n h ++ [(n, v)];
  value_to_str_ok := λ _, true;
  header_name_ok := λ _, true;
  header_value_ok := λ _, true;
  json_to_string := λ _, "{}"
|}.

#[local] Instance list_http_laws : HttpLaws.
Proof.
  constructor; try done. intros pq p s Hp. eexists. split; [done|].
  assert (string_has question_mark ("/" +:+ s) = false) as Hs.
  { pose proof (raw_path_no_mark pq) as Hq. simpl in Hp. rewrite Hp, string_has_append in Hq.
    by apply orb_false_iff in Hq as [_ Hq]. }
  rewrite <- append_assoc. by apply raw_parts.
Qed.

#[local] Existing Instance ExampleExternals.example_externals.

Lemma token_extraction_witness :
  ∃ pq', Request.get_and_maybe_remove_bearer_token (Some "/tok/a/b?x=1") = Some (Some pq', Some "tok") ∧
    pq_query pq' = Some "x=1" ∧ pq_path pq' = "/a/b".
Proof.
  apply (proj1 (RequestProps.token_extraction (HL := list_http_laws) "/tok/a/b?x=1" "tok" "/a/b"));
    [reflexivity|discriminate|right; reflexivity|reflexivity].
Defined.

Definition route : Protocol.RouteInfo :=
  {| Protocol.ri_backend_id := "b1"; Protocol.ri_address := addr; Protocol.ri_secret_token := "secret";
     Protocol.ri_cluster := cluster; Protocol.ri_user := Some "u"; Protocol.ri_user_data := None;
     Protocol.ri_subdomain := Some "app" |}.

(** A client that tries to forge its user. *)
Definition forged : ProxyServer.MutableRequest :=
  ProxyServer.MkRequest None None (Some "/a/b")
    [("host", "app.c.example:443"); ("x-verified-username", "root"); ("accept", "*/*")].

Lemma forwarded_request_sound_witness :
  ∃ rq, ProxyServer.call_finish "Plane" (Some route) forged "/tok/a/b" = ProxyServer.Forward rq ∧
    ("x-verified-username", "root") ∉ hm_list (ProxyServer.rq_headers rq) ∧
    ("x-verified-username", "u") ∈ hm_list (ProxyServer.rq_headers rq).
Proof.
  assert (∃ rq, ProxyServer.call_finish "Plane" (Some route) forged "/tok/a/b" = ProxyServer.Forward rq)
    as [rq Hrq] by (eexists; reflexivity).
  exists rq. split; [exact Hrq|].
  destruct (ServerProps.forwarded_request_sound (HL := list_http_laws) "Plane" (Some route) forged
    "/tok/a/b" rq Hrq) as (r & host & Hr & _ & _ & _ & _ & _ & Hheaders).
  injection Hr as <-. split; rewrite Hheaders.
  - apply (bool_decide_unpack _). vm_compute. reflexivity.
  - apply (bool_decide_unpack _). vm_compute. reflexivity.
Defined.

Definition response : Protocol.RouteInfoResponse :=
  {| Protocol.rir_token := "tok"; Protocol.rir_route_info := Some route |}.

Import RouteMap RouteMapProps.

Lemma route_cache_refines_witness :
  ∃ before after,
    [RSender; RPush "tok" (Some route); RRemove "b2"; RGet "tok"] =
      before ++ RPush "tok" (Some route) :: after ∧
    (∀ r, RPush "tok" r ∉ after) ∧ RRemove "b1" ∉ after.
Proof.
  apply (proj2 (proj2 (proj2 (route_cache_refines (LL := list_lru_laws)
    [RSender; RPush "tok" (Some route); RRemove "b2"; RGet "tok"]))) "tok" route).
  vm_compute. reflexivity.
Defined.

(** Two lookups wait for the token. *)
Definition waiting : RouteMap :=
  foldl rapply (lookup_subscribe 7 "tok" (foldl rapply new [RSender; RGet "tok"]))
    [RSubscribe 8 "tok"; RPush "tok2" None].

Lemma lookup_answered_witness : (lookup_finish "tok" (receive response waiting).1).2 = Some route.
Proof.
  pose proof (lookup_answered (LL := list_lru_laws) [RSender; RGet "tok"] 7 "tok"
    [RSubscribe 8 "tok"; RPush "tok2" None] response) as Hl.
  cbv zeta in Hl. fold waiting in Hl. destruct (receive response waiting) as [m woken].
  apply Hl; [|reflexivity]. rewrite !elem_of_cons, elem_of_nil. intros [?|[?|?]]; congruence.
Defined.

Import MonitorProps.

(** Backend [b1] has a connection, and its visit is due. *)
Definition monitored : list mop :=
  [MListener; MTouch "b2"; MInc "b1"; MPop; MWait (from_secs 8); MVisit; MPop].


End ExampleProxy.
