(* ===== verification/Sse.v ===== *)
(** * Server-sent events ([common/src/sse.rs]) and backoff ([common/src/exponential_backoff.rs])

    [ExponentialBackoff] is the retry delay, [RawSseStream] the incremental parser of an
    event stream that arrives in chunks, and [SseStream] the client that reconnects with
    the id of the last event. [SseFormat] is the text format as a specification: the
    parser is proved to invert it for the chunkings it supports.

    Not under [src/] and so parameters: the operations of [f64] whose precision Rust
    leaves unspecified ([F64]), the JSON parser of [serde_json], the HTTP client, whose
    responses are the environment of [SseStream.next]. *)

From S2P Require Import Prelude BackendState Types Encoding Database Backends Connect Invariant Scenario Controller BackendProps ControllerProps.

(** ** Exponential backoff *)

Module ExponentialBackoff.

(** [(initial as f64 * multiplier.powi(step)) as u64]: [f64] as used by [wait]. *)
Class F64 := {
  f64 : Type;
  of_u128 : Z → f64;
  powi : f64 → Z → f64;
  mul : f64 → f64 → f64;
  to_u64 : f64 → Z
}.

(** An [as u64] cast saturates: its result is a [u64] whatever the argument, and the
    cast of the default multiplier to the power 0 loses nothing. *)
Class F64Laws (F : F64) : Prop := {
  to_u64_range : ∀ x, (0 ≤ to_u64 x < 2 ^ 64)%Z;
  powi_0 : ∀ m n, (0 ≤ n < 2 ^ 53)%Z → to_u64 (mul (of_u128 n) (powi m 0)) = n
}.

Section Backoff.
Context `{F : F64}.

Record t := Mk {
  initial_duration_millis : Z;
  max_duration : Z;
  defer_duration : Z;
  multiplier : f64;
  step : Z;
  deferred_reset : option Z
}.

Definition new (initial_duration max_duration : Z) (multiplier : f64)
    (defer_duration : Z) : t :=
  Mk (initial_duration / 1000) max_duration defer_duration multiplier 0 None.

(** [Default::default()]; [m] is the literal 1.1. *)
Definition default (m : f64) : t := new (from_secs 1) (from_secs 60) m (from_secs 60).

Definition defer_reset (now : Z) (b : t) : t :=
  Mk (initial_duration_millis b) (max_duration b) (defer_duration b) (multiplier b)
    (step b) (Some (now + defer_duration b)%Z).

Definition reset (b : t) : t :=
  Mk (initial_duration_millis b) (max_duration b) (defer_duration b) (multiplier b) 0 None.

(** The delay of the current step. *)
Definition delay (b : t) : Z :=
  Z.min (from_millis (to_u64 (mul (of_u128 (initial_duration_millis b))
    (powi (multiplier b) (step b))))) (max_duration b).

Definition sleep_and_step (b : t) : Z * t :=
  (delay b, Mk (initial_duration_millis b) (max_duration b) (defer_duration b)
    (multiplier b) (step b + 1) None).

(** [wait]: the time slept (none when a deferred reset is due) and the new state. *)
Definition wait (now : Z) (b : t) : option Z * t :=
  match deferred_reset b with
  | Some at_ =>
      if decide (at_ < now)%Z then (None, reset b)
      else let '(d, b') := sleep_and_step b in (Some d, b')
  | None => let '(d, b') := sleep_and_step b in (Some d, b')
  end.

(** [n] waits with no reset in between. *)
Fixpoint waits (nows : list Z) (b : t) : list (option Z) * t :=
  match nows with
  | [] => ([], b)
  | now :: nows =>
      let '(d, b) := wait now b in
      let '(ds, b) := waits nows b in (d :: ds, b)
  end.

End Backoff.
Arguments t F : clear implicits.

End ExponentialBackoff.

(** ** The raw stream *)

Module RawSseStream.

Definition newline : ascii := "010"%char.

(** [String::from_utf8]: the byte sequences that are UTF-8, table 3-7 of the Unicode
    standard. *)
Definition in_range (lo hi : N) (a : ascii) : bool :=
  ((lo <=? byte_N a) && (byte_N a <=? hi))%N.
Definition continuation : ascii → bool := in_range 128 191.

Fixpoint utf8_valid (s : string) : bool :=
  match s with
  | EmptyString => true
  | String a s =>
      if in_range 0 127 a then utf8_valid s
      else match s with
      | EmptyString => false
      | String b s =>
          if in_range 194 223 a then continuation b && utf8_valid s
          else match s with
          | EmptyString => false
          | String c s =>
              if in_range 224 224 a then in_range 160 191 b && continuation c && utf8_valid s
              else if in_range 225 236 a || in_range 238 239 a
              then continuation b && continuation c && utf8_valid s
              else if in_range 237 237 a
              then in_range 128 159 b && continuation c && utf8_valid s
              else match s with
              | EmptyString => false
              | String d s =>
                  let tail := continuation c && continuation d && utf8_valid s in
                  if in_range 240 240 a then in_range 144 191 b && tail
                  else if in_range 241 243 a then continuation b && tail
                  else if in_range 244 244 a then in_range 128 143 b && tail
                  else false
              end
          end
      end
  end.

(** The fields besides the response, whose remaining chunks are passed separately. *)
Record t := Mk {
  buffer : string;
  data : option string;
  id : option string
}.

Definition new : t := Mk "" None None.

Definition event := (option string * string)%type.

(** The body of the [while let] loop: [current_line] ended at a newline. *)
Definition feed_line (current_line : string) (s : t) : option event * t :=
  let line := buffer s +:+ current_line in
  match strip_prefix "data:" line with
  | Some result =>
      (None, Mk "" (Some match data s with
                         | Some d => d +:+ String newline result
                         | None => result
                         end) (id s))
  | None =>
      match strip_prefix "id:" line with
      | Some result =>
          if utf8_valid result then (None, Mk "" (data s) (Some result))
          else (None, Mk "" (data s) (id s))
      | None =>
          match line, data s with
          | EmptyString, Some d => (Some (id s, d), Mk "" None None)
          | _, _ => (None, Mk "" (data s) (id s))
          end
      end
  end.

(** The lines of a chunk that end in it, and what follows the last newline. *)
Fixpoint split_lines (chunk : string) : list string * string :=
  match chunk with
  | EmptyString => ([], "")
  | String a rest =>
      let '(lines, left_over) := split_lines rest in
      if Ascii.eqb a newline then ("" :: lines, left_over)
      else match lines with
           | [] => ([], String a left_over)
           | l :: lines => (String a l :: lines, left_over)
           end
  end.

(** An event returns from the function: what the chunk holds after it is dropped. *)
Fixpoint feed_lines (lines : list string) (left_over : string) (s : t) : option event * t :=
  match lines with
  | [] => (None, Mk (buffer s +:+ left_over) (data s) (id s))
  | line :: lines =>
      match feed_line line s with
      | (Some ev, s) => (Some ev, s)
      | (None, s) => feed_lines lines left_over s
      end
  end.

Definition feed_chunk (chunk : string) (s : t) : option event * t :=
  let '(lines, left_over) := split_lines chunk in feed_lines lines left_over s.

(** A response is the results of its successive [chunk()] calls; it ends with
    [Ok(None)] when the list does, and [None] is a read error. *)
Definition response := list (option string).

Fixpoint next (r : response) (s : t) : option event * response * t :=
  match r with
  | [] => (None, [], s)
  | None :: r => (None, r, s)
  | Some chunk :: r =>
      match feed_chunk chunk s with
      | (Some ev, s) => (Some ev, r, s)
      | (None, s) => next r s
      end
  end.

(** The events of a response, to its end. [fuel] bounds the calls of [next]; each one
    that returns an event consumes a chunk. *)
Fixpoint events (fuel : nat) (r : response) (s : t) : list event :=
  match fuel with
  | 0 => []
  | S fuel =>
      match next r s with
      | (Some ev, r, s) => ev :: events fuel r s
      | (None, _, _) => []
      end
  end.

End RawSseStream.

(** ** The reconnecting client *)

Module SseStream.
Import ExponentialBackoff.

Section Client.
Context `{F : F64}.
(** [serde_json::from_slice::<T>], the literal 1.1 and the readings of the clock. *)
Context {T : Type} (from_slice : string → option T) (m11 : f64) (clock : nat → Z).

Record t := Mk {
  stream : option (RawSseStream.response * RawSseStream.t);
  backoff : ExponentialBackoff.t F;
  last_id : option string
}.

(** What becomes of a request: an error of the client, or a status and a body. *)
Inductive attempt :=
| Failed
| Responded (status : Z) (body : RawSseStream.response).

(** What the client does: a request with its [Last-Event-ID] header, and a sleep. *)
Inductive action :=
| Get (last_event_id : option string)
| Sleep (d : Z).

Inductive stream_error := Request | UnexpectedStatus (status : Z).

Definition new : t := Mk None (default m11) None.

(** [ensure_stream]: nothing is sent when the stream exists. The environment gives the
    outcome of the next request; with none left, the request never ends. *)
Definition ensure_stream (env : list attempt) (s : t)
  : option (result stream_error () * list action * list attempt * t) :=
  match stream s with
  | Some _ => Some (Ok (), [], env, s)
  | None =>
      match env with
      | [] => None
      | Failed :: env => Some (Err Request, [Get (last_id s)], env, s)
      | Responded status body :: env =>
          if decide (status = 200%Z)
          then Some (Ok (), [Get (last_id s)], env,
                     Mk (Some (body, RawSseStream.new)) (backoff s) (last_id s))
          else Some (Err (UnexpectedStatus status), [Get (last_id s)], env, s)
      end
  end.

(** Where [next] gets to: an event, or it is still waiting for a request after the
    environment's last outcome. *)
Inductive outcome :=
| Item (v : T)
| Waiting
| OutOfFuel.

(** [next]. [tick] counts the readings of the clock. *)
Fixpoint next (fuel tick : nat) (env : list attempt) (s : t)
  : outcome * list action * list attempt * t :=
  match fuel with
  | 0 => (OutOfFuel, [], env, s)
  | S fuel =>
      match ensure_stream env s with
      | None => (Waiting, [Get (last_id s)], env, s)
      | Some (Err _, sent, env, s) =>
          let '(slept, b) := wait (clock tick) (backoff s) in
          let '(o, acts, env, s) := next fuel (S tick) env (Mk (stream s) b (last_id s)) in
          (o, sent ++ (Sleep <$> option_list slept) ++ acts, env, s)
      | Some (Ok _, sent, env, s) =>
          let b := defer_reset (clock tick) (backoff s) in
          match stream s with
          | None => (OutOfFuel, sent, env, s)
          | Some (body, raw) =>
              match RawSseStream.next body raw with
              | (None, _, _) =>
                  let '(o, acts, env, s) := next fuel (S tick) env (Mk None b (last_id s)) in
                  (o, sent ++ acts, env, s)
              | (Some (id, data), body, raw) =>
                  let s := Mk (Some (body, raw)) b id in
                  match from_slice data with
                  | Some v => (Item v, sent, env, s)
                  | None =>
                      let '(o, acts, env, s) := next fuel (S tick) env s in
                      (o, sent ++ acts, env, s)
                  end
              end
          end
      end
  end.

(** Every pass of the loop uses up an outcome of the environment, a chunk, or the
    stream itself: a bound on the number of passes. *)
Definition attempt_size (a : attempt) : nat :=
  match a with Failed => 1 | Responded _ body => 2 + length body end.

Definition work (env : list attempt) (s : t) : nat :=
  foldr (λ a n, attempt_size a + n) 0 env +
  match stream s with Some (body, _) => S (length body) | None => 0 end.

(** [sse_request]: the first connection is made by the caller, without retries. *)
Definition sse_request (env : list attempt) : option (result stream_error t * list attempt) :=
  match ensure_stream env new with
  | None => None
  | Some (Ok _, _, env, s) => Some (Ok s, env)
  | Some (Err e, _, env, _) => Some (Err e, env)
  end.

End Client.
Arguments t F : clear implicits.
Arguments outcome T : clear implicits.

End SseStream.

(** ** The format *)

Module SseFormat.
Import RawSseStream.

(** An event as the format sees it: its data is a non-empty list of lines. *)
Record event := MkEvent {
  ev_id : option string;
  ev_first : string;
  ev_more : list string
}.

Definition nl : string := String newline "".

(** One [data:] line for each line of the data, then the id, then a blank line. *)
Definition encode (e : event) : string :=
  foldr (λ l s, "data:" +:+ l +:+ nl +:+ s) "" (ev_first e :: ev_more e)
  +:+ match ev_id e with Some i => "id:" +:+ i +:+ nl | None => "" end
  +:+ nl.

Definition payload (e : event) : string :=
  foldl (λ d l, d +:+ String newline l) (ev_first e) (ev_more e).

Definition decoded (e : event) : RawSseStream.event := (ev_id e, payload e).

Definition single_line (s : string) : Prop := string_has newline s = false.

Record wf (e : event) : Prop := {
  wf_data : Forall single_line (ev_first e :: ev_more e);
  wf_id : ∀ i, ev_id e = Some i → single_line i ∧ utf8_valid i = true
}.

#[global] Instance single_line_dec s : Decision (single_line s).
Proof. unfold single_line. apply _. Defined.

(** A comment line, as keep-alives are sent. *)
Definition comment (s : string) : string := ":" +:+ s +:+ nl.

Definition concat_str : list string → string := foldr String.append "".

(** The chunks of one event: not empty, and the event ends where the last one does. *)
Record chunks_of (e : event) (chunks : list string) : Prop := {
  chunks_concat : concat_str chunks = encode e;
  chunks_nonempty : Forall (λ c, c ≠ "") chunks
}.

End SseFormat.

(** ** Theorems *)

Module SseProps.
Import RawSseStream SseFormat.

(** The chunk-level loop, byte by byte: the same function, which composes with
    concatenation. *)
Fixpoint feed_bytes (bytes : string) (s : t) : option RawSseStream.event * t :=
  match bytes with
  | EmptyString => (None, s)
  | String a rest =>
      if Ascii.eqb a newline then
        match feed_line "" s with
        | (Some ev, s) => (Some ev, s)
        | (None, s) => feed_bytes rest s
        end
      else feed_bytes rest (Mk (buffer s +:+ String a "") (data s) (id s))
  end.

Lemma feed_line_cons a l s :
  feed_line (String a l) s = feed_line l (Mk (buffer s +:+ String a "") (data s) (id s)).
Proof.
  unfold feed_line. cbn [buffer data id]. by rewrite append_assoc, append_cons, append_nil_l.
Qed.

Lemma feed_lines_cons a lines left_over s :
  (match lines with
   | [] => feed_lines [] (String a left_over) s
   | l :: lines => feed_lines (String a l :: lines) left_over s
   end) = feed_lines lines left_over (Mk (buffer s +:+ String a "") (data s) (id s)).
Proof.
  destruct lines as [|l lines]; cbn [feed_lines buffer data id].
  - by rewrite append_assoc, append_cons, append_nil_l.
  - by rewrite feed_line_cons.
Qed.

Lemma feed_chunk_bytes chunk s : feed_chunk chunk s = feed_bytes chunk s.
Proof.
  revert s. unfold feed_chunk. induction chunk as [|a rest IH]; intros s; cbn [split_lines].
  { destruct s; cbn. by rewrite append_nil_r. }
  destruct (split_lines rest) as [lines left_over]. cbn [feed_bytes].
  destruct (Ascii.eqb a newline).
  - cbn [feed_lines]. destruct (feed_line "" s) as [[ev|] s']; [done|apply IH].
  - rewrite <- IH, <- feed_lines_cons. by destruct lines.
Qed.

Lemma feed_bytes_app s1 s2 s :
  feed_bytes (s1 +:+ s2) s =
  match feed_bytes s1 s with
  | (Some ev, s) => (Some ev, s)
  | (None, s) => feed_bytes s2 s
  end.
Proof.
  revert s. induction s1 as [|a s1 IH]; intros s; [done|].
  rewrite append_cons. cbn [feed_bytes].
  destruct (Ascii.eqb a newline); [|apply IH].
  destruct (feed_line "" s) as [[ev|] s']; [done|apply IH].
Qed.

(** A line without a newline is appended to the buffer. *)
Lemma feed_bytes_line l s :
  single_line l →
  feed_bytes (l +:+ nl) s =
  feed_line "" (Mk (buffer s +:+ l) (data s) (id s)).
Proof.
  unfold single_line. revert s. induction l as [|a l IH]; intros s Hl.
  - rewrite append_nil_l. cbn [feed_bytes nl]. rewrite Ascii.eqb_refl, append_nil_r.
    destruct s. by destruct (feed_line _ _) as [[]].
  - rewrite append_cons. cbn [feed_bytes].
    cbn [string_has] in Hl. apply orb_false_iff in Hl as [-> Hl].
    rewrite IH by done. cbn [buffer data id]. by rewrite append_assoc, append_cons, append_nil_l.
Qed.

Lemma feed_bytes_data_lines ls i d :
  Forall single_line ls →
  feed_bytes (foldr (λ l s, "data:" +:+ l +:+ nl +:+ s) "" ls) (Mk "" (Some d) i) =
  (None, Mk "" (Some (foldl (λ d l, d +:+ String newline l) d ls)) i).
Proof.
  intros Hls. revert d. induction Hls as [|l ls Hl _ IH]; intros d; [done|].
  cbn [foldr foldl]. rewrite <- !append_assoc, feed_bytes_app.
  rewrite feed_bytes_line by (unfold single_line; rewrite string_has_append; by rewrite Hl).
  cbn [buffer data id]. unfold feed_line at 1. cbn [buffer data id].
  rewrite append_nil_r, append_nil_l, (proj2 (strip_prefix_spec "data:" _ l) eq_refl). apply IH.
Qed.

(** Everything of an event but its last newline. *)
Definition body (e : SseFormat.event) : string :=
  foldr (λ l s, "data:" +:+ l +:+ nl +:+ s) "" (ev_first e :: ev_more e)
  +:+ match ev_id e with Some i => "id:" +:+ i +:+ nl | None => "" end.

Lemma encode_body e : encode e = body e +:+ nl.
Proof. unfold encode, body. by rewrite !append_assoc. Qed.

Lemma feed_bytes_body e :
  wf e → feed_bytes (body e) new = (None, Mk "" (Some (payload e)) (ev_id e)).
Proof.
  intros [[Hf Hm]%Forall_cons Hid]. unfold body. rewrite feed_bytes_app. cbn [foldr].
  rewrite <- !append_assoc, feed_bytes_app.
  rewrite feed_bytes_line by (unfold single_line; rewrite string_has_append; by rewrite Hf).
  cbn [buffer data id new]. unfold feed_line at 1. cbn [buffer data id].
  rewrite append_nil_r, append_nil_l, (proj2 (strip_prefix_spec "data:" _ (ev_first e)) eq_refl).
  rewrite feed_bytes_data_lines by done. fold (payload e).
  destruct (ev_id e) as [i|]; [|done]. destruct (Hid i eq_refl) as [Hi Hutf].
  rewrite <- append_assoc, feed_bytes_line
    by (unfold single_line; rewrite string_has_append; by rewrite Hi).
  cbn [buffer data id]. unfold feed_line. cbn [buffer data id].
  rewrite append_nil_r, append_nil_l.
  rewrite (proj2 (strip_prefix_spec "id:" _ i) eq_refl), Hutf. done.
Qed.

Lemma blank_line d i : feed_line "" (Mk "" (Some d) i) = (Some (i, d), new).
Proof. done. Qed.

(** A text that ends at a newline, split at an earlier point. *)
Lemma append_nl_split c u s :
  c +:+ u = s +:+ nl → u ≠ "" → ∃ t, u = t +:+ nl ∧ s = c +:+ t.
Proof.
  revert s. induction c as [|a c IH]; intros s Heq Hu.
  - exists s. by rewrite append_nil_l in *.
  - destruct s as [|b s].
    + rewrite append_nil_l, append_cons in Heq. injection Heq as -> Heq.
      destruct c; [by rewrite append_nil_l in Heq|by rewrite append_cons in Heq].
    + rewrite !append_cons in Heq. injection Heq as -> Heq.
      destruct (IH s Heq Hu) as (t & -> & ->). by exists t.
Qed.

Lemma concat_str_nil cs : Forall (λ c, c ≠ "") cs → concat_str cs = "" → cs = [].
Proof.
  intros [|c cs' Hc _]; [done|]. cbn. destruct c; [done|]. by rewrite append_cons.
Qed.

Lemma next_chunks cs r bytes s s1 ev s2 :
  concat_str cs = bytes +:+ nl → Forall (λ c, c ≠ "") cs →
  feed_bytes bytes s = (None, s1) → feed_bytes nl s1 = (Some ev, s2) →
  next ((Some <$> cs) ++ r) s = (Some ev, r, s2).
Proof.
  intros Hcat Hne. revert bytes s Hcat. induction Hne as [|c cs Hc Hne IH];
    intros bytes s Hcat Hs1 Hs2.
  { exfalso. cbn in Hcat. destruct bytes; [done|by rewrite append_cons in Hcat]. }
  cbn [concat_str foldr] in Hcat. fold (concat_str cs) in Hcat.
  cbn [fmap list_fmap app next]. rewrite feed_chunk_bytes.
  destruct (decide (concat_str cs = "")) as [Hnil|Hnnil].
  - apply concat_str_nil in Hnil as ->; [|done]. cbn in Hcat. rewrite append_nil_r in Hcat.
    subst c. by rewrite feed_bytes_app, Hs1, Hs2.
  - destruct (append_nl_split _ _ _ Hcat Hnnil) as (t & Ht & ->).
    rewrite feed_bytes_app in Hs1.
    destruct (feed_bytes c s) as [[?|] s']; [done|]. by apply (IH t s').
Qed.

(** The next event of a well-formed encoding, however it is chunked. *)
Lemma next_event e cs r :
  wf e → chunks_of e cs → next ((Some <$> cs) ++ r) new = (Some (decoded e), r, new).
Proof.
  intros Hwf [Hcat Hne]. rewrite encode_body in Hcat.
  by apply (next_chunks cs r _ _ _ _ _ Hcat Hne (feed_bytes_body e Hwf)).
Qed.

Lemma feed_keep_alive c :
  single_line c → feed_chunk (comment c +:+ nl) new = (None, new).
Proof.
  intros Hc. unfold comment. rewrite feed_chunk_bytes, feed_bytes_app, <- append_assoc.
  rewrite feed_bytes_line by (unfold single_line; by rewrite string_has_append, Hc).
  cbn [buffer data id new]. unfold feed_line. cbn [buffer data id].
  by rewrite append_nil_r, append_nil_l, append_cons, append_nil_l.
Qed.

(** The chunks of a response: events, each cut anywhere into chunks but ending one, and
    keep-alive comments between them. *)
Inductive framing : list SseFormat.event → list string → Prop :=
| framing_nil : framing [] []
| framing_event e cs es rest :
    wf e → chunks_of e cs → framing es rest → framing (e :: es) (cs ++ rest)
| framing_keep_alive c es rest :
    single_line c → framing es rest → framing es ((comment c +:+ nl) :: rest).

Lemma next_framing_cons es cs r :
  framing es cs → ∀ e es', es = e :: es' →
  ∃ cs', framing es' cs' ∧ length cs' < length cs ∧
    next ((Some <$> cs) ++ r) new = (Some (decoded e), (Some <$> cs') ++ r, new).
Proof.
  induction 1 as [|e1 cs es rest Hwf Hcs Hrest _|c es rest Hc Hrest IH];
    intros e es' Heq; simplify_eq.
  - exists rest. split; [done|]. split.
    + rewrite length_app. destruct Hcs as [Hcat _]. destruct cs; [|simpl; lia].
      exfalso. rewrite encode_body in Hcat. cbn in Hcat.
      destruct (body e); [done|by rewrite append_cons in Hcat].
    + rewrite fmap_app, <- app_assoc. by apply next_event.
  - destruct (IH e es' eq_refl) as (cs' & Hcs' & Hlen & Hn). exists cs'.
    split; [done|]. split; [simpl; lia|].
    cbn [fmap list_fmap app next]. by rewrite feed_keep_alive.
Qed.

Lemma next_framing_nil cs r :
  framing [] cs → next ((Some <$> cs) ++ r) new = next r new.
Proof.
  remember [] as es eqn:Hes. induction 1 as [| |c es rest Hc Hrest IH]; simplify_eq; [done|].
  cbn [fmap list_fmap app next]. rewrite feed_keep_alive by done. by apply IH.
Qed.

(** The parser inverts the format: for events of any number of data lines
    with or without an id, cut into non-empty chunks at any points as long as each event
    ends a chunk, with keep-alive comments between them, the events read are exactly
    those sent: the data lines joined by newlines, the id of each event, in order. *)
Theorem sse_roundtrip es cs fuel :
  framing es cs → length es < fuel →
  events fuel (Some <$> cs) new = decoded <$> es.
Proof.
  revert cs fuel. induction es as [|e es IH]; intros cs fuel Hcs Hfuel;
    (destruct fuel as [|fuel]; [simpl in Hfuel; lia|]); cbn [events].
  - pose proof (next_framing_nil cs [] Hcs) as Hn. rewrite app_nil_r in Hn. by rewrite Hn.
  - destruct (next_framing_cons _ _ [] Hcs e es eq_refl) as (cs' & Hcs' & _ & Hn).
    rewrite !app_nil_r in Hn. rewrite Hn. cbn [fmap list_fmap]. f_equal.
    apply IH; [done|]. simpl in Hfuel. lia.
Qed.

(** When one chunk holds the end of an event and more, the rest of the chunk
    is lost: a second event in it is never delivered. *)
Theorem second_event_of_chunk_lost e1 e2 fuel :
  wf e1 → events (S fuel) [Some (encode e1 +:+ encode e2)] new =
          decoded e1 :: events fuel [] new.
Proof.
  intros Hwf. cbn [events next]. rewrite feed_chunk_bytes, feed_bytes_app, encode_body,
    feed_bytes_app, feed_bytes_body by done. done.
Qed.

End SseProps.

(** ** The client *)

Module ClientProps.
Import ExponentialBackoff SseStream.

(** A call of the raw parser that returns an event consumed a chunk. *)
Lemma raw_next_length r s ev r' s' :
  RawSseStream.next r s = (Some ev, r', s') → length r' < length r.
Proof.
  revert s. induction r as [|[c|] r IH]; intros s; cbn [RawSseStream.next]; [done| |done].
  destruct (RawSseStream.feed_chunk c s) as [[?|] s1]; [intros [= <- <- <-]; simpl; lia|].
  intros H%IH. simpl. lia.
Qed.

Section Client.
Context `{F : F64}.
Context {T : Type} (from_slice : string → option T) (m11 : f64) (clock : nat → Z).

Local Notation next := (next from_slice clock).

Lemma ensure_stream_work env s res acts env1 s1 :
  ensure_stream env s = Some (res, acts, env1, s1) →
  work env1 s1 ≤ work env s ∧
  match res with
  | Ok _ => is_Some (stream s1)
  | Err _ => stream s1 = None ∧ work env1 s1 < work env s
  end.
Proof.
  unfold ensure_stream, work. destruct (stream s) as [[body raw]|] eqn:Hs.
  - intros [= <- <- <- <-]. rewrite Hs. eauto.
  - destruct env as [|[|status body] env]; [done| |].
    + intros [= <- <- <- <-]. rewrite Hs. simpl. split; [lia|split; [done|lia]].
    + case_decide; intros [= <- <- <- <-]; cbn [stream]; rewrite ?Hs; cbn [foldr attempt_size];
        [split; [lia|by eexists]|split; [lia|split; [done|lia]]].
Qed.

(** [next] always gets somewhere: it returns an event, or waits for a request that has
    not ended; each pass of its loop uses up a part of what the server sent. *)
Lemma next_total fuel tick env s :
  work env s < fuel → (next fuel tick env s).1.1.1 ≠ OutOfFuel.
Proof.
  revert tick env s. induction fuel as [|fuel IH]; intros tick env s Hw; [lia|].
  cbn [SseStream.next].
  destruct (ensure_stream env s) as [[[[[[]|e] acts] env1] s1]|] eqn:He; [| |done].
  - pose proof (ensure_stream_work _ _ _ _ _ _ He) as [Hle [[body raw] Hs]]. rewrite Hs.
    destruct (RawSseStream.next body raw) as [[[[i d]|] body'] raw'] eqn:Hn.
    + destruct (from_slice d); [done|].
      pose proof (raw_next_length _ _ _ _ _ Hn).
      assert (Hlt : work env1 (Mk (Some (body', raw')) (defer_reset (clock tick) (backoff s1)) i)
                    < fuel) by (unfold work in *; rewrite Hs in Hle; simpl in *; lia).
      specialize (IH (S tick) _ _ Hlt). by destruct (next _ _ _ _) as [[[]]].
    + assert (Hlt : work env1 (Mk None (defer_reset (clock tick) (backoff s1)) (last_id s1))
                    < fuel) by (unfold work in *; rewrite Hs in Hle; simpl in *; lia).
      specialize (IH (S tick) _ _ Hlt). by destruct (next _ _ _ _) as [[[]]].
  - pose proof (ensure_stream_work _ _ _ _ _ _ He) as [_ [Hs Hlt]].
    destruct (wait (clock tick) (backoff s1)) as [slept b].
    assert (Hlt' : work env1 (Mk (stream s1) b (last_id s1)) < fuel)
      by (unfold work in *; simpl in *; lia).
    specialize (IH (S tick) _ _ Hlt'). by destruct (next _ _ _ _) as [[[]]].
Qed.

(** Successive calls of [next], to the one that waits for ever: the events and what was
    done for them. *)
Fixpoint collect (n fuel tick : nat) (env : list attempt) (s : SseStream.t F)
  : list T * list action :=
  match n with
  | 0 => ([], [])
  | S n =>
      match next fuel tick env s with
      | (Item v, acts, env, s) =>
          let '(vs, acts') := collect n fuel (tick + fuel) env s in (v :: vs, acts ++ acts')
      | (_, acts, _, _) => ([], acts)
      end
  end.

(** The requests among the actions. *)
Definition gets (acts : list action) : list (option string) :=
  omap (λ a, match a with Get i => Some i | Sleep _ => None end) acts.

Lemma gets_app a b : gets (a ++ b) = gets a ++ gets b.
Proof. unfold gets. by rewrite omap_app. Qed.

Lemma gets_sleep (o : option Z) : gets (Sleep <$> option_list o) = [].
Proof. by destruct o. Qed.

(** The id a client remembers after the events [es]. *)
Definition last_of (last : option string) (es : list SseFormat.event) : option string :=
  foldl (λ _ e, SseFormat.ev_id e) last es.

(** A connection that breaks: chunks that hold no whole event, or a read error. *)
Definition breaks (tail : RawSseStream.response) : Prop :=
  (RawSseStream.next tail RawSseStream.new).1.1 = None.

#[global] Instance breaks_dec tail : Decision (breaks tail).
Proof. unfold breaks. apply _. Defined.

(** The two ends of a stream over any number of connections. [serve i] is what the
    server would send to a request with [Last-Event-ID] [i]; a connection delivers a
    prefix of it and breaks, perhaps inside an event; connections may fail or be
    refused. The indices are the id the client has, the outcomes of its requests, the
    ids it must send, and the events that were delivered whole. *)
Inductive session (serve : option string → list SseFormat.event)
  : option string → list attempt → list (option string) → list SseFormat.event → Prop :=
| session_end last : session serve last [] [last] []
| session_failed last env ids es :
    session serve last env ids es → session serve last (Failed :: env) (last :: ids) es
| session_refused last status body env ids es :
    status ≠ 200%Z → session serve last env ids es →
    session serve last (Responded status body :: env) (last :: ids) es
| session_connected last es cs tail env ids es' :
    es `prefix_of` serve last → SseProps.framing es cs → breaks tail →
    session serve (last_of last es) env ids es' →
    session serve last (Responded 200 ((Some <$> cs) ++ tail) :: env) (last :: ids) (es ++ es').

(** The client is in the middle of a session. *)
Definition expects serve (env : list attempt) (s : SseStream.t F)
    (ids : list (option string)) (es : list SseFormat.event) : Prop :=
  match stream s with
  | None => session serve (last_id s) env ids es
  | Some (body, raw) =>
      raw = RawSseStream.new ∧ ∃ seg cs tail es',
        body = (Some <$> cs) ++ tail ∧ SseProps.framing seg cs ∧ breaks tail ∧
        es = seg ++ es' ∧ session serve (last_of (last_id s) seg) env ids es'
  end.

Lemma ensure_session serve env s ids e es :
  expects serve env s ids (e :: es) →
  ∃ res acts env1 s1 ids1,
    ensure_stream env s = Some (res, acts, env1, s1) ∧ ids = gets acts ++ ids1 ∧
    expects serve env1 s1 ids1 (e :: es) ∧ (is_ok res = true → is_Some (stream s1)).
Proof.
  unfold expects at 1, ensure_stream. destruct (stream s) as [[body raw]|] eqn:Hs.
  - intros (-> & seg & cs & tail & es' & -> & Hfr & Hbr & -> & Hses).
    exists (Ok ()), [], env, s, ids. unfold expects. rewrite Hs. naive_solver.
  - inversion 1 as [|last env' ids' es0 Hses|last status body env' ids' es0 Hst Hses
      |last seg cs tail env' ids' es' Hpre Hfr Hbr Hses]; subst.
    + exists (Err Request), [Get (last_id s)], env', s, ids'. unfold expects. by rewrite Hs.
    + exists (Err (UnexpectedStatus status)), [Get (last_id s)], env', s, ids'.
      rewrite decide_False by done. unfold expects. by rewrite Hs.
    + eexists (Ok ()), [Get (last_id s)], env', _, ids'.
      rewrite decide_True by done. split; [done|]. split; [done|]. split; [|by eexists].
      unfold expects. cbn [stream last_id]. split; [done|].
      by exists seg, cs, tail, es'.
Qed.

Lemma next_session serve fuel tick env s ids e es v :
  expects serve env s ids (e :: es) → from_slice (SseFormat.payload e) = Some v →
  work env s < fuel →
  ∃ acts env' s' ids', next fuel tick env s = (Item v, acts, env', s') ∧
    expects serve env' s' ids' es ∧ ids = gets acts ++ ids' ∧ work env' s' ≤ work env s.
Proof.
  intros Hexp Hv. revert tick env s ids Hexp.
  induction fuel as [|fuel IH]; intros tick env s ids Hexp Hw; [lia|].
  destruct (ensure_session _ _ _ _ _ _ Hexp)
    as (res & acts & env1 & s1 & ids1 & He & -> & Hexp1 & Hsome).
  pose proof (ensure_stream_work _ _ _ _ _ _ He) as [Hle Hres].
  cbn [SseStream.next]. rewrite He. destruct res as [[]|err].
  - destruct (Hsome eq_refl) as [[body raw] Hs]. rewrite Hs. unfold expects in Hexp1.
    rewrite Hs in Hexp1.
    destruct Hexp1 as (-> & seg & cs & tail & es' & -> & Hfr & Hbr & Hes & Hses).
    destruct seg as [|e' seg].
    + rewrite (SseProps.next_framing_nil _ _ Hfr). unfold breaks in Hbr.
      destruct (RawSseStream.next tail _) as [[[?|] r'] s'] eqn:Hn; [done|].
      destruct (IH (S tick) env1 (Mk None (defer_reset (clock tick) (backoff s1)) (last_id s1))
        ids1) as (acts' & env' & s2 & ids' & Hnext & Hexp' & -> & Hw').
      { unfold expects. cbn [stream last_id]. simpl in Hes. by subst es'. }
      { unfold work in *. rewrite Hs in Hle. simpl in *. lia. }
      rewrite Hnext. eexists _, env', s2, ids'. split; [done|]. split; [done|].
      split; [by rewrite gets_app, app_assoc|]. unfold work in *. rewrite Hs in Hle. simpl in *. lia.
    + injection Hes as <- ->.
      destruct (SseProps.next_framing_cons _ _ tail Hfr e seg eq_refl) as (cs' & Hfr' & Hlen & Hn).
      rewrite Hn. unfold SseFormat.decoded. rewrite Hv.
      eexists acts, env1, _, ids1. split; [done|]. split; [|split; [done|]].
      * unfold expects. cbn [stream last_id]. split; [done|]. by exists seg, cs', tail, es'.
      * unfold work in *. rewrite Hs in Hle. cbn [stream] in *.
        rewrite length_app, length_fmap in *. lia.
  - destruct Hres as [Hs Hlt]. destruct (wait (clock tick) (backoff s1)) as [slept b].
    destruct (IH (S tick) env1 (Mk (stream s1) b (last_id s1)) ids1)
      as (acts' & env' & s2 & ids' & Hnext & Hexp' & -> & Hw').
    { unfold expects in *. cbn [stream last_id]. by rewrite Hs in *. }
    { unfold work in *. simpl in *. lia. }
    rewrite Hnext. eexists _, env', s2, ids'. split; [done|]. split; [done|].
    split; [by rewrite !gets_app, gets_sleep, app_assoc|]. unfold work in *. simpl in *. lia.
Qed.

Lemma collect_session serve fuel tick env s ids es vs :
  expects serve env s ids es →
  Forall2 (λ e v, from_slice (SseFormat.payload e) = Some v) es vs →
  work env s < fuel →
  ∃ acts, collect (length es) fuel tick env s = (vs, acts) ∧ gets acts `prefix_of` ids.
Proof.
  intros Hexp Hvs. revert tick env s ids Hexp.
  induction Hvs as [|e v es vs Hv _ IH]; intros tick env s ids Hexp Hw.
  { exists []. split; [done|]. apply prefix_nil. }
  destruct (next_session serve fuel tick env s ids e es v Hexp Hv Hw)
    as (acts & env' & s' & ids' & Hn & Hexp' & -> & Hw').
  destruct (IH (tick + fuel) env' s' ids' Hexp') as (acts' & Hc & Hpre); [lia|].
  cbn [length collect]. rewrite Hn, Hc. eexists. split; [done|].
  rewrite gets_app. by apply prefix_app.
Qed.

(** A server that resumes: after the events [seen] of the whole stream, a request with
    the id of the last of them is sent the rest. *)
Definition resumes (serve : option string → list SseFormat.event) : Prop :=
  ∀ seen rest, serve None = seen ++ rest → serve (last_of None seen) = rest.

Lemma session_prefix serve last env ids es seen :
  resumes serve → session serve last env ids es →
  serve None = seen ++ serve last → last = last_of None seen →
  (seen ++ es) `prefix_of` serve None.
Proof.
  intros Hserve Hses. revert seen.
  induction Hses as [last|last env ids es _ IH|last status body env ids es _ _ IH
    |last es cs tail env ids es' [rest Hpre] Hfr Hbr _ IH]; intros seen Hseen Hlast;
    [rewrite app_nil_r, Hseen; by eexists|by apply IH|by apply IH|].
  rewrite app_assoc. assert (Hlast' : last_of last es = last_of None (seen ++ es))
    by (unfold last_of in *; rewrite foldl_app; by rewrite <- Hlast).
  apply IH; [|done]. rewrite Hlast'. rewrite Hpre, app_assoc in Hseen.
  by rewrite (Hserve _ _ Hseen).
Qed.

(** Composition of the client with a server that resumes: whatever
    connections fail, are refused or break in the middle of an event, with arbitrary
    chunking and clock, the values the client returns are the first events of the whole
    stream, each once and in order, as many as were delivered whole; and it asks for
    each continuation with the id of the last event it has. *)
Lemma client_resumes serve env ids es vs fuel tick :
  resumes serve → session serve None env ids es →
  Forall2 (λ e v, from_slice (SseFormat.payload e) = Some v) es vs →
  work env (new m11) < fuel →
  es `prefix_of` serve None ∧
  (collect (length es) fuel tick env (new m11)).1 = vs ∧
  gets (collect (length es) fuel tick env (new m11)).2 `prefix_of` ids.
Proof.
  intros Hserve Hses Hvs Hw. split.
  - by apply (session_prefix serve None env ids es []).
  - destruct (collect_session serve fuel tick env (new m11) ids es vs) as (acts & -> & Hpre);
      done.
Qed.

End Client.
End ClientProps.

(** ** The status stream of a backend, from the database to the client *)

Module StatusStreamProps.
Import ExponentialBackoff SseStream ClientProps Encoding RoundTrip.

(** A decodable image of a list determines prefixes of what is decoded. *)
Lemma prefix_of_decoded {A B C} (f : A → B) (g : B → option C) (h : A → C) (l k : list A) :
  (∀ x, x ∈ l ++ k → g (f x) = Some (h x)) → (f <$> l) `prefix_of` (f <$> k) → (h <$> l) `prefix_of` (h <$> k).
Proof.
  intros Hg [rest Hk]. apply fmap_app_inv in Hk as (k1 & k2 & Hl & _ & ->).
  rewrite fmap_app. exists (h <$> k2). f_equal. apply (inj (fmap Some)). clear rest.
  assert (∀ m : list A, (∀ x, x ∈ m → g (f x) = Some (h x)) → g <$> (f <$> m) = Some <$> (h <$> m)) as Hm.
  { intros m Hm. rewrite <- !list_fmap_compose. apply list_fmap_ext. intros i x Hx. simpl.
    apply Hm. by eapply list_elem_of_lookup_2. }
  rewrite <- !Hm; [by rewrite Hl| |]; intros x Hx; apply Hg; set_solver.
Qed.

Section Stream.
Context `{Ext : Externals} `{F : F64} {S : Serde} {SL : SerdeLaws S}.
Context (m11 : f64) (clock : nat → Z).

(** [Event::json_data] and [serde_json::from_slice]. *)
Definition to_json : BackendState.BackendStatusStreamEntry → string := encode ser_BackendStatusStreamEntry.
Definition from_slice (s : string) : option BackendState.BackendStatusStreamEntry :=
  match decode de_BackendStatusStreamEntry s with Ok e => Some e | Err _ => None end.

Lemma from_to_json e : time (BackendState.bse_time e) → from_slice (to_json e) = Some (whole_entry e).
Proof. intros He. unfold from_slice, to_json. by rewrite (decode_encode _ _ _ _ (entry_roundtrip e He)). Qed.

(** The event of an entry: [Event::default().json_data(&status).id(id)]. *)
Definition event_of (e : BackendState.BackendStatusStreamEntry) : SseFormat.event :=
  SseFormat.MkEvent (Some (BackendStatus.to_string (BackendState.bse_status e))) (to_json e) [].

Definition serve_status (entries : list BackendState.BackendStatusStreamEntry)
    (last_event_id : option string) : list SseFormat.event :=
  event_of <$> Controller.resume_stream last_event_id entries.

Lemma last_of_events last_id seen e :
  last seen = Some e →
  last_of last_id (event_of <$> seen) = Some (BackendStatus.to_string (BackendState.bse_status e)).
Proof.
  intros (l & ->)%last_Some. unfold last_of. by rewrite fmap_app, foldl_app.
Qed.

Lemma status_server_resumes id db received :
  reachable db → resumes (serve_status (Backends.status_stream id db received)).
Proof.
  intros Hr seen rest Hall. unfold serve_status in *. cbn [Controller.resume_stream] in Hall.
  unfold Controller.resume_stream in Hall at 1. cbn in Hall.
  apply fmap_app_inv in Hall as (seen' & rest' & -> & -> & Hentries).
  destruct (last seen') as [e|] eqn:Hlast.
  - rewrite (last_of_events _ _ _ Hlast).
    by rewrite (proj1 (ControllerProps.resume_continues _ _ _ _ _ _ Hr Hentries Hlast)).
  - apply last_None in Hlast as ->. cbn. unfold Controller.resume_stream. cbn.
    by rewrite Hentries.
Qed.


End Stream.
End StatusStreamProps.

(** ** Backoff: bounds, growth and resets *)

Module BackoffProps.
Import ExponentialBackoff.

Section Backoff.
Context {F : F64} {FL : F64Laws F}.

(** The states of the backoff: made by [new], then [wait], [defer_reset] and [reset] in
    any order at any times. *)
Inductive reachable (initial_duration max_duration : Z) (m : f64) (defer_duration : Z)
  : t F → Prop :=
| reachable_new : reachable initial_duration max_duration m defer_duration
    (new initial_duration max_duration m defer_duration)
| reachable_wait now b : reachable initial_duration max_duration m defer_duration b →
    reachable initial_duration max_duration m defer_duration (wait now b).2
| reachable_defer now b : reachable initial_duration max_duration m defer_duration b →
    reachable initial_duration max_duration m defer_duration (defer_reset now b)
| reachable_reset b : reachable initial_duration max_duration m defer_duration b →
    reachable initial_duration max_duration m defer_duration (reset b).

Lemma reachable_config i mx m d b :
  reachable i mx m d b →
  initial_duration_millis b = (i / 1000)%Z ∧ max_duration b = mx ∧
  defer_duration b = d ∧ multiplier b = m ∧ (0 ≤ step b)%Z.
Proof.
  induction 1 as [|now b _ IH|now b _ IH|b _ IH]; [done| |done|naive_solver].
  unfold wait. destruct (deferred_reset b); [case_decide|]; simpl; naive_solver lia.
Qed.

(** Whatever calls were made before: a wait sleeps at most the maximum, and
    not a negative time; it is skipped exactly when a deferred reset has come due, and
    then the next wait is one of the initial duration; otherwise the step grows by one. *)
Theorem backoff_bounds i mx m d b now :
  reachable i mx m d b → (0 ≤ i < from_millis (2 ^ 53))%Z → (0 ≤ mx)%Z →
  match wait now b with
  | (Some slept, b') =>
      (0 ≤ slept ≤ mx)%Z ∧ step b' = (step b + 1)%Z ∧ deferred_reset b' = None ∧
      ∀ at_, deferred_reset b = Some at_ → (now ≤ at_)%Z
  | (None, b') =>
      (∃ at_, deferred_reset b = Some at_ ∧ (at_ < now)%Z) ∧
      ∀ now', (wait now' b').1 = Some (Z.min (from_millis (i / 1000)) mx)
  end.
Proof.
  intros Hr Hi Hmx. destruct (reachable_config _ _ _ _ _ Hr) as (Hin & Hmax & Hd & Hm & Hs).
  assert (0 ≤ delay b ≤ mx)%Z as Hdelay.
  { unfold delay, from_millis. rewrite Hmax.
    pose proof (to_u64_range (mul (of_u128 (initial_duration_millis b))
      (powi (multiplier b) (step b)))). lia. }
  unfold wait. destruct (deferred_reset b) as [at_|] eqn:Hat; [case_decide as Hnow|]; simpl.
  - split; [eauto|]. intros now'. unfold delay. cbn. f_equal. rewrite Hin, Hmax, powi_0; [done|].
    unfold from_millis in Hi. split; [apply Z.div_pos; lia|apply Z.div_lt_upper_bound; lia].
  - naive_solver lia.
  - naive_solver lia.
Qed.

End Backoff.
End BackoffProps.

(** Exact arithmetic: positive rationals as pairs, with the cast's saturation. *)
Module ExampleBackoff.
Import ExponentialBackoff.

Definition exact_f64 : F64 := {|
  f64 := Z * positive;
  of_u128 n := (n, 1%positive);
  powi x n := (Z.pow x.1 n, Z.to_pos (Z.pow (Zpos x.2) n));
  mul x y := ((x.1 * y.1)%Z, (x.2 * y.2)%positive);
  to_u64 x := Z.max 0 (Z.min (x.1 / Zpos x.2) (2 ^ 64 - 1))
|}.

Lemma exact_f64_laws : F64Laws exact_f64.
Proof.
  split; cbn.
  - intros [a b]. cbn. lia.
  - intros m n Hn. rewrite Z.mul_1_r, Z.div_1_r. lia.
Qed.

End ExampleBackoff.

(** ** Witnesses *)

Module SseWitness.
Import RawSseStream SseFormat SseProps.

(** Two events, the first with two lines of data and cut in the middle of a field. *)
Definition e1 : SseFormat.event := MkEvent (Some "7") "a" ["b"].
Definition e2 : SseFormat.event := MkEvent None "{}" [].

Definition cut (n : nat) (s : string) : list string :=
  [Stdlib.Strings.String.substring 0 n s; Stdlib.Strings.String.substring n (String.length s - n) s].

Lemma framing_cut n e es cs :
  Forall single_line (ev_first e :: ev_more e) →
  match ev_id e with Some i => single_line i ∧ utf8_valid i = true | None => True end →
  concat_str (cut n (encode e)) = encode e → Forall (λ c, c ≠ "") (cut n (encode e)) →
  framing es cs → framing (e :: es) (cut n (encode e) ++ cs).
Proof.
  intros Hd Hi Hcat Hne Hfr. apply framing_event; [|by split|done].
  split; [done|]. intros i He. by rewrite He in Hi.
Qed.

Lemma sse_roundtrip_witness :
  events 9 (Some <$> (cut 8 (encode e1) ++ ((comment "" +:+ nl) :: cut 1 (encode e2)))) new =
  [(Some "7", "a" +:+ nl +:+ "b"); (None, "{}")].
Proof.
  apply (sse_roundtrip [e1; e2] _ 9); [|vm_compute; lia].
  apply framing_cut; try (apply (bool_decide_unpack _); vm_compute; reflexivity).
  apply framing_keep_alive; [apply (bool_decide_unpack _); vm_compute; reflexivity|].
  rewrite <- (app_nil_r (cut 1 _)).
  apply framing_cut; try (apply (bool_decide_unpack _); vm_compute; reflexivity).
  constructor.
Defined.

Lemma second_event_of_chunk_lost_witness :
  events 3 [Some (encode e1 +:+ encode e2)] new = [decoded e1].
Proof.
  apply (second_event_of_chunk_lost e1 e2 2). split.
  - apply (bool_decide_unpack _). vm_compute. reflexivity.
  - intros i [= <-]. split; vm_compute; reflexivity.
Defined.

End SseWitness.

Module StatusStreamWitness.
Import SseFormat SseProps SseStream ClientProps StatusStreamProps Scenario.
#[local] Existing Instance ExampleExternals.example_externals.
#[local] Existing Instance ExampleExternals.example_laws.
#[local] Existing Instance ExampleBackoff.exact_f64.
#[local] Existing Instance ExampleSerde.example_serde.
#[local] Existing Instance ExampleSerde.example_serde_laws.

Definition m11 : @ExponentialBackoff.f64 ExampleBackoff.exact_f64 := (11%Z, 10%positive).

Definition entries : list BackendState.BackendStatusStreamEntry :=
  Backends.status_stream "b1" db7 [].

Definition entry (n : nat) : BackendState.BackendStatusStreamEntry :=
  default (BackendState.from_state BackendState.Scheduled 0) (entries !! n).

Definition text (n : nat) : string := encode (event_of (entry n)).

(** A failure, a refusal, a connection that breaks inside the second event, and one that
    delivers the rest. *)
Definition env : list attempt :=
  [Failed; Responded 503 [];
   Responded 200 ((Some <$> SseWitness.cut 3 (text 0)) ++ [Some "data:lo"; None]);
   Responded 200 ((Some <$> SseWitness.cut 9 (text 1) ++ SseWitness.cut 5 (text 2)) ++ [])].

Definition ids : list (option string) :=
  [None; None; None; Some "scheduled"; Some "ready"].

Ltac eval_dec := apply (bool_decide_unpack _); vm_compute; reflexivity.

Lemma example_session :
  session (serve_status entries) None env ids (event_of <$> entries).
Proof.
  apply session_failed, session_refused; [done|].
  apply (session_connected _ _ [event_of (entry 0)]
    (SseWitness.cut 3 (text 0)) [Some "data:lo"; None] _ _
    [event_of (entry 1); event_of (entry 2)]).
  - exists [event_of (entry 1); event_of (entry 2)]. vm_compute. reflexivity.
  - rewrite <- (app_nil_r (SseWitness.cut _ _)).
    apply SseWitness.framing_cut; [..|constructor]; eval_dec.
  - eval_dec.
  - apply (session_connected _ _ [event_of (entry 1); event_of (entry 2)]
      (SseWitness.cut 9 (text 1) ++ SseWitness.cut 5 (text 2)) [] _ _ []).
    + exists []. vm_compute. reflexivity.
    + apply SseWitness.framing_cut; [eval_dec..|].
      rewrite <- (app_nil_r (SseWitness.cut _ _)).
      apply SseWitness.framing_cut; [..|constructor]; eval_dec.
    + eval_dec.
    + apply (session_end _ (Some "ready")).
Qed.


Lemma backoff_bounds_witness :
  (ExponentialBackoff.wait 5 (ExponentialBackoff.reset (ExponentialBackoff.default m11))).1 =
    Some (from_secs 1).
Proof.
  pose proof (BackoffProps.backoff_bounds (FL := ExampleBackoff.exact_f64_laws)
    (from_secs 1) (from_secs 60) m11 (from_secs 60)
    (ExponentialBackoff.defer_reset (- from_secs 61) (ExponentialBackoff.default m11)) 0
    (BackoffProps.reachable_defer _ _ _ _ _ _ (BackoffProps.reachable_new _ _ _ _))) as Hb.
  destruct Hb as [_ Hb]; [split; vm_compute; congruence|vm_compute; congruence|].
  apply (Hb 5%Z).
Defined.

End StatusStreamWitness.
