(* ===== verification/Dns.v ===== *)
(** * The DNS server ([plane/src/dns])

    The server answers the TXT queries of certificate challenges. [NameToCluster]
    translates a queried name, [AcmeDnsServer] is the server: its table of requests in
    flight, the task that holds the socket to the controller, and the handling of a
    query. The task and the queries run concurrently; the model is one transition per
    step between two [await]s ([step]). [DnsSystem] composes the server with the
    controller and its database.

    The DNS library is not modelled: a query is the printed name and the record type. *)

From S2P Require Import Prelude Types Database Nodes Connect Invariant Scenario Controller.
Import Db.

Module Dns.
Section Dns.
Context `{Ext : Externals}.

(** ** [name_to_cluster.rs] *)

(** [name.strip_suffix('.').unwrap_or(name)] *)
Definition strip_dot (name : string) : string := default name (strip_suffix "." name).

Definition ok {E T} (r : result E T) : option T :=
  match r with Ok t => Some t | Err _ => None end.

Definition cluster_name (cname_zone : option string) (name : string) : option string :=
  let name := strip_dot name in
  match cname_zone with
  | Some zone =>
      name ← strip_suffix zone name;
      ok (Types.ClusterName_from_str (strip_dot name))
  | None =>
      name ← strip_prefix "_acme-challenge." name;
      ok (Types.ClusterName_from_str name)
  end.

(** ** [error.rs] *)

(** The response codes used. *)
Inductive ResponseCode := NoError | FormErr | ServFail | NotImp.

Definition or_dns_error_option {T} (o : option T) (code : ResponseCode) : result ResponseCode T :=
  match o with Some t => Ok t | None => Err code end.

Definition or_dns_error_result {E T} (r : result E T) (code : ResponseCode)
  : result ResponseCode T :=
  match r with Ok t => Ok t | Err _ => Err code end.

(** ** [mod.rs] *)

Inductive RecordType := TXT | OtherType.

(** [Record::from_rdata(name, 1, RData::TXT([result]))]: name, time to live, text. *)
Record dns_record := MkRecord { rec_name : string; rec_ttl : Z; rec_txt : list string }.

Record response := MkResponse { rcode : ResponseCode; answers : list dns_record }.

(** Requests waiting for an answer are numbered. The channel of a cluster is the list of
    the requests that subscribe to it. [outbound] is the slot of the broadcast channel of
    capacity 1 to the socket's task; [lagged] says that a message in it was overwritten. *)
Record t := Mk {
  request_map : gmap string (list (nat * string));
  outbound : option Protocol.MessageFromDns;
  lagged : bool;
  connected : bool;
  zone : option string
}.

Definition new (zone : option string) : t := Mk ∅ None false false zone.

(** [broadcast::Sender::send] on a channel of capacity 1. *)
Definition broadcast (m : Protocol.MessageFromDns) (s : t) : t :=
  Mk (request_map s) (Some m)
    (lagged s || bool_decide (is_Some (outbound s))) (connected s) (zone s).

(** [request], up to its [await]: an existing channel is subscribed to, after the request
    is sent again. *)
Definition request (r : nat) (name cluster : string) (s : t) : t :=
  let s := broadcast (Protocol.TxtRecordRequest cluster) s in
  let subscribers := default [] (request_map s !! cluster) in
  Mk (<[cluster := subscribers ++ [(r, name)]]> (request_map s))
    (outbound s) (lagged s) (connected s) (zone s).

(** [do_lookup], up to its [await]: a lookup that fails at once, or one that waits. *)
Definition do_lookup (r : nat) (name : string) (query_type : RecordType) (s : t)
  : result ResponseCode t :=
  match query_type with
  | TXT =>
      match cluster_name (zone s) name with
      | None => Err FormErr
      | Some cluster => Ok (request r name cluster s)
      end
  | OtherType => Err NotImp
  end.

(** The end of [do_lookup]: the outer error is the timeout, the inner one the closed
    channel, and no text gives no record. *)
Definition finish_lookup (name : string) (received : result () (result () (option string)))
  : result ResponseCode (list dns_record) :=
  let? received := or_dns_error_result received ServFail in
  let? o := or_dns_error_result received ServFail in
  Ok (option_list ((λ txt, MkRecord name 1 [txt]) <$> o)).

(** [handle_request]: the header carries the code of an error. *)
Definition respond (r : result ResponseCode (list dns_record)) : response :=
  match r with Ok answers => MkResponse NoError answers | Err code => MkResponse code [] end.

(** What happens to the server: a query, a timeout of five seconds, and the branches of
    the socket task. *)
Inductive event :=
| Lookup (r : nat) (name : string) (query_type : RecordType)
| TimedOut (r : nat)
| Connected
| Inbound (m : option Protocol.MessageToDns)
| Outbound (send_ok : bool).

(** What it does: responses to queries, and messages to the controller. *)
Record output := MkOut {
  responses : list (nat * response);
  to_controller : list Protocol.MessageFromDns
}.

Definition silent : output := MkOut [] [].

Definition with_map (m : gmap string (list (nat * string))) (s : t) : t :=
  Mk m (outbound s) (lagged s) (connected s) (zone s).

(** [request_map.remove(&cluster)] and the send to its subscribers. *)
Definition txt_record_response (cluster : string) (txt_value : option string) (s : t)
  : t * output :=
  match request_map s !! cluster with
  | None => (s, silent)
  | Some subscribers =>
      (with_map (delete cluster (request_map s)) s,
       MkOut ((λ p, (p.1, respond (finish_lookup p.2 (Ok (Ok txt_value))))) <$> subscribers) [])
  end.

(** A future that timed out is dropped, and its receiver with it; the channel stays. *)
Definition timed_out (r : nat) (s : t) : t * output :=
  let waiting := mjoin (map_to_list (request_map s)).*2 in
  (with_map (filter (λ p, p.1 ≠ r) <$> request_map s) s,
   MkOut ((λ p, (p.1, respond (finish_lookup p.2 (Err ())))) <$> filter (λ p, p.1 = r) waiting) []).

Definition step (e : event) (s : t) : t * output :=
  match e with
  | Lookup r name query_type =>
      match do_lookup r name query_type s with
      | Ok s => (s, silent)
      | Err code => (s, MkOut [(r, respond (Err code))] [])
      end
  | TimedOut r => timed_out r s
  | Connected => (Mk (request_map s) (outbound s) (lagged s) true (zone s), silent)
  | Inbound m =>
      if connected s then
        match m with
        | Some (Protocol.TxtRecordResponse cluster txt_value) =>
            txt_record_response cluster txt_value s
        | None => (Mk (request_map s) (outbound s) (lagged s) false (zone s), silent)
        end
      else (s, silent)
  | Outbound send_ok =>
      if connected s then
        if lagged s then (Mk (request_map s) (outbound s) false (connected s) (zone s), silent)
        else match outbound s with
             | None => (s, silent)
             | Some m =>
                 (Mk (request_map s) None (lagged s) (connected s) (zone s),
                  MkOut [] (if send_ok then [m] else []))
             end
      else (s, silent)
  end.

End Dns.
End Dns.

(** ** The server, the controller and the database *)

Module DnsSystem.
Section DnsSystem.
Context `{Ext : Externals}.

(** The messages in flight of one connection, the database, every database there has
    been since the start, the queries made and the responses given. *)
Record t := Mk {
  server : Dns.t;
  to_controller : list Protocol.MessageFromDns;
  to_dns : list Protocol.MessageToDns;
  db : DB;
  past : list DB;
  asked : list (nat * string);
  log : list (nat * Dns.response)
}.

Definition start (zone : option string) (db : DB) : t :=
  Mk (Dns.new zone) [] [] db [db] [] [].

Definition asks (e : Dns.event) : list (nat * string) :=
  match e with Dns.Lookup r name _ => [(r, name)] | _ => [] end.

(** A step of the server; [to_dns] is what is still in flight after it. *)
Definition serve (e : Dns.event) (to_dns : list Protocol.MessageToDns) (s : t) : t :=
  let '(server, out) := Dns.step e (server s) in
  Mk server (to_controller s ++ Dns.to_controller out) to_dns (db s) (past s)
    (asked s ++ asks e) (log s ++ Dns.responses out).

Definition local (e : Dns.event) : bool :=
  match e with Dns.Inbound _ => false | _ => true end.

(** Everything that can happen: a step of the database by anybody, a local step of the
    server, the controller's handling of a request, the arrival of a response, and the
    loss of the connection with all that is in flight. *)
Inductive step : t → t → Prop :=
| step_db s db' :
    Invariant.step (db s) db' →
    step s (Mk (server s) (to_controller s) (to_dns s) db' (db' :: past s) (asked s) (log s))
| step_server s e : local e = true → step s (serve e (to_dns s) s)
| step_controller s m rest send_ok :
    to_controller s = m :: rest →
    step s (Mk (server s) rest
      (to_dns s ++ Controller.handle_message_from_dns m send_ok (db s)) (db s) (past s)
      (asked s) (log s))
| step_deliver s m rest :
    to_dns s = m :: rest → step s (serve (Dns.Inbound (Some m)) rest s)
| step_break s :
    step s (serve (Dns.Inbound None) []
      (Mk (server s) [] [] (db s) (past s) (asked s) (log s))).

Definition reachable (zone : option string) (db : DB) (s : t) : Prop :=
  rtc step (start zone db) s.

(** The requests that wait for an answer. *)
Definition waiting (s : Dns.t) : list (nat * string) :=
  mjoin (map_to_list (Dns.request_map s)).*2.

End DnsSystem.
End DnsSystem.

(** ** Theorems *)

Module DnsProps.
Import Dns.
Section DnsProps.
Context `{Ext : Externals}.

(** *** Names *)

Lemma strip_suffix_append s p : strip_suffix p (s +:+ p) = Some s.
Proof. by apply strip_suffix_spec. Qed.

Lemma strip_dot_append name : strip_dot (name +:+ ".") = name.
Proof. unfold strip_dot. by rewrite strip_suffix_append. Qed.

Lemma strip_dot_inv name : strip_dot name = name ∨ name = strip_dot name +:+ ".".
Proof.
  unfold strip_dot. destruct (strip_suffix "." name) as [n|] eqn:E; [right|by left].
  by apply strip_suffix_spec in E.
Qed.

Lemma from_str_ok s c : ok (Types.ClusterName_from_str s) = Some c → s = c.
Proof. unfold Types.ClusterName_from_str. crush_match; simpl; congruence. Qed.

(** The domain name that a resolver asks for, with its final dot. *)
Definition challenge_name (zone : option string) (cluster : string) : string :=
  match zone with
  | Some zone => cluster +:+ "." +:+ zone +:+ "."
  | None => "_acme-challenge." +:+ cluster +:+ "."
  end.

(** The translation of names inverts their construction: the fully qualified
    challenge name of a valid cluster is mapped back to the cluster, whatever the zone;
    and a name that is mapped to a cluster is made of exactly that cluster and the zone
    (or the challenge prefix), up to the dot between them and the final dot. *)
Theorem cluster_name_roundtrip zone name cluster :
  (ok (Types.ClusterName_from_str cluster) = Some cluster →
   cluster_name zone (challenge_name zone cluster) = Some cluster) ∧
  (cluster_name zone name = Some cluster →
   ok (Types.ClusterName_from_str cluster) = Some cluster ∧
   ∃ dot final, (dot = "" ∨ dot = ".") ∧ (final = "" ∨ final = ".") ∧
     name = match zone with
            | Some zone => cluster +:+ dot +:+ zone +:+ final
            | None => "_acme-challenge." +:+ cluster +:+ final
            end).
Proof.
  split.
  - intros Hok. unfold challenge_name, cluster_name. destruct zone as [zone|].
    + rewrite <- !append_assoc, strip_dot_append, strip_suffix_append. simpl.
      by rewrite strip_dot_append.
    + rewrite <- !append_assoc, strip_dot_append.
      by rewrite (proj2 (strip_prefix_spec "_acme-challenge." _ cluster) eq_refl).
  - unfold cluster_name. destruct (strip_dot_inv name) as [Hdot|Hdot];
      (destruct zone as [zone|]; [destruct (strip_suffix zone (strip_dot name)) as [n|] eqn:E
        |destruct (strip_prefix "_acme-challenge." (strip_dot name)) as [n|] eqn:E];
       simpl; try done); intros Hc; pose proof (from_str_ok _ _ Hc) as Hn.
    + apply strip_suffix_spec in E. rewrite Hn in Hc. split; [done|].
      rewrite Hdot in E. destruct (strip_dot_inv n) as [Hd|Hd]; rewrite Hn in Hd; subst n name.
      * exists "", "". rewrite append_nil_r, append_nil_l. auto.
      * exists ".", "". rewrite append_nil_r, append_assoc. auto.
    + apply strip_prefix_spec in E. subst n. split; [done|]. exists "", "".
      rewrite append_nil_r, <- Hdot. auto.
    + apply strip_suffix_spec in E. rewrite Hn in Hc. split; [done|].
      rewrite Hdot, E. destruct (strip_dot_inv n) as [Hd|Hd]; rewrite Hn in Hd; subst n.
      * exists "", ".". rewrite append_nil_l, append_assoc. auto.
      * exists ".", ".". rewrite !append_assoc. auto.
    + apply strip_prefix_spec in E. subst n. split; [done|]. exists "", ".".
      rewrite Hdot, E, append_assoc. auto.
Qed.

(** *** The table of requests *)

Definition map_waiting (m : gmap string (list (nat * string))) : list (nat * string) :=
  mjoin (map_to_list m).*2.

Lemma map_waiting_lookup m c l :
  m !! c = Some l → map_waiting m ≡ₚ l ++ map_waiting (delete c m).
Proof.
  intros Hl. unfold map_waiting. rewrite <- (insert_delete_id m c l Hl) at 1.
  rewrite map_to_list_insert by apply lookup_delete_eq. done.
Qed.

Lemma map_waiting_insert m c l :
  map_waiting (<[c := l]> m) ≡ₚ l ++ map_waiting (delete c m).
Proof.
  rewrite (map_waiting_lookup _ c l) by apply lookup_insert_eq.
  by rewrite delete_insert_eq.
Qed.

Lemma map_waiting_filter (P : nat * string → Prop) `{!∀ x, Decision (P x)} m :
  map_waiting (filter P <$> m) = filter P (map_waiting m).
Proof.
  unfold map_waiting. rewrite map_to_list_fmap.
  induction (map_to_list m) as [|[c l] ls IH]; [done|]. simpl.
  rewrite filter_app. f_equal. exact IH.
Qed.

Lemma elem_of_waiting m r name :
  (r, name) ∈ map_waiting m ↔ ∃ c l, m !! c = Some l ∧ (r, name) ∈ l.
Proof.
  unfold map_waiting. rewrite list_elem_of_join. setoid_rewrite list_elem_of_fmap. split.
  - intros (l & Hin & [c l'] & -> & Hc). exists c, l'.
    split; [by apply elem_of_map_to_list|done].
  - intros (c & l & Hc & Hin). exists l. split; [done|].
    exists (c, l). split; [done|]. by apply elem_of_map_to_list.
Qed.

(** *** Every query is answered once *)

(** One step of the server: whoever was waiting or asks now is answered or waits. *)
Lemma step_conserves e s s' out :
  step e s = (s', out) →
  (map_waiting (request_map s)).*1 ++ (DnsSystem.asks e).*1 ≡ₚ
    (map_waiting (request_map s')).*1 ++ (responses out).*1.
Proof.
  destruct e as [r name qt|r| |[[cluster v]|]|ok]; cbn [step DnsSystem.asks].
  - unfold do_lookup. destruct qt; [|by intros [= <- <-]].
    destruct (cluster_name _ _) as [c|]; [|by intros [= <- <-]].
    intros [= <- <-]. cbn. rewrite app_nil_r. rewrite map_waiting_insert.
    destruct (request_map s !! c) as [l|] eqn:Hl; simpl.
    + rewrite (map_waiting_lookup _ _ _ Hl), !fmap_app. simpl. solve_Permutation.
    + rewrite delete_id by done. simpl. solve_Permutation.
  - unfold timed_out. intros [= <- <-]. cbn [request_map with_map responses fmap list_fmap].
    rewrite app_nil_r, map_waiting_filter. fold (map_waiting (request_map s)).
    rewrite <- list_fmap_compose.
    induction (map_waiting (request_map s)) as [|[r' n] l IH]; [done|]. simpl.
    rewrite !filter_cons. case_decide; case_decide; simpl in *; simplify_eq; rewrite IH; solve_Permutation.
  - intros [= <- <-]. done.
  - destruct (connected s); [|intros [= <- <-]; done]. unfold txt_record_response.
    destruct (request_map s !! cluster) as [l|] eqn:Hl; [|intros [= <- <-]; done].
    intros [= <- <-]. cbn [request_map with_map responses fmap list_fmap].
    rewrite (map_waiting_lookup _ _ _ Hl), fmap_app, <- list_fmap_compose, app_nil_r.
    apply Permutation_app_comm.
  - destruct (connected s); intros [= <- <-]; done.
  - destruct (connected s), (lagged s), (outbound s); intros [= <- <-]; cbn; done.
Qed.

(** *** The invariant of the system *)

(** A response that is not an error carries what the database once held. *)
Definition sound (zone : option string) (past : list DB) (asked : list (nat * string))
    (p : nat * response) : Prop :=
  rcode p.2 = NoError → ∃ name cluster d,
    (p.1, name) ∈ asked ∧ cluster_name zone name = Some cluster ∧ d ∈ past ∧
    answers p.2 = option_list
      ((λ txt, MkRecord name 1 [txt]) <$> Acme.txt_record_for_cluster cluster d).

Record sys_ok (z : option string) (s : DnsSystem.t) : Prop := {
  so_zone : zone (DnsSystem.server s) = z;
  so_db : DnsSystem.db s ∈ DnsSystem.past s;
  so_queue : ∀ c v, Protocol.TxtRecordResponse c v ∈ DnsSystem.to_dns s →
    ∃ d, d ∈ DnsSystem.past s ∧ v = Acme.txt_record_for_cluster c d;
  so_map : ∀ c l p, request_map (DnsSystem.server s) !! c = Some l → p ∈ l →
    p ∈ DnsSystem.asked s ∧ cluster_name z p.2 = Some c;
  so_log : ∀ p, p ∈ DnsSystem.log s → sound z (DnsSystem.past s) (DnsSystem.asked s) p;
  so_count : (DnsSystem.asked s).*1 ≡ₚ
    (DnsSystem.waiting (DnsSystem.server s)).*1 ++ (DnsSystem.log s).*1
}.

Lemma step_zone e s : zone (step e s).1 = zone s.
Proof.
  destruct e as [r name qt|r| |[[c v]|]|ok]; cbn [step].
  - unfold do_lookup. destruct qt; [destruct (cluster_name _ _)|]; done.
  - done.
  - done.
  - destruct (connected s); [|done]. unfold txt_record_response. by destruct (request_map s !! c).
  - by destruct (connected s).
  - by destruct (connected s), (lagged s), (outbound s).
Qed.

(** Who waits for a cluster was waiting for it, or asks for it now. *)
Lemma step_map e s c l p :
  request_map (step e s).1 !! c = Some l → p ∈ l →
  (∃ l', request_map s !! c = Some l' ∧ p ∈ l') ∨
  (p ∈ DnsSystem.asks e ∧ cluster_name (zone s) p.2 = Some c).
Proof.
  destruct e as [r name qt|r| |[[c' v]|]|ok]; cbn [step DnsSystem.asks]; try by eauto.
  - unfold do_lookup. destruct qt; [|by eauto].
    destruct (cluster_name (zone s) name) as [c'|] eqn:Hc; [|by eauto].
    cbn. rewrite lookup_insert_Some. intros [[-> <-]|[_ Hl]] Hp; [|by eauto].
    apply elem_of_app in Hp as [Hp|Hp%list_elem_of_singleton].
    + left. destruct (request_map s !! c); [by eauto|]. by apply not_elem_of_nil in Hp.
    + right. subst p. split; [by apply list_elem_of_singleton|done].
  - cbn. rewrite lookup_fmap. intros (l' & Hl' & ->)%fmap_Some Hp.
    apply list_elem_of_filter in Hp as [_ Hp]. eauto.
  - destruct (connected s); [|by eauto]. unfold txt_record_response.
    destruct (request_map s !! c') eqn:Hl'; [|by eauto]. cbn.
    rewrite lookup_delete_Some. intros [_ Hl] Hp. eauto.
  - destruct (connected s); by eauto.
  - destruct (connected s), (lagged s), (outbound s); by eauto.
Qed.

(** What a step answers without an error is a delivered text, to who waited for it. *)
Lemma step_responses e s p :
  p ∈ responses (step e s).2 → rcode p.2 = NoError →
  ∃ c v l name, e = Inbound (Some (Protocol.TxtRecordResponse c v)) ∧
    request_map s !! c = Some l ∧ (p.1, name) ∈ l ∧
    answers p.2 = option_list ((λ txt, MkRecord name 1 [txt]) <$> v).
Proof.
  destruct e as [r name qt|r| |[[c v]|]|ok]; cbn [step].
  - unfold do_lookup. destruct qt; [destruct (cluster_name _ _)|]; cbn; set_solver.
  - cbn. intros (q & -> & Hq)%list_elem_of_fmap. done.
  - set_solver.
  - destruct (connected s); [|set_solver]. unfold txt_record_response.
    destruct (request_map s !! c) as [l|] eqn:Hl; [|set_solver]. cbn.
    intros ([r name] & -> & Hp)%list_elem_of_fmap _. by exists c, v, l, name.
  - destruct (connected s); set_solver.
  - destruct (connected s), (lagged s), (outbound s); set_solver.
Qed.

Lemma serve_ok z e rest s :
  sys_ok z s →
  (∀ c v, e = Inbound (Some (Protocol.TxtRecordResponse c v)) →
     ∃ d, d ∈ DnsSystem.past s ∧ v = Acme.txt_record_for_cluster c d) →
  rest ⊆ DnsSystem.to_dns s → sys_ok z (DnsSystem.serve e rest s).
Proof.
  intros [Hz Hdb Hq Hm Hlog Hcount] He Hrest. unfold DnsSystem.serve.
  pose proof (step_zone e (DnsSystem.server s)) as Hzone.
  pose proof (step_map e (DnsSystem.server s)) as Hmap.
  pose proof (step_responses e (DnsSystem.server s)) as Hresp.
  destruct (step e (DnsSystem.server s)) as [server out] eqn:Hstep.
  pose proof (step_conserves _ _ _ _ Hstep) as Hcons. cbn [fst snd] in *.
  split; cbn [DnsSystem.server DnsSystem.db DnsSystem.past DnsSystem.to_dns DnsSystem.asked
    DnsSystem.log].
  - by rewrite Hzone.
  - done.
  - intros c v Hin. apply Hq. by apply Hrest.
  - intros c l p Hl Hp. destruct (Hmap c l p Hl Hp) as [(l' & Hl' & Hp')|[Hask Hc]].
    + destruct (Hm c l' p Hl' Hp'). split; [|done]. apply elem_of_app. by left.
    + split; [apply elem_of_app; by right|by rewrite <- Hz].
  - intros p [Hp|Hp]%elem_of_app Hcode.
    + destruct (Hlog p Hp Hcode) as (name & c & d & Hask & ?). exists name, c, d.
      split; [apply elem_of_app; by left|done].
    + destruct (Hresp p Hp Hcode) as (c & v & l & name & Heq & Hl & Hin & Hans).
      destruct (He c v Heq) as (d & Hd & ->). destruct (Hm c l _ Hl Hin) as [Hask Hc].
      exists name, c, d. split; [apply elem_of_app; by left|done].
  - rewrite !fmap_app, Hcount. change (DnsSystem.waiting ?x) with (map_waiting (request_map x)).
    rewrite <- (Permutation_app_comm (DnsSystem.log s).*1), <- app_assoc, Hcons.
    solve_Permutation.
Qed.

Lemma reachable_ok z d s : DnsSystem.reachable z d s → sys_ok z s.
Proof.
  unfold DnsSystem.reachable. intros Hr.
  refine (rtc_ind_r (sys_ok z) _ _ _ s Hr); clear s Hr.
  - split; cbn; try set_solver.
  - intros s s' _ Hstep Hok. destruct Hstep as [s db' Hdb|s e He|s m rest send_ok Hq|s m rest Hq|s].
    + destruct Hok as [Hz Hdb' Hqueue Hm Hlog Hcount]. split; cbn; try done.
      * set_solver.
      * intros c v Hin. destruct (Hqueue c v Hin) as (d' & ? & ->). exists d'. set_solver.
      * intros p Hp Hcode. destruct (Hlog p Hp Hcode) as (name & c & d' & ? & ? & ? & ?).
        exists name, c, d'. set_solver.
    + apply serve_ok; [done| |done]. intros c v ->. done.
    + destruct Hok as [Hz Hdb' Hqueue Hm Hlog Hcount]. split; cbn; try done.
      intros c v [Hin|Hin]%elem_of_app; [by apply Hqueue|]. destruct m as [c'].
      cbn in Hin. destruct send_ok; [|by apply not_elem_of_nil in Hin].
      apply list_elem_of_singleton in Hin as [= -> ->]. by exists (DnsSystem.db s).
    + apply serve_ok; [done| |intros x Hx; rewrite Hq; by apply list_elem_of_further]. intros c v [= ->].
      apply (so_queue _ _ Hok). rewrite Hq. apply list_elem_of_here.
    + apply serve_ok; [|done..]. destruct Hok as [Hz Hdb' Hqueue Hm Hlog Hcount].
      split; cbn; try done. set_solver.
Qed.

(** C34. The DNS server, the connection and the controller together: in any
    interleaving with everything else that changes the database, and whatever connections
    break, every query is answered at most once and otherwise still waits (so that its
    timeout will answer it); and an answer without an error is the text, under the queried
    name, that the database held for the cluster of the queried name at some moment
    since the start, or no record when there was none. *)
Theorem dns_answers_sound z d s :
  DnsSystem.reachable z d s →
  (DnsSystem.asked s).*1 ≡ₚ
    (DnsSystem.waiting (DnsSystem.server s)).*1 ++ (DnsSystem.log s).*1 ∧
  ∀ p, p ∈ DnsSystem.log s → sound z (DnsSystem.past s) (DnsSystem.asked s) p.
Proof. intros [_ _ _ _ Hlog Hcount]%reachable_ok. done. Qed.

(** *** A lookup that is not disturbed, and one that is *)

Fixpoint run (es : list event) (s : t) : t * output :=
  match es with
  | [] => (s, silent)
  | e :: es =>
      let '(s, o) := step e s in
      let '(s, o') := run es s in
      (s, MkOut (responses o ++ responses o') (to_controller o ++ to_controller o'))
  end.

(** A lookup on a connected server is forwarded by the socket's task within
    two passes, whatever older message it finds, and the controller's response then
    answers it, together with every other request that waits for the cluster, from the
    database. *)
Theorem dns_lookup_answered s r name c db s1 out :
  connected s = true → cluster_name (zone s) name = Some c →
  run [Lookup r name TXT; Outbound true; Outbound true] s = (s1, out) →
  to_controller out = [Protocol.TxtRecordRequest c] ∧
  ∃ m, Controller.handle_message_from_dns (Protocol.TxtRecordRequest c) true db = [m] ∧
    ∀ p, p = (r, name) ∨ p ∈ default [] (request_map s !! c) →
      (p.1, MkResponse NoError (option_list
        ((λ txt, MkRecord p.2 1 [txt]) <$> Acme.txt_record_for_cluster c db)))
      ∈ responses (step (Inbound (Some m)) s1).2.
Proof.
  intros Hcon Hc Hrun. cbn [run step do_lookup] in Hrun. rewrite Hc in Hrun.
  cbn in Hrun. rewrite Hcon in Hrun.
  set (l := default [] (request_map s !! c)) in *.
  assert (to_controller out = [Protocol.TxtRecordRequest c] ∧ connected s1 = true ∧
    request_map s1 !! c = Some (l ++ [(r, name)])) as (Hto & Hcon1 & Hl).
  { destruct (lagged s || bool_decide (is_Some (outbound s))); cbn in Hrun;
      injection Hrun as <- <-; cbn; by rewrite lookup_insert_eq. }
  split; [done|]. eexists. split; [done|]. intros p Hp. cbn [step]. rewrite Hcon1.
  unfold txt_record_response. rewrite Hl. cbn.
  apply list_elem_of_fmap. exists p. split; [done|]. apply elem_of_app.
  destruct Hp as [->|Hp]; [right; by apply list_elem_of_singleton|by left].
Qed.

Lemma run_app es es' s :
  run (es ++ es') s =
  let '(s1, o) := run es s in
  let '(s2, o') := run es' s1 in
  (s2, MkOut (responses o ++ responses o') (to_controller o ++ to_controller o')).
Proof.
  revert s. induction es as [|e es IH]; intros s; cbn [app run].
  { destruct (run es' s) as [s2 []]. done. }
  destruct (step e s) as [s1 o]. rewrite IH. destruct (run es s1) as [s2 o2].
  destruct (run es' s2) as [s3 o3]. cbn. by rewrite !app_assoc.
Qed.

(** Passes of the task over an empty slot send nothing. *)
Lemma outbound_empty n s :
  outbound s = None →
  run (replicate n (Outbound true)) s =
    (match n with
     | 0 => s
     | _ => Mk (request_map s) None (if connected s then false else lagged s) (connected s) (zone s)
     end, silent).
Proof.
  revert s. induction n as [|n IH]; intros s Hs; [done|]. cbn [replicate run step].
  rewrite Hs. destruct s as [m o l co z]; cbn in *; subst o.
  destruct co, l; cbn; rewrite IH by done; destruct n; cbn; done.
Qed.

(** The channel to the socket's task holds one message: of two lookups made
    before the task gets to run, the request of the first is never sent, and no number of
    passes of the task changes that. *)
Theorem lookup_overwritten s r1 r2 name1 name2 c1 c2 n :
  connected s = true → outbound s = None → lagged s = false →
  cluster_name (zone s) name1 = Some c1 → cluster_name (zone s) name2 = Some c2 →
  to_controller (run ([Lookup r1 name1 TXT; Lookup r2 name2 TXT; Outbound true; Outbound true]
    ++ replicate n (Outbound true)) s).2 = [Protocol.TxtRecordRequest c2].
Proof.
  intros Hcon Ho Hl Hc1 Hc2. rewrite run_app.
  destruct s as [m o l co z]; cbn in Hcon, Ho, Hl, Hc1, Hc2; subst.
  cbn [run step do_lookup request broadcast zone]. rewrite Hc1.
  cbn [run step do_lookup request broadcast zone]. rewrite Hc2. cbn.
  by rewrite outbound_empty.
Qed.

End DnsProps.
End DnsProps.

(** ** Witnesses *)

Module DnsWitness.
Import Dns DnsProps Scenario.
#[local] Existing Instance ExampleExternals.example_externals.

Definition zone1 : option string := Some "acme.example.com".
Definition name1 : string := challenge_name zone1 cluster.

(** The first proxy leases the cluster and sets its text. *)
Definition set_db : DB := (Acme.set_cluster_dns cluster 1 "token" (Acme.lease_cluster_dns cluster 1 db4).1).1.

Lemma cluster_name_roundtrip_witness : cluster_name zone1 name1 = Some cluster.
Proof. apply (cluster_name_roundtrip zone1 name1 cluster). vm_compute. reflexivity. Defined.

Definition idle : Dns.t := Mk ∅ None false true zone1.

Lemma dns_lookup_answered_witness :
  to_controller (run [Lookup 7 name1 TXT; Outbound true; Outbound true] idle).2 =
    [Protocol.TxtRecordRequest cluster].
Proof.
  apply (dns_lookup_answered idle 7 name1 cluster set_db
    (run [Lookup 7 name1 TXT; Outbound true; Outbound true] idle).1); [|vm_compute|vm_compute];
    reflexivity.
Defined.

Lemma lookup_overwritten_witness :
  to_controller (run ([Lookup 7 name1 TXT; Lookup 8 (challenge_name zone1 "b.example.com") TXT;
    Outbound true; Outbound true] ++ replicate 5 (Outbound true)) idle).2 =
    [Protocol.TxtRecordRequest "b.example.com"].
Proof.
  apply (lookup_overwritten idle 7 8 name1 (challenge_name zone1 "b.example.com")
    cluster "b.example.com" 5); vm_compute; reflexivity.
Defined.

(** A query that is answered from the database. *)
Definition sys0 : DnsSystem.t := DnsSystem.start zone1 set_db.
Definition sys1 : DnsSystem.t := DnsSystem.serve Connected [] sys0.
Definition sys2 : DnsSystem.t := DnsSystem.serve (Lookup 7 name1 TXT) [] sys1.
Definition sys3 : DnsSystem.t := DnsSystem.serve (Outbound true) [] sys2.
Definition sys4 : DnsSystem.t := DnsSystem.Mk (DnsSystem.server sys3) []
  [Protocol.TxtRecordResponse cluster (Some "token")] set_db [set_db] [(7, name1)] [].
Definition sys5 : DnsSystem.t := DnsSystem.serve
  (Inbound (Some (Protocol.TxtRecordResponse cluster (Some "token")))) [] sys4.

Lemma reachable_sys5 : DnsSystem.reachable zone1 set_db sys5.
Proof.
  apply (rtc_l _ _ sys1); [by apply (DnsSystem.step_server sys0)|].
  apply (rtc_l _ _ sys2); [by apply (DnsSystem.step_server sys1)|].
  apply (rtc_l _ _ sys3); [by apply (DnsSystem.step_server sys2)|].
  apply (rtc_l _ _ sys4).
  - apply (DnsSystem.step_controller sys3 (Protocol.TxtRecordRequest cluster) [] true).
    vm_compute. reflexivity.
  - apply rtc_once. by apply (DnsSystem.step_deliver sys4).
Qed.

Lemma dns_answers_sound_witness :
  sound zone1 [set_db] [(7, name1)] (7, MkResponse NoError [MkRecord name1 1 ["token"]]).
Proof.
  apply (dns_answers_sound zone1 set_db sys5 reachable_sys5).
  assert (DnsSystem.log sys5 = [(7, MkResponse NoError [MkRecord name1 1 ["token"]])]) as ->
    by (vm_compute; reflexivity).
  apply list_elem_of_here.
Defined.

End DnsWitness.
