(* ===== verification/DockerConfig.v ===== *)
(** * The configuration of a container ([drone/runtime/docker/commands.rs])

    What a drone asks Docker to run for a spawn request: [DockerTypes] is the request
    ([common/src/types/mod.rs]), [Paths] the part of [std::path] that mounts use, and
    [DockerCommands] the translation. The configuration type of the Docker client library
    is represented by the fields that are set.

    The multiplication of a duration by a float is [std::time::Duration::mul_f64],
    written out on the standard library's exact model of IEEE doubles ([SpecFloat]). *)

From stdpp Require Import pretty.
From Stdlib Require Import SpecFloat.
From S2P Require Import Prelude Names Types.

(** ** Durations of the standard library, in nanoseconds *)

Module StdDuration.

Definition NANOS_PER_SEC : Z := 1000000000.
Definition as_secs (d : Z) : Z := d / NANOS_PER_SEC.
Definition subsec_nanos (d : Z) : Z := d mod NANOS_PER_SEC.
Definition as_micros (d : Z) : Z := d / 1000.
Definition from_millis (n : Z) : Z := n * 1000000.

Definition f64 := spec_float.
Definition prec : Z := 53.
Definition emax : Z := 1024.
Definition of_int (n : Z) : f64 := binary_normalize prec emax n 0 false.
Definition add : f64 → f64 → f64 := SFadd prec emax.
Definition mul : f64 → f64 → f64 := SFmul prec emax.
Definition div : f64 → f64 → f64 := SFdiv prec emax.

Definition as_secs_f64 (d : Z) : f64 :=
  add (of_int (as_secs d)) (div (of_int (subsec_nanos d)) (of_int NANOS_PER_SEC)).

(** The quotient rounded to nearest, ties to even. *)
Definition div_round (a b : Z) : Z :=
  let q := (a / b)%Z in
  let r := (2 * (a mod b))%Z in
  if (r <? b)%Z then q
  else if (b <? r)%Z then (q + 1)%Z
  else if Z.even q then q else (q + 1)%Z.

(** [from_secs_f64], which panics on a negative, infinite or too large number. *)
Definition from_secs_f64 (x : f64) : option Z :=
  let check n := if (n <? 2 ^ 64 * NANOS_PER_SEC)%Z then Some n else None in
  match x with
  | S754_zero _ => Some 0%Z
  | S754_finite false m e =>
      check (if (0 <=? e)%Z then Zpos m * 2 ^ e * NANOS_PER_SEC
             else div_round (Zpos m * NANOS_PER_SEC) (2 ^ (- e)))%Z
  | _ => None
  end.

Definition mul_f64 (d : Z) (x : f64) : option Z := from_secs_f64 (mul x (as_secs_f64 d)).

(** [as i64] of a wider integer. *)
Definition as_i64 (n : Z) : Z := (n + 2 ^ 63) mod 2 ^ 64 - 2 ^ 63.

End StdDuration.

(** ** The request *)

Module DockerTypes.

Inductive PullPolicy := IfNotPresent | Always | Never.
Definition PullPolicy_default : PullPolicy := IfNotPresent.

(** [DockerCpuPeriod] and [DockerCpuTimeLimit] are durations. *)
Definition DockerCpuPeriod_default : Z := StdDuration.from_millis 100.

Record ResourceLimits := {
  cpu_period : option Z;
  cpu_period_percent : option Z;
  cpu_time_limit : option Z;
  memory_limit_bytes : option Z;
  disk_limit_bytes : option Z
}.

Definition ResourceLimits_default : ResourceLimits := {|
  cpu_period := None; cpu_period_percent := None; cpu_time_limit := None;
  memory_limit_bytes := None; disk_limit_bytes := None |}.

(** The inner [None] is the panic of [mul_f64]. *)
Definition cpu_quota (l : ResourceLimits) : option (option Z) :=
  pc ← cpu_period_percent l;
  let cpu_period := default DockerCpuPeriod_default (cpu_period l) in
  Some (StdDuration.mul_f64 cpu_period
    (StdDuration.div (StdDuration.of_int pc) (StdDuration.of_int 100))).

Inductive DockerRegistryAuth := UsernamePassword (username password : string).

(** [DockerCredentials], as far as it is set. *)
Record DockerCredentials := { dc_username : option string; dc_password : option string }.

Definition credentials_from (a : DockerRegistryAuth) : DockerCredentials :=
  match a with
  | UsernamePassword username password =>
      {| dc_username := Some username; dc_password := Some password |}
  end.

Inductive Mount := MountBool (b : bool) | MountPath (path : string).

Record DockerExecutorConfig := {
  image : string;
  pull_policy : option PullPolicy;
  credentials : option DockerRegistryAuth;
  env : gmap string string;
  resource_limits : ResourceLimits;
  mount : option Mount;
  network_name : option string
}.

Definition from_image_with_defaults (image : string) : DockerExecutorConfig := {|
  image := image; pull_policy := None; env := ∅;
  resource_limits := ResourceLimits_default; credentials := None; mount := None;
  network_name := None |}.

End DockerTypes.

(** ** Paths ([std::path] on Unix) *)

Module Paths.

Definition slash : ascii := "/".

(** The pieces of a path between its slashes. *)
Fixpoint split_slash (p : string) : list string :=
  match p with
  | EmptyString => [""]
  | String a p =>
      if Ascii.eqb a slash then "" :: split_slash p
      else match split_slash p with
           | [] => [String a ""]
           | s :: ss => String a s :: ss
           end
  end.

Inductive Component := RootDir | CurDir | ParentDir | Normal (s : string).

Definition segment (first : bool) (s : string) : list Component :=
  if decide (s = "") then []
  else if decide (s = ".") then (if first then [CurDir] else [])
  else if decide (s = "..") then [ParentDir]
  else [Normal s].

Fixpoint segments (first : bool) (ss : list string) : list Component :=
  match ss with
  | [] => []
  | s :: ss => segment first s ++ segments false ss
  end.

Definition is_absolute (p : string) : bool :=
  match p with String a _ => Ascii.eqb a slash | EmptyString => false end.

(** [Path::components]: repeated slashes and inner dots are dropped. *)
Definition components (p : string) : list Component :=
  (if is_absolute p then [RootDir] else []) ++ segments true (split_slash p).

(** [Path::join]: an absolute path replaces the base. *)
Definition join (base p : string) : string :=
  if is_absolute p then p
  else if decide (base = "") then p
  else if ends_with "/" base then base +:+ p
  else base +:+ "/" +:+ p.

End Paths.

(** ** [commands.rs] *)

Module DockerCommands.
Import DockerTypes Paths.

Definition CONTAINER_PORT : string := "8080".
Definition PLANE_DATA_DIR : string := "/plane-data".
Definition PLANE_DOCKER_LABEL : string := "dev.plane.backend".
Definition PORT_KEY : string := CONTAINER_PORT +:+ "/tcp".

Definition create_labels : gmap string string := {[ PLANE_DOCKER_LABEL := "true" ]}.

Record PortBinding := { host_ip : option string; host_port : option string }.

Definition create_port_bindings : gmap string (option (list PortBinding)) :=
  {[ PORT_KEY := Some [{| host_ip := None; host_port := None |}] ]}.

Inductive ConfigError := InvalidMountPath (path : string) | KeyRequired.

(** Disallow absolute paths or paths with dots. *)
Definition validate_mount_path (path : string) : result ConfigError () :=
  if forallb (λ c, match c with Normal _ => true | _ => false end) (components path)
  then Ok () else Err (InvalidMountPath path).

Record Ulimit := { ul_name : string; ul_soft : Z; ul_hard : Z }.

Record HostConfig := {
  port_bindings : gmap string (option (list PortBinding));
  hc_runtime : option string;
  memory : option Z;
  log_config : option string;
  network_mode : option string;
  hc_cpu_period : option Z;
  hc_cpu_quota : option (option Z);
  ulimits : option (list Ulimit);
  storage_opt : option (gmap string string);
  binds : option (list string)
}.

Record Config := {
  cfg_image : string;
  labels : gmap string string;
  cfg_env : list string;
  exposed_ports : list string;
  host_config : HostConfig
}.

Definition insert_opt (k : string) (v : option string) (m : gmap string string)
  : gmap string string :=
  match v with Some v => <[k := v]> m | None => m end.

(** The variables of the backend's environment. *)
Definition environment (backend_id : option string) (user_env : gmap string string)
    (key : option Protocol.AcquiredKey) (static_token : option string) : gmap string string :=
  insert_opt "SESSION_BACKEND_STATIC_TOKEN" static_token
    (insert_opt "SESSION_BACKEND_KEY" ((λ k, Types.key_name (Protocol.ak_key k)) <$> key)
      (insert_opt "SESSION_BACKEND_FENCING_TOKEN" ((λ k, pretty (Protocol.ak_token k)) <$> key)
        (insert_opt "SESSION_BACKEND_ID" backend_id
          (<["PORT" := CONTAINER_PORT]> user_env)))).

(** [format!("{}={}", k, v)] *)
Definition env_entry (p : string * string) : string := p.1 +:+ "=" +:+ p.2.

Definition mount_path (base : string) (m : Mount) (key : option Protocol.AcquiredKey)
  : result ConfigError string :=
  match m with
  | MountBool _ =>
      match key with
      | Some k => Ok (join base (Types.key_name (Protocol.ak_key k)))
      | None => Err KeyRequired
      end
  | MountPath path => let? _ := validate_mount_path path in Ok (join base path)
  end.

Definition get_binds (mount_base : option string) (m : option Mount)
    (key : option Protocol.AcquiredKey) : result ConfigError (option (list string)) :=
  match mount_base, m with
  | _, None | _, Some (MountBool false) => Ok None
  | Some base, Some m =>
      let? path := mount_path base m key in Ok (Some [path +:+ ":" +:+ PLANE_DATA_DIR])
  | None, Some _ => Ok None
  end.

Definition get_ulimits (l : ResourceLimits) : option (list Ulimit) :=
  (λ limit,
     let secs := StdDuration.as_secs limit in
     if (secs <? 2 ^ 63)%Z then [{| ul_name := "cpu"; ul_soft := secs; ul_hard := secs |}]
     else []) <$> cpu_time_limit l.

Definition get_host_config (l : ResourceLimits) (runtime log network : option string)
    (binds : option (list string)) : HostConfig := {|
  port_bindings := create_port_bindings;
  hc_runtime := runtime;
  memory := memory_limit_bytes l;
  log_config := log;
  network_mode := network;
  hc_cpu_period := option_map (λ d, StdDuration.as_i64 (StdDuration.as_micros d)) (cpu_period l);
  hc_cpu_quota :=
    option_map (option_map (λ d, StdDuration.as_i64 (StdDuration.as_micros d))) (cpu_quota l);
  ulimits := get_ulimits l;
  storage_opt := option_map (λ lim : Z, {[ "size" := pretty lim ]}) (disk_limit_bytes l);
  binds := binds
|}.

Definition get_container_config_from_executor_config (backend_id : option string)
    (exec_config : DockerExecutorConfig) (runtime : option string)
    (key : option Protocol.AcquiredKey) (static_token : option string)
    (log : option string) (mount_base : option string) : result ConfigError Config :=
  let env := environment backend_id (env exec_config) key static_token in
  let? binds := get_binds mount_base (mount exec_config) key in
  Ok {|
    cfg_image := image exec_config;
    labels := create_labels;
    cfg_env := env_entry <$> map_to_list env;
    exposed_ports := [PORT_KEY];
    host_config := get_host_config (resource_limits exec_config) runtime log
      (network_name exec_config) binds
  |}.

End DockerCommands.

(** ** Theorems *)

Module DockerConfigProps.
Import DockerTypes Paths DockerCommands.

Lemma split_slash_ne p : split_slash p ≠ [].
Proof. destruct p as [|a p]; cbn; [done|]. destruct (Ascii.eqb a slash); [done|]. by case_match. Qed.

Lemma split_slash_app a b :
  split_slash (a +:+ String slash b) = split_slash a ++ split_slash b.
Proof.
  induction a as [|c a IH].
  - rewrite append_nil_l. done.
  - rewrite append_cons. cbn [split_slash]. rewrite IH.
    destruct (Ascii.eqb c slash); [done|].
    pose proof (split_slash_ne a). by destruct (split_slash a).
Qed.

Lemma segments_app first l1 l2 :
  l1 ≠ [] → segments first (l1 ++ l2) = segments first l1 ++ segments false l2.
Proof.
  revert first. induction l1 as [|s l1 IH]; intros first Hne; [done|]. cbn.
  destruct l1 as [|s' l1]; [cbn; by rewrite app_nil_r|].
  rewrite IH by done. by rewrite app_assoc.
Qed.

Definition is_normal (c : Component) : bool := match c with Normal _ => true | _ => false end.

(** A relative path of normal components has the same components anywhere. *)
Lemma segments_normal ss :
  forallb is_normal (segments true ss) = true → segments false ss = segments true ss.
Proof.
  destruct ss as [|s ss]; [done|]. cbn. intros Hn. f_equal. revert Hn. unfold segment.
  repeat case_decide; done.
Qed.

Lemma validate_spec p :
  validate_mount_path p = Ok () ↔
  is_absolute p = false ∧ forallb is_normal (components p) = true.
Proof.
  unfold validate_mount_path, is_normal. split.
  - case_match eqn:Hf; [|done]. intros _. split; [|done].
    unfold components in Hf. by destruct (is_absolute p).
  - by intros [_ ->].
Qed.

Lemma is_absolute_app a b : a ≠ "" → is_absolute (a +:+ b) = is_absolute a.
Proof. destruct a; [done|]. by rewrite append_cons. Qed.

Lemma components_join base p :
  base ≠ "" → is_absolute p = false →
  components (join base p) = components base ++ segments false (split_slash p).
Proof.
  intros Hbase Hp. unfold join. rewrite Hp, decide_False by done.
  destruct (ends_with "/" base) eqn:Hends; unfold components.
  - unfold ends_with in Hends. destruct (strip_suffix "/" base) as [b|] eqn:Hs; [|done].
    apply strip_suffix_spec in Hs. rewrite is_absolute_app by done.
    rewrite <- app_assoc. f_equal. subst base.
    rewrite append_assoc, append_cons, append_nil_l, split_slash_app.
    rewrite split_slash_app, !segments_app by apply split_slash_ne.
    by rewrite <- app_assoc.
  - rewrite is_absolute_app by done. rewrite <- app_assoc. f_equal.
    rewrite append_cons, append_nil_l, split_slash_app, segments_app; [done|].
    apply split_slash_ne.
Qed.

Lemma forallb_normal cs : forallb is_normal cs = true → ∃ names, cs = Normal <$> names.
Proof.
  induction cs as [|c cs IH]; [by exists []|]. cbn.
  intros [Hc Hcs]%andb_true_iff. destruct c as [| | |s]; try done.
  destruct (IH Hcs) as [names ->]. by exists (s :: names).
Qed.

Lemma forallb_false {A} (f : A → bool) l : forallb f l = false → ∃ x, x ∈ l ∧ f x = false.
Proof.
  induction l as [|x l IH]; [done|]. cbn. destruct (f x) eqn:Hx.
  - intros (y & Hy & Hf)%IH. exists y. split; [by apply list_elem_of_further|done].
  - intros _. exists x. split; [apply list_elem_of_here|done].
Qed.

Lemma components_relative p :
  is_absolute p = false → components p = segments true (split_slash p).
Proof. unfold components. by intros ->. Qed.

(** C35. A mount path given by a client stays under the mount base of the drone: a
    configuration that is made binds exactly the base followed by the given names, with
    no parent directory, no dot and no root among them; every other path is refused with
    an error that names it. *)
Theorem mount_confined backend ec rt key tok log base p :
  base ≠ "" → mount ec = Some (MountPath p) →
  match get_container_config_from_executor_config backend ec rt key tok log (Some base) with
  | Ok c => ∃ names,
      binds (host_config c) = Some [join base p +:+ ":" +:+ PLANE_DATA_DIR] ∧
      components p = Normal <$> names ∧
      components (join base p) = components base ++ (Normal <$> names)
  | Err e => e = InvalidMountPath p ∧ ∃ c, c ∈ components p ∧ is_normal c = false
  end.
Proof.
  intros Hbase Hm. unfold get_container_config_from_executor_config, get_binds.
  rewrite Hm. cbn [mount_path].
  destruct (validate_mount_path p) as [[]|e] eqn:Hv; cbn [result_bind].
  - apply validate_spec in Hv as [Habs Hn]. rewrite components_relative in Hn by done.
    destruct (forallb_normal _ Hn) as [names Hnames]. exists names. split; [done|].
    rewrite components_join, components_relative by done.
    rewrite segments_normal by done. by rewrite Hnames.
  - unfold validate_mount_path in Hv. fold is_normal in Hv.
    destruct (forallb _ (components p)) eqn:Hf; [done|]. injection Hv as <-. split; [done|].
    by apply forallb_false.
Qed.

(** The name of a key is not checked when it is mounted: an absolute name
    replaces the mount base, and a name of the form [../x] leaves it. *)
Theorem key_mount_unchecked backend ec rt k tok log base :
  base ≠ "" → mount ec = Some (MountBool true) →
  ∃ c, get_container_config_from_executor_config backend ec rt (Some k) tok log (Some base) = Ok c ∧
    binds (host_config c) =
      Some [join base (Types.key_name (Protocol.ak_key k)) +:+ ":" +:+ PLANE_DATA_DIR] ∧
    (is_absolute (Types.key_name (Protocol.ak_key k)) = true →
      join base (Types.key_name (Protocol.ak_key k)) = Types.key_name (Protocol.ak_key k)) ∧
    ∀ x, Types.key_name (Protocol.ak_key k) = "../" +:+ x →
      components (join base (Types.key_name (Protocol.ak_key k))) =
        components base ++ ParentDir :: segments false (split_slash x).
Proof.
  intros Hbase Hm. unfold get_container_config_from_executor_config, get_binds.
  rewrite Hm. cbn [mount_path result_bind]. eexists. split; [done|]. split; [done|]. split.
  - unfold join. by intros ->.
  - intros x ->. rewrite components_join by done. f_equal.
Qed.

(** *** Environment *)

Definition reserved : list string :=
  ["PORT"; "SESSION_BACKEND_ID"; "SESSION_BACKEND_FENCING_TOKEN"; "SESSION_BACKEND_KEY";
   "SESSION_BACKEND_STATIC_TOKEN"].

Lemma insert_opt_lookup k v m k' :
  insert_opt k v m !! k' =
    if decide (k = k') then match v with Some v => Some v | None => m !! k' end else m !! k'.
Proof.
  unfold insert_opt. destruct v; case_decide; subst; by rewrite ?lookup_insert_eq, ?lookup_insert_ne.
Qed.

Lemma environment_keys backend user_env key tok k :
  is_Some (environment backend user_env key tok !! k) → k ∈ reserved ∨ is_Some (user_env !! k).
Proof.
  unfold environment, reserved. rewrite !insert_opt_lookup, lookup_insert.
  repeat case_decide; subst; set_solver.
Qed.

Lemma reserved_no_equals k : k ∈ reserved → string_has "=" k = false.
Proof.
  unfold reserved. rewrite !elem_of_cons. intros [->|[->|[->|[->|[->|H]]]]]; try done.
  by apply not_elem_of_nil in H.
Qed.

(** The environment of the container: as long as the names of the client's
    variables hold no equals sign, a process finds exactly the variables of the map; the
    port, the backend, the fencing token, the key and the static token are those of the
    spawn whatever the client asked for, and every other variable is the client's. *)
Theorem environment_spec ec rt backend key tok log base c :
  get_container_config_from_executor_config (Some backend) ec rt key tok log base = Ok c →
  (∀ k, is_Some (env ec !! k) → string_has "=" k = false) →
  (∀ k v, (∃ e, e ∈ cfg_env c ∧ split_once "=" e = Some (k, v)) ↔
     environment (Some backend) (env ec) key tok !! k = Some v) ∧
  environment (Some backend) (env ec) key tok !! "PORT" = Some CONTAINER_PORT ∧
  environment (Some backend) (env ec) key tok !! "SESSION_BACKEND_ID" = Some backend ∧
  (∀ a, key = Some a →
     environment (Some backend) (env ec) key tok !! "SESSION_BACKEND_FENCING_TOKEN" =
       Some (pretty (Protocol.ak_token a)) ∧
     environment (Some backend) (env ec) key tok !! "SESSION_BACKEND_KEY" =
       Some (Types.key_name (Protocol.ak_key a))) ∧
  (∀ t, tok = Some t →
     environment (Some backend) (env ec) key tok !! "SESSION_BACKEND_STATIC_TOKEN" = Some t) ∧
  ∀ k, k ∉ reserved → environment (Some backend) (env ec) key tok !! k = env ec !! k.
Proof.
  unfold get_container_config_from_executor_config. intros Hc Huser.
  destruct (get_binds base (mount ec) key) as [b|]; [|done]. injection Hc as <-. cbn [cfg_env].
  split; [|repeat split].
  - intros k v. split.
    + intros (e & He & Hsplit). apply list_elem_of_fmap in He as ([k' v'] & -> & Hkv).
      apply elem_of_map_to_list in Hkv. unfold env_entry in Hsplit.
      assert (string_has "=" k' = false) as Hk'.
      { destruct (environment_keys (Some backend) (env ec) key tok k') as [H|H];
          [by eexists|by apply reserved_no_equals|by apply Huser]. }
      assert (split_once "=" (k' +:+ "=" +:+ v') = Some (k', v')) as Hs
        by (apply split_once_spec; done).
      cbn [fst snd] in Hsplit. rewrite Hs in Hsplit. by injection Hsplit as <- <-.
    + intros Hkv. exists (env_entry (k, v)). split.
      * apply list_elem_of_fmap_2, elem_of_map_to_list, Hkv.
      * apply split_once_spec. split; [done|].
        destruct (environment_keys (Some backend) (env ec) key tok k) as [H|H];
          [by eexists|by apply reserved_no_equals|by apply Huser].
  - unfold environment. by rewrite !insert_opt_lookup, lookup_insert.
  - unfold environment. by rewrite !insert_opt_lookup.
  - subst key. unfold environment. by rewrite !insert_opt_lookup.
  - subst key. unfold environment. by rewrite !insert_opt_lookup.
  - intros t ->. unfold environment. by rewrite !insert_opt_lookup.
  - intros k Hk. unfold reserved in Hk. unfold environment.
    rewrite !insert_opt_lookup, lookup_insert.
    repeat case_decide; subst; try done; exfalso; apply Hk; set_solver.
Qed.

(** *** Limits *)

Lemma as_i64_range n : (- 2 ^ 63 ≤ StdDuration.as_i64 n < 2 ^ 63)%Z.
Proof. unfold StdDuration.as_i64. pose proof (Z.mod_pos_bound (n + 2 ^ 63) (2 ^ 64)). lia. Qed.

Lemma as_i64_small n : (- 2 ^ 63 ≤ n < 2 ^ 63)%Z → StdDuration.as_i64 n = n.
Proof. intros Hn. unfold StdDuration.as_i64. rewrite Z.mod_small; lia. Qed.

Definition percent_of_default (pc : Z) : option Z :=
  StdDuration.mul_f64 DockerCpuPeriod_default
    (StdDuration.div (StdDuration.of_int pc) (StdDuration.of_int 100)).

(** Every percentage that a [u8] can hold, by evaluation of the floating-point code. *)
Lemma percent_of_default_exact pc :
  (0 ≤ pc < 256)%Z → percent_of_default pc = Some (pc * 1000000)%Z.
Proof.
  intros Hpc.
  assert (forallb (λ n, bool_decide (percent_of_default (Z.of_nat n) =
    Some (Z.of_nat n * 1000000)%Z)) (seq 0 256) = true) as Hall by (vm_compute; reflexivity).
  rewrite forallb_forall in Hall. specialize (Hall (Z.to_nat pc)).
  rewrite Z2Nat.id in Hall by lia. apply (bool_decide_unpack _). rewrite Hall; [done|].
  apply in_seq. lia.
Qed.


End DockerConfigProps.

(** ** Witnesses *)

Module DockerConfigWitness.
Import DockerTypes Paths DockerCommands DockerConfigProps.

Definition deadlines : Protocol.KeyDeadlines := {|
  Protocol.renew_at := 0; Protocol.soft_terminate_at := 0; Protocol.hard_terminate_at := 0 |}.
Definition key (name : string) : Protocol.AcquiredKey := {|
  Protocol.ak_key := {| Types.key_name := name; Types.key_namespace := ""; Types.key_tag := "" |};
  Protocol.ak_deadlines := deadlines; Protocol.ak_token := -5 |}.

Definition limits : ResourceLimits := {|
  cpu_period := None; cpu_period_percent := Some 29%Z;
  cpu_time_limit := Some (7 * StdDuration.NANOS_PER_SEC)%Z;
  memory_limit_bytes := Some 1000%Z; disk_limit_bytes := Some 5%Z |}.

Definition exec (m : option Mount) : DockerExecutorConfig := {|
  image := "im"; pull_policy := None; credentials := None;
  env := {[ "PORT" := "1"; "A" := "b=c" ]}; resource_limits := limits; mount := m;
  network_name := None |}.

Definition config (m : Mount) (k : string) : result ConfigError Config :=
  get_container_config_from_executor_config (Some "b1") (exec (Some m)) None (Some (key k))
    (Some "s.t") None (Some "/mnt/base/").

Lemma mount_confined_witness :
  ∃ c, config (MountPath "a//b") "k" = Ok c ∧ ∃ names,
    binds (host_config c) = Some ["/mnt/base/a//b:/plane-data"] ∧
    components "a//b" = Normal <$> names ∧
    components "/mnt/base/a//b" = components "/mnt/base/" ++ (Normal <$> names).
Proof.
  pose proof (mount_confined (Some "b1") (exec (Some (MountPath "a//b"))) None (Some (key "k"))
    (Some "s.t") None "/mnt/base/" "a//b" ltac:(done) eq_refl) as Hm.
  fold (config (MountPath "a//b") "k") in Hm.
  destruct (config (MountPath "a//b") "k") as [c|e] eqn:Hc.
  - exists c. split; [done|exact Hm].
  - exfalso. clear Hm. revert Hc. vm_compute. discriminate.
Defined.

Lemma key_mount_unchecked_witness :
  components (join "/mnt/base/" "../x") = components "/mnt/base/" ++ [ParentDir; Normal "x"].
Proof.
  destruct (key_mount_unchecked (Some "b1") (exec (Some (MountBool true))) None (key "../x")
    (Some "s.t") None "/mnt/base/" ltac:(done) eq_refl) as (c & _ & _ & _ & Hx).
  apply (Hx "x" eq_refl).
Defined.

Lemma environment_spec_witness :
  environment (Some "b1") (env (exec None)) (Some (key "k")) (Some "s.t") !! "PORT" = Some "8080" ∧
  environment (Some "b1") (env (exec None)) (Some (key "k")) (Some "s.t") !! "A" = Some "b=c".
Proof.
  assert (∃ c, get_container_config_from_executor_config (Some "b1") (exec None) None
    (Some (key "k")) (Some "s.t") None None = Ok c) as [c Hc] by (eexists; reflexivity).
  destruct (environment_spec (exec None) None "b1" (Some (key "k")) (Some "s.t") None None c Hc)
    as (_ & Hport & _ & _ & _ & Huser).
  - intros k [v Hv]. cbn in Hv. apply lookup_insert_Some in Hv as [[<- _]|[_ Hv]]; [done|].
    apply lookup_singleton_Some in Hv as [<- _]. done.
  - split; [exact Hport|]. rewrite (Huser "A"); [done|].
    apply (bool_decide_unpack _). vm_compute. reflexivity.
Defined.


End DockerConfigWitness.
