(* ===== verification/Docker.v ===== *)
(** * The Docker runtime of a drone ([drone/runtime/docker])

    [DockerApi] is the daemon as the runtime sees it: a state and the calls of the client
    library, with the documented meaning of their answers as laws ([DockerLaws]).
    [DockerRuntime] is the runtime on top of it: pulling images, spawning and terminating
    containers, the events of containers, pruning ([mod.rs], [commands.rs]). [Metrics] is
    [metrics.rs] and [WaitBackend] is [wait_backend.rs]. *)

From stdpp Require Import pretty.
From S2P Require Import Prelude Names Types Database Nodes DockerConfig.

(** ** The daemon *)

Module DockerApi.
Import DockerCommands.

(** [DockerResponseServerError] with its status code, and any other error. *)
Inductive DockerError := ServerError (status_code : Z) | OtherError.

(** The fields of an inspected container that are read: [state.running], and
    [network_settings.ports]. *)
Record ContainerInfo := {
  running : option bool;
  ports : option (gmap string (option (list PortBinding)))
}.

Class Docker := {
  daemon : Type;
  inspect_container : string → daemon → daemon * result DockerError ContainerInfo;
  inspect_image : string → daemon → daemon * result DockerError ();
  create_image : string → option DockerTypes.DockerCredentials → daemon →
    daemon * list (result DockerError ());
  create_container : string → Config → daemon → daemon * result DockerError ();
  start_container : string → daemon → daemon * result DockerError ();
  kill_container : string → daemon → daemon * result DockerError ();
  stop_container : string → Z → daemon → daemon * result DockerError ()
}.

(** What the API documents: [containers] tells which containers there are and which of
    them run. A call for one container leaves the others alone; inspecting a missing
    container gives 404; killing one that does not run gives 409; a container that was
    stopped, or killed, does not run; creating and starting a container succeed only when
    there is one that runs in the end. *)
Class DockerLaws (D : Docker) := {
  containers : daemon → gmap string bool;
  images : daemon → gset string;
  inspect_law id d : let '(d', r) := inspect_container id d in
    containers d' = containers d ∧
    match r with
    | Ok info => containers d !! id = Some (default false (running info))
    | Err (ServerError 404) => containers d !! id = None
    | Err _ => True
    end;
  inspect_image_law image d : let '(d', r) := inspect_image image d in
    containers d' = containers d ∧ images d' = images d ∧
    match r with
    | Ok _ => image ∈ images d
    | Err (ServerError 404) => image ∉ images d
    | Err _ => True
    end;
  create_image_law image cred d : let '(d', rs) := create_image image cred d in
    containers d' = containers d ∧
    (Forall (λ r, is_ok r = true) rs → images d' = {[image]} ∪ images d);
  create_law id c d : let '(d', r) := create_container id c d in
    (∀ id', id' ≠ id → containers d' !! id' = containers d !! id') ∧
    match r with
    | Ok _ => containers d !! id = None ∧ containers d' !! id = Some false
    | Err _ => containers d' = containers d
    end;
  start_law id d : let '(d', r) := start_container id d in
    (∀ id', id' ≠ id → containers d' !! id' = containers d !! id') ∧
    match r with Ok _ => containers d' !! id = Some true | Err _ => True end;
  kill_law id d : let '(d', r) := kill_container id d in
    (∀ id', id' ≠ id → containers d' !! id' = containers d !! id') ∧
    match r with
    | Ok _ => containers d' !! id = Some false
    | Err (ServerError 409) => containers d' = containers d ∧ containers d !! id ≠ Some true
    | Err _ => True
    end;
  stop_law id t d : let '(d', r) := stop_container id t d in
    (∀ id', id' ≠ id → containers d' !! id' = containers d !! id') ∧
    match r with
    | Ok _ => containers d' !! id = Some false
    | Err (ServerError 409) => containers d' = containers d ∧ containers d !! id ≠ Some true
    | Err _ => True
    end
}.

End DockerApi.

(** ** The runtime *)

Module DockerRuntime.
Import DockerTypes DockerCommands DockerApi.

(** [ContainerId::from(&BackendName)] and [BackendName::try_from(ContainerId)]
    ([types.rs]). *)
Definition container_id_from (backend : string) : string := Names.to_container_id backend.
Definition backend_name_try_from (container_id : string) : result Names.NameError string :=
  Names.from_container_id container_id.

Record DockerRuntimeConfig := {
  rt_runtime : option string;
  rt_log_config : option string;
  rt_mount_base : option string;
  rt_auto_prune : option bool;
  rt_cleanup_min_age : option Z
}.

Inductive RuntimeError :=
| DockerErr (e : DockerError)
| ConfigErr (e : ConfigError)
| InvalidExecutable
| NoPort.

Section Runtime.
Context {D : Docker}.

(** *** [commands.rs] *)

Definition image_exists (image : string) (d : daemon) : daemon * result RuntimeError bool :=
  match inspect_image image d with
  | (d, Ok _) => (d, Ok true)
  | (d, Err (ServerError 404)) => (d, Ok false)
  | (d, Err e) => (d, Err (DockerErr e))
  end.

(** The stream of [create_image] is consumed up to its first error. *)
Fixpoint consume (progress : list (result DockerError ())) : result RuntimeError () :=
  match progress with
  | [] => Ok ()
  | Ok _ :: progress => consume progress
  | Err e :: _ => Err (DockerErr e)
  end.

Definition pull_image (image : string) (credentials : option DockerCredentials) (force : bool)
    (d : daemon) : daemon * result RuntimeError () :=
  let pull d :=
    let '(d, progress) := create_image image credentials d in (d, consume progress) in
  if force then pull d
  else match image_exists image d with
       | (d, Err e) => (d, Err e)
       | (d, Ok true) => (d, Ok ())
       | (d, Ok false) => pull d
       end.

Definition port_of (info : ContainerInfo) : option N :=
  ports ← ports info;
  bindings ← ports !! PORT_KEY;
  bindings ← bindings;
  binding ← head bindings;
  port ← host_port binding;
  Types.parse_u16 port.

Definition try_get_port (id : string) (d : daemon) : daemon * result RuntimeError N :=
  match inspect_container id d with
  | (d, Err e) => (d, Err (DockerErr e))
  | (d, Ok info) => (d, ok_or (port_of info) NoPort)
  end.

Fixpoint get_port_attempts (n : nat) (id : string) (d : daemon) : daemon * result RuntimeError N :=
  match n with
  | 0 => (d, Err NoPort)
  | S n =>
      match try_get_port id d with
      | (d, Ok port) => (d, Ok port)
      | (d, Err _) => get_port_attempts n id d
      end
  end.

Definition get_port : string → daemon → daemon * result RuntimeError N := get_port_attempts 3.

Definition run_container (config : DockerRuntimeConfig) (backend_id : string)
    (exec_config : DockerExecutorConfig) (acquired_key : option Protocol.AcquiredKey)
    (static_token : option string) (d : daemon) : daemon * result RuntimeError string :=
  let container_id := container_id_from backend_id in
  match get_container_config_from_executor_config (Some backend_id) exec_config
          (rt_runtime config) acquired_key static_token (rt_log_config config)
          (rt_mount_base config) with
  | Err e => (d, Err (ConfigErr e))
  | Ok c =>
      match create_container container_id c d with
      | (d, Err e) => (d, Err (DockerErr e))
      | (d, Ok _) =>
          match start_container container_id d with
          | (d, Err e) => (d, Err (DockerErr e))
          | (d, Ok _) => (d, Ok container_id)
          end
      end
  end.

(** *** [impl Runtime for DockerRuntime] *)

(** [serde_json::from_value::<DockerExecutorConfig>] *)
Context (from_value : json → option DockerExecutorConfig).

Definition prepare (config : json) (d : daemon) : daemon * result RuntimeError () :=
  match from_value config with
  | None => (d, Err InvalidExecutable)
  | Some config =>
      let credentials := option_map credentials_from (credentials config) in
      match default PullPolicy_default (pull_policy config) with
      | Never => (d, Ok ())
      | IfNotPresent => pull_image (image config) credentials false d
      | Always => pull_image (image config) credentials true d
      end
  end.

Record SpawnResult := { sr_container_id : string; sr_port : N }.

Definition spawn (config : DockerRuntimeConfig) (backend_id : string) (executable : json)
    (acquired_key : option Protocol.AcquiredKey) (static_token : option string) (d : daemon)
  : daemon * result RuntimeError SpawnResult :=
  match from_value executable with
  | None => (d, Err InvalidExecutable)
  | Some executable =>
      match run_container config backend_id executable acquired_key static_token d with
      | (d, Err e) => (d, Err e)
      | (d, Ok container_id) =>
          match get_port container_id d with
          | (d, Err e) => (d, Err e)
          | (d, Ok port) => (d, Ok {| sr_container_id := container_id; sr_port := port |})
          end
      end
  end.

Definition terminate (backend_id : string) (hard : bool) (d : daemon)
  : daemon * result RuntimeError bool :=
  let container_id := container_id_from backend_id in
  match inspect_container container_id d with
  | (d, Err (ServerError 404)) => (d, Ok false)
  | (d, Err e) => (d, Err (DockerErr e))
  | (d, Ok details) =>
      if negb (default false (running details)) then (d, Ok false)
      else
        match (if hard then kill_container container_id d
               else stop_container container_id HeartbeatConsts.KILL_AFTER_SOFT_TERMINATE_SECONDS d) with
        | (d, Err (ServerError 409)) => (d, Ok false)
        | (d, Err e) => (d, Err (DockerErr e))
        | (d, Ok _) => (d, Ok true)
        end
  end.

End Runtime.

(** *** Events *)

(** A container event: its action, and the attributes of its actor. *)
Record EventMessage := {
  ev_action : option string;
  ev_actor : option (option (gmap string string))
}.

Record TerminateEvent := { te_backend_id : string; te_exit_code : option Z }.

(** [str::parse::<i32>] *)
Definition parse_i32 (s : string) : option Z :=
  let '(sign, digits) := match s with
                         | String "+" s => (1%Z, s)
                         | String "-" s => ((-1)%Z, s)
                         | _ => (1%Z, s)
                         end in
  match digits with
  | EmptyString => None
  | _ =>
      n ← Types.digits_value 0 digits;
      let z := (sign * Z.of_N n)%Z in
      if ((- 2 ^ 31 <=? z) && (z <? 2 ^ 31))%Z then Some z else None
  end.

(** What the loop does with an event: nothing, or start the metrics of a backend, or
    send the end of a backend. *)
Inductive reaction :=
| Ignore
| SpawnMetricsLoop (backend_id : string)
| Send (e : TerminateEvent).

Definition handle_event (e : EventMessage) : reaction :=
  match ev_actor e with
  | None | Some None => Ignore
  | Some (Some attributes) =>
      match attributes !! PLANE_DOCKER_LABEL with
      | None => Ignore
      | Some _ =>
          match attributes !! "name" with
          | None => Ignore
          | Some container_id =>
              match backend_name_try_from container_id with
              | Err _ => Ignore
              | Ok backend_id =>
                  if decide (ev_action e = Some "start") then SpawnMetricsLoop backend_id
                  else Send {| te_backend_id := backend_id;
                               te_exit_code := attributes !! "exitCode" ≫= parse_i32 |}
              end
          end
      end
  end.

(** A stream of events and errors; errors are skipped. *)
Definition events_loop (es : list (result DockerError EventMessage)) : list reaction :=
  omap (λ e, match e with Ok e => Some (handle_event e) | Err _ => None end) es.

(** [events()]: the subscription to the broadcast channel, without its lag errors. *)
Definition events (received : list (option TerminateEvent)) : list TerminateEvent :=
  omap id received.

(** *** Pruning *)

Inductive PruneRequest :=
| PruneContainers (filters : gmap string (list string))
| PruneImages (filters : gmap string (list string)).

(** The requests of a pruning; their failures are only logged. [until] is in
    microseconds and is sent in whole seconds. *)
Definition prune (until : Z) (prune_images : bool) : list PruneRequest :=
  let since_unixtime : string := pretty (until / 1000000)%Z in
  PruneContainers {[ "until" := [since_unixtime]; "label" := [PLANE_DOCKER_LABEL] ]} ::
  if prune_images
  then [PruneImages {[ "until" := [since_unixtime]; "dangling" := ["false"] ]}]
  else [].

Definition CLEANUP_INTERVAL_SECS : Z := 60.

(** One pass of [cleanup_loop], with the defaults of [DockerRuntime::new]; [now] is read
    after the sleep. *)
Definition cleanup_pass (config : DockerRuntimeConfig) (now : Z) : list PruneRequest :=
  prune (now - default 0 (rt_cleanup_min_age config))%Z (default false (rt_auto_prune config)).

(** *** The running runtime: its settings, whether a metrics callback is set, and the tasks that its
    guards keep *)

Inductive guarded := EventsLoop | CleanupLoop.

Module Runtime.
Record t := Mk { config : DockerRuntimeConfig; metrics_callback : bool; guards : list guarded }.

(** [DockerRuntime::new]; [connected] is the answer of [connect_with_local_defaults]. *)
Definition new (connected : bool) (config : DockerRuntimeConfig) : result RuntimeError t :=
  if connected then Ok (Mk config false [CleanupLoop; EventsLoop]) else Err (DockerErr OtherError).

Definition set_metrics_callback (r : t) : t := Mk (config r) true (guards r).
End Runtime.

End DockerRuntime.

(** ** Metrics *)

Module Metrics.
Import DockerApi.

Definition METRICS_INTERVAL : Z := from_secs 10.

(** The statistics of cgroups versions 1 and 2, the counters that are used. *)
Inductive MemoryStatsStats :=
| V1 (total_active_anon total_active_file total_rss total_cache total_unevictable
      total_inactive_anon total_inactive_file : Z)
| V2 (active_anon active_file kernel_stack sock slab file anon unevictable
      inactive_anon inactive_file : Z).

Record Stats := {
  ms_stats : option MemoryStatsStats;
  ms_usage : option Z;
  ms_limit : option Z;
  system_cpu_usage : option Z;
  presystem_cpu_usage : option Z;
  total_usage : Z;
  pretotal_usage : Z
}.

Inductive MetricsError := NoMemoryStats | NoMemoryUsage | NoMemoryLimit | CpuBackwards
  | SystemCpuBackwards.

(** Arithmetic on [u64]; a release build wraps. *)
Definition u64 (n : Z) : Z := n mod 2 ^ 64.
Definition u64_add (a b : Z) : Z := u64 (a + b).
Definition u64_sub (a b : Z) : Z := u64 (a - b).

(** The memory part: total, active, inactive, unevictable, used. *)
Definition memory (usage : Z) (s : MemoryStatsStats) : Z * Z * Z * Z * Z :=
  match s with
  | V1 active_anon active_file rss cache unevictable inactive_anon inactive_file =>
      (u64_add rss cache, u64_add active_anon active_file,
       u64_add inactive_anon inactive_file, unevictable, u64_sub usage inactive_file)
  | V2 active_anon active_file kernel_stack sock slab file anon unevictable inactive_anon
      inactive_file =>
      let kernel := u64_add (u64_add kernel_stack sock) slab in
      (u64_add (u64_add file anon) kernel, u64_add active_anon active_file,
       u64_add inactive_anon inactive_file, unevictable, u64_sub usage inactive_file)
  end.

Definition metrics_message_from_container_stats (stats : Stats) (backend_id : string)
  : result MetricsError (option Protocol.BackendMetricsMessage) :=
  let? mem_stats := ok_or (ms_stats stats) NoMemoryStats in
  let? usage := ok_or (ms_usage stats) NoMemoryUsage in
  let? limit := ok_or (ms_limit stats) NoMemoryLimit in
  match system_cpu_usage stats, presystem_cpu_usage stats with
  | Some sys, Some presys =>
      if (total_usage stats <? pretotal_usage stats)%Z then Err CpuBackwards
      else if (sys <? presys)%Z then Err SystemCpuBackwards
      else
        let '(total, active, inactive, unevictable, used) := memory usage mem_stats in
        Ok (Some {|
          Protocol.bm_backend_id := backend_id;
          Protocol.bm_mem_used := Z.to_N used;
          Protocol.bm_mem_total := Z.to_N total;
          Protocol.bm_mem_active := Z.to_N active;
          Protocol.bm_mem_inactive := Z.to_N inactive;
          Protocol.bm_mem_unevictable := Z.to_N unevictable;
          Protocol.bm_mem_limit := Z.to_N limit;
          Protocol.bm_cpu_used := Z.to_N (u64_sub (total_usage stats) (pretotal_usage stats));
          Protocol.bm_sys_cpu := Z.to_N (u64_sub sys presys) |})
  | _, _ => Ok None
  end.

(** An item of the stream: when it arrives, what it is, and what inspecting the container
    would say. *)
Record item := {
  it_now : Z;
  it_stats : result DockerError Stats;
  it_inspect : result DockerError ContainerInfo
}.

(** [metrics_loop], from the instant of the last processed item: the messages passed to
    the callback, with their instants. [callback] says whether one is set. *)
Fixpoint metrics_loop (backend_id : string) (callback : bool) (last_processed : Z)
    (items : list item) : list (Z * Protocol.BackendMetricsMessage) :=
  match items with
  | [] => []
  | i :: items =>
      if (it_now i - last_processed <? METRICS_INTERVAL)%Z
      then metrics_loop backend_id callback last_processed items
      else
        match it_stats i with
        | Err _ => []
        | Ok stats =>
            let running :=
              match ms_stats stats with
              | Some _ => true
              | None => match it_inspect i with
                        | Err _ => false
                        | Ok info => default false (running info)
                        end
              end in
            if running then
              (if callback then
                 match metrics_message_from_container_stats stats backend_id with
                 | Ok (Some m) => [(it_now i, m)]
                 | _ => []
                 end
               else []) ++ metrics_loop backend_id callback (it_now i) items
            else []
        end
  end.

(** The loop starts as if the last item were one interval ago. *)
Definition metrics_start (backend_id : string) (callback : bool) (now : Z) (items : list item) :=
  metrics_loop backend_id callback (now - METRICS_INTERVAL) items.

End Metrics.

(** ** Waiting for a backend to listen *)

Module WaitBackend.

Definition WAIT_TIMEOUT : Z := from_millis 100.
Definition REQUEST_TIMEOUT : Z := from_millis 1000.
Definition STARTUP_TIMEOUT : Z := from_secs 300.

(** How an attempt ends, and the first five bytes that were read ([None] on an error). *)
Inductive attempt :=
| ConnectFailed
| WriteFailed
| ReadTimedOut
| Read (buffer : option string).

(** [attempts] are the attempts there would be, each with the time it takes. [elapsed] is
    the time since the start. The result has the time at which it is returned; with no
    attempts left the call is still waiting. *)
Fixpoint wait_for_backend (elapsed : Z) (attempts : list (attempt * Z))
  : option (result () () * Z) :=
  if (STARTUP_TIMEOUT <? elapsed)%Z then Some (Err (), elapsed)
  else match attempts with
       | [] => None
       | (a, took) :: attempts =>
           match a with
           | Read (Some buffer) =>
               if decide (buffer = "HTTP/") then Some (Ok (), (elapsed + took)%Z)
               else wait_for_backend (elapsed + took + WAIT_TIMEOUT) attempts
           | _ => wait_for_backend (elapsed + took + WAIT_TIMEOUT) attempts
           end
       end.

End WaitBackend.

(** ** Theorems *)

Module DockerProps.
Import DockerTypes DockerCommands DockerApi DockerRuntime.

Section Runtime.
Context {D : Docker} {DL : DockerLaws D}.
Context (from_value : json → option DockerExecutorConfig).

Notation cid := container_id_from.

(** Terminating a backend touches no other container; when it reports
    success the container is not running: [true] says that it ran and was stopped by this
    call, [false] that it did not run, and then nothing was changed. *)
Theorem terminate_correct b hard d :
  let '(d', r) := terminate b hard d in
  (∀ id, id ≠ cid b → containers d' !! id = containers d !! id) ∧
  match r with
  | Ok true => containers d !! cid b = Some true ∧ containers d' !! cid b = Some false
  | Ok false => containers d' = containers d ∧ containers d !! cid b ≠ Some true
  | Err _ => True
  end.
Proof.
  unfold terminate. pose proof (inspect_law (cid b) d) as Hi.
  destruct (inspect_container (cid b) d) as [d1 [info|e]].
  - destruct Hi as [Hsame Hrun]. destruct (default false (running info)) eqn:Hr; cbn.
    + assert (Hstop : let '(d2, r) := if hard then kill_container (cid b) d1
        else stop_container (cid b) HeartbeatConsts.KILL_AFTER_SOFT_TERMINATE_SECONDS d1 in
        (∀ id', id' ≠ cid b → containers d2 !! id' = containers d1 !! id') ∧
        match r with
        | Ok _ => containers d2 !! cid b = Some false
        | Err (ServerError 409) => containers d2 = containers d1 ∧ containers d1 !! cid b ≠ Some true
        | Err _ => True
        end) by (destruct hard; [apply kill_law|apply stop_law]).
      destruct (if hard then _ else _) as [d2 r]. destruct Hstop as [Hother Hr2].
      rewrite Hsame in Hother, Hr2. destruct r as [[]|e]; [done|].
      destruct e as [c|]; [|done]. destruct (decide (c = 409%Z)) as [->|Hc]; [done|].
      by repeat (case_match; try done).
    + split; [by intros; rewrite Hsame|]. split; [done|]. rewrite Hrun. done.
  - destruct Hi as [Hsame He]. destruct e as [c|]; [|cbn; split; [by intros; rewrite Hsame|done]].
    destruct (decide (c = 404%Z)) as [->|Hc].
    + split; [by intros; rewrite Hsame|]. rewrite He. done.
    + repeat (case_match; try lia); simplify_eq; split; intros; by rewrite ?Hsame.
Qed.

Lemma inspect_same id d : containers (inspect_container id d).1 = containers d.
Proof. pose proof (inspect_law id d) as H. destruct (inspect_container id d). by destruct H. Qed.

Lemma get_port_same n id d : containers (get_port_attempts n id d).1 = containers d.
Proof.
  revert d. induction n as [|n IH]; intros d; [done|]. cbn [get_port_attempts].
  unfold try_get_port. pose proof (inspect_same id d) as Hs.
  destruct (inspect_container id d) as [d1 [info|e]]; cbn [fst] in Hs.
  - destruct (port_of info); [done|]. cbn. by rewrite IH.
  - by rewrite IH.
Qed.

Lemma get_port_error n id d d' e : get_port_attempts n id d = (d', Err e) → e = NoPort.
Proof.
  revert d. induction n as [|n IH]; intros d; cbn [get_port_attempts]; [congruence|].
  destruct (try_get_port id d) as [d1 [p|e']]; [done|apply IH].
Qed.

Lemma run_container_spec cfg b ec key tok d :
  let '(d', r) := run_container cfg b ec key tok d in
  (∀ id, id ≠ cid b → containers d' !! id = containers d !! id) ∧
  match r with
  | Ok id => id = cid b ∧ containers d !! cid b = None ∧ containers d' !! cid b = Some true
  | Err e => e ≠ NoPort
  end.
Proof.
  unfold run_container. destruct (get_container_config_from_executor_config _ _ _ _ _ _ _) as [c|e];
    [|done].
  pose proof (create_law (cid b) c d) as Hc. destruct (create_container (cid b) c d) as [d1 [[]|e]].
  - destruct Hc as (Hother & Hnone & _). pose proof (start_law (cid b) d1) as Hs.
    destruct (start_container (cid b) d1) as [d2 [[]|e]]; destruct Hs as [Hother2 Hs].
    + split; [|done]. intros id Hid. by rewrite Hother2, Hother.
    + split; [|done]. intros id Hid. by rewrite Hother2, Hother.
  - destruct Hc as [Hother _]. done.
Qed.

(** A spawn touches only the container of its backend. When it succeeds
    the container did not exist before and runs now, under the identifier from which the
    events of the container lead back to the backend. When no port can be read, which is
    reported as a failure, the container was created and is left running. *)
Theorem spawn_correct cfg b executable key tok d :
  let '(d', r) := spawn from_value cfg b executable key tok d in
  (∀ id, id ≠ cid b → containers d' !! id = containers d !! id) ∧
  match r with
  | Ok res => sr_container_id res = cid b ∧ containers d !! cid b = None ∧
      containers d' !! cid b = Some true ∧
      (Names.valid_name Names.BackendName b → backend_name_try_from (sr_container_id res) = Ok b)
  | Err NoPort => containers d !! cid b = None ∧ containers d' !! cid b = Some true
  | Err _ => True
  end.
Proof.
  unfold spawn. destruct (from_value executable) as [ec|]; [|done].
  pose proof (run_container_spec cfg b ec key tok d) as Hrun.
  destruct (run_container cfg b ec key tok d) as [d1 [id|e]]; destruct Hrun as [Hother Hr].
  - destruct Hr as (-> & Hnone & Hrunning). pose proof (get_port_same 3 (cid b) d1) as Hsame.
    pose proof (get_port_error 3 (cid b) d1) as Herr. unfold get_port.
    destruct (get_port_attempts 3 (cid b) d1) as [d2 [port|e]]; cbn [fst] in Hsame.
    + rewrite Hsame. split; [done|]. split; [done|]. split; [done|]. split; [done|].
      intros Hv. cbn. apply Names.container_id_roundtrip. done.
    + rewrite (Herr d2 e eq_refl), Hsame. done.
  - split; [done|]. by destruct e.
Qed.

(** After a successful preparation the image is there, unless the policy is never to
    pull; an image that is there is not pulled again unless the policy is always. *)
Lemma consume_ok rs : consume rs = Ok () → Forall (λ r, is_ok r = true) rs.
Proof. induction rs as [|[[]|e] rs IH]; [constructor| |done]. intros H. constructor; auto. Qed.

Theorem prepare_ok executable d d' :
  prepare from_value executable d = (d', Ok ()) →
  containers d' = containers d ∧
  ∃ ec, from_value executable = Some ec ∧
    (default IfNotPresent (pull_policy ec) = Never ∧ d' = d ∨ image ec ∈ images d').
Proof.
  unfold prepare. destruct (from_value executable) as [ec|]; [|done].
  assert (Hpull : ∀ cred d0 d1 r, create_image (image ec) cred d0 = (d1, r) →
    consume r = Ok () → containers d1 = containers d0 ∧ image ec ∈ images d1).
  { intros cred d0 d1 r Heq Hc%consume_ok. pose proof (create_image_law (image ec) cred d0) as H.
    rewrite Heq in H. destruct H as [-> Him]. split; [done|]. rewrite Him by done. set_solver. }
  unfold PullPolicy_default. destruct (default IfNotPresent (pull_policy ec)) eqn:Hpol.
  - unfold pull_image, image_exists.
    pose proof (inspect_image_law (image ec) d) as Hi.
    destruct (inspect_image (image ec) d) as [d1 [[]|e]]; destruct Hi as (Hc & Him & Hr).
    + intros [= <-]. split; [done|]. exists ec. split; [done|]. right. by rewrite Him.
    + destruct e as [c|]; [|done]. destruct (decide (c = 404%Z)) as [->|Hne].
      * destruct (create_image (image ec) _ d1) as [d2 rs] eqn:Hcr. intros [= -> Hco].
        destruct (Hpull _ _ _ _ Hcr Hco) as [Hc2 Him2]. rewrite Hc2. eauto.
      * intros H. exfalso. revert H. by repeat (case_match; try lia).
  - unfold pull_image. destruct (create_image (image ec) _ d) as [d1 rs] eqn:Hcr.
    intros [= -> Hco]. destruct (Hpull _ _ _ _ Hcr Hco). eauto.
  - intros [= <-]. split; [done|]. exists ec. rewrite Hpol. eauto.
Qed.

End Runtime.

(** *** Events *)

(** Which events end a backend: exactly the events, other than starts, of
    containers with Plane's label whose name is the container identifier of a backend
    name; the event names that backend and no other. *)
Theorem handle_event_spec e b code :
  handle_event e = Send {| te_backend_id := b; te_exit_code := code |} ↔
  ∃ attributes, ev_actor e = Some (Some attributes) ∧
    is_Some (attributes !! PLANE_DOCKER_LABEL) ∧
    attributes !! "name" = Some (container_id_from b) ∧ Names.valid_name Names.BackendName b ∧
    ev_action e ≠ Some "start" ∧ code = attributes !! "exitCode" ≫= parse_i32.
Proof.
  unfold handle_event. destruct (ev_actor e) as [[a|]|]; [|naive_solver..].
  destruct (a !! PLANE_DOCKER_LABEL) eqn:Hl; [|split; [done|intros (? & [= <-] & [? Hs] & _); congruence]].
  destruct (a !! "name") as [c|] eqn:Hn; [|split; [done|intros (? & [= <-] & _ & ? & _); congruence]].
  pose proof (Names.container_id_roundtrip c) as Hrt.
  fold (backend_name_try_from c) in Hrt.
  destruct (backend_name_try_from c) as [b'|err] eqn:Hb.
  - destruct (proj1 (Hrt b') eq_refl) as [-> Hv]. case_decide as Hstart.
    + split; [done|]. intros (a' & _ & _ & _ & _ & Hns & _). done.
    + split.
      * intros [= <- <-]. exists a. rewrite Hl, Hn. eauto 10.
      * intros (a' & [= <-] & _ & Hname & Hv' & _ & ->).
        rewrite Hn in Hname. injection Hname as Hname.
        apply append_inj_l in Hname as <-. done.
  - split; [done|]. intros (a' & [= <-] & _ & Hname & Hv & _).
    rewrite Hn in Hname. injection Hname as ->.
    assert (Hok : Names.from_container_id (Names.to_container_id b) = Ok b)
      by (by apply Names.container_id_roundtrip).
    unfold backend_name_try_from, container_id_from in Hb. congruence.
Qed.

End DockerProps.

Module MetricsProps.
Import DockerApi Metrics.

Definition is_u64 (n : Z) : Prop := (0 ≤ n < 2 ^ 64)%Z.

Definition counters (s : MemoryStatsStats) : list Z :=
  match s with
  | V1 a b c d e f g => [a; b; c; d; e; f; g]
  | V2 a b c d e f g h i j => [a; b; c; d; e; f; g; h; i; j]
  end.

Definition inactive_file (s : MemoryStatsStats) : Z :=
  match s with V1 _ _ _ _ _ _ g => g | V2 _ _ _ _ _ _ _ _ _ j => j end.

(** What the library decodes: every counter is a [u64]. *)
Definition decoded (s : Stats) : Prop :=
  (∀ m, ms_stats s = Some m → Forall is_u64 (counters m)) ∧
  Forall is_u64 (option_list (ms_usage s) ++ option_list (ms_limit s) ++
    option_list (system_cpu_usage s) ++ option_list (presystem_cpu_usage s) ++
    [total_usage s; pretotal_usage s]).

Lemma u64_range n : is_u64 (u64 n).
Proof. unfold is_u64, u64. apply Z.mod_pos_bound. lia. Qed.

Lemma u64_small n : is_u64 n → u64 n = n.
Proof. intros Hn. by apply Z.mod_small. Qed.

Lemma u64_sub_le a b : is_u64 a → is_u64 b → (b ≤ a)%Z → u64_sub a b = (a - b)%Z.
Proof. unfold is_u64. intros. apply u64_small. unfold is_u64. lia. Qed.

Lemma u64_sub_wraps a b : is_u64 a → is_u64 b → (a < b)%Z → u64_sub a b = (2 ^ 64 + a - b)%Z.
Proof.
  unfold is_u64, u64_sub, u64. intros Ha Hb Hab.
  replace (a - b)%Z with (2 ^ 64 + a - b + (-1) * 2 ^ 64)%Z by lia.
  rewrite Z.mod_add by lia. apply Z.mod_small. lia.
Qed.

Lemma u64_to_N n : is_u64 n → (Z.to_N n < 2 ^ 64)%N.
Proof. unfold is_u64. intros Hn. apply N2Z.inj_lt. rewrite Z2N.id by lia. apply Hn. Qed.

Lemma memory_u64 usage s total active inactive unevictable used :
  Forall is_u64 (counters s) → is_u64 usage →
  memory usage s = (total, active, inactive, unevictable, used) →
  Forall is_u64 [total; active; inactive; unevictable; used] ∧
  used = u64_sub usage (inactive_file s).
Proof.
  intros Hs Hu. destruct s; cbn in *; intros [= <- <- <- <- <-];
    (split; [|done]); rewrite !Forall_cons in *;
    repeat split; try apply u64_range; try apply Forall_nil; try done; apply Hs.
Qed.

Definition fields (m : Protocol.BackendMetricsMessage) : list N :=
  [Protocol.bm_mem_used m; Protocol.bm_mem_total m; Protocol.bm_mem_active m;
   Protocol.bm_mem_inactive m; Protocol.bm_mem_unevictable m; Protocol.bm_mem_limit m;
   Protocol.bm_cpu_used m; Protocol.bm_sys_cpu m].

(** The arithmetic of a metrics message on 64-bit counters: every field fits;
    the processor differences never wrap, since counters that go backwards are refused;
    the memory in use is the usage less the inactive file cache when that is not larger,
    and otherwise the subtraction wraps to a huge number. *)
Theorem metrics_bounds stats b m :
  decoded stats → metrics_message_from_container_stats stats b = Ok (Some m) →
  Forall (λ n, n < 2 ^ 64)%N (fields m) ∧ Protocol.bm_backend_id m = b ∧
  Z.of_N (Protocol.bm_cpu_used m) = (total_usage stats - pretotal_usage stats)%Z ∧
  (∃ sys presys, system_cpu_usage stats = Some sys ∧ presystem_cpu_usage stats = Some presys ∧
     Z.of_N (Protocol.bm_sys_cpu m) = (sys - presys)%Z) ∧
  ∃ s usage, ms_stats stats = Some s ∧ ms_usage stats = Some usage ∧
    Z.of_N (Protocol.bm_mem_used m) =
      if decide (inactive_file s ≤ usage)%Z then (usage - inactive_file s)%Z
      else (2 ^ 64 + usage - inactive_file s)%Z.
Proof.
  intros [Hc Hf]. unfold metrics_message_from_container_stats.
  destruct (ms_stats stats) as [s|]; [|done]. specialize (Hc s eq_refl).
  destruct (ms_usage stats) as [usage|]; [|done]. destruct (ms_limit stats) as [limit|]; [|done].
  cbn [ok_or result_bind]. destruct (system_cpu_usage stats) as [sys|]; [|done].
  destruct (presystem_cpu_usage stats) as [presys|]; [|done].
  cbn in Hf. rewrite !Forall_cons in Hf.
  destruct Hf as (Hu & Hl & Hsys & Hpresys & Ht & Hpt & _).
  destruct (Z.ltb_spec (total_usage stats) (pretotal_usage stats)) as [|Hcpu]; [done|].
  destruct (Z.ltb_spec sys presys) as [|Hsy]; [done|].
  destruct (memory usage s) as [[[[total active] inactive] unevictable] used] eqn:Hm.
  destruct (memory_u64 _ _ _ _ _ _ _ Hc Hu Hm) as [Hmem Hused].
  intros [= <-]. cbn. rewrite (u64_sub_le _ _ Ht Hpt Hcpu), (u64_sub_le _ _ Hsys Hpresys Hsy).
  rewrite !Forall_cons in Hmem. destruct Hmem as (?&?&?&?&?&_).
  split.
  { repeat (apply Forall_cons; split); try apply Forall_nil; try done; apply u64_to_N; try done;
      unfold is_u64 in *; lia. }
  assert (is_u64 used) as Hused64 by done. unfold is_u64 in Hu, Hl, Hsys, Hpresys, Ht, Hpt, Hused64.
  split; [done|]. split; [lia|]. split; [exists sys, presys; split_and!; try done; lia|].
  exists s, usage. split; [done|]. split; [done|]. rewrite Z2N.id by lia. subst used.
  assert (is_u64 (inactive_file s)) as Hi.
  { destruct s; cbn in Hc; rewrite !Forall_cons in Hc; apply Hc. }
  case_decide; [by apply u64_sub_le|apply u64_sub_wraps; [done|done|lia]].
Qed.

(** Whatever the statistics and the instants at which they come, two messages
    of a metrics loop are at least ten seconds apart. *)
Theorem metrics_throttled b callback last items :
  StronglySorted (λ x y, x.1 + METRICS_INTERVAL ≤ y.1)%Z
    (metrics_loop b callback last items) ∧
  Forall (λ x, last + METRICS_INTERVAL ≤ x.1)%Z (metrics_loop b callback last items).
Proof.
  assert (0 < METRICS_INTERVAL)%Z as Hpos by done.
  revert last. induction items as [|i items IH]; intros last; cbn [metrics_loop].
  { split; constructor. }
  destruct (Z.ltb_spec (it_now i - last) METRICS_INTERVAL) as [|Hge]; [apply IH|].
  destruct (it_stats i) as [stats|]; [|split; constructor].
  destruct (match ms_stats stats with Some _ => true | None => _ end); [|split; constructor].
  destruct (IH (it_now i)) as [Hs Hall].
  assert (Forall (λ x, last + METRICS_INTERVAL ≤ x.1)%Z
    (metrics_loop b callback (it_now i) items)) as Hall'
    by (eapply Forall_impl; [exact Hall|]; cbn; intros; lia).
  destruct callback; [|by split].
  destruct (metrics_message_from_container_stats stats b) as [[m|]|]; [|by split..].
  cbn [app]. split; constructor; try done. cbn. lia.
Qed.

End MetricsProps.

Module WaitBackendProps.
Import WaitBackend.

Definition answers (a : attempt) : Prop := a = Read (Some "HTTP/").

#[global] Instance answers_dec a : Decision (answers a).
Proof.
  unfold answers. destruct a as [| | |[s|]]; try (right; congruence).
  destruct (decide (s = "HTTP/")); [left; congruence|right; congruence].
Defined.

(** The time after a failed attempt. *)
Definition after (elapsed : Z) (p : attempt * Z) : Z := (elapsed + p.2 + WAIT_TIMEOUT)%Z.

Lemma wait_cons elapsed a took attempts :
  (elapsed ≤ STARTUP_TIMEOUT)%Z →
  wait_for_backend elapsed ((a, took) :: attempts) =
    if decide (answers a) then Some (Ok (), (elapsed + took)%Z)
    else wait_for_backend (after elapsed (a, took)) attempts.
Proof.
  intros He. cbn [wait_for_backend]. rewrite (proj2 (Z.ltb_ge _ _)) by done.
  unfold answers. destruct a as [| | |[s|]]; try by rewrite decide_False.
  destruct (decide (s = "HTTP/")) as [->|Hs]; [by rewrite decide_True|].
  rewrite decide_False by congruence. done.
Qed.

Lemma wait_timed_out elapsed attempts :
  (STARTUP_TIMEOUT < elapsed)%Z → wait_for_backend elapsed attempts = Some (Err (), elapsed).
Proof. intros H. destruct attempts; cbn; by rewrite (proj2 (Z.ltb_lt _ _)). Qed.

Lemma wait_spec elapsed attempts :
  match wait_for_backend elapsed attempts with
  | Some (Ok _, t) => ∃ pre took rest, attempts = pre ++ (Read (Some "HTTP/"), took) :: rest ∧
      Forall (λ p, ¬ answers p.1) pre ∧ t = (foldl after elapsed pre + took)%Z ∧
      (foldl after elapsed pre ≤ STARTUP_TIMEOUT)%Z
  | Some (Err _, t) => ∃ pre rest, attempts = pre ++ rest ∧ Forall (λ p, ¬ answers p.1) pre ∧
      t = foldl after elapsed pre ∧ (STARTUP_TIMEOUT < t)%Z ∧
      (pre = [] ∨ ∃ pre' p, pre = pre' ++ [p] ∧ (foldl after elapsed pre' ≤ STARTUP_TIMEOUT)%Z)
  | None => Forall (λ p, ¬ answers p.1) attempts ∧
      (foldl after elapsed attempts ≤ STARTUP_TIMEOUT)%Z
  end.
Proof.
  revert elapsed. induction attempts as [|[a took] attempts IH]; intros elapsed;
    (destruct (Z.ltb_spec STARTUP_TIMEOUT elapsed) as [Hout|Hin];
     [rewrite wait_timed_out by done; exists []; eexists; by repeat (split; auto)|]).
  - cbn [wait_for_backend]. rewrite (proj2 (Z.ltb_ge _ _)) by done. by split; [constructor|].
  - rewrite wait_cons by done. destruct (decide (answers a)) as [Ha|Hna].
    + unfold answers in Ha. subst a. exists [], took, attempts. by repeat split; try constructor.
    + specialize (IH (after elapsed (a, took))).
      destruct (wait_for_backend _ attempts) as [[[] t]|].
      * destruct IH as (pre & took' & rest & -> & Hpre & -> & Hle).
        exists ((a, took) :: pre), took', rest. repeat split; try done. by constructor.
      * destruct IH as (pre & rest & -> & Hpre & -> & Hlt & Hlast).
        exists ((a, took) :: pre), rest. split; [done|]. split; [by constructor|].
        split; [done|]. split; [done|]. right.
        destruct Hlast as [->|(pre' & p & -> & Hle)]; [by exists [], (a, took)|].
        by exists ((a, took) :: pre'), p.
      * destruct IH as [Hall Hle]. split; [by constructor|done].
Qed.

Lemma after_bounds attempts elapsed most :
  Forall (λ p, 0 ≤ p.2 ≤ most)%Z attempts →
  (elapsed + Z.of_nat (length attempts) * WAIT_TIMEOUT ≤ foldl after elapsed attempts)%Z.
Proof.
  intros Hall. revert elapsed. induction Hall as [|[a took] attempts Ha _ IH]; intros elapsed; [simpl; lia|].
  cbn [length foldl]. specialize (IH (after elapsed (a, took))). unfold after in *. cbn in *. lia.
Qed.

(** Waiting for a backend ends: among any 3001 attempts (of any duration) one is
    answered or the call has timed out. It succeeds exactly at the first attempt that
    reads the start of an HTTP response, when that attempt began within five minutes; it
    fails only after five minutes without one, and overruns them by no more than one
    attempt and a pause. *)
Theorem wait_for_backend_ends attempts most :
  Forall (λ p, 0 ≤ p.2 ≤ most)%Z attempts → 3001 ≤ length attempts →
  ∃ r t pre rest, wait_for_backend 0 attempts = Some (r, t) ∧ attempts = pre ++ rest ∧
    Forall (λ p, ¬ answers p.1) pre ∧ (t ≤ STARTUP_TIMEOUT + most + WAIT_TIMEOUT)%Z ∧
    match r with
    | Ok _ => ∃ took, head rest = Some (Read (Some "HTTP/"), took) ∧
        (foldl after 0 pre ≤ STARTUP_TIMEOUT)%Z
    | Err _ => (STARTUP_TIMEOUT < t)%Z
    end.
Proof.
  intros Hall Hlen. pose proof (wait_spec 0 attempts) as Hw.
  destruct (wait_for_backend 0 attempts) as [[[[]|[]] t]|] eqn:Hr.
  - destruct Hw as (pre & took & rest & -> & Hpre & Ht & Hle).
    exists (Ok ()), t, pre, ((Read (Some "HTTP/"), took) :: rest). repeat split; try done; [|by exists took].
    apply Forall_app in Hall as [_ [Htook _]%Forall_cons]. cbn in Htook.
    assert (0 ≤ WAIT_TIMEOUT)%Z by done. lia.
  - destruct Hw as (pre & rest & -> & Hpre & Ht & Hlt & Hlast).
    exists (Err ()), t, pre, rest. repeat split; try done.
    destruct Hlast as [->|(pre' & p & -> & Hle)]; [cbn in Ht; subst t; by vm_compute in Hlt|].
    rewrite foldl_app in Ht. cbn in Ht. unfold after in Ht at 1.
    rewrite !Forall_app in Hall. destruct Hall as [[_ [Hp _]%Forall_cons] _]. lia.
  - destruct Hw as [_ Hle]. pose proof (after_bounds attempts 0 most Hall).
    assert (Z.of_nat (length attempts) * WAIT_TIMEOUT ≤ STARTUP_TIMEOUT)%Z as Hx by lia.
    unfold WAIT_TIMEOUT, STARTUP_TIMEOUT, from_millis, from_secs in Hx. lia.
Qed.

End WaitBackendProps.

(** ** A daemon, and witnesses *)

(** A daemon that never fails without a reason; [port] is what it reports for the port of
    a running container. *)
Module ExampleDocker.
Import DockerApi DockerCommands.

Record box := MkBox { conts : gmap string bool; imgs : gset string }.

Section Daemon.
Variable port : option string.

Definition info (is_running : bool) : ContainerInfo := {|
  running := Some is_running;
  ports := Some {[ PORT_KEY := Some [{| host_ip := None; host_port := port |}] ]} |}.

Definition set_cont (id : string) (r : bool) (d : box) : box :=
  MkBox (<[id := r]> (conts d)) (imgs d).

#[local] Instance example_docker : Docker := {|
  daemon := box;
  inspect_container id d :=
    (d, match conts d !! id with Some r => Ok (info r) | None => Err (ServerError 404) end);
  inspect_image im d :=
    (d, if decide (im ∈ imgs d) then Ok () else Err (ServerError 404));
  create_image im _ d := (MkBox (conts d) ({[im]} ∪ imgs d), [Ok ()]);
  create_container id _ d :=
    match conts d !! id with
    | None => (set_cont id false d, Ok ())
    | Some _ => (d, Err (ServerError 409))
    end;
  start_container id d :=
    match conts d !! id with
    | Some _ => (set_cont id true d, Ok ())
    | None => (d, Err (ServerError 404))
    end;
  kill_container id d :=
    match conts d !! id with
    | Some true => (set_cont id false d, Ok ())
    | Some false => (d, Err (ServerError 409))
    | None => (d, Err (ServerError 404))
    end;
  stop_container id _ d :=
    match conts d !! id with
    | Some _ => (set_cont id false d, Ok ())
    | None => (d, Err (ServerError 404))
    end
|}.

Definition example_docker_laws : DockerLaws example_docker.
Proof.
  refine {| containers := (conts : @daemon example_docker → _);
            images := (imgs : @daemon example_docker → _) |}; cbn.
  - intros id d. split; [done|]. by destruct (conts d !! id).
  - intros im d. split; [done|]. split; [done|]. by case_decide.
  - intros im cred d. done.
  - intros id c d. destruct (conts d !! id) eqn:Hd; [done|]. split; [|split; [done|]].
    + intros id' Hid. by apply lookup_insert_ne.
    + apply lookup_insert_eq.
  - intros id d. destruct (conts d !! id) eqn:Hd; [|done]. split.
    + intros id' Hid. by apply lookup_insert_ne.
    + apply lookup_insert_eq.
  - intros id d. destruct (conts d !! id) as [[]|] eqn:Hd; [|done|done]. split.
    + intros id' Hid. by apply lookup_insert_ne.
    + apply lookup_insert_eq.
  - intros id t d. destruct (conts d !! id) eqn:Hd; [|done]. split.
    + intros id' Hid. by apply lookup_insert_ne.
    + apply lookup_insert_eq.
Defined.

End Daemon.
End ExampleDocker.

Module DockerWitness.
Import DockerTypes DockerCommands DockerApi DockerRuntime DockerProps Metrics MetricsProps.
Import WaitBackend WaitBackendProps ExampleDocker.

Definition D0 : Docker := example_docker (Some "32768").
Definition D1 : Docker := example_docker None.

Definition d0 : box := MkBox {[ "plane-b0" := true ]} ∅.
Definition from_value (j : json) : option DockerExecutorConfig :=
  match j with JStr image => Some (from_image_with_defaults image) | _ => None end.
Definition config : DockerRuntimeConfig := {|
  rt_runtime := None; rt_log_config := None; rt_mount_base := None; rt_auto_prune := None;
  rt_cleanup_min_age := None |}.

Definition spawned (D : Docker) : @daemon D → @daemon D * result RuntimeError SpawnResult :=
  @spawn D from_value config "b1" (JStr "im") None None.

Lemma terminate_correct_witness :
  conts (@terminate D0 "b0" false d0).1 !! "plane-b0" = Some false.
Proof.
  pose proof (@terminate_correct D0 (example_docker_laws (Some "32768")) "b0" false d0) as H.
  apply H.
Defined.

Lemma spawn_correct_witness :
  conts (spawned D1 d0).1 !! "plane-b1" = Some true ∧ (spawned D1 d0).2 = Err NoPort.
Proof.
  pose proof (@spawn_correct D1 (example_docker_laws None) from_value config "b1" (JStr "im")
    None None d0) as H.
  fold (spawned D1) in H.
  assert ((spawned D1 d0).2 = Err NoPort) as Hr by (vm_compute; reflexivity).
  destruct (spawned D1 d0) as [d' r]. cbn in Hr. subst r. destruct H as (_ & _ & Hrun).
  split; [exact Hrun|reflexivity].
Defined.

Definition end_event : EventMessage := {|
  ev_action := Some "die";
  ev_actor := Some (Some {[ PLANE_DOCKER_LABEL := "true"; "name" := "plane-b1";
                            "exitCode" := "-137" ]}) |}.

Lemma handle_event_spec_witness :
  handle_event end_event = Send {| te_backend_id := "b1"; te_exit_code := Some (-137)%Z |}.
Proof.
  apply (handle_event_spec end_event "b1" (Some (-137)%Z)). eexists. split; [reflexivity|].
  split; [by eexists|]. split; [reflexivity|]. split.
  { split; [done|]. split; [apply Nat.leb_le|]; vm_compute; reflexivity. }
  split; [done|]. vm_compute. reflexivity.
Defined.

Definition stats : Stats := {|
  ms_stats := Some (V2 1 2 3 4 5 6 7 8 9 1000); ms_usage := Some 400%Z; ms_limit := Some 500%Z;
  system_cpu_usage := Some 90%Z; presystem_cpu_usage := Some 70%Z;
  total_usage := 9; pretotal_usage := 4 |}.

Lemma metrics_bounds_witness :
  ∃ m, metrics_message_from_container_stats stats "b1" = Ok (Some m) ∧
    Z.of_N (Protocol.bm_cpu_used m) = 5%Z.
Proof.
  assert (∃ m, metrics_message_from_container_stats stats "b1" = Ok (Some m)) as [m Hm]
    by (eexists; vm_compute; reflexivity).
  exists m. split; [exact Hm|].
  destruct (metrics_bounds stats "b1" m) as (_ & _ & Hcpu & _); [|exact Hm|exact Hcpu].
  split; [intros s [= <-]|]; cbn; unfold is_u64; repeat constructor; vm_compute; congruence.
Defined.

Lemma wait_for_backend_ends_witness :
  ∃ r t, wait_for_backend 0 (replicate 3001 (ConnectFailed, 0%Z)) = Some (r, t).
Proof.
  destruct (wait_for_backend_ends (replicate 3001 (ConnectFailed, 0%Z)) 0)
    as (r & t & pre & rest & Hw & _).
  - apply Forall_replicate. cbn. lia.
  - rewrite length_replicate. lia.
  - exists r, t. exact Hw.
Defined.

End DockerWitness.
