(* ===== verification/Config.v ===== *)
(** * Configurations and command lines

    The configurations of the components and the options they are made from:
    [ProxyConfig] ([proxy/mod.rs], [proxy/command.rs]), [DnsConfig] ([dns/mod.rs],
    [dns/command.rs]), [ControllerConfig] ([controller/mod.rs], [controller/command.rs]) and
    [DroneConfig] ([drone/command.rs] and the choice of the runtime in [drone/mod.rs]).
    Parsing the arguments is the command-line library's; URLs are kept as their text. *)

From stdpp Require Import pretty.
From S2P Require Import Prelude Names BackendState Types Database Nodes DockerConfig Docker.

(** ** Proxy *)

Module ProxyConfig.

Inductive Protocol := Http | Https.
Definition as_str (p : Protocol) : string := match p with Http => "http" | Https => "https" end.

Record ServerPortConfig := { http_port : Z; https_port : option Z }.

Record AcmeEabConfiguration := { eab_key_id : string; eab_key : string }.

Inductive ConfigError := Decode | EabIncomplete | MissingEmail | MissingEndpoint.

Record AcmeConfig := {
  endpoint : string;
  mailto_email : string;
  acme_eab_keypair : option AcmeEabConfiguration;
  accept_insecure_certs_for_testing : bool
}.

Definition is_false (value : bool) : bool := negb value.

Record t := {
  name : string;
  controller_url : string;
  cluster : string;
  cert_path : option string;
  port_config : ServerPortConfig;
  acme_config : option AcmeConfig;
  root_redirect_url : option string
}.

(** [ProxyOpts] *)
Record ProxyOpts := {
  o_name : option string;
  o_controller_url : string;
  o_cluster : string;
  o_https : bool;
  o_http_port : option Z;
  o_https_port : option Z;
  o_cert_path : option string;
  o_acme_endpoint : option string;
  o_acme_email : option string;
  o_acme_eab_kid : option string;
  o_acme_eab_hmac_key : option string;
  o_root_redirect_url : option string
}.

Definition LOCAL_HTTP_PORT : Z := 9090.
Definition PROD_HTTP_PORT : Z := 80.
Definition PROD_HTTPS_PORT : Z := 443.

Section Decode.
(** [data_encoding::BASE64URL_NOPAD.decode] *)
Context (b64_decode : string → option (list N)).

Definition eab_key_b64 (c : AcmeEabConfiguration) : string := eab_key c.

Definition eab_new (key_id key_b64 : string) : result ConfigError AcmeEabConfiguration :=
  let? _ := ok_or (b64_decode key_b64) Decode in
  Ok {| eab_key_id := key_id; eab_key := key_b64 |}.

Definition key_bytes (c : AcmeEabConfiguration) : result ConfigError (list N) :=
  ok_or (b64_decode (eab_key c)) Decode.

Definition ports (https : bool) (http_port https_port : option Z) : ServerPortConfig :=
  match https, http_port, https_port with
  | false, None, None => {| http_port := LOCAL_HTTP_PORT; https_port := None |}
  | true, None, None => {| http_port := PROD_HTTP_PORT; https_port := Some PROD_HTTPS_PORT |}
  | true, Some http_port, None =>
      {| http_port := http_port; https_port := Some PROD_HTTPS_PORT |}
  | _, None, Some https_port => {| http_port := PROD_HTTP_PORT; https_port := Some https_port |}
  | _, Some http_port, https_port => {| http_port := http_port; https_port := https_port |}
  end.

Definition eab_keypair (o : ProxyOpts) : result ConfigError (option AcmeEabConfiguration) :=
  match o_acme_eab_hmac_key o, o_acme_eab_kid o with
  | Some hmac_key, Some kid => let? c := eab_new kid hmac_key in Ok (Some c)
  | None, Some _ | Some _, None => Err EabIncomplete
  | None, None => Ok None
  end.

Definition acme (o : ProxyOpts) (eab : option AcmeEabConfiguration)
  : result ConfigError (option AcmeConfig) :=
  match o_acme_endpoint o, o_acme_email o with
  | Some _, None => Err MissingEmail
  | None, Some _ => Err MissingEndpoint
  | Some endpoint, Some email =>
      Ok (Some {| endpoint := endpoint; mailto_email := email; acme_eab_keypair := eab;
                  accept_insecure_certs_for_testing := false |})
  | None, None => Ok None
  end.

Definition into_config (o : ProxyOpts) (sample : nat → nat) : result ConfigError t :=
  let name := Names.or_random Names.ProxyName (o_name o) sample in
  let port_config := ports (o_https o) (o_http_port o) (o_https_port o) in
  let? acme_eab_keypair := eab_keypair o in
  let? acme_config := acme o acme_eab_keypair in
  Ok {| name := name; controller_url := o_controller_url o; cluster := o_cluster o;
        cert_path := o_cert_path o; port_config := port_config; acme_config := acme_config;
        root_redirect_url := o_root_redirect_url o |}.

End Decode.
End ProxyConfig.

(** ** DNS server *)

Module DnsConfig.

Record t := { name : string; controller_url : string; port : Z; zone : option string }.

Record DnsOpts := {
  o_name : option string; o_controller_url : string; o_zone : string; o_port : Z
}.

Definition into_config (o : DnsOpts) (sample : nat → nat) : t := {|
  name := Names.or_random Names.AcmeDnsServerName (o_name o) sample;
  controller_url := o_controller_url o; port := o_port o; zone := Some (o_zone o) |}.

End DnsConfig.

(** ** Controller *)

Module ControllerConfig.

Record t := {
  db_url : string;
  bind_addr : SocketAddr;
  id : string;
  controller_url : string;
  default_cluster : option string;
  cleanup_min_age_days : option Z;
  cleanup_batch_size : option Z;
  forward_auth : option string;
  best_of : Z
}.

Record ControllerOpts := {
  o_db : string;
  o_port : N;
  o_host : IpAddr;
  o_controller_url : option string;
  o_default_cluster : option string;
  o_cleanup_min_age_days : option Z;
  o_forward_auth : option string;
  o_best_of : Z
}.

Section Url.
(** [Url::parse] and the [Display] of an address. *)
Context (url_parse : string → option string) (ip_to_string : IpAddr → string).

Definition into_config (o : ControllerOpts) (sample : nat → nat) : result () t :=
  let addr := {| sa_ip := o_host o; sa_port := o_port o |} in
  let? controller_url := match o_controller_url o with
    | Some url => Ok url
    | None =>
        ok_or (url_parse ("http://" +:+ ip_to_string (o_host o) +:+ ":" +:+ pretty (o_port o))) ()
    end in
  Ok {| db_url := o_db o; bind_addr := addr;
        id := Names.new_random Names.ControllerName sample;
        controller_url := controller_url; default_cluster := o_default_cluster o;
        cleanup_min_age_days := o_cleanup_min_age_days o; cleanup_batch_size := None;
        forward_auth := o_forward_auth o; best_of := o_best_of o |}.

End Url.
End ControllerConfig.

(** ** Drone *)

Module DroneConfig.
Import DockerRuntime.

(** [UnixSocketRuntimeConfig] has only the path of the socket. *)
Inductive ExecutorConfig :=
| ExecDocker (config : DockerRuntimeConfig)
| ExecUnixSocket (socket_path : string).

Record t := {
  name : string;
  docker_config : option DockerRuntimeConfig;
  executor_config : option ExecutorConfig;
  controller_url : string;
  cluster : string;
  pool : string;
  ip : IpAddr;
  db_path : option string;
  auto_prune : option bool;
  cleanup_min_age : option Z
}.

Record DroneOpts := {
  o_name : option string;
  o_controller_url : string;
  o_cluster : string;
  o_ip : string;
  o_db : option string;
  o_docker_runtime : option string;
  o_executor_socket : option string;
  o_log_config : option string;
  o_pool : string;
  o_mount_base : option string;
  o_auto_prune_images : bool;
  o_auto_prune_containers_older_than_seconds : Z
}.

Inductive OptsError := LogConfig | Resolve.

Section Opts.
(** [serde_json::from_str] on the log configuration, and [to_socket_addrs]. *)
Context (parse_log_config : string → option string)
  (to_socket_addrs : string → option (list IpAddr)).

(** [util.rs]: the first address of version 4. *)
Definition resolve_hostname (hostname : string) : option IpAddr :=
  socket_addrs ← to_socket_addrs (hostname +:+ ":0");
  head (filter (λ a, match a with IpV4 _ => true | IpV6 _ => false end = true) socket_addrs).

Definition into_config (o : DroneOpts) (sample : nat → nat) : result OptsError t :=
  let name := Names.or_random Names.DroneName (o_name o) sample in
  let? log_config := transpose_map (λ s, ok_or (parse_log_config s) LogConfig) (o_log_config o) in
  let cleanup_min_age := from_secs (o_auto_prune_containers_older_than_seconds o) in
  let executor_config :=
    match o_executor_socket o with
    | Some socket_path => ExecUnixSocket socket_path
    | None => ExecDocker {|
        rt_runtime := o_docker_runtime o; rt_log_config := log_config;
        rt_mount_base := o_mount_base o; rt_auto_prune := Some (o_auto_prune_images o);
        rt_cleanup_min_age := Some cleanup_min_age |}
    end in
  let? ip := ok_or (resolve_hostname (o_ip o)) Resolve in
  Ok {| name := name; docker_config := None; executor_config := Some executor_config;
        controller_url := o_controller_url o; cluster := o_cluster o; pool := o_pool o;
        ip := ip; db_path := o_db o; auto_prune := None; cleanup_min_age := None |}.

End Opts.

(** The choice of the runtime in [Drone::run]; the deprecated top-level settings fill the
    ones that are not set. *)
Definition with_defaults (config : t) (d : DockerRuntimeConfig) : DockerRuntimeConfig := {|
  rt_runtime := rt_runtime d; rt_log_config := rt_log_config d;
  rt_mount_base := rt_mount_base d;
  rt_auto_prune := match rt_auto_prune d with Some b => Some b | None => auto_prune config end;
  rt_cleanup_min_age :=
    match rt_cleanup_min_age d with Some a => Some a | None => cleanup_min_age config end |}.

Inductive RuntimeChoiceError := BothConfigs | NoConfig.

Definition choose_runtime (config : t) : result RuntimeChoiceError ExecutorConfig :=
  match docker_config config, executor_config config with
  | Some _, Some _ => Err BothConfigs
  | Some d, None => Ok (ExecDocker (with_defaults config d))
  | None, Some (ExecDocker d) => Ok (ExecDocker (with_defaults config d))
  | None, Some (ExecUnixSocket p) => Ok (ExecUnixSocket p)
  | None, None => Err NoConfig
  end.

End DroneConfig.

(** ** Theorems *)

Module ConfigProps.

(** The ports of a proxy: an HTTPS port is served exactly when HTTPS was asked for by the
    flag or by a port, and given ports are used as they are. *)
Lemma ports_spec https http_port https_port :
  let p := ProxyConfig.ports https http_port https_port in
  (is_Some (ProxyConfig.https_port p) ↔ https = true ∨ is_Some https_port) ∧
  (∀ n, http_port = Some n → ProxyConfig.http_port p = n) ∧
  (∀ n, https_port = Some n → ProxyConfig.https_port p = Some n).
Proof. destruct https, http_port, https_port; cbn; naive_solver. Qed.

(** An accepted configuration has both halves of the ACME settings or neither, and an
    external account key that decodes. *)
Theorem proxy_config_sound b64 o sample c :
  ProxyConfig.into_config b64 o sample = Ok c →
  (is_Some (ProxyConfig.acme_config c) ↔ is_Some (ProxyConfig.o_acme_endpoint o)) ∧
  (is_Some (ProxyConfig.o_acme_endpoint o) ↔ is_Some (ProxyConfig.o_acme_email o)) ∧
  ∀ a k, ProxyConfig.acme_config c = Some a → ProxyConfig.acme_eab_keypair a = Some k →
    is_Some (b64 (ProxyConfig.eab_key k)) ∧ ∃ bytes, ProxyConfig.key_bytes b64 k = Ok bytes.
Proof.
  unfold ProxyConfig.into_config, ProxyConfig.eab_keypair, ProxyConfig.acme, ProxyConfig.eab_new,
    ProxyConfig.key_bytes.
  destruct (ProxyConfig.o_acme_eab_hmac_key o) as [k|], (ProxyConfig.o_acme_eab_kid o) as [i|];
    try done; [destruct (b64 k) eqn:Hk; [|done]|];
    destruct (ProxyConfig.o_acme_endpoint o), (ProxyConfig.o_acme_email o); try done;
    intros [= <-]; cbn; (split; [naive_solver|]); (split; [naive_solver|]);
    intros a k' [= <-]; cbn; intros [= <-]; cbn; rewrite Hk; naive_solver.
Qed.

(** What the command line of a drone makes is always accepted by [Drone::run], with the
    settings of the command line. *)
Theorem drone_opts_accepted parse_log addrs o sample c :
  DroneConfig.into_config parse_log addrs o sample = Ok c →
  ∃ e, DroneConfig.choose_runtime c = Ok e ∧ DroneConfig.executor_config c = Some e ∧
    (DroneConfig.o_executor_socket o = None ↔ ∃ d, e = DroneConfig.ExecDocker d) ∧
    ∃ bits, DroneConfig.ip c = IpV4 bits.
Proof.
  unfold DroneConfig.into_config. destruct (transpose_map _ _) as [log|]; [|done]. cbn [result_bind].
  unfold DroneConfig.resolve_hostname.
  destruct (addrs (DroneConfig.o_ip o +:+ ":0")) as [l|]; [|done]. cbn.
  destruct (filter _ l) as [|a l'] eqn:Hl; [done|]. cbn. intros [= <-]. cbn.
  assert (a ∈ a :: l') as Ha by apply list_elem_of_here. rewrite <- Hl in Ha.
  apply list_elem_of_filter in Ha as [Ha _]. destruct a as [bits|]; [|done].
  destruct (DroneConfig.o_executor_socket o); cbn; eexists; (split; [done|]);
    (split; [done|]); (split; [naive_solver|]); eauto.
Qed.

End ConfigProps.
