(* ===== verification/ConfigFile.v ===== *)
(** * Configurations as JSON

    The JSON forms of what runs a backend and of what starts a process: [DockerExecutorConfig]
    and its parts ([common/src/types/mod.rs]), the states that the cluster handler reports, the
    configurations of the four processes, [Plan] ([plane/src/lib.rs]) and the command that runs
    one of them from a file ([plane/src/main.rs]). *)

From S2P Require Import Prelude Names BackendState Types Encoding Database Nodes DockerConfig Docker Config.
Import Encoding RoundTrip.

(** The texts of URLs, addresses and of the container library's log configuration. *)
Class ConfigFormats := {
  url_parse : string → option string;
  ip_to_string : IpAddr → string;
  ip_parse : string → option IpAddr;
  ser_log_config : string → json;
  de_log_config : json → option string
}.

Class ConfigFormatsLaws (C : ConfigFormats) : Prop := {
  ip_parse_to_string a : ip_parse (ip_to_string a) = Some a;
  ser_log_config_some c : ser_log_config c ≠ JNull;
  de_ser_log_config c : de_log_config (ser_log_config c) = Some c
}.

Module ExecutorJson.
Import DockerTypes.
Section ExecutorJson.
Context {S : Serde}.
#[local] Notation decoded A := (result DeError A).

Definition ser_PullPolicy (p : PullPolicy) : json :=
  JStr match p with IfNotPresent => "IfNotPresent" | Always => "Always" | Never => "Never" end.
Definition de_PullPolicy (j : json) : decoded PullPolicy :=
  de_variants j (λ v c,
    if String.eqb v "IfNotPresent" then unit_variant IfNotPresent c
    else if String.eqb v "Always" then unit_variant Always c
    else if String.eqb v "Never" then unit_variant Never c
    else Err Invalid).

(** [DurationMicroSeconds<u64>] and [DurationSeconds<u64>], for durations in whole units. *)
Definition ser_DockerCpuPeriod (d : Z) : json := JNum (StdDuration.as_micros d).
Definition de_DockerCpuPeriod (j : json) : decoded Z :=
  let? n := de_int 0 (2^64 - 1) j in Ok (n * 1000)%Z.
Definition ser_DockerCpuTimeLimit (d : Z) : json := JNum (StdDuration.as_secs d).
Definition de_DockerCpuTimeLimit (j : json) : decoded Z :=
  let? n := de_int 0 (2^64 - 1) j in Ok (n * StdDuration.NANOS_PER_SEC)%Z.

Definition ser_ResourceLimits (l : ResourceLimits) : json :=
  ser_struct [("cpu_period", ser_option ser_DockerCpuPeriod (cpu_period l));
    ("cpu_period_percent", ser_option JNum (cpu_period_percent l));
    ("cpu_time_limit", ser_option ser_DockerCpuTimeLimit (cpu_time_limit l));
    ("memory_limit_bytes", ser_option JNum (memory_limit_bytes l));
    ("disk_limit_bytes", ser_option JNum (disk_limit_bytes l))].
Definition de_ResourceLimits (j : json) : decoded ResourceLimits :=
  de_fields ["cpu_period"; "cpu_period_percent"; "cpu_time_limit"; "memory_limit_bytes"; "disk_limit_bytes"] j (λ f,
    let? period := opt_field f "cpu_period" de_DockerCpuPeriod in
    let? percent := opt_field f "cpu_period_percent" de_u8 in
    let? time_limit := opt_field f "cpu_time_limit" de_DockerCpuTimeLimit in
    let? memory := opt_field f "memory_limit_bytes" de_i64 in
    let? disk := opt_field f "disk_limit_bytes" de_i64 in
    Ok {| cpu_period := period; cpu_period_percent := percent; cpu_time_limit := time_limit;
          memory_limit_bytes := memory; disk_limit_bytes := disk |}).

(** [#[serde(untagged)]]: the content of the variant alone. *)
Definition ser_DockerRegistryAuth (a : DockerRegistryAuth) : json :=
  match a with
  | UsernamePassword username password =>
      ser_struct [("username", JStr username); ("password", JStr password)]
  end.
Definition de_DockerRegistryAuth (j : json) : decoded DockerRegistryAuth :=
  de_fields ["username"; "password"] j (λ f,
    let? username := field f "username" de_str in
    let? password := field f "password" de_str in
    Ok (UsernamePassword username password)).

(** The variants are tried in their order. *)
Definition ser_Mount (m : Mount) : json :=
  match m with MountBool b => JBool b | MountPath path => JStr path end.
Definition de_Mount (j : json) : decoded Mount :=
  match de_bool j with
  | Ok b => Ok (MountBool b)
  | Err _ => let? path := de_str j in Ok (MountPath path)
  end.

(** [HashMap<String, String>]: the last of equal keys counts. *)
Definition ser_env (env : gmap string string) : json := JObj (prod_map id JStr <$> map_to_list env).
Fixpoint de_env_entries (m : list (string * json)) (env : gmap string string) : decoded (gmap string string) :=
  match m with
  | [] => Ok env
  | (k, v) :: m => let? s := de_str v in de_env_entries m (<[k := s]> env)
  end.
Definition de_env (j : json) : decoded (gmap string string) :=
  match j with JObj m => de_env_entries m ∅ | _ => Err Invalid end.

Definition ser_DockerExecutorConfig (c : DockerExecutorConfig) : json :=
  ser_struct [("image", JStr (image c)); ("pull_policy", ser_option ser_PullPolicy (pull_policy c));
    ("credentials", ser_option ser_DockerRegistryAuth (credentials c)); ("env", ser_env (env c));
    ("resource_limits", ser_ResourceLimits (resource_limits c)); ("mount", ser_option ser_Mount (mount c));
    ("network_name", ser_option JStr (network_name c))].
Definition de_DockerExecutorConfig (j : json) : decoded DockerExecutorConfig :=
  de_fields ["image"; "pull_policy"; "credentials"; "env"; "resource_limits"; "mount"; "network_name"] j (λ f,
    let? image := field f "image" de_str in
    let? policy := opt_field f "pull_policy" de_PullPolicy in
    let? credentials := opt_field f "credentials" de_DockerRegistryAuth in
    let? env := default_field f "env" ∅ de_env in
    let? limits := default_field f "resource_limits" ResourceLimits_default de_ResourceLimits in
    let? mount := opt_field f "mount" de_Mount in
    let? network := opt_field f "network_name" de_str in
    Ok {| image := image; pull_policy := policy; credentials := credentials; env := env;
          resource_limits := limits; mount := mount; network_name := network |}).

(** [serde_json::from_value] and [to_value], as the runtimes and the admin tool use them. *)
Definition from_value (j : json) : option DockerExecutorConfig :=
  match de_DockerExecutorConfig j with Ok c => Some c | Err _ => None end.
Definition to_value : DockerExecutorConfig → json := ser_DockerExecutorConfig.

End ExecutorJson.
End ExecutorJson.

(** ** The state of a cluster *)

Module ClusterJson.
Import Names Nodes.
Section ClusterJson.
Context {S : Serde}.
#[local] Notation decoded A := (result DeError A).

Definition ser_AnyNodeName (n : AnyNodeName) : json :=
  match n with
  | AnyProxy name => ser_variant "Proxy" (JStr name)
  | AnyDrone name => ser_variant "Drone" (JStr name)
  | AnyAcmeDnsServer name => ser_variant "AcmeDnsServer" (JStr name)
  end.
Definition de_AnyNodeName (j : json) : decoded AnyNodeName :=
  de_variants j (λ v c,
    if String.eqb v "Proxy" then let? s := newtype_variant c de_str in Ok (AnyProxy s)
    else if String.eqb v "Drone" then let? s := newtype_variant c de_str in Ok (AnyDrone s)
    else if String.eqb v "AcmeDnsServer" then let? s := newtype_variant c de_str in Ok (AnyAcmeDnsServer s)
    else Err Invalid).

Import Clusters.

Definition ser_NodeState (n : NodeState) : json :=
  ser_struct [("name", ser_AnyNodeName (ns_name n)); ("plane_version", JStr (ns_plane_version n));
    ("plane_hash", JStr (ns_plane_hash n)); ("controller", JStr (ns_controller n));
    ("controller_heartbeat_age", ser_duration (ns_controller_heartbeat_age n))].
Definition de_NodeState (j : json) : decoded NodeState :=
  de_fields ["name"; "plane_version"; "plane_hash"; "controller"; "controller_heartbeat_age"] j (λ f,
    let? name := field f "name" de_AnyNodeName in
    let? version := field f "plane_version" de_str in
    let? hash := field f "plane_hash" de_str in
    let? controller := field f "controller" de_str in
    let? age := field f "controller_heartbeat_age" de_duration in
    Ok {| ns_name := name; ns_plane_version := version; ns_plane_hash := hash; ns_controller := controller;
          ns_controller_heartbeat_age := age |}).

Definition ser_DroneState (d : DroneState) : json :=
  ser_struct [("ready", JBool (dst_ready d)); ("draining", JBool (dst_draining d));
    ("last_heartbeat_age", ser_duration (dst_last_heartbeat_age d));
    ("backend_count", JNum (dst_backend_count d)); ("node", ser_NodeState (dst_node d))].
Definition de_DroneState (j : json) : decoded DroneState :=
  de_fields ["ready"; "draining"; "last_heartbeat_age"; "backend_count"; "node"] j (λ f,
    let? ready := field f "ready" de_bool in
    let? draining := field f "draining" de_bool in
    let? age := field f "last_heartbeat_age" de_duration in
    let? count := field f "backend_count" de_u32 in
    let? node := field f "node" de_NodeState in
    Ok {| dst_ready := ready; dst_draining := draining; dst_last_heartbeat_age := age;
          dst_backend_count := count; dst_node := node |}).

Definition ser_ClusterState (c : ClusterState) : json :=
  ser_struct [("drones", ser_list ser_DroneState (cs_drones c)); ("proxies", ser_list ser_NodeState (cs_proxies c))].
Definition de_ClusterState (j : json) : decoded ClusterState :=
  de_fields ["drones"; "proxies"] j (λ f,
    let? drones := field f "drones" (de_list de_DroneState) in
    let? proxies := field f "proxies" (de_list de_NodeState) in
    Ok {| cs_drones := drones; cs_proxies := proxies |}).

End ClusterJson.
End ClusterJson.

(** ** The configurations of the processes *)

Module PlanJson.
Section PlanJson.
Context {S : Serde} `{C : ConfigFormats} `{Ext : Externals}.
#[local] Notation decoded A := (result DeError A).

Definition de_u16 := de_int 0 65535.
Definition de_url (j : json) : decoded string := let? s := de_str j in ok_or (url_parse s) Invalid.
Definition ser_ip (a : IpAddr) : json := JStr (ip_to_string a).
Definition de_ip (j : json) : decoded IpAddr := let? s := de_str j in ok_or (ip_parse s) Invalid.

Section Drone.
Import DroneConfig DockerRuntime.

Definition ser_DockerRuntimeConfig (c : DockerRuntimeConfig) : json :=
  ser_struct [("runtime", ser_option JStr (rt_runtime c)); ("log_config", ser_option ser_log_config (rt_log_config c));
    ("mount_base", ser_option JStr (rt_mount_base c)); ("auto_prune", ser_option JBool (rt_auto_prune c));
    ("cleanup_min_age", ser_optional_duration (rt_cleanup_min_age c))].
Definition de_DockerRuntimeConfig (j : json) : decoded DockerRuntimeConfig :=
  de_fields ["runtime"; "log_config"; "mount_base"; "auto_prune"; "cleanup_min_age"] j (λ f,
    let? runtime := opt_field f "runtime" de_str in
    let? log_config := opt_field f "log_config" (λ j, ok_or (de_log_config j) Invalid) in
    let? mount_base := opt_field f "mount_base" de_str in
    let? auto_prune := opt_field f "auto_prune" de_bool in
    let? age := default_field f "cleanup_min_age" None de_optional_duration in
    Ok {| rt_runtime := runtime; rt_log_config := log_config; rt_mount_base := mount_base;
          rt_auto_prune := auto_prune; rt_cleanup_min_age := age |}).

(** [#[serde(rename_all = "snake_case")]] *)
Definition ser_ExecutorConfig (e : ExecutorConfig) : json :=
  match e with
  | ExecDocker config => ser_variant "docker" (ser_DockerRuntimeConfig config)
  | ExecUnixSocket socket_path => ser_variant "unix_socket" (ser_struct [("socket_path", JStr socket_path)])
  end.
Definition de_ExecutorConfig (j : json) : decoded ExecutorConfig :=
  de_variants j (λ v c,
    if String.eqb v "docker" then let? d := newtype_variant c de_DockerRuntimeConfig in Ok (ExecDocker d)
    else if String.eqb v "unix_socket" then newtype_variant c (λ j,
      de_fields ["socket_path"] j (λ f, let? p := field f "socket_path" de_str in Ok (ExecUnixSocket p)))
    else Err Invalid).

(** The custom deserializer of [cleanup_min_age] has no default here: the field is required. *)
Definition ser_DroneConfig (c : DroneConfig.t) : json :=
  ser_struct [("name", JStr (name c)); ("docker_config", ser_option ser_DockerRuntimeConfig (docker_config c));
    ("executor_config", ser_option ser_ExecutorConfig (executor_config c));
    ("controller_url", JStr (controller_url c)); ("cluster", JStr (cluster c)); ("pool", JStr (pool c));
    ("ip", ser_ip (ip c)); ("db_path", ser_option JStr (db_path c));
    ("auto_prune", ser_option JBool (auto_prune c));
    ("cleanup_min_age", ser_optional_duration (cleanup_min_age c))].
Definition de_DroneConfig (j : json) : decoded DroneConfig.t :=
  de_fields ["name"; "docker_config"; "executor_config"; "controller_url"; "cluster"; "pool"; "ip"; "db_path";
             "auto_prune"; "cleanup_min_age"] j (λ f,
    let? name := field f "name" de_str in
    let? docker_config := opt_field f "docker_config" de_DockerRuntimeConfig in
    let? executor_config := opt_field f "executor_config" de_ExecutorConfig in
    let? controller_url := field f "controller_url" de_url in
    let? cluster := field f "cluster" de_str in
    let? pool := field f "pool" de_str in
    let? ip := field f "ip" de_ip in
    let? db_path := opt_field f "db_path" de_str in
    let? auto_prune := opt_field f "auto_prune" de_bool in
    let? age := field f "cleanup_min_age" de_optional_duration in
    Ok {| name := name; docker_config := docker_config; executor_config := executor_config;
          controller_url := controller_url; cluster := cluster; pool := pool; ip := ip; db_path := db_path;
          auto_prune := auto_prune; cleanup_min_age := age |}).

End Drone.

Section Others.

Definition ser_ControllerConfig (c : ControllerConfig.t) : json :=
  ser_struct [("db_url", JStr (ControllerConfig.db_url c)); ("bind_addr", ser_addr (ControllerConfig.bind_addr c));
    ("id", JStr (ControllerConfig.id c)); ("controller_url", JStr (ControllerConfig.controller_url c));
    ("default_cluster", ser_option JStr (ControllerConfig.default_cluster c));
    ("cleanup_min_age_days", ser_option JNum (ControllerConfig.cleanup_min_age_days c));
    ("cleanup_batch_size", ser_option JNum (ControllerConfig.cleanup_batch_size c));
    ("forward_auth", ser_option JStr (ControllerConfig.forward_auth c));
    ("best_of", JNum (ControllerConfig.best_of c))].
Definition de_ControllerConfig (j : json) : decoded ControllerConfig.t :=
  de_fields ["db_url"; "bind_addr"; "id"; "controller_url"; "default_cluster"; "cleanup_min_age_days";
             "cleanup_batch_size"; "forward_auth"; "best_of"] j (λ f,
    let? db_url := field f "db_url" de_str in
    let? bind_addr := field f "bind_addr" de_addr in
    let? id := field f "id" de_str in
    let? controller_url := field f "controller_url" de_url in
    let? default_cluster := opt_field f "default_cluster" de_str in
    let? days := opt_field f "cleanup_min_age_days" de_i32 in
    let? batch := opt_field f "cleanup_batch_size" de_i32 in
    let? forward_auth := opt_field f "forward_auth" de_url in
    let? best_of := field f "best_of" de_i64 in
    Ok {| ControllerConfig.db_url := db_url; ControllerConfig.bind_addr := bind_addr; ControllerConfig.id := id;
          ControllerConfig.controller_url := controller_url; ControllerConfig.default_cluster := default_cluster;
          ControllerConfig.cleanup_min_age_days := days; ControllerConfig.cleanup_batch_size := batch;
          ControllerConfig.forward_auth := forward_auth; ControllerConfig.best_of := best_of |}).

Definition ser_DnsConfig (c : DnsConfig.t) : json :=
  ser_struct [("name", JStr (DnsConfig.name c)); ("controller_url", JStr (DnsConfig.controller_url c));
    ("port", JNum (DnsConfig.port c)); ("zone", ser_option JStr (DnsConfig.zone c))].
Definition de_DnsConfig (j : json) : decoded DnsConfig.t :=
  de_fields ["name"; "controller_url"; "port"; "zone"] j (λ f,
    let? name := field f "name" de_str in
    let? controller_url := field f "controller_url" de_url in
    let? port := field f "port" de_u16 in
    let? zone := opt_field f "zone" de_str in
    Ok {| DnsConfig.name := name; DnsConfig.controller_url := controller_url; DnsConfig.port := port;
          DnsConfig.zone := zone |}).

Import ProxyConfig.

Definition ser_ServerPortConfig (c : ServerPortConfig) : json :=
  ser_struct [("http_port", JNum (http_port c)); ("https_port", ser_option JNum (https_port c))].
Definition de_ServerPortConfig (j : json) : decoded ServerPortConfig :=
  de_fields ["http_port"; "https_port"] j (λ f,
    let? http_port := field f "http_port" de_u16 in
    let? https_port := opt_field f "https_port" de_u16 in
    Ok {| http_port := http_port; https_port := https_port |}).

Definition ser_AcmeEabConfiguration (c : AcmeEabConfiguration) : json :=
  ser_struct [("key_id", JStr (eab_key_id c)); ("key", JStr (eab_key c))].
Definition de_AcmeEabConfiguration (j : json) : decoded AcmeEabConfiguration :=
  de_fields ["key_id"; "key"] j (λ f,
    let? key_id := field f "key_id" de_str in
    let? key := field f "key" de_str in
    Ok {| eab_key_id := key_id; eab_key := key |}).

(** [#[serde(default, skip_serializing_if = "is_false")]] *)
Definition ser_AcmeConfig (c : AcmeConfig) : json :=
  ser_struct ([("endpoint", JStr (endpoint c)); ("mailto_email", JStr (mailto_email c));
    ("acme_eab_keypair", ser_option ser_AcmeEabConfiguration (acme_eab_keypair c))] ++
    if is_false (accept_insecure_certs_for_testing c) then []
    else [("accept_insecure_certs_for_testing", JBool (accept_insecure_certs_for_testing c))]).
Definition de_AcmeConfig (j : json) : decoded AcmeConfig :=
  de_fields ["endpoint"; "mailto_email"; "acme_eab_keypair"; "accept_insecure_certs_for_testing"] j (λ f,
    let? endpoint := field f "endpoint" de_url in
    let? mailto_email := field f "mailto_email" de_str in
    let? keypair := opt_field f "acme_eab_keypair" de_AcmeEabConfiguration in
    let? insecure := default_field f "accept_insecure_certs_for_testing" false de_bool in
    Ok {| endpoint := endpoint; mailto_email := mailto_email; acme_eab_keypair := keypair;
          accept_insecure_certs_for_testing := insecure |}).

Definition ser_ProxyConfig (c : ProxyConfig.t) : json :=
  ser_struct [("name", JStr (name c)); ("controller_url", JStr (controller_url c)); ("cluster", JStr (cluster c));
    ("cert_path", ser_option JStr (cert_path c)); ("port_config", ser_ServerPortConfig (port_config c));
    ("acme_config", ser_option ser_AcmeConfig (acme_config c));
    ("root_redirect_url", ser_option JStr (root_redirect_url c))].
Definition de_ProxyConfig (j : json) : decoded ProxyConfig.t :=
  de_fields ["name"; "controller_url"; "cluster"; "cert_path"; "port_config"; "acme_config"; "root_redirect_url"] j (λ f,
    let? name := field f "name" de_str in
    let? controller_url := field f "controller_url" de_url in
    let? cluster := field f "cluster" de_str in
    let? cert_path := opt_field f "cert_path" de_str in
    let? port_config := field f "port_config" de_ServerPortConfig in
    let? acme_config := opt_field f "acme_config" de_AcmeConfig in
    let? root_redirect_url := opt_field f "root_redirect_url" de_url in
    Ok {| name := name; controller_url := controller_url; cluster := cluster; cert_path := cert_path;
          port_config := port_config; acme_config := acme_config; root_redirect_url := root_redirect_url |}).

End Others.

(** [Plan] *)
Inductive Plan :=
| PController (c : ControllerConfig.t)
| PDns (c : DnsConfig.t)
| PProxy (c : ProxyConfig.t)
| PDrone (c : DroneConfig.t).

Definition ser_Plan (p : Plan) : json :=
  match p with
  | PController c => ser_variant "Controller" (ser_ControllerConfig c)
  | PDns c => ser_variant "Dns" (ser_DnsConfig c)
  | PProxy c => ser_variant "Proxy" (ser_ProxyConfig c)
  | PDrone c => ser_variant "Drone" (ser_DroneConfig c)
  end.
Definition de_Plan (j : json) : decoded Plan :=
  de_variants j (λ v c,
    if String.eqb v "Controller" then let? c := newtype_variant c de_ControllerConfig in Ok (PController c)
    else if String.eqb v "Dns" then let? c := newtype_variant c de_DnsConfig in Ok (PDns c)
    else if String.eqb v "Proxy" then let? c := newtype_variant c de_ProxyConfig in Ok (PProxy c)
    else if String.eqb v "Drone" then let? c := newtype_variant c de_DroneConfig in Ok (PDrone c)
    else Err Invalid).

End PlanJson.
End PlanJson.

(** ** The command line *)

Module Main.
Import PlanJson.
Section Main.
Context {S : Serde} `{C : ConfigFormats} `{Ext : Externals}.

Inductive Command :=
| CController (o : ControllerConfig.ControllerOpts)
| CDrone (o : DroneConfig.DroneOpts)
| CProxy (o : ProxyConfig.ProxyOpts)
| CDns (o : DnsConfig.DnsOpts)
| RunConfig (config_file : string)
| Migrate (db : string)
| Admin
| Version.

(** What is run: a process with its configuration, a migration, the admin tool, or nothing but the
    printed version. *)
Inductive action := Process (p : Plan) | Migration (db : string) | AdminTool | PrintVersion.

Inductive RunError := BadOptions | NotJson | NoFile | BadConfig (e : DeError).

(** [Path::extension]: of the last component, what follows its last dot, unless that starts it. *)
Fixpoint after_last_dot (s : string) : option string :=
  match s with
  | EmptyString => None
  | String a s =>
      match after_last_dot s with
      | Some e => Some e
      | None => if Ascii.eqb a "." then Some s else None
      end
  end.
Definition extension (path : string) : option string :=
  match last (Paths.components path) with
  | Some (Paths.Normal (String _ s)) => after_last_dot s
  | _ => None
  end.

(** The decoder of keys, the name of the process, the parsers of the drone's options, and the
    files. *)
Context (b64_decode : string → option (list N)) (sample : nat → nat)
  (parse_log_config : string → option string) (to_socket_addrs : string → option (list IpAddr))
  (open_file : string → option string).

Definition opts {E A} (r : result E A) : result RunError A := map_err (λ _, BadOptions) r.

Definition run (c : Command) : result RunError action :=
  match c with
  | CController o =>
      let? c := opts (ControllerConfig.into_config url_parse ip_to_string o sample) in Ok (Process (PController c))
  | CDrone o =>
      let? c := opts (DroneConfig.into_config parse_log_config to_socket_addrs o sample) in
      Ok (Process (PDrone c))
  | CProxy o =>
      let? c := opts (ProxyConfig.into_config b64_decode o sample) in Ok (Process (PProxy c))
  | CDns o => Ok (Process (PDns (DnsConfig.into_config o sample)))
  | Migrate db => Ok (Migration db)
  | Admin => Ok AdminTool
  | Version => Ok PrintVersion
  | RunConfig config_file =>
      if bool_decide (extension config_file = Some "json") then
        let? text := ok_or (open_file config_file) NoFile in
        let? p := map_err BadConfig (decode de_Plan text) in
        Ok (Process p)
      else Err NotJson
  end.

(** The format of the log, by [PLANE_LOG_JSON] ([init_tracing.rs]). *)
Definition use_json (plane_log_json : option string) : bool :=
  match plane_log_json with Some s => negb (bool_decide (s = "false")) | None => false end.

End Main.
End Main.

(** ** Round trips *)

Module ConfigFileProps.

Section Executor.
Import DockerTypes ExecutorJson.
Context {S : Serde} {SL : SerdeLaws S}.

(** The values that the types can hold, durations in the units of their encodings. *)
Definition micros (d : Z) : Prop := ∃ n, d = (n * 1000)%Z ∧ (0 ≤ n ≤ 2^64 - 1)%Z.
Definition seconds (d : Z) : Prop := ∃ n, d = (n * StdDuration.NANOS_PER_SEC)%Z ∧ (0 ≤ n ≤ 2^64 - 1)%Z.
Definition fits_limits (l : ResourceLimits) : Prop :=
  (∀ d, cpu_period l = Some d → micros d) ∧
  (∀ n, cpu_period_percent l = Some n → (0 ≤ n ≤ 255)%Z) ∧
  (∀ d, cpu_time_limit l = Some d → seconds d) ∧
  (∀ n, memory_limit_bytes l = Some n → i64 n) ∧ (∀ n, disk_limit_bytes l = Some n → i64 n).

Lemma policy_roundtrip p : de_PullPolicy (ser_PullPolicy p) = Ok p.
Proof. unfold de_PullPolicy, ser_PullPolicy, de_variants. rewrite de_enum_unit. by destruct p. Qed.
Lemma auth_roundtrip a : de_DockerRegistryAuth (ser_DockerRegistryAuth a) = Ok a.
Proof. destruct a. wire. Qed.
Lemma mount_roundtrip m : de_Mount (ser_Mount m) = Ok m.
Proof. by destruct m. Qed.
Lemma opt_policy o : de_option de_PullPolicy (ser_option ser_PullPolicy o) = Ok o.
Proof. rewrite (ser_option_some _ _ _ id); [by destruct o|]. intros x _. split; [done|]. apply policy_roundtrip. Qed.
Lemma opt_auth o : de_option de_DockerRegistryAuth (ser_option ser_DockerRegistryAuth o) = Ok o.
Proof. apply opt_struct; [intros [u p] _; by eexists|]. intros x _. apply auth_roundtrip. Qed.
Lemma opt_mount o : de_option de_Mount (ser_option ser_Mount o) = Ok o.
Proof. by destruct o as [[]|]. Qed.

Lemma env_entries l (env : gmap string string) :
  de_env_entries (prod_map id JStr <$> l) env = Ok (foldl (λ m p, <[p.1 := p.2]> m) env l).
Proof. revert env. induction l as [|[k v] l IH]; intros env; [done|]. cbn. apply IH. Qed.

Lemma foldl_inserts (l : list (string * string)) (env : gmap string string) : NoDup l.*1 → (∀ k, k ∈ l.*1 → env !! k = None) →
  foldl (λ m p, <[p.1 := p.2]> m) env l = (list_to_map l : gmap string string) ∪ env.
Proof.
  revert env. induction l as [|[k v] l IH]; intros env Hn He; cbn; [by rewrite (left_id_L ∅ (∪))|].
  apply NoDup_cons in Hn as [Hk Hn]. rewrite IH; [|done|].
  - rewrite <- insert_union_l. by rewrite insert_union_r by by apply not_elem_of_list_to_map_1.
  - intros k' Hk'. rewrite lookup_insert_ne by (intros ->; done). apply He. by right.
Qed.

Lemma env_roundtrip env : de_env (ser_env env) = Ok env.
Proof.
  unfold de_env, ser_env. rewrite env_entries, foldl_inserts; [|apply NoDup_fst_map_to_list|done].
  by rewrite list_to_map_to_list, (right_id_L ∅ (∪)).
Qed.

Lemma opt_period o : (∀ d, o = Some d → micros d) →
  de_option de_DockerCpuPeriod (ser_option ser_DockerCpuPeriod o) = Ok o.
Proof.
  intros Ho. rewrite (ser_option_some _ _ _ id); [by destruct o|]. intros d Hd. split; [done|].
  destruct (Ho d Hd) as (n & -> & Hn). unfold de_DockerCpuPeriod, ser_DockerCpuPeriod, StdDuration.as_micros.
  rewrite Z.div_mul by done. by rewrite int_roundtrip by done.
Qed.
Lemma opt_time_limit o : (∀ d, o = Some d → seconds d) →
  de_option de_DockerCpuTimeLimit (ser_option ser_DockerCpuTimeLimit o) = Ok o.
Proof.
  intros Ho. rewrite (ser_option_some _ _ _ id); [by destruct o|]. intros d Hd. split; [done|].
  destruct (Ho d Hd) as (n & -> & Hn). unfold de_DockerCpuTimeLimit, ser_DockerCpuTimeLimit, StdDuration.as_secs.
  rewrite Z.div_mul by done. by rewrite int_roundtrip by done.
Qed.

Lemma limits_roundtrip l : fits_limits l → de_ResourceLimits (ser_ResourceLimits l) = Ok l.
Proof.
  intros (H1 & H2 & H3 & H4 & H5). wire. rewrite opt_period by done. cbn [result_bind].
  unfold de_u8. rewrite opt_int by done. cbn [result_bind]. rewrite opt_time_limit by done. cbn [result_bind].
  autorewrite with encoding. cbn [result_bind]. autorewrite with encoding. by destruct l.
Qed.

(** The configuration of a container survives the request of a client, the tables and the drone: what
    was made with [to_value] is what the runtime reads with [from_value]. *)
Theorem executor_config_roundtrip c : fits_limits (resource_limits c) → from_value (to_value c) = Some c.
Proof.
  intros Hl. unfold from_value, to_value.
  assert (de_DockerExecutorConfig (ser_DockerExecutorConfig c) = Ok c) as ->; [|done].
  wire. rewrite opt_policy. cbn [result_bind]. rewrite opt_auth. cbn [result_bind]. rewrite env_roundtrip.
  cbn [result_bind]. rewrite limits_roundtrip by done. cbn [result_bind]. rewrite opt_mount. cbn [result_bind].
  autorewrite with encoding. by destruct c.
Qed.

End Executor.
(** *** Configurations *)

Section Plans.
Import PlanJson.
Context {S : Serde} {SL : SerdeLaws S} `{C : ConfigFormats} {CL : ConfigFormatsLaws C}.
Context `{Ext : Externals} `{EL : !ExternalLaws}.

Definition valid_url (u : string) : Prop := url_parse u = Some u.
Definition opt_valid_url (o : option string) : Prop := ∀ u, o = Some u → valid_url u.
Definition u16 (n : Z) : Prop := (0 ≤ n ≤ 65535)%Z.
Definition whole_age (o : option Z) : Prop :=
  ∀ d, o = Some d → (d ÷ 1000000 * 1000000 = d ∧ Z.abs d ≤ (2^63 - 1) * 1000)%Z.

Definition fits_executor (e : DroneConfig.ExecutorConfig) : Prop :=
  match e with
  | DroneConfig.ExecDocker c => whole_age (DockerRuntime.rt_cleanup_min_age c)
  | DroneConfig.ExecUnixSocket _ => True
  end.
Definition fits_plan (p : Plan) : Prop :=
  match p with
  | PController c =>
      valid_url (ControllerConfig.controller_url c) ∧ opt_valid_url (ControllerConfig.forward_auth c) ∧
      (∀ n, ControllerConfig.cleanup_min_age_days c = Some n → i32 n) ∧
      (∀ n, ControllerConfig.cleanup_batch_size c = Some n → i32 n) ∧ i64 (ControllerConfig.best_of c)
  | PDns c => valid_url (DnsConfig.controller_url c) ∧ u16 (DnsConfig.port c)
  | PProxy c =>
      valid_url (ProxyConfig.controller_url c) ∧ opt_valid_url (ProxyConfig.root_redirect_url c) ∧
      u16 (ProxyConfig.http_port (ProxyConfig.port_config c)) ∧
      (∀ n, ProxyConfig.https_port (ProxyConfig.port_config c) = Some n → u16 n) ∧
      (∀ a, ProxyConfig.acme_config c = Some a → valid_url (ProxyConfig.endpoint a))
  | PDrone c =>
      valid_url (DroneConfig.controller_url c) ∧ whole_age (DroneConfig.cleanup_min_age c) ∧
      (∀ d, DroneConfig.docker_config c = Some d → whole_age (DockerRuntime.rt_cleanup_min_age d)) ∧
      (∀ e, DroneConfig.executor_config c = Some e → fits_executor e)
  end.

Lemma url_roundtrip u : valid_url u → de_url (JStr u) = Ok u.
Proof. intros Hu. unfold de_url. cbn. by rewrite Hu. Qed.
Lemma opt_url o : opt_valid_url o → de_option de_url (ser_option JStr o) = Ok o.
Proof.
  intros Ho. rewrite (ser_option_some _ _ _ id); [by destruct o|]. intros u Hu. split; [done|].
  by apply url_roundtrip, Ho.
Qed.
Lemma ip_roundtrip a : de_ip (ser_ip a) = Ok a.
Proof. unfold de_ip. cbn. by rewrite ip_parse_to_string. Qed.
Lemma u16_roundtrip n : u16 n → de_u16 (JNum n) = Ok n.
Proof. apply int_roundtrip. Qed.
Lemma opt_u16 o : (∀ n, o = Some n → u16 n) → de_option de_u16 (ser_option JNum o) = Ok o.
Proof. apply opt_int. Qed.
Lemma age_roundtrip o : whole_age o → de_optional_duration (ser_optional_duration o) = Ok o.
Proof.
  intros Ho. rewrite duration_roundtrip.
  - destruct o as [d|]; [|done]. cbn. by rewrite (proj1 (Ho d eq_refl)).
  - intros d Hd. by apply Ho.
Qed.
Lemma opt_log_config o :
  de_option (λ j, ok_or (de_log_config j) Invalid) (ser_option ser_log_config o) = Ok o.
Proof.
  rewrite (ser_option_some _ _ _ id); [by destruct o|]. intros c _. split; [apply ser_log_config_some|].
  by rewrite de_ser_log_config.
Qed.

#[local] Hint Rewrite @ip_roundtrip @opt_log_config using apply _ : encoding.
#[local] Hint Rewrite @url_roundtrip @opt_url @u16_roundtrip @opt_u16 @age_roundtrip
  using (apply _ || assumption || tauto) : encoding.

Lemma docker_config_roundtrip c : whole_age (DockerRuntime.rt_cleanup_min_age c) →
  de_DockerRuntimeConfig (ser_DockerRuntimeConfig c) = Ok c.
Proof. intros Hc. wire. by destruct c. Qed.

Lemma executor_roundtrip e : fits_executor e → de_ExecutorConfig (ser_ExecutorConfig e) = Ok e.
Proof.
  intros He. unfold de_ExecutorConfig, ser_ExecutorConfig. destruct e; variant; [|wire].
  by rewrite docker_config_roundtrip.
Qed.

Lemma drone_config_roundtrip c : fits_plan (PDrone c) → de_DroneConfig (ser_DroneConfig c) = Ok c.
Proof.
  intros (Hu & Ha & Hd & He). wire. rewrite opt_struct; [|by eexists|].
  2: { intros x Hx. apply docker_config_roundtrip. by apply Hd. }
  cbn [result_bind]. rewrite (ser_option_some _ _ _ id).
  2: { intros x Hx. split; [destruct x; apply ser_variant_some|by apply executor_roundtrip, He]. }
  repeat (autorewrite with encoding; cbn [result_bind]). rewrite option_fmap_id. by destruct c.
Qed.

Lemma controller_config_roundtrip c : fits_plan (PController c) →
  de_ControllerConfig (ser_ControllerConfig c) = Ok c.
Proof. intros (? & ? & ? & ? & ?). wire. by destruct c. Qed.

Lemma dns_config_roundtrip c : fits_plan (PDns c) → de_DnsConfig (ser_DnsConfig c) = Ok c.
Proof. intros [? ?]. wire. by destruct c. Qed.

Lemma acme_config_roundtrip c : valid_url (ProxyConfig.endpoint c) → de_AcmeConfig (ser_AcmeConfig c) = Ok c.
Proof.
  assert (∀ o, de_option de_AcmeEabConfiguration (ser_option ser_AcmeEabConfiguration o) = Ok o) as Heab.
  { intros o. apply opt_struct; [by eexists|]. intros x _. wire. by destruct x. }
  intros Hc. unfold de_AcmeConfig, ser_AcmeConfig. destruct c as [e m k []]; cbn in Hc |- *;
    wire; rewrite Heab; done.
Qed.

Lemma proxy_config_roundtrip c : fits_plan (PProxy c) → de_ProxyConfig (ser_ProxyConfig c) = Ok c.
Proof.
  intros (? & ? & Hp & Hs & Ha). wire.
  assert (de_ServerPortConfig (ser_ServerPortConfig (ProxyConfig.port_config c)) = Ok (ProxyConfig.port_config c))
    as -> by (wire; by destruct (ProxyConfig.port_config c)).
  cbn [result_bind]. rewrite opt_struct; [|by eexists|intros x Hx; by apply acme_config_roundtrip, Ha].
  repeat (autorewrite with encoding; cbn [result_bind]). by destruct c.
Qed.

Lemma plan_roundtrip p : fits_plan p → de_Plan (ser_Plan p) = Ok p.
Proof.
  intros Hp. unfold de_Plan, ser_Plan. destruct p; variant;
    [rewrite controller_config_roundtrip|rewrite dns_config_roundtrip|rewrite proxy_config_roundtrip
    |rewrite drone_config_roundtrip]; done.
Qed.

(** A process can be started from a file with its configuration: what is run is what was written, from
    a file with the extension [json], and nothing from any other file. *)
Theorem run_config_starts b64 sample log_config addrs open_file file p :
  fits_plan p → open_file file = Some (encode ser_Plan p) →
  Main.run b64 sample log_config addrs open_file (Main.RunConfig file) =
    if bool_decide (Main.extension file = Some "json") then Ok (Main.Process p) else Err Main.NotJson.
Proof.
  intros Hp Hf. cbn [Main.run]. case_bool_decide; [|done]. rewrite Hf. cbn [ok_or result_bind].
  by rewrite (decode_encode _ _ _ _ (plan_roundtrip p Hp)).
Qed.

(** A configuration of a drone that leaves out the deprecated [cleanup_min_age] is refused, although one
    of its runtime may: its custom deserializer has no default. *)
Theorem drone_config_needs_age fs c :
  NoDup fs.*1 → "cleanup_min_age" ∉ fs.*1 → de_DroneConfig (ser_struct fs) ≠ Ok c.
Proof.
  intros Hn Ha. destruct (de_ser_struct ["name"; "docker_config"; "executor_config"; "controller_url"; "cluster";
    "pool"; "ip"; "db_path"; "auto_prune"; "cleanup_min_age"] fs Hn) as (f & Hf & Hs).
  unfold de_DroneConfig, de_fields. rewrite Hf. unfold field at 6.
  rewrite (Hs "cleanup_min_age") by set_solver. rewrite assoc_none by done.
  repeat (match goal with |- result_bind ?r _ ≠ _ => destruct r; cbn [result_bind]; [|done] end). done.
Qed.

Lemma runtime_config_needs_nothing : de_DockerRuntimeConfig (ser_struct []) =
  Ok {| DockerRuntime.rt_runtime := None; DockerRuntime.rt_log_config := None; DockerRuntime.rt_mount_base := None;
        DockerRuntime.rt_auto_prune := None; DockerRuntime.rt_cleanup_min_age := None |}.
Proof. wire. Qed.

End Plans.

(** *** Cluster states *)

Section Cluster.
Import ClusterJson Names Clusters.
Context {S : Serde} {SL : SerdeLaws S}.

(** An age that [chrono] can represent, and as it is read. *)
Definition age (d : Z) : Prop := (Z.abs d ≤ (2^63 - 1) * 1000)%Z.
Definition in_seconds (d : Z) : Z := (d ÷ 1000000 * 1000000)%Z.

Definition seconds_node (n : NodeState) : NodeState := {|
  ns_name := ns_name n; ns_plane_version := ns_plane_version n; ns_plane_hash := ns_plane_hash n;
  ns_controller := ns_controller n; ns_controller_heartbeat_age := in_seconds (ns_controller_heartbeat_age n) |}.
Definition seconds_drone (d : DroneState) : DroneState := {|
  dst_ready := dst_ready d; dst_draining := dst_draining d;
  dst_last_heartbeat_age := in_seconds (dst_last_heartbeat_age d); dst_backend_count := dst_backend_count d;
  dst_node := seconds_node (dst_node d) |}.
Definition fits_node (n : NodeState) : Prop := age (ns_controller_heartbeat_age n).
Definition fits_drone_state (d : DroneState) : Prop :=
  age (dst_last_heartbeat_age d) ∧ (0 ≤ dst_backend_count d ≤ 2^32 - 1)%Z ∧ fits_node (dst_node d).

Lemma list_roundtrip {A} (ser : A → json) (de : json → result DeError A) norm l :
  (∀ x, x ∈ l → de (ser x) = Ok (norm x)) → de_list de (ser_list ser l) = Ok (norm <$> l).
Proof.
  intros Hl. cbn. induction l as [|x l IH]; [done|]. cbn. rewrite Hl by by left.
  rewrite IH; [done|]. intros y Hy. apply Hl. by right.
Qed.

Lemma age_seconds d : age d → de_duration (ser_duration d) = Ok (in_seconds d).
Proof.
  intros [H1 H2]%num_seconds_fits. unfold de_duration, ser_duration. rewrite i64_roundtrip by done.
  cbn [result_bind]. by rewrite H2.
Qed.

Lemma node_name_roundtrip n : de_AnyNodeName (ser_AnyNodeName n) = Ok n.
Proof. unfold de_AnyNodeName, ser_AnyNodeName. destruct n; variant; done. Qed.

Lemma node_roundtrip n : fits_node n → de_NodeState (ser_NodeState n) = Ok (seconds_node n).
Proof. intros Hn. wire. rewrite node_name_roundtrip. cbn [result_bind de_str]. by rewrite age_seconds. Qed.

Lemma drone_roundtrip d : fits_drone_state d → de_DroneState (ser_DroneState d) = Ok (seconds_drone d).
Proof.
  intros (Ha & Hc & Hn). wire. rewrite age_seconds by done. cbn [result_bind]. unfold de_u32.
  rewrite int_roundtrip by done. cbn [result_bind]. by rewrite node_roundtrip.
Qed.

(** A client reads the state of a cluster as it is, with ages in whole seconds. *)
Theorem cluster_state_roundtrip c :
  (∀ d, d ∈ cs_drones c → fits_drone_state d) → (∀ n, n ∈ cs_proxies c → fits_node n) →
  decode de_ClusterState (encode ser_ClusterState c) =
    Ok {| cs_drones := seconds_drone <$> cs_drones c; cs_proxies := seconds_node <$> cs_proxies c |}.
Proof.
  intros Hd Hn. apply decode_encode. wire.
  rewrite (list_roundtrip ser_DroneState de_DroneState seconds_drone) by (intros; by apply drone_roundtrip, Hd).
  cbn [result_bind].
  by rewrite (list_roundtrip ser_NodeState de_NodeState seconds_node) by (intros; by apply node_roundtrip, Hn).
Qed.

End Cluster.
End ConfigFileProps.

(** ** Witnesses *)

Module ConfigFileWitness.
Import PlanJson ConfigFileProps ExampleSerde.
#[local] Existing Instance ExampleExternals.example_externals.
#[local] Existing Instance ExampleExternals.example_laws.
#[local] Existing Instance example_serde.
#[local] Existing Instance example_serde_laws.

(** URLs are their texts, and an address is printed as that of a socket. *)
#[local] Instance formats : ConfigFormats := {|
  url_parse := Some;
  ip_to_string a := ExampleExternals.addr_show {| sa_ip := a; sa_port := 0 |};
  ip_parse s := sa_ip <$> ExampleExternals.addr_read s;
  ser_log_config := JStr;
  de_log_config j := match j with JStr s => Some s | _ => None end |}.
#[local] Instance formats_laws : ConfigFormatsLaws formats.
Proof. split; [|done..]. intros a. cbn. by rewrite ExampleExternals.addr_read_show. Qed.

Definition plan : Plan := PDrone {|
  DroneConfig.name := "dr-one"; DroneConfig.docker_config := None;
  DroneConfig.executor_config := Some (DroneConfig.ExecDocker {|
    DockerRuntime.rt_runtime := Some "runsc"; DockerRuntime.rt_log_config := Some "local";
    DockerRuntime.rt_mount_base := Some "/data"; DockerRuntime.rt_auto_prune := Some true;
    DockerRuntime.rt_cleanup_min_age := Some (from_secs 3600) |});
  DroneConfig.controller_url := "http://controller"; DroneConfig.cluster := "c.example";
  DroneConfig.pool := ""; DroneConfig.ip := IpV4 2130706433; DroneConfig.db_path := None;
  DroneConfig.auto_prune := None; DroneConfig.cleanup_min_age := None |}.

Lemma run_config_starts_witness :
  Main.run (λ _, None) (λ _, 0) Some (λ _, None) (λ _, Some (encode ser_Plan plan))
    (Main.RunConfig "/etc/plane.json") = Ok (Main.Process plan).
Proof.
  apply (run_config_starts (λ _, None) (λ _, 0) Some (λ _, None) (λ _, Some (encode ser_Plan plan))
    "/etc/plane.json" plan); [|reflexivity].
  split; [reflexivity|]. split; [intros d; discriminate|]. split; [intros d; discriminate|].
  intros e [= <-] d [= <-]. split; [reflexivity|]. apply Z.leb_le. reflexivity.
Defined.

Lemma drone_config_needs_age_witness c :
  de_DroneConfig (ser_struct [("name", JStr "dr-one"); ("controller_url", JStr "http://controller");
    ("cluster", JStr "c.example"); ("pool", JStr ""); ("ip", ser_ip (IpV4 2130706433))]) ≠ Ok c.
Proof. apply drone_config_needs_age; apply (bool_decide_unpack _); vm_compute; exact I. Defined.

Lemma executor_config_roundtrip_witness :
  ExecutorJson.from_value (ExecutorJson.to_value (DockerTypes.from_image_with_defaults "image")) =
    Some (DockerTypes.from_image_with_defaults "image").
Proof. apply executor_config_roundtrip. split_and!; intros ?; discriminate. Defined.

Definition node : Clusters.NodeState := {|
  Clusters.ns_name := Names.AnyProxy "px-one"; Clusters.ns_plane_version := "1"; Clusters.ns_plane_hash := "h";
  Clusters.ns_controller := "co-main"; Clusters.ns_controller_heartbeat_age := 1500000 |}.

Lemma cluster_state_roundtrip_witness :
  decode ClusterJson.de_ClusterState (encode ClusterJson.ser_ClusterState
    {| Clusters.cs_drones := []; Clusters.cs_proxies := [node] |}) =
  Ok {| Clusters.cs_drones := []; Clusters.cs_proxies := [{|
    Clusters.ns_name := Names.AnyProxy "px-one"; Clusters.ns_plane_version := "1"; Clusters.ns_plane_hash := "h";
    Clusters.ns_controller := "co-main"; Clusters.ns_controller_heartbeat_age := 1000000 |}] |}.
Proof.
  apply (cluster_state_roundtrip {| Clusters.cs_drones := []; Clusters.cs_proxies := [node] |}).
  - intros d Hd. by apply not_elem_of_nil in Hd.
  - intros n ->%list_elem_of_singleton. apply Z.leb_le. reflexivity.
Defined.

End ConfigFileWitness.
