(* ===== verification/CertPair.v ===== *)
(** * Certificates and their files ([proxy/cert_pair.rs])

    A certificate pair is made from DER data ([new], [from_raw_ders]), written to a file
    ([save]) and read back ([load]). The PEM, JSON and X.509 libraries are the class
    [CertLib]; its laws ([CertLawsOf]) say that the parsers invert the printers. The file
    system is the part of it that is touched: contents and permissions. *)

From S2P Require Import Prelude.

Module CertPair.

(** [PrivateKeyDer]: the kind of a key and its bytes. *)
Inductive PrivateKeyDer :=
| Pkcs1 (der : string)
| Sec1 (der : string)
| Pkcs8 (der : string).

Definition secret_der (k : PrivateKeyDer) : string :=
  match k with Pkcs1 d | Sec1 d | Pkcs8 d => d end.

(** What is read of a certificate: its common names, each a string or not, and its
    validity. *)
Record X509 := { common_names : list (option string); not_before : Z; not_after : Z }.

Record SerializedCertificatePair := { s_cert : string; s_key : string }.

Class CertLib := {
  (** the key for signing *)
  signing_key : Type;
  any_supported_type : PrivateKeyDer → option signing_key;
  (** [PrivateKeyDer::try_from] on bytes *)
  key_from_bytes : string → option PrivateKeyDer;
  x509_from_der : string → option X509;
  (** [rustls_pemfile::certs] and [private_key] *)
  pem_certs : string → option (list string);
  pem_private_key : string → option (option PrivateKeyDer);
  (** [pem::encode_many] and [pem::encode], with a label *)
  pem_encode_many : string → list string → string;
  pem_encode : string → string → string;
  (** [serde_json] *)
  to_string_pretty : SerializedCertificatePair → string;
  from_str : string → option SerializedCertificatePair
}.

Class CertLaws (L : CertLib) : Prop := {
  pem_certs_encode ders : pem_certs (pem_encode_many "CERTIFICATE" ders) = Some ders;
  pem_key_encode der : pem_private_key (pem_encode "RSA PRIVATE KEY" der) = Some (Some (Pkcs1 der));
  from_str_to_string p : from_str (to_string_pretty p) = Some p
}.

(** *** The file system *)

Record file := { mode : N; contents : string }.
Notation fs := (gmap string file).

Section CertPair.
Context {L : CertLib}.

Record CertificatePair := {
  cert_ders : list string;
  cert_key : signing_key;
  private_key_der : string;
  common_name : string;
  validity_start : Z;
  validity_end : Z
}.

Inductive CertError := NoCert | BadCert | NoCommonName | BadCommonName | UnsupportedKey
  | BadKey | BadPem | NoKey | BadJson | Io.

Definition new (key : PrivateKeyDer) (certs : list string) : result CertError CertificatePair :=
  let? first := ok_or (head certs) NoCert in
  let? parsed := ok_or (x509_from_der first) BadCert in
  let? name := ok_or (head (common_names parsed)) NoCommonName in
  let? name := ok_or name BadCommonName in
  let? k := ok_or (any_supported_type key) UnsupportedKey in
  Ok {| cert_ders := certs; cert_key := k; private_key_der := secret_der key;
        common_name := name; validity_start := not_before parsed;
        validity_end := not_after parsed |}.

Definition from_raw_ders (pkey_der : string) (cert_ders : list string)
  : result CertError CertificatePair :=
  let? key := ok_or (key_from_bytes pkey_der) BadKey in new key cert_ders.

Definition load_cert_ders (pem : string) : result CertError (list string) :=
  ok_or (pem_certs pem) BadPem.

Definition load_key_der (pem : string) : result CertError PrivateKeyDer :=
  let? k := ok_or (pem_private_key pem) BadPem in ok_or k NoKey.

Definition load (path : string) (f : fs) : result CertError CertificatePair :=
  let? file := ok_or (f !! path) Io in
  let? saved := ok_or (from_str (contents file)) BadJson in
  let? certs := load_cert_ders (s_cert saved) in
  let? key := load_key_der (s_key saved) in
  new key certs.

(** [save]. A file that does not exist is created with permissions 0600; [writable] says
    whether the operations on the path succeed. *)
Definition save (p : CertificatePair) (path : string) (writable : bool) (f : fs)
  : fs * result CertError () :=
  let cert := pem_encode_many "CERTIFICATE" (cert_ders p) in
  let key := pem_encode "RSA PRIVATE KEY" (private_key_der p) in
  let contents := to_string_pretty {| s_cert := cert; s_key := key |} in
  if writable then
    let m := match f !! path with Some file => mode file | None => 384%N end in
    (<[path := {| mode := m; contents := contents |}]> f, Ok ())
  else (f, Err Io).

End CertPair.
Arguments CertificatePair L : clear implicits.
End CertPair.

(** ** Theorems *)

Module CertPairProps.
Import CertPair.
Section CertPairProps.
Context {L : CertLib} {CL : CertLaws L}.

Lemma new_inv key certs p :
  new key certs = Ok p → cert_ders p = certs ∧ private_key_der p = secret_der key.
Proof.
  unfold new. destruct (head certs) as [c|]; [|done]. cbn.
  destruct (x509_from_der c) as [x|]; [|done]. cbn.
  destruct (head (common_names x)) as [[n|]|]; try done. cbn.
  destruct (any_supported_type key); [|done]. by intros [= <-].
Qed.

(** Files round-trip: a pair with an RSA key in the form that the ACME client
    makes is read back from its file exactly as it was saved, a file that did not exist is
    readable by its owner only, one that existed keeps its permissions, and no other file
    changes. *)
Theorem cert_file_roundtrip der certs p path f f' :
  new (Pkcs1 der) certs = Ok p → save p path true f = (f', Ok ()) →
  load path f' = Ok p ∧
  (∃ file, f' !! path = Some file ∧
     mode file = match f !! path with Some file => mode file | None => 384%N end) ∧
  ∀ path', path' ≠ path → f' !! path' = f !! path'.
Proof.
  intros Hnew Hsave. destruct (new_inv _ _ _ Hnew) as [Hcerts Hkey].
  unfold save in Hsave. injection Hsave as <-. split; [|split].
  - unfold load. rewrite lookup_insert_eq. cbn. rewrite from_str_to_string. cbn.
    unfold load_cert_ders, load_key_der. rewrite pem_certs_encode, Hcerts. cbn.
    rewrite Hkey. cbn. by rewrite pem_key_encode.
  - eexists. split; [apply lookup_insert_eq|done].
  - intros path' Hne. by apply lookup_insert_ne.
Qed.

(** A key of another kind is saved under the label of an RSA key and read back as one,
    whatever it was. *)
Theorem saved_key_kind_lost key certs p path f f' :
  new key certs = Ok p → save p path true f = (f', Ok ()) →
  load path f' = new (Pkcs1 (secret_der key)) certs.
Proof.
  intros Hnew Hsave. destruct (new_inv _ _ _ Hnew) as [Hcerts Hkey].
  unfold save in Hsave. injection Hsave as <-. unfold load.
  rewrite lookup_insert_eq. cbn. rewrite from_str_to_string. cbn.
  unfold load_cert_ders, load_key_der. rewrite pem_certs_encode, Hcerts. cbn.
  rewrite Hkey. cbn. by rewrite pem_key_encode.
Qed.

End CertPairProps.
End CertPairProps.

(** ** An instance of the libraries *)

Module ExampleCerts.
Import CertPair.

(** Lengths in unary, so that parsing what was printed is evident. *)
Fixpoint unary (n : nat) : string := match n with 0 => "." | S n => String "|" (unary n) end.

Fixpoint take_unary (s : string) : option (nat * string) :=
  match s with
  | String "." s => Some (0, s)
  | String "|" s => match take_unary s with Some (n, r) => Some (S n, r) | None => None end
  | _ => None
  end.

Fixpoint take_str (n : nat) (s : string) : option (string * string) :=
  match n, s with
  | 0, s => Some ("", s)
  | S n, String a s =>
      match take_str n s with Some (l, r) => Some (String a l, r) | None => None end
  | S _, EmptyString => None
  end.

Lemma take_unary_unary n t : take_unary (unary n +:+ t) = Some (n, t).
Proof. induction n as [|n IH]; [done|]. cbn [unary]. rewrite append_cons. cbn. by rewrite IH. Qed.

Definition put (s : string) : string := unary (String.length s) +:+ s.
Definition get (s : string) : option (string * string) :=
  match take_unary s with Some (n, r) => take_str n r | None => None end.

Lemma get_put s r : get (put s +:+ r) = Some (s, r).
Proof.
  unfold get, put. rewrite append_assoc, take_unary_unary.
  induction s as [|a s IH]; [done|]. cbn [String.length]. rewrite append_cons. cbn.
  by rewrite IH.
Qed.

Definition put_all (l : list string) : string :=
  unary (length l) +:+ foldr (λ s t, put s +:+ t) "" l.
Fixpoint get_n (n : nat) (s : string) : option (list string) :=
  match n with
  | 0 => Some []
  | S n => match get s with
           | Some (x, r) => match get_n n r with Some l => Some (x :: l) | None => None end
           | None => None
           end
  end.
Definition get_all (s : string) : option (list string) :=
  match take_unary s with Some (n, r) => get_n n r | None => None end.

Lemma get_put_all l : get_all (put_all l) = Some l.
Proof.
  unfold get_all, put_all. rewrite take_unary_unary.
  induction l as [|s l IH]; [done|]. cbn [length foldr get_n]. by rewrite get_put, IH.
Qed.

Definition example_certs : CertLib := {|
  signing_key := PrivateKeyDer;
  any_supported_type k := Some k;
  key_from_bytes s := Some (Pkcs1 s);
  x509_from_der s :=
    Some {| common_names := [Some s]; not_before := 0; not_after := from_days 90 |};
  pem_certs s := get_all s;
  pem_private_key s := Some (Some (Pkcs1 s));
  pem_encode_many _ ders := put_all ders;
  pem_encode _ der := der;
  to_string_pretty p := put (s_cert p) +:+ s_key p;
  from_str s := match get s with
                | Some (c, k) => Some {| s_cert := c; s_key := k |}
                | None => None
                end
|}.

Lemma example_certs_laws : CertLaws example_certs.
Proof.
  split; cbn.
  - apply get_put_all.
  - done.
  - intros [c k]. cbn. by rewrite get_put.
Qed.

End ExampleCerts.

Module CertPairWitness.
Import CertPair CertPairProps ExampleCerts.
#[local] Existing Instance example_certs.

Definition pair0 : CertificatePair example_certs := {|
  cert_ders := ["leaf"; "root"]; cert_key := Pkcs1 "k" : @signing_key example_certs;
  private_key_der := "k"; common_name := "leaf"; validity_start := 0;
  validity_end := from_days 90 |}.

Lemma cert_file_roundtrip_witness :
  load "cert.json" (save pair0 "cert.json" true ∅).1 = Ok pair0.
Proof.
  apply (cert_file_roundtrip (CL := example_certs_laws) "k" ["leaf"; "root"] pair0 "cert.json" ∅
    (save pair0 "cert.json" true ∅).1); reflexivity.
Defined.

End CertPairWitness.
