(* ===== verification/Interaction.v ===== *)
(** * Interactive programs

    An [async] function that talks to its surroundings, as a tree: it returns, or makes a
    call of the signature [E] and goes on with the answer. [runs] are its finite
    behaviours against answers that nothing is assumed of; a behaviour may stop anywhere,
    since the task can be aborted at each [await].

    Properties of behaviours are stated with a monitor, an automaton that follows the
    calls and their answers: [wp] is the condition under which every call is allowed in
    the state that the monitor is in. *)

From S2P Require Import Prelude.

Inductive prog (E : Type → Type) (A : Type) : Type :=
| Ret (a : A)
| Call {X : Type} (e : E X) (k : X → prog E A).
Arguments Ret {E A} a.
Arguments Call {E A X} e k.

Fixpoint bind {E A B} (p : prog E A) (f : A → prog E B) : prog E B :=
  match p with Ret a => f a | Call e k => Call e (λ x, bind (k x) f) end.

Definition call {E X} (e : E X) : prog E X := Call e Ret.

Declare Scope prog_scope.
Delimit Scope prog_scope with prog.
Notation "'let!' x ':=' p 'in' q" := (bind p (λ x, q))
  (at level 10, x pattern, p at level 100, q at level 200) : prog_scope.

(** A call and its answer. *)
Inductive obs (E : Type → Type) : Type :=
| Obs {X : Type} (e : E X) (x : X).
Arguments Obs {E X} e x.

Inductive runs {E A} : prog E A → list (obs E) → option A → Prop :=
| runs_stop p : runs p [] None
| runs_ret a : runs (Ret a) [] (Some a)
| runs_call {X} (e : E X) k x tr r : runs (k x) tr r → runs (Call e k) (Obs e x :: tr) r.

Section Monitor.
Context {E : Type → Type} {M : Type}.
Context (next : M → obs E → M) (allowed : M → sigT E → Prop).

Fixpoint wp {A} (Q : A → M → Prop) (m : M) (p : prog E A) : Prop :=
  match p with
  | Ret a => Q a m
  | @Call _ _ X e k => allowed m (existT X e) ∧ ∀ x, wp Q (next m (Obs e x)) (k x)
  end.

Lemma wp_bind {A B} (Q : B → M → Prop) m (p : prog E A) (f : A → prog E B) :
  wp (λ a m, wp Q m (f a)) m p → wp Q m (bind p f).
Proof.
  revert m. induction p as [a|X e k IH]; intros m; [done|]. intros [He Hk].
  split; [done|]. intros x. apply IH, Hk.
Qed.

Lemma wp_mono {A} (Q Q' : A → M → Prop) m p :
  (∀ a m, Q a m → Q' a m) → wp Q m p → wp Q' m p.
Proof.
  intros HQ. revert m. induction p as [a|X e k IH]; intros m; [apply HQ|].
  intros [He Hk]. split; [done|]. intros x. apply IH, Hk.
Qed.

(** Every call of a behaviour is allowed where it is made. *)
Lemma wp_runs {A} (Q : A → M → Prop) m (p : prog E A) tr r :
  wp Q m p → runs p tr r →
  (∀ pre X (e : E X) x post, tr = pre ++ Obs e x :: post → allowed (foldl next m pre) (existT X e)) ∧
  ∀ a, r = Some a → Q a (foldl next m tr).
Proof.
  intros Hwp Hr. revert m Hwp. induction Hr as [p|a|X e k x tr r Hr IH]; intros m Hwp.
  - split; [|done]. intros pre Y e x post H. by destruct pre.
  - split; [|by intros ? [= <-]]. intros pre Y e x post H. by destruct pre.
  - destruct Hwp as [He Hk]. destruct (IH _ (Hk x)) as [Hall HQ]. split; [|done].
    intros pre Y e' x' post Heq. destruct pre as [|o pre].
    + apply (f_equal (λ l, match l with
        | @Obs _ Y e _ :: _ => existT Y e | [] => existT X e end)) in Heq.
      cbn in Heq. cbn. by rewrite <- Heq.
    + cbn in Heq. assert (Obs e x = o ∧ tr = pre ++ Obs e' x' :: post) as [<- Htr].
      { split; [exact (f_equal (λ l, hd (Obs e x) l) Heq)|exact (f_equal tail Heq)]. }
      apply (Hall pre _ e' x' post Htr).
Qed.

End Monitor.

Lemma runs_bind {E A B} (p : prog E A) (f : A → prog E B) tr1 a tr2 r :
  runs p tr1 (Some a) → runs (f a) tr2 r → runs (bind p f) (tr1 ++ tr2) r.
Proof.
  remember (Some a) as o eqn:Ho. intros Hp Hf. induction Hp as [|a'|X e k x tr o Hp IH]; simplify_eq.
  - done.
  - cbn. constructor. by apply IH.
Qed.
