(* ===== verification/CertManager.v ===== *)
(** * The certificate manager of a proxy ([proxy/cert_manager.rs])

    [CertWatcher] hands the current certificate to the TLS server, [CertManager] owns the
    task that renews it, and [Refresh] is that task: a program over the calls it makes
    ([call_of]) to the ACME library, to the controller (through the proxy's socket), to
    the clock and to the watch channel of the certificate. Its behaviours are those
    against arbitrary answers. *)

From S2P Require Import Prelude Types Config CertPair Interaction.

(** ** The watch channel and its reader *)

Module CertWatcher.
Import CertPair.
Section CertWatcher.
Context {L : CertLib}.

(** The channel: its value, and how often it was set. *)
Record channel := MkChannel { value : option (CertificatePair L); version : nat }.

Definition send (c : CertificatePair L) (ch : channel) : channel :=
  MkChannel (Some c) (S (version ch)).

(** The reader remembers the version it last waited for. *)
Record t := Mk { seen : nat; certified_key : option (list string * signing_key) }.

Definition key_of (c : CertificatePair L) : list string * signing_key :=
  (cert_ders c, cert_key c).

Definition new : t := Mk 0 None.

(** [receiver.borrow()] does not mark the value as seen. *)
Definition update_certified_key (ch : channel) (w : t) : t := Mk (seen w) (key_of <$> value ch).

Definition has_changed (ch : channel) (w : t) : bool := negb (version ch =? seen w).

Definition resolve (ch : channel) (w : t) : t * option (list string * signing_key) :=
  let w := if has_changed ch w then update_certified_key ch w else w in
  (w, certified_key w).

(** One pass of the loop of [wait_for_initial_cert]: done, still waiting for a change, or
    another pass ([changed] marks the value as seen). *)
Inductive wait_result := Done | Pending | Again (w : t).

Definition wait_pass (ch : channel) (w : t) : wait_result :=
  match certified_key w with
  | Some _ => Done
  | None =>
      if has_changed ch w then Again (update_certified_key ch (Mk (version ch) (certified_key w)))
      else Pending
  end.

End CertWatcher.
Arguments t L : clear implicits.
Arguments channel L : clear implicits.
End CertWatcher.

(** ** The refresh task *)

Module Refresh.
Import CertPair ProxyConfig.

Definition DNS_01 : string := "dns-01".
Definition LOCK_SLEEP_TIME : Z := from_secs 60.
Definition FAILURE_SLEEP_TIME : Z := from_secs 30.
Definition RENEWAL_WINDOW : Z := from_secs (24 * 60 * 60 * 30).

(** The types of the ACME library and what is read of their values. *)
Class AcmeLib := {
  directory : Type;
  account : Type;
  order : Type;
  authorization : Type;
  challenge : Type;
  pkey : Type;
  x509 : Type;
  hmac_key : Type;
  hmac : list N → option hmac_key;
  get_challenge : authorization → string → option challenge;
  key_authorization_encoded : challenge → option (option string);
  challenge_valid : challenge → bool;
  authorization_valid : authorization → bool;
  order_ready : order → bool;
  order_valid : order → bool;
  private_key_to_der : pkey → option string;
  to_der : x509 → option string
}.

Section Refresh.
Context {L : CertLib} {A : AcmeLib}.
(** [BASE64URL_NOPAD.decode] *)
Context (b64_decode : string → option (list N)).

Inductive call_of : Type → Type :=
| BorrowCert : call_of (option (CertificatePair L))
| Now : call_of Z
| Sleep (d : Z) : call_of ()
| BuildInsecureClient : call_of (result () ())
| BuildDirectory (endpoint : string) : call_of (result () directory)
| BuildAccount (dir : directory) (contact : string) (eab : option (string * hmac_key)) :
    call_of (result () account)
| SendRequest (r : Protocol.CertManagerRequest) : call_of ()
| RecvResponse : call_of (result () Protocol.CertManagerResponse)
| SendCert (c : CertificatePair L) : call_of (result () ())
| SaveCert (c : CertificatePair L) (path : string) : call_of (result () ())
| BuildOrder (a : account) (identifiers : list string) : call_of (result () order)
| Authorizations (o : order) : call_of (result () (list authorization))
| ValidateChallenge (c : challenge) : call_of (result () challenge)
| ChallengeWaitDone (c : challenge) (poll : Z) (attempts : nat) : call_of (result () challenge)
| AuthorizationWaitDone (a : authorization) (poll : Z) (attempts : nat) :
    call_of (result () authorization)
| OrderWaitReady (o : order) (poll : Z) (attempts : nat) : call_of (result () order)
| GenRsaPrivateKey (bits : Z) : call_of (result () pkey)
| Finalize (o : order) (k : pkey) : call_of (result () order)
| OrderWaitDone (o : order) (poll : Z) (attempts : nat) : call_of (result () order)
| Certificate (o : order) : call_of (result () (option (list x509))).

Definition program := prog call_of.

Open Scope prog_scope.

(** The [?] operator on the answer of a call, and on a value. *)
Definition try_call {X R} (e : call_of (result () X)) (k : X → program (result () R))
  : program (result () R) :=
  Call e (λ r, match r with Ok x => k x | Err err => Ret (Err err) end).

Definition try_opt {X R} (o : option X) (k : X → program (result () R))
  : program (result () R) :=
  match o with Some x => k x | None => Ret (Err ()) end.

(** *** [get_certificate] *)

(** The body of the loop over the authorizations; [k] is what follows. *)
Definition authorize {R} (auth : authorization) (k : program (result () R))
  : program (result () R) :=
  try_opt (get_challenge auth DNS_01) (λ challenge,
  try_opt (key_authorization_encoded challenge) (λ txt_value,
  try_opt txt_value (λ txt_value,
  Call (SendRequest (Protocol.SetTxtRecord txt_value)) (λ _,
  Call RecvResponse (λ response,
  match response with
  | Ok (Protocol.SetTxtRecordResponse true) =>
      Call (Sleep (from_secs 15)) (λ _,
      let validated k :=
        if challenge_valid challenge then k
        else
          try_call (ValidateChallenge challenge) (λ challenge,
          try_call (ChallengeWaitDone challenge (from_secs 5) 6) (λ challenge,
          if challenge_valid challenge then k else Ret (Err ()))) in
      validated (
        try_call (AuthorizationWaitDone auth (from_secs 5) 3) (λ authorization,
        if authorization_valid authorization then k else Ret (Err ()))))
  | _ => Ret (Err ())
  end))))).

Fixpoint authorize_all {R} (auths : list authorization) (k : program (result () R))
  : program (result () R) :=
  match auths with [] => k | auth :: auths => authorize auth (authorize_all auths k) end.

(** [cert.into_iter().map(|cert| cert.to_der()).collect::<Result<Vec<_>, _>>()] *)
Definition to_ders (certs : list x509) : option (list string) := mapM to_der certs.

Definition finish_order (o : order) : program (result () (CertificatePair L)) :=
  try_call (OrderWaitReady o (from_secs 5) 3) (λ o,
  if order_ready o then
    try_call (GenRsaPrivateKey 4096) (λ pkey,
    try_call (Finalize o pkey) (λ o,
    try_call (OrderWaitDone o (from_secs 5) 3) (λ o,
    if order_valid o then
      try_call (Certificate o) (λ cert,
      try_opt cert (λ cert,
      match cert with
      | [] => Ret (Err ())
      | _ =>
          try_opt (private_key_to_der pkey) (λ pkey_der,
          try_opt (to_ders cert) (λ cert_ders,
          Ret (map_err (λ _, ()) (from_raw_ders pkey_der cert_ders))))
      end))
    else Ret (Err ()))))
  else Ret (Err ())).

Definition get_certificate (a : account) (cluster : string)
  : program (result () (CertificatePair L)) :=
  try_call (BuildOrder a [cluster; "*." +:+ cluster]) (λ order,
  try_call (Authorizations order) (λ authorizations,
  authorize_all authorizations (finish_order order))).

(** *** [refresh_loop_step] *)

(** The account is made once and kept. *)
Definition get_account (c : AcmeConfig) (maybe_account : option account)
  : program (result () account) :=
  match maybe_account with
  | Some a => Ret (Ok a)
  | None =>
      let build :=
        try_call (BuildDirectory (endpoint c)) (λ dir,
        let contact := "mailto:" +:+ mailto_email c in
        match acme_eab_keypair c with
        | None => Call (BuildAccount dir contact None) Ret
        | Some kp =>
            match key_bytes b64_decode kp with
            | Err _ => Ret (Err ())
            | Ok bytes =>
                try_opt (hmac bytes) (λ k,
                Call (BuildAccount dir contact (Some (eab_key_id kp, k))) Ret)
            end
        end) in
      if accept_insecure_certs_for_testing c
      then try_call BuildInsecureClient (λ _, build)
      else build
  end.

(** What follows once there is an account. *)
Definition request_certificate (cluster : string) (path : option string) (a : account)
  : program (result () ()) :=
  Call (SendRequest Protocol.CertLeaseRequest) (λ _,
  Call RecvResponse (λ response,
  match response with
  | Err _ => Ret (Ok ())
  | Ok (Protocol.CertLeaseResponse true) =>
      let! result := get_certificate a cluster in
      match result with
      | Ok cert_pair =>
          try_call (SendCert cert_pair) (λ _,
          match path with
          | Some path => Call (SaveCert cert_pair path) Ret
          | None => Ret (Ok ())
          end)
      | Err _ => Call (Sleep FAILURE_SLEEP_TIME) (λ _, Ret (Ok ()))
      end
  | Ok (Protocol.CertLeaseResponse false) => Call (Sleep LOCK_SLEEP_TIME) (λ _, Ret (Ok ()))
  | Ok _ => Ret (Ok ())
  end)).

(** The step returns the account for the next one, and its result. *)
Definition refresh_loop_step (c : AcmeConfig) (cluster : string) (path : option string)
    (maybe_account : option account) : program (option account * result () ()) :=
  Call BorrowCert (λ last_current_cert,
  let renew :=
    let! a := get_account c maybe_account in
    match a with
    | Err e => Ret (maybe_account, Err e)
    | Ok a => let! r := request_certificate cluster path a in Ret (Some a, r)
    end in
  match last_current_cert with
  | None => renew
  | Some current_cert =>
      let renewal_time := (validity_end current_cert - RENEWAL_WINDOW)%Z in
      Call Now (λ now,
      let time_until_renew := (renewal_time - now)%Z in
      if (0 <? time_until_renew)%Z
      then Call (Sleep time_until_renew) (λ _, Ret (maybe_account, Ok ()))
      else renew)
  end).

(** The first [n] passes of [refresh_loop], which never returns; errors are logged. *)
Fixpoint refresh_loop (c : AcmeConfig) (cluster : string) (path : option string) (n : nat)
    (maybe_account : option account) : program () :=
  match n with
  | 0 => Ret ()
  | S n =>
      let! r := refresh_loop_step c cluster path maybe_account in
      refresh_loop c cluster path n r.1
  end.

End Refresh.
End Refresh.

(** ** The manager *)

Module Manager.
Import CertPair CertWatcher ProxyConfig.
Section Manager.
Context {L : CertLib}.

(** The running refresh task, with the responses its receiver holds: the channel keeps
    one, and a receiver that missed some gets an error first. *)
Record task := MkTask { pending : option Protocol.CertManagerResponse; lagged : bool }.

Record t := Mk {
  cluster : string;
  refresh_loop : option task;
  acme : option AcmeConfig;
  path : option string
}.

(** [CertManager::new]: the certificate in the file, if it can be loaded, is the first
    value of the channel. *)
Definition new (cluster : string) (cert_path : option string) (acme : option AcmeConfig)
    (f : fs) (ch : channel L) : t * channel L :=
  let initial_cert :=
    path ← cert_path;
    match f !! path with
    | Some _ => match load path f with Ok cert => Some cert | Err _ => None end
    | None => None
    end in
  (Mk cluster None acme cert_path,
   match initial_cert with Some cert => send cert ch | None => ch end).

(** [watcher_manager_pair] *)
Definition watcher_manager_pair (cluster : string) (path : option string)
    (acme : option AcmeConfig) (f : fs) : CertWatcher.t L * t * channel L :=
  let '(m, ch) := new cluster path acme f (MkChannel None 0) in (CertWatcher.new, m, ch).

(** The old task is aborted; a new one starts only with an ACME configuration. *)
Definition set_request_sender (m : t) : t :=
  Mk (cluster m) (match acme m with Some _ => Some (MkTask None false) | None => None end)
    (acme m) (path m).

(** [receive] panics, here [None], when no task listens. *)
Definition receive (r : Protocol.CertManagerResponse) (m : t) : option t :=
  task ← refresh_loop m;
  Some (Mk (cluster m)
    (Some (MkTask (Some r) (lagged task || bool_decide (is_Some (pending task)))))
    (acme m) (path m)).

(** The answer of [response_receiver.recv()], when there is one. *)
Definition recv (k : task) : option (task * result () Protocol.CertManagerResponse) :=
  if lagged k then Some (MkTask (pending k) false, Err ())
  else match pending k with
       | Some r => Some (MkTask None false, Ok r)
       | None => None
       end.

End Manager.
End Manager.

(** ** Theorems *)

Module CertWatcherProps.
Import CertPair CertWatcher.
Section Props.
Context {L : CertLib}.

(** What can happen: a certificate is sent, a handshake resolves one, the start-up waits. *)
Inductive event := SendCert (c : CertificatePair L) | Resolve | WaitPass.

Definition step (e : event) (s : channel L * CertWatcher.t L)
  : channel L * CertWatcher.t L :=
  match e with
  | SendCert c => (send c s.1, s.2)
  | Resolve => (s.1, (resolve s.1 s.2).1)
  | WaitPass => match wait_pass s.1 s.2 with Again w => (s.1, w) | _ => s end
  end.

Definition run (es : list event) : channel L * CertWatcher.t L :=
  foldl (λ s e, step e s) (MkChannel None 0, CertWatcher.new) es.

(** The last certificate sent. *)
Definition last_sent (es : list event) : option (CertificatePair L) :=
  foldl (λ c e, match e with SendCert c => Some c | _ => c end) None es.

Record fresh (s : channel L * CertWatcher.t L) (last : option (CertificatePair L)) : Prop := {
  fr_value : value s.1 = last;
  fr_seen : seen s.2 ≤ version s.1;
  fr_key : version s.1 = seen s.2 → certified_key s.2 = key_of <$> value s.1;
  fr_some : is_Some (certified_key s.2) → is_Some (value s.1);
  fr_sent : 0 < version s.1 → is_Some (value s.1)
}.

Lemma step_fresh e s last :
  fresh s last → fresh (step e s) (match e with SendCert c => Some c | _ => last end).
Proof.
  destruct s as [ch w]. intros [Hv Hle Hk Hs Hn]. cbn [fst snd] in *.
  destruct e as [c| |]; cbn [step fst snd].
  - split; cbn; [done|lia|lia|by eexists|by eexists].
  - unfold resolve, has_changed, update_certified_key.
    destruct (Nat.eqb_spec (version ch) (seen w)); cbn; [by split|].
    split; cbn; auto. by rewrite fmap_is_Some.
  - unfold wait_pass, has_changed, update_certified_key.
    destruct (certified_key w) eqn:Hw; [by split; cbn; rewrite ?Hw|].
    destruct (Nat.eqb_spec (version ch) (seen w)); cbn; [by split; cbn; rewrite ?Hw|].
    split; cbn; auto. by rewrite fmap_is_Some.
Qed.

Lemma run_fresh es : fresh (run es) (last_sent es).
Proof.
  unfold run, last_sent. induction es as [|e es IH] using rev_ind.
  - split; cbn; [done|lia|done|by intros []|lia].
  - rewrite !foldl_app. cbn [foldl]. by apply step_fresh.
Qed.

(** The TLS server always gets the latest certificate: after any sequence of
    certificates, handshakes and passes of the start-up loop, the next handshake is served
    the last certificate that was sent, and none when none was; the start-up loop ends
    only when there is one, and waits only when there is none. *)
Theorem watcher_serves_latest es :
  (resolve (run es).1 (run es).2).2 = key_of <$> last_sent es ∧
  match wait_pass (run es).1 (run es).2 with
  | Done => is_Some (last_sent es)
  | Pending => last_sent es = None
  | Again w => is_Some (certified_key w)
  end.
Proof.
  destruct (run_fresh es) as [Hv Hle Hk Hs Hn]. destruct (run es) as [ch w]. cbn [fst snd] in *.
  rewrite <- Hv. unfold resolve, wait_pass, has_changed.
  destruct (Nat.eqb_spec (version ch) (seen w)) as [Heq|Hne]; cbn.
  - split; [by apply Hk|]. destruct (certified_key w) eqn:Hw; [by apply Hs|].
    specialize (Hk Heq). by destruct (value ch).
  - split; [done|]. destruct (certified_key w) eqn:Hw; [by apply Hs|].
    apply fmap_is_Some, Hn. lia.
Qed.

End Props.
End CertWatcherProps.

Module RefreshProps.
Import CertPair ProxyConfig Refresh.
Section RefreshProps.
Context {L : CertLib} {A : AcmeLib}.
Context (b64_decode : string → option (list N)).
Context (c : AcmeConfig) (cluster : string) (path : option string).

Local Notation refresh_loop_step := (refresh_loop_step b64_decode c cluster path).
Local Notation refresh_loop := (refresh_loop b64_decode c cluster path).
Local Notation obs := (obs (@call_of L A)).

(** *** The protocol, as a monitor of the task's calls *)

Inductive txt_state := TxtNone | TxtAsked (v : string) | TxtAccepted (v : string)
  | TxtWaited (v : string).

(** Since the current certificate was last looked at: whether there is none or it is due
    (once the clock was read), whether a lease was asked for and granted, and how far the
    publication of a challenge's text is. *)
Record ghost := MkGhost {
  g_end : option Z;
  g_due : bool;
  g_asked : bool;
  g_leased : bool;
  g_txt : txt_state
}.

Definition start : ghost := MkGhost None false false false TxtNone.

Definition received (r : Protocol.CertManagerResponse) (g : ghost) : ghost :=
  match r, g_txt g with
  | Protocol.CertLeaseResponse true, TxtNone =>
      MkGhost (g_end g) (g_due g) false (g_asked g) TxtNone
  | Protocol.SetTxtRecordResponse true, TxtAsked v =>
      MkGhost (g_end g) (g_due g) (g_asked g) (g_leased g) (TxtAccepted v)
  | _, _ => MkGhost (g_end g) (g_due g) false false TxtNone
  end.

Definition next (g : ghost) (o : obs) : ghost :=
  match o with
  | Obs e x =>
      match e in call_of X return X → ghost with
      | BorrowCert => λ cert,
          MkGhost (validity_end <$> cert) (bool_decide (cert = None)) false false TxtNone
      | Now => λ t,
          MkGhost (g_end g)
            (match g_end g with
             | Some e => bool_decide (e - RENEWAL_WINDOW ≤ t)%Z | None => g_due g end)
            (g_asked g) (g_leased g) (g_txt g)
      | SendRequest Protocol.CertLeaseRequest => λ _,
          MkGhost (g_end g) (g_due g) true false TxtNone
      | SendRequest (Protocol.SetTxtRecord v) => λ _,
          MkGhost (g_end g) (g_due g) (g_asked g) (g_leased g) (TxtAsked v)
      | RecvResponse => λ r,
          match r with
          | Ok r => received r g
          | Err _ => MkGhost (g_end g) (g_due g) false false TxtNone
          end
      | Sleep d => λ _,
          match g_txt g with
          | TxtAccepted v =>
              if decide (from_secs 15 ≤ d)%Z
              then MkGhost (g_end g) (g_due g) (g_asked g) (g_leased g) (TxtWaited v) else g
          | _ => g
          end
      | _ => λ _, g
      end x
  end.

(** What may be called when. *)
Definition allowed (g : ghost) (e : sigT (@call_of L A)) : Prop :=
  match projT2 e with
  | BorrowCert | Now => True
  | Sleep d => (0 < d)%Z
  | BuildInsecureClient => g_due g = true ∧ accept_insecure_certs_for_testing c = true
  | BuildDirectory url => g_due g = true ∧ url = endpoint c
  | BuildAccount _ _ _ => g_due g = true
  | SendRequest Protocol.CertLeaseRequest => g_due g = true
  | SendRequest (Protocol.SetTxtRecord _) => g_due g = true ∧ g_leased g = true
  | SendRequest Protocol.ReleaseCertLease => False
  | RecvResponse => g_asked g = true ∨ ∃ v, g_txt g = TxtAsked v
  | BuildOrder _ ids => g_leased g = true ∧ ids = [cluster; "*." +:+ cluster]
  | ValidateChallenge ch =>
      g_leased g = true ∧ ∃ v, g_txt g = TxtWaited v ∧
        key_authorization_encoded ch = Some (Some v) ∧ challenge_valid ch = false
  | SendCert _ => g_due g = true ∧ g_leased g = true
  | SaveCert _ p => g_due g = true ∧ g_leased g = true ∧ path = Some p
  | OrderWaitReady _ _ _ | Finalize _ _ | OrderWaitDone _ _ _ | Certificate _ => g_leased g = true
  | Authorizations _ | ChallengeWaitDone _ _ _ | AuthorizationWaitDone _ _ _ => g_leased g = true
  | GenRsaPrivateKey bits => g_leased g = true ∧ bits = 4096%Z
  end.

(** The conditions of every program after the lease: it stays. *)
Definition leased (g : ghost) : Prop := g_due g = true ∧ g_leased g = true.

Notation wp := (wp next allowed).

#[local] Arguments try_call : simpl never.
#[local] Arguments try_opt : simpl never.

Lemma wp_try_call {X R} (Q : result () R → ghost → Prop) g (e : call_of (result () X)) k :
  allowed g (existT _ e) →
  (∀ x, wp Q (next g (Obs e (Ok x))) (k x)) →
  (∀ err, Q (Err err) (next g (Obs e (Err err)))) →
  wp Q g (try_call e k).
Proof. intros He Hk HQ. split; [done|]. intros [x|[]]; [apply Hk|apply HQ]. Qed.

Lemma wp_try_opt {X R} (Q : result () R → ghost → Prop) g (o : option X) k :
  (∀ x, o = Some x → wp Q g (k x)) → Q (Err ()) g → wp Q g (try_opt o k).
Proof. intros Hk HQ. destruct o as [x|]; [by apply Hk|done]. Qed.

(** The results of the programs: a certificate is only had with the lease. *)
Definition with_lease {R} (r : result () R) (g : ghost) : Prop :=
  g_due g = true ∧ (is_ok r = true → g_leased g = true).

Lemma wp_finish_order g (o : order) : leased g → wp with_lease g (finish_order o).
Proof.
  intros [Hd Hl]. assert (Herr : ∀ r, with_lease (R := CertificatePair L) (Err r) g) by done.
  unfold finish_order. apply wp_try_call; [done| |done]. intros o1. cbn.
  destruct (order_ready o1); [|done].
  apply wp_try_call; [done| |done]. intros k. cbn.
  apply wp_try_call; [done| |done]. intros o2. cbn.
  apply wp_try_call; [done| |done]. intros o3. cbn.
  destruct (order_valid o3); [|done].
  apply wp_try_call; [done| |done]. intros cert. cbn.
  apply wp_try_opt; [|done]. intros [|x xs] _; [done|].
  apply wp_try_opt; [|done]. intros der _. apply wp_try_opt; [|done]. intros ders _. cbn.
  by destruct (from_raw_ders der ders).
Qed.

Lemma wp_authorize g auth (k : program (result () (CertificatePair L))) :
  leased g → (∀ g, leased g → wp with_lease g k) → wp with_lease g (authorize auth k).
Proof.
  intros [Hd Hl] Hk. unfold authorize.
  apply wp_try_opt; [|done]. intros ch _. apply wp_try_opt; [|done]. intros o Ho.
  apply wp_try_opt; [|done]. intros v ->. cbn. split; [done|]. intros _.
  split; [eauto|]. intros [[accepted|accepted]|[]]; [by destruct accepted| |done].
  destruct accepted; [|done]. cbn. split; [done|]. intros _.
  assert (Hauth : ∀ g, leased g → wp with_lease g
    (try_call (AuthorizationWaitDone auth (from_secs 5) 3) (λ authorization,
       if authorization_valid authorization then k else Ret (Err ())))).
  { intros g' [Hd' Hl']. apply wp_try_call; [done| |done]. intros a.
    destruct (authorization_valid a); [by apply Hk|done]. }
  destruct (challenge_valid ch) eqn:Hch; [by apply Hauth|].
  apply wp_try_call; [cbn; eauto 6| |done]. intros ch1. cbn.
  apply wp_try_call; [done| |done]. intros ch2. cbn.
  destruct (challenge_valid ch2); [by apply Hauth|done].
Qed.

Lemma wp_get_certificate g a : leased g → wp with_lease g (get_certificate a cluster).
Proof.
  intros [Hd Hl]. unfold get_certificate. apply wp_try_call; [done| |done]. intros o. cbn.
  apply wp_try_call; [done| |done]. intros auths. cbn. revert g Hd Hl.
  induction auths as [|auth auths IH]; intros g Hd Hl; cbn; [by apply wp_finish_order|].
  apply wp_authorize; [done|]. intros g' [Hd' Hl']. by apply IH.
Qed.

Lemma wp_request_certificate g a :
  g_due g = true → wp (λ _ _, True) g (request_certificate cluster path a).
Proof.
  intros Hd. unfold request_certificate. split; [done|]. intros []. split; [by left|].
  intros [[accepted|accepted]|[]]; [destruct accepted|by destruct accepted|done]; [|done].
  apply wp_bind. eapply wp_mono; [|apply wp_get_certificate; done].
  intros [pair|[]] g' [Hd' Hl']; [|done]. specialize (Hl' eq_refl).
  apply wp_try_call; [done| |done]. intros [].
  destruct path eqn:Hp; [|done]. by repeat split.
Qed.

Lemma wp_get_account g m :
  g_due g = true → wp (λ _ g, g_due g = true) g (get_account b64_decode c m).
Proof.
  intros Hd. unfold get_account. destruct m; [done|].
  assert (Hbuild : wp (λ _ g, g_due g = true) g
    (try_call (BuildDirectory (endpoint c)) (λ dir,
      match acme_eab_keypair c with
      | None => Call (BuildAccount dir ("mailto:" +:+ mailto_email c) None) Ret
      | Some kp =>
          match key_bytes b64_decode kp with
          | Err _ => Ret (Err ())
          | Ok bytes =>
              try_opt (hmac bytes) (λ k,
              Call (BuildAccount dir ("mailto:" +:+ mailto_email c) (Some (eab_key_id kp, k))) Ret)
          end
      end))).
  { apply wp_try_call; [done| |done]. intros dir. cbn. destruct (acme_eab_keypair c) as [kp|]; [|done].
    destruct (key_bytes b64_decode kp) as [bytes|]; [|done].
    apply wp_try_opt; [|done]. done. }
  destruct (accept_insecure_certs_for_testing c) eqn:Hi; [|done].
  apply wp_try_call; [done| |done]. by intros [].
Qed.

Lemma wp_step g m : wp (λ _ _, True) g (refresh_loop_step m).
Proof.
  assert (Hrenew : ∀ g, g_due g = true → wp (λ _ _, True) g
    (bind (get_account b64_decode c m) (λ a,
       match a with
       | Err e => Ret (m, Err e)
       | Ok a => bind (request_certificate cluster path a) (λ r, Ret (Some a, r))
       end))).
  { intros g' Hd. apply wp_bind. eapply wp_mono; [|by apply wp_get_account].
    intros [a|[]] g'' Hd''; [|done]. apply wp_bind.
    eapply wp_mono; [|by apply wp_request_certificate]. done. }
  unfold Refresh.refresh_loop_step. split; [done|]. intros [cert|]; [|by apply Hrenew].
  split; [done|]. intros now. cbn.
  destruct (Z.ltb_spec 0 (validity_end cert - RENEWAL_WINDOW - now)) as [Hlt|Hge].
  - cbn. done.
  - apply Hrenew. cbn. apply bool_decide_eq_true. lia.
Qed.

Lemma wp_loop n g m : wp (λ _ _, True) g (refresh_loop n m).
Proof.
  revert g m. induction n as [|n IH]; intros g m; [done|].
  cbn [Refresh.refresh_loop]. apply wp_bind.
  eapply wp_mono; [|apply wp_step]. intros [m' r] g' _. apply IH.
Qed.

(** C33. The refresh task follows its protocol against any answers of the
    library, the controller and the clock, over any number of passes and wherever it is
    aborted. In a pass it does nothing but sleep while the certificate is more than thirty
    days from its end; it orders a certificate, publishes texts, and stores and announces
    certificates only after the controller granted it the lease it asked for in this pass;
    it has a challenge validated only when the controller accepted exactly the text of
    this challenge and fifteen seconds have passed; and it never gives the lease back. *)
Theorem refresh_follows_protocol n m tr r pre X (e : call_of X) x post :
  runs (refresh_loop n m) tr r → tr = pre ++ Obs e x :: post →
  allowed (foldl next start pre) (existT X e).
Proof.
  intros Hruns Htr. destruct (wp_runs next allowed _ start _ _ _ (wp_loop n start m) Hruns)
    as [Hall _]. by apply (Hall pre X e x post).
Qed.

(** *** Failures before the lease are retried at once *)

(** When the account cannot be made, nothing is slept: the task asks for the
    directory again and again, as often as it gets to run. *)
Theorem account_failure_spins n :
  accept_insecure_certs_for_testing c = false →
  runs (refresh_loop n None)
    (mjoin (replicate n [Obs BorrowCert None; Obs (BuildDirectory (endpoint c)) (Err ())]))
    (Some ()).
Proof.
  intros Hi. induction n as [|n IH]; [constructor|].
  cbn [Refresh.refresh_loop replicate mjoin list_join].
  apply (runs_bind _ _ _ (None, Err ())); [|exact IH].
  unfold Refresh.refresh_loop_step. apply runs_call. unfold get_account. rewrite Hi.
  cbn [bind]. unfold try_call. cbn [bind]. apply runs_call. constructor.
Qed.

End RefreshProps.
End RefreshProps.

(** ** Witnesses *)

Module CertManagerWitness.
Import CertPair ProxyConfig Refresh RefreshProps ExampleCerts.
#[local] Existing Instance example_certs.

(** Challenges are their texts; everything is valid but the first state of a challenge. *)
#[local] Instance example_acme : AcmeLib := {|
  directory := (); account := (); order := (); authorization := string;
  challenge := string * bool; pkey := (); x509 := string; hmac_key := ();
  hmac _ := Some ();
  get_challenge a _ := Some (a, false);
  key_authorization_encoded ch := Some (Some ch.1);
  challenge_valid := snd;
  authorization_valid _ := true; order_ready _ := true; order_valid _ := true;
  private_key_to_der _ := Some "k"; to_der := Some
|}.

Definition conf : AcmeConfig := {|
  endpoint := "https://acme"; mailto_email := "a@b"; acme_eab_keypair := None;
  accept_insecure_certs_for_testing := false |}.

Definition decode (s : string) : option (list N) := Some [].
Definition loop (n : nat) := refresh_loop decode conf "c.example" (Some "cert.json") n None.

(** A pass that gets a certificate. *)
Definition pre : list (obs (@call_of example_certs example_acme)) :=
  [Obs BorrowCert None; Obs (BuildDirectory "https://acme") (Ok ());
   Obs (BuildAccount () "mailto:a@b" None) (Ok ());
   Obs (SendRequest Protocol.CertLeaseRequest) ();
   Obs RecvResponse (Ok (Protocol.CertLeaseResponse true));
   Obs (BuildOrder () ["c.example"; "*.c.example"]) (Ok ());
   Obs (Authorizations ()) (Ok ["txt"]);
   Obs (SendRequest (Protocol.SetTxtRecord "txt")) ();
   Obs RecvResponse (Ok (Protocol.SetTxtRecordResponse true));
   Obs (Sleep (from_secs 15)) ()].

Definition post : list (obs (@call_of example_certs example_acme)) :=
  [Obs (ChallengeWaitDone ("txt", true) (from_secs 5) 6) (Ok ("txt", true));
   Obs (AuthorizationWaitDone "txt" (from_secs 5) 3) (Ok "txt");
   Obs (OrderWaitReady () (from_secs 5) 3) (Ok ());
   Obs (GenRsaPrivateKey 4096) (Ok ());
   Obs (Finalize () ()) (Ok ());
   Obs (OrderWaitDone () (from_secs 5) 3) (Ok ());
   Obs (Certificate ()) (Ok (Some ["leaf"]));
   Obs (SendCert {| cert_ders := ["leaf"]; cert_key := Pkcs1 "k" : @signing_key example_certs;
     private_key_der := "k"; common_name := "leaf"; validity_start := 0;
     validity_end := from_days 90 |}) (Ok ())].

Lemma example_run :
  runs (loop 1) (pre ++ Obs (ValidateChallenge ("txt", false)) (Ok ("txt", true)) :: post) None.
Proof. unfold loop, pre, post. cbn. repeat apply runs_call. constructor. Qed.

Lemma refresh_follows_protocol_witness :
  ∃ v, g_txt (foldl (@next example_certs example_acme) start pre) = TxtWaited v ∧ v = "txt".
Proof.
  pose proof (refresh_follows_protocol decode conf "c.example" (Some "cert.json") 1 None _ None
    pre _ (ValidateChallenge ("txt", false)) (Ok ("txt", true)) post example_run eq_refl) as H.
  destruct H as (_ & v & Hv & Hk & _). exists v. split; [exact Hv|].
  cbn in Hk. by injection Hk.
Defined.

Lemma account_failure_spins_witness :
  runs (loop 2)
    [Obs BorrowCert None; Obs (BuildDirectory "https://acme") (Err ());
     Obs BorrowCert None; Obs (BuildDirectory "https://acme") (Err ())] (Some ()).
Proof. apply (account_failure_spins decode conf "c.example" (Some "cert.json") 2). reflexivity. Defined.

End CertManagerWitness.
