(* ===== verification/Subscribe.v ===== *)
(** * Event subscriptions ([plane/src/database/subscribe.rs])

    A controller listens to the database on one connection. A task ([Listener]) forwards
    what it is notified of to the subscriptions of the process; when the connection is lost
    it connects again and reads the events it missed from the [event] table. A
    subscription ([Fanout]) is a receiver of the broadcast channel of a kind of events, or
    of a kind and a key.

    [System] composes the task with the database of [Database.v] and a connection: Postgres
    queues, for a connection that has executed LISTEN, the notifications of the
    transactions that commit afterwards, in the order of their commits. *)

From S2P Require Import Prelude BackendState Types Database Sse.
Import Db.

(** ** The channels *)

Module Fanout.

(** [serde_json::from_value] into the payload type whose [kind()] is given, and the law
    relied on: a payload decodes as the type it was encoded from. *)
Class FromValue := from_value : string → payload → option payload.
Class FromValueLaws (J : FromValue) : Prop :=
  from_value_kind p : from_value (kind p) p = Some p.

Section Fanout.
Context `{J : FromValue}.

(** [Sender<Notification<T>>] with its receivers: what each has not received yet. *)
Notation sender := (gmap nat (list Notification)).

(** Capacity of the channels. *)
Definition capacity : nat := 1000.

(** [broadcast::Sender::send]. *)
Definition push (n : Notification) (s : sender) : sender := (λ q, q ++ [n]) <$> s.

Definition receiver_count (s : sender) : nat := size s.

(** [TypedSender::send] of the channel of kind [k]. *)
Definition send (k : string) (n : Notification) (s : sender) : sender :=
  match from_value k (nt_payload n) with
  | None => s
  | Some payload =>
      push (MkNotification (nt_id n) (nt_timestamp n) (nt_kind n) (nt_key n) payload) s
  end.

Notation ListenerMap := (gmap (string * option string) sender).

Record t := Mk { all_events : sender; listeners : ListenerMap }.

(** [EventSubscriptionManager::new]. *)
Definition new : t := Mk ∅ ∅.

(** The send to the channel of a table entry, if there is one. *)
Definition send_to (entry : string * option string) (n : Notification) (l : ListenerMap)
    : ListenerMap :=
  match l !! entry with
  | Some s => <[entry := send entry.1 n s]> l
  | None => l
  end.

Definition send_message (n : Notification) (m : t) : t :=
  let all := if decide (0 < receiver_count (all_events m)) then push n (all_events m)
             else all_events m in
  let l := match nt_key n with
           | Some key => send_to (nt_kind n, Some key) n (listeners m)
           | None => listeners m
           end in
  Mk all (send_to (nt_kind n, None) n l).

Definition subscribe_all_events (r : nat) (m : t) : t :=
  Mk (<[r := []]> (all_events m)) (listeners m).

(** [subscribe::<T>(key)] where [k] is [T::kind()]; [r] names the receiver. *)
Definition subscribe (r : nat) (k : string) (key : option string) (m : t) : t :=
  match listeners m !! (k, key) with
  | Some s => Mk (all_events m) (<[(k, key) := <[r := []]> s]> (listeners m))
  | None => Mk (all_events m) (<[(k, key) := {[ r := [] ]}]> (listeners m))
  end.

(** [Subscription::drop]. *)
Definition drop_subscription (r : nat) (entry : string * option string) (m : t) : t :=
  match listeners m !! entry with
  | Some s =>
      let s := delete r s in
      Mk (all_events m)
        (if decide (receiver_count s = 0) then delete entry (listeners m)
         else <[entry := s]> (listeners m))
  | None => m
  end.

(** What [recv] finds: nothing yet, an item, or that the receiver fell behind and the
    oldest items were dropped ([Subscription::next] then answers [None]). *)
Inductive received := Blocked | Item (n : Notification) | Lagged.

Definition recv (q : list Notification) : received * list Notification :=
  if decide (capacity < length q) then (Lagged, drop (length q - capacity) q)
  else match q with [] => (Blocked, []) | n :: q => (Item n, q) end.

(** [Subscription::next]. *)
Definition next (r : nat) (entry : string * option string) (m : t) : t * received :=
  match listeners m !! entry ≫= lookup r with
  | Some q =>
      let '(x, q) := recv q in
      (Mk (all_events m) (alter (insert r q) entry (listeners m)), x)
  | None => (m, Blocked)
  end.

(** The operations of the process on its subscriptions. *)
Inductive op :=
| Send (n : Notification)
| SubscribeAll (r : nat)
| Subscribe (r : nat) (k : string) (key : option string)
| Drop (r : nat) (entry : string * option string)
| Next (r : nat) (entry : string * option string).

(** One operation, and the answer of a [next] with the receiver it is for. *)
Definition exec (o : op) (m : t) : t * list (nat * received) :=
  match o with
  | Send n => (send_message n m, [])
  | SubscribeAll r => (subscribe_all_events r m, [])
  | Subscribe r k key => (subscribe r k key m, [])
  | Drop r entry => (drop_subscription r entry m, [])
  | Next r entry => let '(m, x) := next r entry m in (m, [(r, x)])
  end.

Fixpoint execs (os : list op) (m : t) : t * list (nat * received) :=
  match os with
  | [] => (m, [])
  | o :: os =>
      let '(m, xs) := exec o m in
      let '(m, ys) := execs os m in (m, xs ++ ys)
  end.

End Fanout.

End Fanout.

(** ** The handle of the database ([database/mod.rs]) *)

(** All clones of a handle share the manager, which the first subscription makes; [started] counts the
    listening tasks. *)
Module PlaneDatabase.
Record t := Mk { manager : option Fanout.t; started : nat }.

Definition new : t := Mk None 0.

(** [get_or_init] *)
Definition subscription_manager (db : t) : t * Fanout.t :=
  match manager db with
  | Some m => (db, m)
  | None => (Mk (Some Fanout.new) (S (started db)), Fanout.new)
  end.

Definition with_manager (f : Fanout.t → Fanout.t) (db : t) : t :=
  let '(db, m) := subscription_manager db in Mk (Some (f m)) (started db).

(** [r] names the receiver, [k] is the kind of the payload. *)
Definition subscribe (r : nat) (k : string) : t → t := with_manager (Fanout.subscribe r k None).
Definition subscribe_with_key (r : nat) (k key : string) : t → t :=
  with_manager (Fanout.subscribe r k (Some key)).
Definition subscribe_all_events (r : nat) : t → t := with_manager (Fanout.subscribe_all_events r).

(** However many parts of a process subscribe, one task listens to the database, and all of them are
    subscriptions of one manager. *)
Lemma one_listening_task (fs : list (Fanout.t → Fanout.t)) :
  foldl (λ db f, with_manager f db) new fs =
    match fs with [] => new | _ => Mk (Some (foldl (λ m f, f m) Fanout.new fs)) 1 end.
Proof.
  destruct fs as [|f fs]; [done|]. cbn [foldl]. change (with_manager f new) with (Mk (Some (f Fanout.new)) 1).
  generalize (f Fanout.new). induction fs as [|g fs IH]; intros m; [done|]. cbn. apply IH.
Qed.
End PlaneDatabase.

(** ** The task *)

Module Listener.
Import ExponentialBackoff.

Section Listener.
Context `{F : F64}.

(** Where the task is: at an [await] of the outer loop, of the loop that reads missed
    events (with [prev_last_message]), or at [try_recv]; [Panicked] after the [expect]. *)
Inductive phase :=
| Connecting
| Listening
| Fetching (prev_last_message : Z)
| Receiving
| Sleeping (delay : option Z)
| Panicked.

Record t := Mk {
  backoff : ExponentialBackoff.t F;
  last_message : option Z;
  at_ : phase
}.

(** [backoff.wait()] followed by the next turn of the outer loop. *)
Definition retry (now : Z) (s : t) : t :=
  let '(d, b) := wait now (backoff s) in Mk b (last_message s) (Sleeping d).

(** The outer loop after the missed events. *)
Definition start_receiving (now : Z) (s : t) : t :=
  Mk (defer_reset now (backoff s)) (last_message s) Receiving.

(** The [for] loop over a batch of missed events: the events sent, and where it ends. *)
Fixpoint forward (messages : list Notification) (s : t) : t * list Notification :=
  match messages with
  | [] => (s, [])
  | n :: messages =>
      match nt_id n with
      | Some id =>
          let '(s, sent) := forward messages (Mk (backoff s) (Some id) (Fetching id)) in
          (s, n :: sent)
      | None => (Mk (backoff s) None Panicked, [n])
      end
  end.

(** A notification from the connection. *)
Definition on_notification (n : Notification) (s : t) : t * list Notification :=
  match nt_id n with
  | Some id =>
      if match last_message s with Some l => bool_decide (id ≤ l)%Z | None => false end
      then (s, [])
      else (Mk (backoff s) (Some id) (at_ s), [n])
  | None => (s, [n])
  end.

(** What an [await] of the task answers. [Notified None] is a text that does not parse;
    [ConnectionLost] is any answer of [try_recv] other than a notification. *)
Inductive answer :=
| Connect (ok : bool)
| Listen (ok : bool)
| Fetched (messages : option (list Notification))
| Notified (n : option Notification)
| ConnectionLost
| Awake.

(** From one [await] to the next, with the calls of [send_message]. *)
Definition step (now : Z) (a : answer) (s : t) : t * list Notification :=
  match at_ s, a with
  | Connecting, Connect true => (Mk (backoff s) (last_message s) Listening, [])
  | Connecting, Connect false => (retry now s, [])
  | Listening, Listen true =>
      match last_message s with
      | Some l => (Mk (backoff s) (last_message s) (Fetching l), [])
      | None => (start_receiving now s, [])
      end
  | Listening, Listen false => (retry now s, [])
  | Fetching _, Fetched None => (retry now s, [])
  | Fetching _, Fetched (Some []) => (start_receiving now s, [])
  | Fetching _, Fetched (Some messages) => forward messages s
  | Receiving, Notified (Some n) => on_notification n s
  | Receiving, Notified None => (s, [])
  | Receiving, ConnectionLost => (retry now s, [])
  | Sleeping _, Awake => (Mk (backoff s) (last_message s) Connecting, [])
  | _, _ => (s, [])
  end.

(** [EventSubscriptionManager::new]: [m] is the literal 1.1. *)
Definition new (m : f64) : t := Mk (default m) None Connecting.

End Listener.
Arguments t F : clear implicits.

End Listener.

(** ** The task, its connection and the database *)

Module System.
Export Listener.
Section System.
Context `{F : ExponentialBackoff.F64}.

(** [queue] is what Postgres holds for the connection ([None] without one that listens),
    [log] the notifications of stored events since the start, and [out] the calls of
    [send_message]. *)
Record sys := Sys {
  db : DB;
  queue : option (list Notification);
  task : Listener.t F;
  log : list Notification;
  out : list Notification
}.

Definition enqueue (n : Notification) (q : option (list Notification))
    : option (list Notification) := (λ q, q ++ [n]) <$> q.

(** The notification of the event that [emit_impl] stores. *)
Definition stored (key : option string) (p : payload) (d : DB) : Notification :=
  MkNotification (Some (event_seq d)) (clock d) (kind p) key p.

(** The task goes on with an answer. *)
Definition advance (now : Z) (a : answer) (q : option (list Notification)) (s : sys) : sys :=
  let '(t, sent) := Listener.step now a (task s) in
  Sys (db s) q t (log s) (out s ++ sent).

Inductive step : sys → sys → Prop :=
| step_emit key p d s :
    emit_impl key p (db s) = Ok (d, ()) →
    step s (Sys d (enqueue (stored key p (db s)) (queue s)) (task s)
              (log s ++ [stored key p (db s)]) (out s))
| step_other d s :
    events d = events (db s) → event_seq d = event_seq (db s) →
    step s (Sys d (queue s) (task s) (log s) (out s))
| step_clean_up min_age_days s :
    step s (Sys (clean_up_events min_age_days (db s)) (queue s) (task s) (log s) (out s))
| step_ephemeral n s :
    nt_id n = None →
    step s (Sys (db s) (enqueue n (queue s)) (task s) (log s) (out s))
| step_connect now ok s : step s (advance now (Connect ok) (queue s) s)
| step_listen now s :
    at_ (task s) = Listening → step s (advance now (Listen true) (Some []) s)
| step_listen_fails now s :
    at_ (task s) = Listening → step s (advance now (Listen false) None s)
| step_fetch now p s :
    at_ (task s) = Fetching p →
    step s (advance now (Fetched (Some (get_events_since p (db s)))) (queue s) s)
| step_fetch_fails now p s :
    at_ (task s) = Fetching p → step s (advance now (Fetched None) None s)
| step_notified now n q s :
    at_ (task s) = Receiving → queue s = Some (n :: q) →
    step s (advance now (Notified (Some n)) (Some q) s)
| step_unparsable now s :
    at_ (task s) = Receiving → step s (advance now (Notified None) (queue s) s)
| step_lost now s :
    at_ (task s) = Receiving → step s (advance now ConnectionLost None s)
| step_awake now s : step s (advance now Awake (queue s) s).

Definition start (m : ExponentialBackoff.f64) (d : DB) : sys :=
  Sys d None (Listener.new m) [] [].

(** The event ids of a database, as in the invariant of [Invariant.v]. *)
Definition event_ids_ok (d : DB) : Prop :=
  StronglySorted (λ a b, (e_id a < e_id b)%Z) (events d) ∧
  ∀ e, e ∈ events d → (e_id e < event_seq d)%Z.

Definition reachable (m : ExponentialBackoff.f64) (d : DB) (s : sys) : Prop :=
  event_ids_ok d ∧ rtc step (start m d) s.

(** The ids of stored events among notifications. *)
Definition ids (l : list Notification) : list Z := omap nt_id l.

(** The event of a notification has been deleted. *)
Definition cleaned (n : Notification) (d : DB) : Prop :=
  ∀ e, e ∈ events d → nt_id n ≠ Some (e_id e).

(** The task alone, its calls answered, for [fuel] steps. *)
Definition answered (now : Z) (s : sys) : sys :=
  match at_ (task s) with
  | Connecting => advance now (Connect true) (queue s) s
  | Listening => advance now (Listen true) (Some []) s
  | Fetching p => advance now (Fetched (Some (get_events_since p (db s)))) (queue s) s
  | Receiving =>
      match queue s with
      | Some (n :: q) => advance now (Notified (Some n)) (Some q) s
      | _ => s
      end
  | Sleeping _ => advance now Awake (queue s) s
  | Panicked => s
  end.

Fixpoint drain (fuel : nat) (now : Z) (s : sys) : sys :=
  match fuel with O => s | S fuel => drain fuel now (answered now s) end.

End System.
Arguments sys F : clear implicits.

End System.

(** ** Theorems *)

Module SubscribeProps.
Import System.
Section SubscribeProps.
Context `{F : ExponentialBackoff.F64}.
Implicit Types (s : sys F) (d : DB).

(** *** Lists of notifications *)

Lemma ids_app l l' : ids (l ++ l') = ids l ++ ids l'.
Proof. apply omap_app. Qed.

Lemma elem_of_ids i l : i ∈ ids l ↔ ∃ n, n ∈ l ∧ nt_id n = Some i.
Proof. unfold ids. rewrite list_elem_of_omap. naive_solver. Qed.

Lemma last_ids_snoc l n i : nt_id n = Some i → last (ids (l ++ [n])) = Some i.
Proof. intros H. rewrite ids_app. cbn. rewrite H. apply last_snoc. Qed.

(** The ids of a log are distinct, so that an id identifies its notification. *)
Lemma ids_inj l n n' i :
  StronglySorted Z.lt (ids l) → n ∈ l → n' ∈ l → nt_id n = Some i → nt_id n' = Some i → n = n'.
Proof.
  induction l as [|x l IH]; [by intros _ ?%elem_of_nil|].
  cbn. intros Hs Hn Hn' Hi Hi'.
  assert (∀ y, nt_id x = Some i → y ∈ l → nt_id y = Some i → False) as Hx.
  { intros y Hxi Hy Hyi. rewrite Hxi in Hs. apply StronglySorted_inv in Hs as [_ Hall].
    rewrite Forall_forall in Hall. assert (i ∈ ids l) as Hin by (apply elem_of_ids; eauto).
    specialize (Hall _ Hin). lia. }
  assert (StronglySorted Z.lt (ids l)) as Hl.
  { destruct (nt_id x); [by apply StronglySorted_inv in Hs as [? _]|done]. }
  apply elem_of_cons in Hn as [->|Hn]; apply elem_of_cons in Hn' as [->|Hn']; naive_solver.
Qed.

(** *** Rows and notifications *)

Definition of_row (e : event_row) : Notification :=
  MkNotification (Some (e_id e)) (e_created_at e) (e_kind e) (e_key e) (e_data e).

Lemma get_events_since_sorted d p :
  event_ids_ok d →
  get_events_since p d = of_row <$> take 100 (filter (λ e, (p < e_id e)%Z) (events d)).
Proof.
  intros [Hs _]. unfold get_events_since.
  rewrite (merge_sort_id e_id); [done|done|by apply StronglySorted_filter].
Qed.

(** The oldest event after [p], and the ones after it. *)
Lemma filter_after_cons d p e l :
  event_ids_ok d → filter (λ e, (p < e_id e)%Z) (events d) = e :: l →
  (p < e_id e)%Z ∧ e ∈ events d ∧
  (∀ e', e' ∈ events d → (p < e_id e')%Z → (e_id e ≤ e_id e')%Z) ∧
  filter (λ e', (e_id e < e_id e')%Z) (events d) = l.
Proof.
  intros [Hs _] Hf.
  assert (e ∈ filter (λ e, (p < e_id e)%Z) (events d)) as [Hp He]%list_elem_of_filter
    by (rewrite Hf; left).
  split_and!; [done|done| |]; clear He.
  - intros e' He' Hp'. assert (e' ∈ e :: l) as [->|Hin]%elem_of_cons.
    { rewrite <- Hf. by apply list_elem_of_filter. } { done. }
    apply (StronglySorted_filter _ (λ e, (p < e_id e)%Z)) in Hs. rewrite Hf in Hs.
    apply StronglySorted_inv in Hs as [_ Hall]. rewrite Forall_forall in Hall.
    specialize (Hall _ Hin). lia.
  - revert Hs Hf. induction (events d) as [|x es IH]; [done|].
    intros Hs'. apply StronglySorted_inv in Hs' as [Hs Hall]. rewrite Forall_forall in Hall.
    rewrite !filter_cons. destruct (decide (p < e_id x)%Z).
    + intros [= -> <-]. rewrite decide_False by lia.
      rewrite !filter_all; [done|..]; intros y Hy; specialize (Hall y Hy); lia.
    + intros Hf. rewrite decide_False by lia. by apply IH.
Qed.

(** *** What has been sent *)

Record delivered (lg : list Notification) (d : DB) (o : list Notification) : Prop := {
  del_sorted : StronglySorted Z.lt (ids o);
  del_log : ∀ n, n ∈ o → is_Some (nt_id n) → n ∈ lg;
  del_complete : ∀ f m n i, head (ids o) = Some f → last (ids o) = Some m → n ∈ lg →
    nt_id n = Some i → (f ≤ i ≤ m)%Z → n ∈ o ∨ cleaned n d
}.

Lemma delivered_snoc lg d o n i :
  delivered lg d o → StronglySorted Z.lt (ids lg) → n ∈ lg → nt_id n = Some i →
  (∀ m, last (ids o) = Some m → (m < i)%Z ∧
    ∀ n' i', n' ∈ lg → nt_id n' = Some i' → (m < i' < i)%Z → cleaned n' d) →
  delivered lg d (o ++ [n]).
Proof.
  intros [Hs Hl Hc] Hlg Hn Hi Hgap.
  assert (ids (o ++ [n]) = ids o ++ [i]) as Hids by (rewrite ids_app; cbn; by rewrite Hi).
  constructor; rewrite ?Hids.
  - rewrite StronglySorted_snoc. split; [done|]. intros y Hy.
    destruct (last (ids o)) as [m|] eqn:Hm.
    + destruct (Hgap _ eq_refl) as [? _]. pose proof (sorted_last_max _ _ _ Hs Hm Hy). lia.
    + apply last_None in Hm. rewrite Hm in Hy. by apply elem_of_nil in Hy.
  - intros n' Hn' ?. apply elem_of_app in Hn' as [Hn'|Hn'%list_elem_of_singleton]; subst; eauto.
  - intros f m n' i' Hf Hm Hn' Hi' Hrange. rewrite last_snoc in Hm. injection Hm as <-.
    destruct (decide (i' = i)) as [->|Hne].
    { left. rewrite (ids_inj lg n' n i); [set_solver|done..]. }
    destruct (ids o) as [|f' l] eqn:Ho; cbn in Hf; simplify_eq; [lia|].
    destruct (last (f :: l)) as [m|] eqn:Hm; [|by apply last_None in Hm].
    destruct (Hgap _ eq_refl) as [Hlt Hclean].
    destruct (decide (i' ≤ m)%Z).
    + destruct (Hc f m n' i') as [?|?]; [done|done|done|done|lia|set_solver|by right].
    + right. apply (Hclean n' i'); [done|done|lia].
Qed.

Lemma delivered_ephemeral lg d o n : nt_id n = None → delivered lg d o → delivered lg d (o ++ [n]).
Proof.
  intros Hn [Hs Hl Hc]. assert (ids (o ++ [n]) = ids o) as Hids.
  { rewrite ids_app. cbn. by rewrite Hn, app_nil_r. }
  constructor; rewrite ?Hids; [done| |].
  - intros n' Hn' Hi. apply elem_of_app in Hn' as [?|Hn'%list_elem_of_singleton]; [eauto|].
    subst. rewrite Hn in Hi. by destruct Hi.
  - intros f m n' i Hf Hm Hn' Hi Hr. destruct (Hc f m n' i) as [?|?]; set_solver.
Qed.

Lemma delivered_mono lg lg' d d' o :
  delivered lg d o → (∀ n, n ∈ lg → n ∈ lg') →
  (∀ n, n ∈ lg → cleaned n d → cleaned n d') →
  (∀ n i m, n ∈ lg' → nt_id n = Some i → last (ids o) = Some m → n ∈ lg ∨ (m < i)%Z) →
  delivered lg' d' o.
Proof.
  intros [Hs Hl Hc] Hsub Hcl Hnew. constructor; [done|eauto|].
  intros f m n i Hf Hm Hn Hi Hr. destruct (Hnew _ _ _ Hn Hi Hm) as [Hin|Hout]; [|lia].
  destruct (Hc f m n i) as [?|?]; auto.
Qed.

(** *** The invariant of the system *)

(** The notifications that the connection will deliver, for events after [last]. *)
Definition pending_ok (s : sys F) (m : option Z) : Prop :=
  ∃ q, queue s = Some q ∧ ∀ l n i, m = Some l → n ∈ log s → nt_id n = Some i → (l < i)%Z →
    n ∈ q ∨ cleaned n (db s).

Record inv (d0 : DB) (s : sys F) : Prop := {
  inv_ids : event_ids_ok (db s);
  inv_log : StronglySorted Z.lt (ids (log s)) ∧
    (∀ i, i ∈ ids (log s) → (event_seq d0 ≤ i < event_seq (db s))%Z) ∧
    (event_seq d0 ≤ event_seq (db s))%Z;
  inv_rows : ∀ e, e ∈ events (db s) → (event_seq d0 ≤ e_id e)%Z → of_row e ∈ log s;
  inv_out : delivered (log s) (db s) (out s);
  inv_last : last_message (task s) = last (ids (out s));
  inv_queue : ∀ q, queue s = Some q →
    ids q `suffix_of` ids (log s) ∧ ∀ n, n ∈ q → is_Some (nt_id n) → n ∈ log s;
  inv_phase : match at_ (task s) with
    | Receiving => pending_ok s (last_message (task s))
    | Fetching p => last_message (task s) = Some p ∧ is_Some (queue s)
    | Panicked => False
    | _ => True
    end
}.

Lemma last_in_log d0 s m : inv d0 s → last_message (task s) = Some m →
  (event_seq d0 ≤ m < event_seq (db s))%Z.
Proof.
  intros H Hm. rewrite (inv_last _ _ H) in Hm. apply last_Some in Hm as [l Hl].
  assert (m ∈ ids (out s)) as (n & Hn & Hi)%elem_of_ids by (rewrite Hl; set_solver).
  destruct (inv_log _ _ H) as (_ & Hr & _). apply Hr, elem_of_ids. exists n. split; [|done].
  apply (del_log _ _ _ (inv_out _ _ H)); [done|by eexists].
Qed.

(** An event of the log is in the table, or has been cleaned up. *)
Lemma stored_or_cleaned d0 s n : inv d0 s → n ∈ log s → is_Some (nt_id n) →
  (∃ e, e ∈ events (db s) ∧ n = of_row e) ∨ cleaned n (db s).
Proof.
  intros H Hn [i Hi]. destruct (decide (Exists (λ e, e_id e = i) (events (db s)))) as [He|He].
  - left. apply Exists_exists in He as (e & He & Hid). exists e. split; [done|].
    destruct (inv_log _ _ H) as (Hs & Hr & _).
    assert (i ∈ ids (log s)) as Hin by (apply elem_of_ids; eauto). apply Hr in Hin.
    eapply ids_inj; [exact Hs|done|apply (inv_rows _ _ H); [done|lia]|done|by rewrite <- Hid].
  - right. intros e Hin Heq. apply He, Exists_exists. exists e. split; [done|].
    rewrite Hi in Heq. by injection Heq.
Qed.

(** *** The database moves *)

Lemma inv_start d0 m : event_ids_ok d0 → inv d0 (start m d0).
Proof.
  intros H. constructor; cbn; try done.
  - split_and!; [constructor|by intros i ?%elem_of_nil|lia].
  - intros e He Hge. destruct H as [_ H]. specialize (H _ He). lia.
  - constructor; [constructor|by intros n ?%elem_of_nil|done].
Qed.

Lemma inv_other d0 s d : inv d0 s →
  events d = events (db s) → event_seq d = event_seq (db s) →
  inv d0 (Sys d (queue s) (task s) (log s) (out s)).
Proof.
  intros [H1 H2 H3 H4 H5 H6 H7] He Hq. constructor; cbn; unfold event_ids_ok in *;
    rewrite ?He, ?Hq; try done.
  - eapply delivered_mono; [done|done| |by auto]. unfold cleaned. by rewrite He.
  - destruct (at_ (task s)); try done. unfold pending_ok, cleaned in *. cbn. by rewrite He.
Qed.

Lemma inv_clean_up d0 s k : inv d0 s →
  inv d0 (Sys (clean_up_events k (db s)) (queue s) (task s) (log s) (out s)).
Proof.
  intros [H1 H2 H3 H4 H5 H6 H7].
  assert (∀ n, cleaned n (db s) → cleaned n (clean_up_events k (db s))) as Hcl.
  { intros n Hn e He. apply Hn. by apply list_elem_of_filter in He as [_ ?]. }
  constructor; cbn; try done.
  - destruct H1 as [Hs Hlt]. split; cbn; [by apply StronglySorted_filter|].
    intros e [_ He]%list_elem_of_filter. by apply Hlt.
  - intros e [_ He]%list_elem_of_filter. by apply H3.
  - apply (delivered_mono (log s) (log s) (db s)); [done|done| |by eauto].
    intros n _. apply Hcl.
  - destruct (at_ (task s)); try done. destruct H7 as (q & Hq & H7). exists q. split; [done|].
    intros l n i Hl Hn Hi Hlt. destruct (H7 l n i Hl Hn Hi Hlt) as [?|?]; auto.
Qed.

Lemma emit_impl_eq key p d d' : emit_impl key p d = Ok (d', ()) →
  events d' = events d ++ [MkEvent (event_seq d) (kind p) key (clock d) p] ∧
  event_seq d' = (event_seq d + 1)%Z.
Proof. unfold emit_impl. intros [= <-]. by cbn. Qed.

Lemma stored_cleaned key p d d' n : emit_impl key p d = Ok (d', ()) →
  nt_id n ≠ Some (event_seq d) → cleaned n d → cleaned n d'.
Proof.
  intros [He _]%emit_impl_eq Hn Hc e. rewrite He. intros [?| ->%list_elem_of_singleton]%elem_of_app;
    [by apply Hc|done].
Qed.

Lemma inv_emit d0 s key p d : inv d0 s → emit_impl key p (db s) = Ok (d, ()) →
  inv d0 (Sys d (enqueue (stored key p (db s)) (queue s)) (task s)
            (log s ++ [stored key p (db s)]) (out s)).
Proof.
  intros H Hemit. destruct (emit_impl_eq _ _ _ _ Hemit) as [Hev Hsq].
  set (n := stored key p (db s)).
  destruct (inv_log _ _ H) as (Hs & Hr & Hle).
  assert (∀ n', n' ∈ log s → cleaned n' (db s) → cleaned n' d) as Hcl.
  { intros n' Hn'. eapply stored_cleaned; [done|]. intros Hi.
    assert (event_seq (db s) ∈ ids (log s)) as Hin%Hr by (apply elem_of_ids; eauto). lia. }
  assert (∀ m, last_message (task s) = Some m → (m < event_seq (db s))%Z) as Hlast
    by (intros m Hm; pose proof (last_in_log _ _ _ H Hm); lia).
  destruct (inv_ids _ _ H) as [Hes Hlt].
  constructor; cbn; rewrite ?ids_app; cbn.
  - split; rewrite ?Hev, ?Hsq.
    + rewrite StronglySorted_snoc. split; [done|]. intros e He. by apply Hlt.
    + intros e [He| ->%list_elem_of_singleton]%elem_of_app; [|cbn; lia]. specialize (Hlt _ He). lia.
  - rewrite Hsq. split_and!; [|intros i [Hi%Hr| ->%list_elem_of_singleton]%elem_of_app; lia|lia].
    rewrite StronglySorted_snoc. split; [done|]. intros i Hi%Hr. lia.
  - rewrite Hev. intros e [He| ->%list_elem_of_singleton]%elem_of_app Hge; [|set_solver].
    apply elem_of_app. left. by apply (inv_rows _ _ H).
  - eapply delivered_mono; [apply (inv_out _ _ H)|set_solver|done|].
    intros n' i m Hn' Hi Hm. rewrite <- (inv_last _ _ H) in Hm.
    apply elem_of_app in Hn' as [?| ->%list_elem_of_singleton]; [by left|right].
    cbn in Hi. injection Hi as <-. by apply Hlast.
  - apply (inv_last _ _ H).
  - intros q Hq. apply fmap_Some in Hq as (q' & Hq' & ->).
    destruct (inv_queue _ _ H _ Hq') as [[l Hsuf] Hin]. rewrite ids_app, Hsuf. cbn. split.
    + exists l. by rewrite (assoc_L app).
    + intros n' [?|?]%elem_of_app ?; apply elem_of_app; eauto.
  - pose proof (inv_phase _ _ H) as Hph. destruct (at_ (task s)); try done.
    + destruct Hph as [? Hq]. split; [done|]. by apply fmap_is_Some.
    + destruct Hph as (q & Hq & Hph). exists (q ++ [n]). cbn. rewrite Hq. split; [done|].
      intros l n' i Hl Hn' Hi Hlt'. apply elem_of_app in Hn' as [Hn'| ->%list_elem_of_singleton].
      * destruct (Hph l n' i Hl Hn' Hi Hlt') as [?|?]; [left; set_solver|right; auto].
      * left. set_solver.
Qed.

(** *** The task moves *)

Definition phase_ok (s : sys F) : Prop :=
  match at_ (task s) with
  | Receiving => pending_ok s (last_message (task s))
  | Fetching p => last_message (task s) = Some p ∧ is_Some (queue s)
  | Panicked => False
  | _ => True
  end.

(** Nothing sent. *)
Lemma inv_silent d0 s t q : inv d0 s → last_message t = last_message (task s) →
  q = queue s ∨ q = None ∨ q = Some [] →
  phase_ok (Sys (db s) q t (log s) (out s)) → inv d0 (Sys (db s) q t (log s) (out s)).
Proof.
  intros [H1 H2 H3 H4 H5 H6 H7] Ht Hq Hph. constructor; cbn [db queue task log out]; try done; [by rewrite Ht|].
  destruct Hq as [->|[->|Hq]]; [done|done|]. intros q' ->. simplify_eq. split.
  - eexists. symmetry. apply app_nil_r.
  - by intros n ?%elem_of_nil.
Qed.

Lemma advance_silent now a q s t : Listener.step now a (task s) = (t, []) →
  advance now a q s = Sys (db s) q t (log s) (out s).
Proof. unfold advance. intros ->. by rewrite app_nil_r. Qed.

(** What waits on a connection when everything missed has been read. *)
Lemma nothing_missed d0 s p q : inv d0 s → last_message (task s) = Some p →
  queue s = Some q → filter (λ e, (p < e_id e)%Z) (events (db s)) = [] →
  pending_ok s (Some p).
Proof.
  intros H Hp Hq Hf. exists q. split; [done|]. intros l n i [= <-] Hn Hi Hlt. right.
  intros e He Heq. rewrite Hi in Heq. injection Heq as ->.
  assert (e ∈ filter (λ e, (p < e_id e)%Z) (events (db s))) as Hin
    by (by apply list_elem_of_filter).
  rewrite Hf in Hin. by apply elem_of_nil in Hin.
Qed.

(** A batch of missed events, oldest first. *)
Lemma inv_forward d0 es : ∀ rest s p,
  inv d0 s → at_ (task s) = Fetching p →
  filter (λ e, (p < e_id e)%Z) (events (db s)) = es ++ rest →
  let '(t, sent) := forward (of_row <$> es) (task s) in
  inv d0 (Sys (db s) (queue s) t (log s) (out s ++ sent)) ∧ sent = of_row <$> es ∧
  ∃ p', at_ t = Fetching p' ∧ filter (λ e, (p' < e_id e)%Z) (events (db s)) = rest.
Proof.
  induction es as [|e es IH]; intros rest s p H Hat Hf; cbn.
  { rewrite app_nil_r. split_and!; [by destruct s|done|by exists p]. }
  pose proof (inv_phase _ _ H) as Hph. rewrite Hat in Hph. destruct Hph as [Hp Hq].
  destruct (filter_after_cons _ _ _ _ (inv_ids _ _ H) Hf) as (Hlt & Hin & Hmin & Hrest).
  pose proof (last_in_log _ _ _ H Hp) as Hge.
  assert (of_row e ∈ log s) as Hlog by (apply (inv_rows _ _ H); [done|lia]).
  set (s' := Sys (db s) (queue s) (Listener.Mk (backoff (task s)) (Some (e_id e))
    (Fetching (e_id e))) (log s) (out s ++ [of_row e])).
  assert (inv d0 s') as H'.
  { destruct H as [H1 H2 H3 H4 H5 H6 H7]. constructor; cbn; try done.
    - apply (delivered_snoc _ _ _ _ (e_id e)); [done|apply H2|done|done|].
      intros m Hm. rewrite <- H5, Hp in Hm. injection Hm as <-. split; [done|].
      intros n' i' Hn' Hi' Hr e' He' Heq. rewrite Hi' in Heq. injection Heq as ->.
      specialize (Hmin e' He'). lia.
    - symmetry. by apply last_ids_snoc. }
  specialize (IH rest s' (e_id e) H' eq_refl Hrest). cbn in IH.
  destruct (forward _ _) as [t sent]. destruct IH as (HI & -> & p' & ? & ?).
  split_and!; [|done|by exists p']. by rewrite <- (assoc_L app) in HI.
Qed.

Lemma inv_fetch d0 now s p : inv d0 s → at_ (task s) = Fetching p →
  inv d0 (advance now (Fetched (Some (get_events_since p (db s)))) (queue s) s).
Proof.
  intros H Hat. rewrite get_events_since_sorted by apply (inv_ids _ _ H).
  set (l := filter _ _). pose proof (inv_phase _ _ H) as Hph. rewrite Hat in Hph.
  destruct Hph as [Hp [q Hq]].
  destruct (take 100 l) as [|e es] eqn:Hl.
  - assert (l = []) as Hnil by (by destruct l). cbn.
    rewrite (advance_silent _ _ _ _ (start_receiving now (task s)))
      by (unfold Listener.step; by rewrite Hat).
    apply inv_silent; [done|done|by left|]. unfold phase_ok. cbn. rewrite Hp.
    by apply (nothing_missed d0 s p q).
  - pose proof (inv_forward d0 (e :: es) (drop 100 l) s p H Hat) as Hfw.
    unfold advance, Listener.step. rewrite Hat, fmap_cons, <- (fmap_cons of_row).
    destruct (forward _ _) as [t sent]. apply Hfw. rewrite <- Hl. by rewrite take_drop.
Qed.

(** The rest of a queue. *)
Lemma queue_tail (q : list Notification) n (lg : list Notification) :
  ids (n :: q) `suffix_of` ids lg ∧ (∀ n', n' ∈ n :: q → is_Some (nt_id n') → n' ∈ lg) →
  ids q `suffix_of` ids lg ∧ ∀ n', n' ∈ q → is_Some (nt_id n') → n' ∈ lg.
Proof.
  intros [[l Hl] Hin]. split; [|intros n' ?; apply Hin; by right].
  cbn in Hl. destruct (nt_id n) as [i|]; [exists (l ++ [i])|by exists l].
  by rewrite <- (assoc_L app).
Qed.

(** Everything later than the head of a queue waits behind it. *)
Lemma after_head (q : list Notification) n i (lg : list Notification) n' i' :
  StronglySorted Z.lt (ids lg) → nt_id n = Some i →
  ids (n :: q) `suffix_of` ids lg ∧ (∀ n', n' ∈ n :: q → is_Some (nt_id n') → n' ∈ lg) →
  n' ∈ lg → nt_id n' = Some i' → (i < i')%Z → n' ∈ q.
Proof.
  intros Hs Hi [[l Hl] Hin] Hn' Hi' Hlt. cbn in Hl. rewrite Hi in Hl.
  assert (i' ∈ ids lg) as Hm by (apply elem_of_ids; eauto).
  pose proof Hs as Hs'. rewrite Hl in Hm, Hs'.
  apply elem_of_app in Hm as [Hm|Hm].
  { pose proof (StronglySorted_app_1_elem_of _ _ _ i' i Hs' Hm ltac:(left)). lia. }
  apply elem_of_cons in Hm as [->|(n'' & Hn'' & Hi'')%elem_of_ids]; [lia|].
  by rewrite (ids_inj lg n' n'' i'); [|done|done|apply Hin; [by right|by eexists]|done|done].
Qed.

(** A notification of a later event is sent. *)
Lemma inv_sent d0 n i q s : inv d0 s → at_ (task s) = Receiving →
  queue s = Some (n :: q) → nt_id n = Some i →
  (∀ m, last_message (task s) = Some m → (m < i)%Z) →
  inv d0 (Sys (db s) (Some q) (Listener.Mk (backoff (task s)) (Some i) Receiving) (log s)
            (out s ++ [n])).
Proof.
  intros H Hat Hq Hi Hlast. pose proof (inv_phase _ _ H) as Hph. rewrite Hat in Hph.
  destruct Hph as (q' & Hq' & Hph). rewrite Hq in Hq'. injection Hq' as <-.
  pose proof (inv_queue _ _ H _ Hq) as Hsuf. destruct (inv_log _ _ H) as (Hs & _).
  destruct H as [H1 H2 H3 H4 H5 H6 H7].
  assert (n ∈ log s) as Hn by (apply Hsuf; [by left|by eexists]).
  constructor; cbn [db queue task log out last_message at_]; try done.
  - apply (delivered_snoc _ _ _ _ i); [done..|]. intros m Hm. rewrite <- H5 in Hm.
    split; [by apply Hlast|]. intros n' i' Hn' Hi' Hr.
    destruct (Hph m n' i' Hm Hn' Hi' ltac:(lia)) as [[->|Hin]%elem_of_cons|?];
      [simplify_eq; lia| |done].
    assert (i' ∈ ids q) as Hiq by (apply elem_of_ids; eauto).
    destruct Hsuf as [[l' Hl'] _]. cbn in Hl'. rewrite Hi in Hl'. rewrite Hl' in Hs.
    apply StronglySorted_app_1_r, StronglySorted_inv in Hs as [_ Hs].
    rewrite Forall_forall in Hs. specialize (Hs _ Hiq). lia.
  - symmetry. by apply last_ids_snoc.
  - intros ? [= <-]. by apply (queue_tail _ n).
  - exists q. split; [done|]. intros l' n' i' [= <-] Hn' Hi' Hlt. left.
    by apply (after_head q n i (log s) n' i').
Qed.

Lemma inv_notified d0 now n q s : inv d0 s → at_ (task s) = Receiving →
  queue s = Some (n :: q) → inv d0 (advance now (Notified (Some n)) (Some q) s).
Proof.
  intros H Hat Hq. unfold advance, Listener.step. rewrite Hat. unfold on_notification.
  destruct (nt_id n) as [i|] eqn:Hi.
  - destruct (match last_message (task s) with Some l => _ | None => false end) eqn:Hle.
    + destruct (last_message (task s)) as [l|] eqn:Hl; [|done]. apply bool_decide_eq_true in Hle.
      pose proof (inv_phase _ _ H) as Hph. pose proof (inv_queue _ _ H _ Hq) as Hsuf.
      rewrite Hat, Hl in Hph. destruct Hph as (q' & Hq' & Hph). simplify_eq.
      rewrite app_nil_r. destruct H as [H1 H2 H3 H4 H5 H6 H7].
      constructor; cbn [db queue task log out]; try done.
      * intros ? [= <-]. by apply (queue_tail _ n).
      * rewrite Hat, Hl. exists q. split; [done|]. intros l' n' i' [= <-] Hn' Hi' Hlt.
        destruct (Hph l n' i' eq_refl Hn' Hi' Hlt) as [[->|?]%elem_of_cons|?];
          [simplify_eq; lia|by left|by right].
    + rewrite Hat. apply inv_sent; try done. intros m Hm. rewrite Hm in Hle.
      apply bool_decide_eq_false in Hle. lia.
  - pose proof (inv_phase _ _ H) as Hph. pose proof (inv_queue _ _ H _ Hq) as Hsuf.
    rewrite Hat in Hph. destruct Hph as (q' & Hq' & Hph). simplify_eq.
    destruct H as [H1 H2 H3 H4 H5 H6 H7]. constructor; cbn [db queue task log out]; try done.
    + by apply delivered_ephemeral.
    + rewrite ids_app. cbn. by rewrite Hi, app_nil_r.
    + intros ? [= <-]. by apply (queue_tail _ n).
    + rewrite Hat. exists q. split; [done|]. intros l n' i' Hl Hn' Hi' Hlt.
      destruct (Hph l n' i' Hl Hn' Hi' Hlt) as [[->|?]%elem_of_cons|?]; naive_solver.
Qed.

Lemma retry_eq now (t : Listener.t F) :
  last_message (retry now t) = last_message t ∧ ∃ delay, at_ (retry now t) = Sleeping delay.
Proof. unfold retry. destruct (ExponentialBackoff.wait _ _). cbn. eauto. Qed.

Lemma inv_retry d0 now a s : inv d0 s → Listener.step now a (task s) = (retry now (task s), []) →
  inv d0 (advance now a None s).
Proof.
  intros H Hstep. rewrite (advance_silent _ _ _ _ _ Hstep).
  destruct (retry_eq now (task s)) as [Hl [d Hd]]. apply inv_silent; [done|done|tauto|].
  unfold phase_ok. cbn. by rewrite Hd.
Qed.

Lemma inv_keep d0 s q : inv d0 s → q = queue s → inv d0 (Sys (db s) q (task s) (log s) (out s)).
Proof. intros H ->. by destruct s. Qed.

Lemma inv_connect d0 now ok s : inv d0 s → inv d0 (advance now (Connect ok) (queue s) s).
Proof.
  intros H. destruct (at_ (task s)) eqn:Hat; [destruct ok|..].
  2: { rewrite (advance_silent _ _ _ _ (retry now (task s)))
         by (unfold Listener.step; by rewrite Hat).
       destruct (retry_eq now (task s)) as [Hl [d Hd]]. apply inv_silent; [done|done|tauto|].
       unfold phase_ok. cbn. by rewrite Hd. }
  1: { erewrite advance_silent by (unfold Listener.step; by rewrite Hat).
       apply inv_silent; [done|done|tauto|done]. }
  all: erewrite advance_silent by (unfold Listener.step; by rewrite Hat).
  all: by apply inv_keep.
Qed.

Lemma inv_awake d0 now s : inv d0 s → inv d0 (advance now Awake (queue s) s).
Proof.
  intros H. destruct (at_ (task s)) eqn:Hat.
  5: { erewrite advance_silent by (unfold Listener.step; by rewrite Hat).
       apply inv_silent; [done|done|tauto|done]. }
  all: erewrite advance_silent by (unfold Listener.step; by rewrite Hat).
  all: by apply inv_keep.
Qed.

Lemma inv_listen d0 now s : inv d0 s → at_ (task s) = Listening →
  inv d0 (advance now (Listen true) (Some []) s).
Proof.
  intros H Hat. destruct (last_message (task s)) as [l|] eqn:Hl;
    erewrite advance_silent by (unfold Listener.step; by rewrite Hat, Hl).
  - apply inv_silent; [done|done|tauto|]. cbn. by split.
  - apply inv_silent; [done|done|tauto|]. exists []. split; [done|].
    intros ? ? ? Hm. cbn in Hm. by rewrite Hl in Hm.
Qed.

Lemma inv_step d0 s s' : inv d0 s → step s s' → inv d0 s'.
Proof.
  intros H Hstep. destruct Hstep as [key p d s He|d s He Hq|k s|n s Hn|now ok s|now s Hat
    |now s Hat|now p s Hat|now p s Hat|now n q s Hat Hq|now s Hat|now s Hat|now s].
  - by apply inv_emit.
  - by apply inv_other.
  - by apply inv_clean_up.
  - destruct H as [H1 H2 H3 H4 H5 H6 H7]. constructor; cbn [db queue task log out]; try done.
    + intros q Hq. apply fmap_Some in Hq as (q' & Hq' & ->). destruct (H6 _ Hq') as [? Hin].
      rewrite ids_app. cbn. rewrite Hn, app_nil_r. split; [done|].
      intros n' [?| ->%list_elem_of_singleton]%elem_of_app Hi; [auto|].
      rewrite Hn in Hi. by destruct Hi.
    + destruct (at_ (task s)); try done.
      * destruct H7 as [? Hq]. split; [done|]. by apply fmap_is_Some.
      * destruct H7 as (q & Hq & H7). exists (q ++ [n]). cbn. rewrite Hq. split; [done|].
        intros l n' i Hl Hn' Hi Hlt. destruct (H7 l n' i Hl Hn' Hi Hlt); [left; set_solver|by right].
  - by apply inv_connect.
  - by apply inv_listen.
  - apply inv_retry; [done|]. unfold Listener.step. by rewrite Hat.
  - by apply (inv_fetch d0 now s p).
  - apply inv_retry; [done|]. unfold Listener.step. by rewrite Hat.
  - by apply inv_notified.
  - erewrite advance_silent by (unfold Listener.step; by rewrite Hat). by apply inv_keep.
  - apply inv_retry; [done|]. unfold Listener.step. by rewrite Hat.
  - by apply inv_awake.
Qed.

Lemma reachable_inv m d0 s : reachable m d0 s → inv d0 s.
Proof.
  intros [Hok Hr]. assert (inv d0 (start m d0)) as H by (by apply inv_start).
  revert H. induction Hr as [|s1 s2 s3 Hs _ IH]; [done|]. intros H. eauto using inv_step.
Qed.


(** *** Catching up *)

Definition missed (s : sys F) : list event_row :=
  match last_message (task s) with
  | Some p => filter (λ e, (p < e_id e)%Z) (events (db s))
  | None => []
  end.

Definition measure (s : sys F) : nat :=
  let queued := length (default [] (queue s)) in
  match at_ (task s) with
  | Sleeping _ => 4 + length (missed s)
  | Connecting => 3 + length (missed s)
  | Listening => 2 + length (missed s)
  | Fetching _ => 1 + length (missed s) + queued
  | Receiving => queued
  | Panicked => 0
  end.

Definition caught_up (s : sys F) : Prop := at_ (task s) = Receiving ∧ queue s = Some [].

Lemma answered_step now s : answered now s = s ∨ step s (answered now s).
Proof.
  unfold answered. destruct (at_ (task s)) eqn:Hat.
  - right. apply step_connect.
  - right. by apply step_listen.
  - right. by apply step_fetch.
  - destruct (queue s) as [[|n q]|] eqn:Hq; [by left| |by left]. right. by apply step_notified.
  - right. apply step_awake.
  - by left.
Qed.

Lemma answered_inv d0 now s : inv d0 s → inv d0 (answered now s).
Proof. intros H. destruct (answered_step now s) as [->|Hs]; eauto using inv_step. Qed.

Lemma answered_db now s : db (answered now s) = db s.
Proof.
  unfold answered, advance. destruct (at_ (task s)); try (by destruct (Listener.step _ _ _)); [|done].
  destruct (queue s) as [[|n q]|]; try done. by destruct (Listener.step _ _ _).
Qed.

Lemma answered_out now s : ∃ o, out (answered now s) = out s ++ o.
Proof.
  assert (∃ o, out s = out s ++ o) as Hrefl by (exists []; by rewrite app_nil_r).
  unfold answered, advance. destruct (at_ (task s)) as [| |p| |dl|];
    [| | |destruct (queue s) as [[|n q]|]; [done| |done]| |done];
    match goal with |- context [Listener.step ?a ?b ?c] => destruct (Listener.step a b c) end;
    cbn; eauto.
Qed.

Lemma answered_decreases d0 now s : inv d0 s → ¬ caught_up s →
  measure (answered now s) < measure s.
Proof.
  intros H Hnot. pose proof (inv_phase _ _ H) as Hph. unfold measure at 2, answered.
  destruct (at_ (task s)) as [| |p| |dl|] eqn:Hat; [| | | | |done].
  - erewrite advance_silent by (unfold Listener.step; by rewrite Hat). cbn. unfold missed. cbn. lia.
  - destruct (last_message (task s)) as [l|] eqn:Hl;
      erewrite advance_silent by (unfold Listener.step; by rewrite Hat, Hl); cbn;
      unfold missed; cbn; rewrite ?Hl; cbn; lia.
  - destruct Hph as [Hp [q Hq]]. rewrite get_events_since_sorted by apply (inv_ids _ _ H).
    unfold missed at 1. rewrite Hp. set (l := filter _ _).
    destruct (take 100 l) as [|e es] eqn:Htake.
    + cbn. erewrite advance_silent by (unfold Listener.step; by rewrite Hat). cbn. lia.
    + assert (l = (e :: es) ++ drop 100 l) as Hf by (by rewrite <- Htake, take_drop).
      pose proof (inv_forward d0 (e :: es) (drop 100 l) s p H Hat Hf) as Hfw.
      unfold advance, Listener.step. rewrite Hat, fmap_cons, <- (fmap_cons of_row).
      destruct (forward _ _) as [t sent]. destruct Hfw as (Hi & _ & p' & Hat' & Hrest).
      pose proof (inv_phase _ _ Hi) as Hph. cbn in Hph. rewrite Hat' in Hph.
      destruct Hph as [Hp' _]. unfold measure. cbn. rewrite Hat'. unfold missed. cbn.
      apply (f_equal length) in Hf. rewrite length_app in Hf. cbn in Hf.
      rewrite Hp', Hrest, Hf. lia.
  - destruct Hph as (q & Hq & _). rewrite Hq. destruct q as [|n q]; [by destruct Hnot|].
    unfold advance, Listener.step. rewrite Hat. unfold on_notification.
    destruct (nt_id n); [destruct (match last_message (task s) with Some _ => _ | _ => _ end)|];
      unfold measure; cbn; rewrite Hat; lia.
  - erewrite advance_silent by (unfold Listener.step; by rewrite Hat). cbn. unfold missed. cbn. lia.
Qed.

Lemma drain_inv d0 fuel now s : inv d0 s →
  inv d0 (drain fuel now s) ∧ db (drain fuel now s) = db s ∧
  ∃ o, out (drain fuel now s) = out s ++ o.
Proof.
  revert s. induction fuel as [|fuel IH]; intros s H; cbn.
  { split_and!; [done|done|]. exists []. by rewrite app_nil_r. }
  destruct (IH _ (answered_inv _ now _ H)) as (? & -> & o & ->).
  destruct (answered_out now s) as [o' ->]. rewrite answered_db.
  split_and!; [done|done|]. exists (o' ++ o). by rewrite (assoc_L app).
Qed.

Lemma caught_up_stays now s : caught_up s → answered now s = s.
Proof. intros [Hat Hq]. unfold answered. by rewrite Hat, Hq. Qed.

Lemma drain_caught_up d0 fuel now s : inv d0 s → measure s ≤ fuel → caught_up (drain fuel now s).
Proof.
  assert (∀ s, inv d0 s → caught_up s ∨ ¬ caught_up s) as Hdec.
  { intros s' H'. unfold caught_up. destruct (at_ (task s')); try (right; naive_solver).
    destruct (queue s') as [[|]|]; [left|right|right]; naive_solver. }
  revert s. induction fuel as [|fuel IH]; intros s H Hm; cbn.
  - destruct (Hdec s H) as [?|Hn]; [done|].
    pose proof (answered_decreases d0 now s H Hn). lia.
  - apply IH; [by apply answered_inv|]. destruct (Hdec s H) as [Hc|Hn].
    + rewrite (caught_up_stays _ _ Hc). destruct Hc as [Hat Hq]. unfold measure.
      rewrite Hat, Hq. cbn. lia.
    + pose proof (answered_decreases d0 now s H Hn). lia.
Qed.

Lemma drain_reachable m d0 fuel now s : reachable m d0 s → reachable m d0 (drain fuel now s).
Proof.
  revert s. induction fuel as [|fuel IH]; intros s [Hok Hr]; cbn; [done|]. apply IH.
  split; [done|]. destruct (answered_step now s) as [->|Hs]; [done|by eapply rtc_r].
Qed.

End SubscribeProps.
End SubscribeProps.

(** ** Fan-out *)

Module FanoutProps.
Import Fanout.
Section FanoutProps.
Context `{JL : FromValueLaws}.

(** A subscription of kind [k], to all events or to those of a key. *)
Definition matches (entry : string * option string) (n : Notification) : bool :=
  bool_decide (nt_kind n = entry.1) &&
  match entry.2 with None => true | Some key => bool_decide (nt_key n = Some key) end.

Definition queue_of (r : nat) (entry : string * option string) (m : t)
    : option (list Notification) := listeners m !! entry ≫= lookup r.

(** Emitted notifications: the kind is the payload's. *)
Definition well_typed (n : Notification) : Prop := nt_kind n = kind (nt_payload n).

Lemma send_eq n s : well_typed n → send (nt_kind n) n s = push n s.
Proof.
  destruct n as [i ts k key p]. unfold well_typed, send. cbn. intros ->.
  by rewrite from_value_kind.
Qed.

Lemma queue_send_to r entry e n all l : well_typed n → e.1 = nt_kind n →
  queue_of r entry (Mk all (send_to e n l)) =
    (λ q, q ++ if decide (entry = e) then [n] else []) <$> queue_of r entry (Mk all l).
Proof.
  intros Hn He. unfold queue_of, send_to. cbn [listeners].
  destruct (l !! e) as [s|] eqn:Hs; [rewrite He, send_eq by done|]; case_decide as Hd; subst.
  - rewrite lookup_insert_eq, Hs. exact (lookup_fmap (λ q, q ++ [n]) s r).
  - rewrite lookup_insert_ne by done. destruct (l !! entry ≫= lookup r); cbn; [|done].
    by rewrite app_nil_r.
  - by rewrite Hs.
  - destruct (l !! entry ≫= lookup r); cbn; [|done]. by rewrite app_nil_r.
Qed.

(** A message is appended for the receivers that it matches, once. *)
Lemma queue_send r entry n m : well_typed n →
  queue_of r entry (send_message n m) =
    (λ q, q ++ if matches entry n then [n] else []) <$> queue_of r entry m.
Proof.
  intros Hn. unfold send_message. rewrite queue_send_to by done.
  assert (queue_of r entry (Mk (all_events m) match nt_key n with
      | Some key => send_to (nt_kind n, Some key) n (listeners m)
      | None => listeners m end) =
    (λ q, q ++ if decide (entry.1 = nt_kind n ∧ is_Some (entry.2) ∧ entry.2 = nt_key n)
               then [n] else []) <$> queue_of r entry m) as Hkey.
  { destruct (nt_key n) as [key|] eqn:Hk.
    - rewrite queue_send_to by done. destruct entry as [k ky]. cbn.
      apply option_fmap_ext. intros q. repeat case_decide; naive_solver.
    - rewrite decide_False by (intros (_ & [? ?] & ?); congruence). unfold queue_of. cbn.
      destruct (_ ≫= _); cbn; [|done]. by rewrite app_nil_r. }
  transitivity ((λ q, q ++ if decide (entry = (nt_kind n, None)) then [n] else []) <$>
    queue_of r entry (Mk (all_events m) match nt_key n with
      | Some key => send_to (nt_kind n, Some key) n (listeners m)
      | None => listeners m end)); [done|].
  rewrite Hkey, <- option_fmap_compose. apply option_fmap_ext. intros q. cbn.
  rewrite <- (assoc_L app). f_equal. unfold matches. destruct entry as [k [key|]]; cbn;
    repeat case_decide; repeat case_bool_decide; naive_solver.
Qed.

(** What others do with their subscriptions does not change a queue. *)
Definition foreign (r : nat) (o : op) : Prop :=
  match o with
  | Send _ => False
  | SubscribeAll _ => True
  | Subscribe r' _ _ | Drop r' _ | Next r' _ => r' ≠ r
  end.

Lemma queue_of_Some r e m s : listeners m !! e = Some s → queue_of r e m = s !! r.
Proof. unfold queue_of. by intros ->. Qed.

Lemma queue_of_same r e m m' : listeners m' !! e = listeners m !! e → queue_of r e m' = queue_of r e m.
Proof. unfold queue_of. by intros ->. Qed.

Lemma queue_foreign r entry o m q : foreign r o → queue_of r entry m = Some q →
  queue_of r entry (exec o m).1 = Some q.
Proof.
  intros Ho Hq. pose proof Hq as (s & Hs & Hr)%bind_Some.
  destruct o as [n|r'|r' k key|r' e|r' e]; cbn [exec fst foreign] in *; [done|done|..].
  - unfold subscribe. destruct (decide (entry = (k, key))) as [->|Hne].
    + rewrite Hs. erewrite queue_of_Some by apply lookup_insert_eq. by rewrite lookup_insert_ne.
    + destruct (listeners m !! (k, key)); rewrite <- Hq; apply queue_of_same; cbn [listeners];
        by rewrite lookup_insert_ne.
  - unfold drop_subscription. destruct (decide (entry = e)) as [->|Hne].
    + assert (delete r' s !! r = Some q) as Hd by (by rewrite lookup_delete_ne).
      rewrite Hs, decide_False.
      * by erewrite queue_of_Some by apply lookup_insert_eq.
      * unfold receiver_count. intros Hsz%map_size_empty_inv. by rewrite Hsz in Hd.
    + destruct (listeners m !! e); [|done]. rewrite <- Hq. apply queue_of_same. cbn [listeners].
      case_decide; by rewrite ?lookup_delete_ne, ?lookup_insert_ne.
  - unfold next. destruct (listeners m !! e ≫= lookup r') as [q'|] eqn:Hq'; [|done].
    destruct (recv q') as [x q'']. cbn [fst]. destruct (decide (entry = e)) as [->|Hne].
    + erewrite queue_of_Some; [|cbn [listeners]; rewrite lookup_alter_eq, Hs; done].
      by rewrite lookup_insert_ne.
    + rewrite <- Hq. apply queue_of_same. cbn [listeners]. by rewrite lookup_alter_ne.
Qed.

(** The items that a receiver got, and the messages sent. *)
Definition items (r : nat) (answers : list (nat * received)) : list Notification :=
  omap (λ a, match a.2 with Item n => if decide (a.1 = r) then Some n else None | _ => None end)
    answers.

Definition sends (os : list op) : list Notification :=
  omap (λ o, match o with Send n => Some n | _ => None end) os.

(** The operations while receiver [r] is subscribed. *)
Definition while_subscribed (r : nat) (entry : string * option string) (o : op) : Prop :=
  match o with
  | Send n => well_typed n
  | Next r' e => r' = r → e = entry
  | _ => foreign r o
  end.

Lemma next_own r entry m q : queue_of r entry m = Some q →
  (exec (Next r entry) m).2 = [(r, (recv q).1)] ∧
  queue_of r entry (exec (Next r entry) m).1 = Some (recv q).2.
Proof.
  intros Hq. pose proof Hq as (s & Hs & _)%bind_Some. cbn [exec]. unfold next.
  unfold queue_of in Hq. rewrite Hq. destruct (recv q) as [x q']. cbn [fst snd].
  split; [done|]. erewrite queue_of_Some; [|cbn [listeners]; rewrite lookup_alter_eq, Hs; done].
  by rewrite lookup_insert_eq.
Qed.

Lemma items_foreign r o m : foreign r o → items r (exec o m).2 = [].
Proof.
  destruct o as [|r'|r'|r'|r' e]; cbn; try done. intros Hne.
  destruct (next r' e m) as [m' x]. cbn. destruct x; [done| |done]. by rewrite decide_False.
Qed.

(** One operation moves items from the messages to the queue, and from there to the
    subscriber. *)
Lemma exec_receives r entry o m q :
  queue_of r entry m = Some q → while_subscribed r entry o →
  (∀ x, (r, x) ∈ (exec o m).2 → x ≠ Lagged) →
  ∃ q', queue_of r entry (exec o m).1 = Some q' ∧
    items r (exec o m).2 ++ q' = q ++ filter (λ n, matches entry n = true) (sends [o]).
Proof.
  intros Hq Ho Hlag.
  assert (foreign r o → sends [o] = [] → ∃ q', queue_of r entry (exec o m).1 = Some q' ∧
    items r (exec o m).2 ++ q' = q ++ filter (λ n, matches entry n = true) (sends [o])) as Hother.
  { intros Hf ->. exists q. split; [by apply queue_foreign|].
    rewrite items_foreign by done. cbn. by rewrite app_nil_r. }
  destruct o as [n|r'|r' k key|r' e|r' e]; try (by apply Hother).
  - cbn [exec fst snd sends omap list_omap]. rewrite queue_send, Hq by done. cbn.
    eexists. split; [done|]. destruct (matches entry n); cbn; done.
  - destruct (decide (r' = r)) as [->|Hne]; [|by apply Hother].
    assert (e = entry) as -> by (by apply Ho).
    destruct (next_own r entry m q Hq) as [Hans Hq']. exists (recv q).2. split; [done|].
    rewrite Hans in *. specialize (Hlag (recv q).1 ltac:(left)).
    unfold recv in *. case_decide; [done|]. cbn. rewrite app_nil_r.
    destruct q as [|n q]; cbn; [done|]. by rewrite decide_True.
Qed.

(** A subscription that does not fall more than the capacity of its channel behind gets
    exactly the messages of its kind (and key) that are sent while it lives, in order and
    once, whoever else subscribes, reads or unsubscribes. *)
Theorem subscription_receives r entry os m q :
  queue_of r entry m = Some q → Forall (while_subscribed r entry) os →
  (∀ x, (r, x) ∈ (execs os m).2 → x ≠ Lagged) →
  ∃ q', queue_of r entry (execs os m).1 = Some q' ∧
    items r (execs os m).2 ++ q' = q ++ filter (λ n, matches entry n = true) (sends os).
Proof.
  revert m q. induction os as [|o os IH]; intros m q Hq Hos Hlag.
  { exists q. split; [done|]. cbn. by rewrite app_nil_r. }
  apply Forall_cons in Hos as [Ho Hos]. cbn [execs] in *.
  pose proof (exec_receives r entry o m q Hq Ho) as He.
  destruct (exec o m) as [m1 xs]. cbn [fst snd] in He.
  specialize (IH m1). destruct (execs os m1) as [m2 ys]. cbn [fst snd] in *.
  destruct He as (q1 & Hq1 & Heq).
  { intros x Hx. apply Hlag, elem_of_app. by left. }
  destruct (IH q1 Hq1 Hos) as (q' & Hq' & Hi).
  { intros x Hx. apply Hlag, elem_of_app. by right. }
  exists q'. split; [done|]. unfold items, sends in *.
  rewrite omap_app, <- (assoc_L app), Hi, (assoc_L app), Heq.
  rewrite <- (assoc_L app), <- filter_app, <- omap_app. done.
Qed.
End FanoutProps.
End FanoutProps.

(** ** Concrete executions *)

Module SubscribeWitness.
Import System SubscribeProps.
#[local] Existing Instance ExampleBackoff.exact_f64.

Definition m11 : @ExponentialBackoff.f64 ExampleBackoff.exact_f64 := (11%Z, 10%positive).

Definition d0 : DB := empty_db 0.
Definition p (connected : bool) : payload := PlNode 7 connected.

Definition emitted (c : bool) (s : sys _) : sys _ :=
  match emit_impl None (p c) (db s) with
  | Ok (d, _) => Sys d (enqueue (stored None (p c) (db s)) (queue s)) (task s)
                   (log s ++ [stored None (p c) (db s)]) (out s)
  | Err _ => s
  end.

(** An event is received, the connection is lost, and two more happen meanwhile. *)
Definition s0 := start m11 d0.
Definition s1 := answered 0 (answered 0 s0).
Definition s2 := answered 0 (emitted true s1).
Definition s3 := advance 0 ConnectionLost None s2.
Definition s4 := emitted true (emitted false s3).

Lemma s4_reachable : reachable m11 d0 s4.
Proof.
  split; [split; [constructor|by intros e ?%elem_of_nil]|].
  eapply rtc_l; [apply (step_connect 0 true)|].
  eapply rtc_l; [apply (step_listen 0); reflexivity|].
  eapply rtc_l; [apply (step_emit None (p true)); reflexivity|].
  eapply rtc_l; [apply (step_notified 0); reflexivity|].
  eapply rtc_l; [apply (step_lost 0); reflexivity|].
  eapply rtc_l; [apply (step_emit None (p false)); reflexivity|].
  eapply rtc_l; [apply (step_emit None (p true)); reflexivity|].
  apply rtc_refl.
Qed.

(** All three events are sent, the two missed ones after the reconnection. *)
Definition s5 := drain 7 0 s4.



(** Before the task has seen an event it remembers no id to catch up from: what is emitted
    while the connection is lost for the first time is never sent. *)
Lemma gap_before_first_event :
  let s := drain 20 0 (emitted true (advance 0 ConnectionLost None s1)) in
  caught_up s ∧ length (events (db s)) = 1 ∧ out s = [].
Proof. vm_compute. done. Qed.

(** Ids are allotted before the commit: an event whose transaction commits after that of a
    later id is taken for a repetition. *)
Lemma late_commit_skipped :
  let n i := MkNotification (Some i) 0 "node_connection" None (p true) in
  let t := Listener.Mk (backoff (task s1)) None Receiving in
  let '(t, sent2) := on_notification (n 2%Z) t in
  let '(_, sent1) := on_notification (n 1%Z) t in
  sent2 = [n 2%Z] ∧ sent1 = [].
Proof. vm_compute. done. Qed.

#[local] Instance same_kind : Fanout.FromValue :=
  λ k p, if decide (kind p = k) then Some p else None.
#[local] Instance same_kind_laws : Fanout.FromValueLaws same_kind.
Proof. intros q. unfold Fanout.from_value, same_kind. by rewrite decide_True. Qed.

Definition action_to (key : string) : Notification :=
  MkNotification (Some 1%Z) 0 "backend_state" (Some key) (PlState BackendState.Scheduled).

Definition table : Fanout.t :=
  Fanout.subscribe 1 "backend_state" (Some "b1") Fanout.new.

Definition uses : list Fanout.op :=
  [Fanout.Subscribe 2 "backend_state" None; Fanout.Send (action_to "b1");
   Fanout.Send (action_to "b2"); Fanout.Drop 2 ("backend_state", None);
   Fanout.Next 1 ("backend_state", Some "b1")].

Lemma subscription_receives_witness :
  FanoutProps.items 1 (Fanout.execs uses table).2 = [action_to "b1"] ∧
  ∃ q', FanoutProps.queue_of 1 ("backend_state", Some "b1") (Fanout.execs uses table).1 = Some q' ∧
    FanoutProps.items 1 (Fanout.execs uses table).2 ++ q' =
      [] ++ filter (λ n, FanoutProps.matches ("backend_state", Some "b1") n = true)
              (FanoutProps.sends uses).
Proof.
  split; [vm_compute; reflexivity|].
  apply (FanoutProps.subscription_receives 1 ("backend_state", Some "b1") uses table []).
  - vm_compute. reflexivity.
  - repeat constructor; done.
  - assert ((Fanout.execs uses table).2 = [(1, Fanout.Item (action_to "b1"))]) as ->
      by (vm_compute; reflexivity).
    intros x Hx%list_elem_of_singleton. by injection Hx as ->.
Defined.
End SubscribeWitness.
