(* ===== verification/UnixSocket.v ===== *)
(** * The unix socket runtime ([plane/src/typed_unix_socket], [plane/src/drone/runtime/unix_socket])

    A drone can leave its containers to another process, which it talks to over a unix
    socket: requests with an id, their responses, and events without one, each a line of
    JSON. The client connects again when the connection is lost; the server serves one
    connection after the other.

    [Wire] is the format of the lines, [Client] and [Server] the two ends with the
    channels between their callers and the socket, [System] the two of them with the
    connections between them, and [Runtime] the operations of [UnixSocketRuntime]. *)

From S2P Require Import Prelude BackendState Types DockerConfig Docker Sse.

(** ** Messages and lines *)

Module Wire.

Record WrappedMessage (A : Type) := Wrap { id : option string; message : A }.
Arguments Wrap {A} id message.
Arguments id {A} w.
Arguments message {A} w.

(** [serde_json::to_string] and [from_str] at a type of messages. *)
Class Json (A : Type) := {
  to_string : WrappedMessage A → string;
  from_str : string → option (WrappedMessage A)
}.

Definition newline : ascii := RawSseStream.newline.
Definition carriage_return : string := String "013" "".

(** The laws relied on: a message is parsed from its text, which is one line (control
    characters are escaped in JSON) that does not end in a carriage return. *)
Class JsonLaws (A : Type) (J : Json A) : Prop := {
  from_to_string m : from_str (to_string m) = Some m;
  to_string_line m : string_has newline (to_string m) = false;
  to_string_end m : ends_with carriage_return (to_string m) = false
}.

Section Wire.
Context {A : Type} `{J : Json A}.

(** [write_all] of the text and of the newline. *)
Definition write (m : WrappedMessage A) (bytes : string) : string :=
  bytes +:+ to_string m +:+ String newline "".

(** [Lines::next_line]: up to a newline; [None] waits for more bytes. *)
Definition next_line (bytes : string) : option (string * string) :=
  match split_once newline bytes with
  | Some (line, rest) => Some (default line (strip_suffix carriage_return line), rest)
  | None => None
  end.

End Wire.

(** Results of [recv] on a broadcast receiver with the messages [q] to come. *)
Definition capacity : nat := 1024.

Inductive received (A : Type) := Blocked | Item (a : A) | Lagged.
Arguments Blocked {A}.
Arguments Item {A} a.
Arguments Lagged {A}.

Definition recv {A} (q : list A) : received A * list A :=
  if decide (capacity < length q) then (Lagged, drop (length q - capacity) q)
  else match q with [] => (Blocked, []) | a :: q => (Item a, q) end.

End Wire.

(** ** The client ([client.rs]) *)

Module Client.
Import Wire.

Section Client.
Context {Q R : Type} `{JQ : Json Q} `{JR : Json R}.

(** [rx] is what the loop's receiver has not taken from [tx], [response_map] has the ids of
    the requests that wait, [resolved] their answers; [events] is what a subscriber of
    [event_tx] has not taken. [running] is false after the loop has ended. *)
Record t := Mk {
  rx : list (WrappedMessage Q);
  response_map : gmap string ();
  resolved : list (string * R);
  events : list R;
  running : bool
}.

(** [TypedUnixSocketClient::new]. *)
Definition new : t := Mk [] ∅ [] [] true.

(** [self.tx.send]: fails without a receiver. *)
Definition tx_send (m : WrappedMessage Q) (c : t) : t * bool :=
  if running c
  then (Mk (rx c ++ [m]) (response_map c) (resolved c) (events c) true, true)
  else (c, false).

(** [send_request] up to its wait; [i] is the random token. The entry of the map stays
    when the send fails. *)
Definition send_request (i : string) (request : Q) (c : t) : t * bool :=
  tx_send (Wrap (Some i) request)
    (Mk (rx c) (<[i := ()]> (response_map c)) (resolved c) (events c) (running c)).

Definition send_message (m : Q) (c : t) : t * bool := tx_send (Wrap None m) c.

(** A message of the server, in [recv_future]. *)
Definition on_message (m : WrappedMessage R) (c : t) : t :=
  match id m with
  | Some i =>
      match response_map c !! i with
      | Some _ =>
          Mk (rx c) (delete i (response_map c)) (resolved c ++ [(i, message m)]) (events c)
            (running c)
      | None => c
      end
  | None => Mk (rx c) (response_map c) (resolved c) (events c ++ [message m]) (running c)
  end.

(** A line of the connection. *)
Definition on_line (line : string) (c : t) : t :=
  match from_str line with Some m => on_message m c | None => c end.

(** [send_future]: a turn of the loop, with the bytes of the connection. *)
Definition send_next (c : t) (bytes : string) : t * string :=
  let '(x, q) := recv (rx c) in
  let c := Mk q (response_map c) (resolved c) (events c) (running c) in
  match x with Item m => (c, write m bytes) | _ => (c, bytes) end.

(** The connection fails: the loop subscribes again before it connects. *)
Definition disconnected (c : t) : t :=
  Mk [] (response_map c) (resolved c) (events c) (running c).

(** Connecting times out: the loop ends and its receiver is dropped. *)
Definition shut_down (c : t) : t := Mk [] (response_map c) (resolved c) (events c) false.

End Client.
Arguments t Q R : clear implicits.

End Client.

(** ** The server ([server.rs]) *)

Module Server.
Import Wire.

Section Server.
Context {Q R : Type} `{JQ : Json Q} `{JR : Json R}.

(** [requests] and [events] are what a subscriber has not taken, [response_rx] what the
    loop has not taken from [response_tx]. *)
Record t := Mk {
  requests : list (WrappedMessage Q);
  events : list Q;
  response_rx : list (WrappedMessage R)
}.

Definition new : t := Mk [] [] [].

(** A message of the client, in [recv_task]. *)
Definition on_message (m : WrappedMessage Q) (s : t) : t :=
  match id m with
  | Some _ => Mk (requests s ++ [m]) (events s) (response_rx s)
  | None => Mk (requests s) (events s ++ [message m]) (response_rx s)
  end.

Definition on_line (line : string) (s : t) : t :=
  match from_str line with Some m => on_message m s | None => s end.

Definition send_response (request : WrappedMessage Q) (response : R) (s : t) : t :=
  Mk (requests s) (events s) (response_rx s ++ [Wrap (id request) response]).

Definition send_message (m : R) (s : t) : t :=
  Mk (requests s) (events s) (response_rx s ++ [Wrap None m]).

(** [send_task]: a turn of the loop. *)
Definition send_next (s : t) (bytes : string) : t * string :=
  let '(x, q) := recv (response_rx s) in
  let s := Mk (requests s) (events s) q in
  match x with Item m => (s, write m bytes) | _ => (s, bytes) end.

(** [response_rx = response_tx.subscribe()] at the end of a connection. *)
Definition disconnected (s : t) : t := Mk (requests s) (events s) [].

End Server.
Arguments t Q R : clear implicits.

End Server.

(** ** The two ends and their connections *)

Module System.
Import Wire.

Section System.
Context {Q R : Type} `{JQ : Json Q} `{JR : Json R}.

(** The client is on connection [c_conn] (or connects again when [c_up] is false), the server
    on [s_conn] (or accepts). [up n] and [down n] are the bytes of connection [n] that are
    written and not read. [taken] are the requests that the server's program has taken.
    [asked] and [answered] record the calls of [send_request] and [send_response]. *)
Record sys := Sys {
  client : Client.t Q R;
  server : Server.t Q R;
  c_conn : nat;
  c_up : bool;
  s_conn : nat;
  s_up : bool;
  up : nat → string;
  down : nat → string;
  taken : list (WrappedMessage Q);
  asked : list (string * Q);
  answered : list (WrappedMessage Q * R)
}.

Definition put (n : nat) (bytes : string) (f : nat → string) : nat → string :=
  λ k, if decide (k = n) then bytes else f k.

Definition with_client (c : Client.t Q R) (s : sys) : sys :=
  Sys c (server s) (c_conn s) (c_up s) (s_conn s) (s_up s) (up s) (down s) (taken s) (asked s)
    (answered s).
Definition with_server (x : Server.t Q R) (s : sys) : sys :=
  Sys (client s) x (c_conn s) (c_up s) (s_conn s) (s_up s) (up s) (down s) (taken s) (asked s)
    (answered s).
Definition client_at (n : nat) (b : bool) (s : sys) : sys :=
  Sys (client s) (server s) n b (s_conn s) (s_up s) (up s) (down s) (taken s) (asked s) (answered s).
Definition server_at (n : nat) (b : bool) (s : sys) : sys :=
  Sys (client s) (server s) (c_conn s) (c_up s) n b (up s) (down s) (taken s) (asked s) (answered s).
Definition with_up (f : nat → string) (s : sys) : sys :=
  Sys (client s) (server s) (c_conn s) (c_up s) (s_conn s) (s_up s) f (down s) (taken s) (asked s)
    (answered s).
Definition with_down (f : nat → string) (s : sys) : sys :=
  Sys (client s) (server s) (c_conn s) (c_up s) (s_conn s) (s_up s) (up s) f (taken s) (asked s)
    (answered s).
Definition with_calls (t : list (WrappedMessage Q)) (a : list (string * Q))
    (r : list (WrappedMessage Q * R)) (s : sys) : sys :=
  Sys (client s) (server s) (c_conn s) (c_up s) (s_conn s) (s_up s) (up s) (down s) t a r.

(** One step of a task or of a caller. Tokens do not repeat. *)
Inductive step : sys → sys → Prop :=
| step_request i q s :
    i ∉ (asked s).*1 →
    step s (with_calls (taken s) (asked s ++ [(i, q)]) (answered s)
              (with_client (Client.send_request i q (client s)).1 s))
| step_message q s : step s (with_client (Client.send_message q (client s)).1 s)
| step_connect s :
    c_up s = false → Client.running (client s) = true → step s (client_at (S (c_conn s)) true s)
| step_timeout s :
    c_up s = false → step s (with_client (Client.shut_down (client s)) s)
| step_write s c bytes :
    c_up s = true → Client.send_next (client s) (up s (c_conn s)) = (c, bytes) →
    step s (with_up (put (c_conn s) bytes (up s)) (with_client c s))
| step_write_fails s c bytes :
    c_up s = true → Client.send_next (client s) (up s (c_conn s)) = (c, bytes) →
    step s (with_client c s)
| step_read s line rest :
    c_up s = true → next_line (down s (c_conn s)) = Some (line, rest) →
    step s (with_down (put (c_conn s) rest (down s))
              (with_client (Client.on_line line (client s)) s))
| step_lost s :
    c_up s = true →
    step s (client_at (c_conn s) false (with_client (Client.disconnected (client s)) s))
| step_accept n s :
    s_up s = false → s_conn s < n ≤ c_conn s → step s (server_at n true s)
| step_accept_fails s :
    s_up s = false → step s (with_server (Server.disconnected (server s)) s)
| step_server_write s x bytes :
    s_up s = true → Server.send_next (server s) (down s (s_conn s)) = (x, bytes) →
    step s (with_down (put (s_conn s) bytes (down s)) (with_server x s))
| step_server_write_fails s x bytes :
    s_up s = true → Server.send_next (server s) (down s (s_conn s)) = (x, bytes) →
    step s (with_server x s)
| step_server_read s line rest :
    s_up s = true → next_line (up s (s_conn s)) = Some (line, rest) →
    step s (with_up (put (s_conn s) rest (up s))
              (with_server (Server.on_line line (server s)) s))
| step_server_lost s :
    s_up s = true →
    step s (server_at (s_conn s) false (with_server (Server.disconnected (server s)) s))
| step_take m ms s :
    Server.requests (server s) = m :: ms →
    step s (with_calls (taken s ++ [m]) (asked s) (answered s)
              (with_server (Server.Mk ms (Server.events (server s))
                 (Server.response_rx (server s))) s))
| step_respond m r s :
    m ∈ taken s →
    step s (with_calls (taken s) (asked s) (answered s ++ [(m, r)])
              (with_server (Server.send_response m r (server s)) s))
| step_event r s : step s (with_server (Server.send_message r (server s)) s).

Definition start : sys :=
  Sys Client.new Server.new 0 false 0 false (λ _, "") (λ _, "") [] [] [].

Definition reachable (s : sys) : Prop := rtc step start s.

End System.
Arguments sys Q R : clear implicits.

End System.

(** ** Theorems *)

Module SocketProps.
Import Wire System.

Section SocketProps.
Context {Q R : Type} `{JQ : Json Q} `{JR : Json R} {LQ : JsonLaws Q JQ} {LR : JsonLaws R JR}.

(** *** Lines *)

Section Lines.
Context {A : Type} {J : Json A} {L : JsonLaws A J}.

Fixpoint framed (ms : list (WrappedMessage A)) : string :=
  match ms with [] => "" | m :: ms => to_string m +:+ String newline (framed ms) end.

Lemma framed_app ms ms' : framed (ms ++ ms') = framed ms +:+ framed ms'.
Proof.
  induction ms as [|m ms IH]; cbn [app framed]; [done|]. by rewrite IH, append_assoc, append_cons.
Qed.

Lemma write_framed m ms : write m (framed ms) = framed (ms ++ [m]).
Proof. unfold write. by rewrite framed_app. Qed.

(** A line of framed bytes is the first message. *)
Lemma next_line_framed ms line rest : next_line (framed ms) = Some (line, rest) →
  ∃ m ms', ms = m :: ms' ∧ line = to_string m ∧ rest = framed ms'.
Proof.
  destruct ms as [|m ms]; [done|]. cbn. unfold next_line.
  assert (split_once newline (to_string m +:+ String newline (framed ms)) =
    Some (to_string m, framed ms)) as ->.
  { apply split_once_spec. split; [done|]. apply to_string_line. }
  intros [= <- <-]. exists m, ms. split_and!; [done| |done].
  destruct (strip_suffix _ _) eqn:Hs; [|done].
  pose proof (to_string_end m) as He. unfold ends_with in He. by rewrite Hs in He.
Qed.

Lemma recv_elem (q : list A) x q' : recv q = (x, q') →
  (∀ a, a ∈ q' → a ∈ q) ∧ ∀ a, x = Item a → a ∈ q.
Proof.
  unfold recv. case_decide; [|destruct q as [|a q]]; intros [= <- <-]; split; try done.
  - intros a Ha. by eapply elem_of_sublist, sublist_drop.
  - intros b Hb. by right.
  - intros b [= <-]. by left.
Qed.
End Lines.

(** *** What is under way *)

(** The messages that can still reach the server's program satisfy [PQ], those that can
    still reach the client [PR]. *)
Record places (PQ : WrappedMessage Q → Prop) (PR : WrappedMessage R → Prop) (s : sys Q R)
    : Prop := {
  pl_rx : ∀ m, m ∈ Client.rx (client s) → PQ m;
  pl_up : ∀ n, s_conn s ≤ n → (n = s_conn s → s_up s = true) →
    ∃ ms, up s n = framed ms ∧ ∀ m, m ∈ ms → PQ m;
  pl_requests : ∀ m, m ∈ Server.requests (server s) → PQ m;
  pl_taken : ∀ m, m ∈ taken s → PQ m;
  pl_responses : ∀ m, m ∈ Server.response_rx (server s) → PR m;
  pl_down : ∀ n, c_conn s ≤ n → (n = c_conn s → c_up s = true) →
    ∃ ms, down s n = framed ms ∧ ∀ m, m ∈ ms → PR m
}.

Lemma places_mono (PQ PQ' : WrappedMessage Q → Prop) (PR PR' : WrappedMessage R → Prop) s :
  (∀ m, PQ m → PQ' m) → (∀ m, PR m → PR' m) → places PQ PR s → places PQ' PR' s.
Proof.
  intros HQ HR [H1 H2 H3 H4 H5 H6]. constructor; naive_solver.
Qed.

(** One end writes. *)
Lemma put_write {A} {J : Json A} {L : JsonLaws A J} (P : WrappedMessage A → Prop) f k m n :
  P m → (n = k → ∃ ms, f k = framed ms ∧ ∀ m, m ∈ ms → P m) →
  (n ≠ k → ∃ ms, f n = framed ms ∧ ∀ m, m ∈ ms → P m) →
  ∃ ms, put k (write m (f k)) f n = framed ms ∧ ∀ m, m ∈ ms → P m.
Proof.
  intros Hm Hk Hn. unfold put. case_decide as Hd; [|by apply Hn].
  destruct (Hk Hd) as (ms & -> & Hms). exists (ms ++ [m]). split; [apply write_framed|].
  intros m' [?| ->%list_elem_of_singleton]%elem_of_app; auto.
Qed.

(** One end reads. *)
Lemma put_read {A} {J : Json A} {L : JsonLaws A J} (P : WrappedMessage A → Prop) f k line rest :
  (∃ ms, f k = framed ms ∧ ∀ m, m ∈ ms → P m) → next_line (f k) = Some (line, rest) →
  ∃ m, line = to_string m ∧ P m ∧ ∀ n,
    (n ≠ k → ∃ ms, f n = framed ms ∧ ∀ m, m ∈ ms → P m) →
    ∃ ms, put k rest f n = framed ms ∧ ∀ m, m ∈ ms → P m.
Proof.
  intros (ms & -> & Hms) (m & ms' & -> & -> & ->)%next_line_framed. exists m.
  split_and!; [done|apply Hms; by left|]. intros n Hn. unfold put.
  case_decide; [|by apply Hn]. exists ms'. split; [done|]. intros. apply Hms. by right.
Qed.

Lemma client_send_next_spec (c c' : Client.t Q R) b b' : Client.send_next c b = (c', b') →
  (∀ m, m ∈ Client.rx c' → m ∈ Client.rx c) ∧
  Client.resolved c' = Client.resolved c ∧ Client.response_map c' = Client.response_map c ∧
  (b' = b ∨ ∃ m, m ∈ Client.rx c ∧ b' = write m b).
Proof.
  unfold Client.send_next. destruct (recv (Client.rx c)) as [x q] eqn:Hr.
  destruct (recv_elem _ _ _ Hr) as [Hq Hx].
  destruct x as [|m|]; intros [= <- <-]; cbn; split_and!; eauto.
Qed.

Lemma server_send_next_spec (x x' : Server.t Q R) b b' : Server.send_next x b = (x', b') →
  (∀ m, m ∈ Server.response_rx x' → m ∈ Server.response_rx x) ∧
  Server.requests x' = Server.requests x ∧
  (b' = b ∨ ∃ m, m ∈ Server.response_rx x ∧ b' = write m b).
Proof.
  unfold Server.send_next. destruct (recv (Server.response_rx x)) as [y q] eqn:Hr.
  destruct (recv_elem _ _ _ Hr) as [Hq Hx].
  destruct y as [|m|]; intros [= <- <-]; cbn; split_and!; eauto.
Qed.

Lemma client_on_line m (c : Client.t Q R) :
  Client.on_line (to_string m) c = Client.on_message m c.
Proof. unfold Client.on_line. by rewrite from_to_string. Qed.

Lemma server_on_line m (x : Server.t Q R) :
  Server.on_line (to_string m) x = Server.on_message m x.
Proof. unfold Server.on_line. by rewrite from_to_string. Qed.

Lemma client_on_message_rx m (c : Client.t Q R) : Client.rx (Client.on_message m c) = Client.rx c.
Proof. unfold Client.on_message. destruct (id m); [|done]. by destruct (_ !! _). Qed.

Lemma tx_send_rx m (c : Client.t Q R) n :
  n ∈ Client.rx (Client.tx_send m c).1 → n ∈ Client.rx c ∨ n = m.
Proof. unfold Client.tx_send. destruct (Client.running c); cbn; set_solver. Qed.

(** What a step adds to what is under way. *)
Lemma places_step (PQ : WrappedMessage Q → Prop) (PR : WrappedMessage R → Prop) s s' :
  places PQ PR s → step s s' →
  (∀ i q, asked s' = asked s ++ [(i, q)] → PQ (Wrap (Some i) q)) → (∀ q, PQ (Wrap None q)) →
  (∀ m r, m ∈ taken s → answered s' = answered s ++ [(m, r)] → PR (Wrap (id m) r)) →
  (∀ r, PR (Wrap None r)) →
  places PQ PR s'.
Proof.
  intros [H1 H2 H3 H4 H5 H6] Hstep HQ HQ0 HR HR0.
  destruct Hstep as [i q s Hi|q s|s Hup Hrun|s Hup|s c b Hup Hs|s c b Hup Hs|s line rest Hup Hl
    |s Hup|n s Hup Hn|s Hup|s x b Hup Hs|s x b Hup Hs|s line rest Hup Hl|s Hup|m ms s Hr
    |m r s Hm|r s].
  - constructor; try done. intros m [?| ->]%tx_send_rx; [by apply H1|by apply HQ].
  - constructor; try done. intros m [?| ->]%tx_send_rx; [by apply H1|by apply HQ0].
  - constructor; try done. cbn. intros n Hn _. apply H6; [lia|intros ->; lia].
  - constructor; try done. cbn. by intros m ?%elem_of_nil.
  - destruct (client_send_next_spec _ _ _ _ Hs) as (Hrx & _ & _ & Hb).
    constructor; try done; cbn; [by auto|]. intros n Hn Hsu.
    destruct Hb as [->|(m & Hm & ->)].
    + unfold put. case_decide; [subst|]; by apply H2.
    + apply put_write; [by apply H1|intros ->; by apply H2|intros; by apply H2].
  - destruct (client_send_next_spec _ _ _ _ Hs) as (Hrx & _ & _ & Hb).
    constructor; try done. cbn. auto.
  - destruct (put_read PR (down s) (c_conn s) line rest) as (m & -> & Hm & Hd);
      [by apply H6|done|].
    rewrite client_on_line. constructor; try done; cbn.
    + by rewrite client_on_message_rx.
    + intros n Hn Hu. apply Hd. intros Hne. by apply H6.
  - constructor; try done; cbn; [by intros m ?%elem_of_nil|]. intros n Hn Hu.
    apply H6; [done|]. intros ->. by specialize (Hu eq_refl).
  - constructor; try done. cbn. intros k Hk _. apply H2; [lia|intros ->; lia].
  - constructor; try done. cbn. by intros m ?%elem_of_nil.
  - destruct (server_send_next_spec _ _ _ _ Hs) as (Hrx & Hrq & Hb).
    constructor; try done; cbn; [by rewrite Hrq|auto|]. intros n Hn Hsu.
    destruct Hb as [->|(m & Hm & ->)].
    + unfold put. case_decide; [subst|]; by apply H6.
    + apply put_write; [by apply H5|intros ->; by apply H6|intros; by apply H6].
  - destruct (server_send_next_spec _ _ _ _ Hs) as (Hrx & Hrq & Hb).
    constructor; try done; cbn; [by rewrite Hrq|auto].
  - destruct (put_read PQ (up s) (s_conn s) line rest) as (m & -> & Hm & Hd);
      [by apply H2|done|].
    rewrite server_on_line. constructor; try done; cbn.
    + intros n Hn Hu. apply Hd. intros Hne. by apply H2.
    + unfold Server.on_message. destruct (id m); cbn; set_solver.
    + unfold Server.on_message. by destruct (id m).
  - constructor; try done; cbn; [|by intros m ?%elem_of_nil]. intros n Hn Hu.
    apply H2; [done|]. intros ->. by specialize (Hu eq_refl).
  - rewrite Hr in H3. constructor; try done; cbn; [set_solver|].
    intros m' [?| ->%list_elem_of_singleton]%elem_of_app; [auto|]. apply H3. by left.
  - constructor; try done. cbn. intros m' [?| ->%list_elem_of_singleton]%elem_of_app; [auto|].
    by apply HR.
  - constructor; try done. cbn. intros m' [?| ->%list_elem_of_singleton]%elem_of_app; auto.
Qed.

(** *** What a step does to the waiting requests *)

Inductive effect (PR : WrappedMessage R → Prop) (s s' : sys Q R) : Prop :=
| effect_none :
    Client.resolved (client s') = Client.resolved (client s) →
    Client.response_map (client s') = Client.response_map (client s) →
    asked s' = asked s → answered s `prefix_of` answered s' → effect PR s s'
| effect_request i q :
    i ∉ (asked s).*1 → Client.resolved (client s') = Client.resolved (client s) →
    Client.response_map (client s') = <[i := ()]> (Client.response_map (client s)) →
    asked s' = asked s ++ [(i, q)] → answered s' = answered s → effect PR s s'
| effect_response i m :
    PR m → id m = Some i → Client.response_map (client s) !! i = Some () →
    Client.resolved (client s') = Client.resolved (client s) ++ [(i, message m)] →
    Client.response_map (client s') = delete i (Client.response_map (client s)) →
    asked s' = asked s → answered s' = answered s → effect PR s s'.

Lemma step_effect PQ PR s s' : places PQ PR s → step s s' → effect PR s s'.
Proof.
  intros Hpl Hstep.
  assert (∀ c : Client.t Q R, ∀ m, Client.resolved (Client.tx_send m c).1 = Client.resolved c ∧
    Client.response_map (Client.tx_send m c).1 = Client.response_map c) as Htx.
  { intros c m. unfold Client.tx_send. by destruct (Client.running c). }
  destruct Hstep as [i q s Hi|q s|s Hup Hrun|s Hup|s c b Hup Hs|s c b Hup Hs|s line rest Hup Hl
    |s Hup|n s Hup Hn|s Hup|s x b Hup Hs|s x b Hup Hs|s line rest Hup Hl|s Hup|m ms s Hr
    |m r s Hm|r s]; try (by constructor 1).
  - unfold Client.send_request. set (c := Client.Mk _ _ _ _ _).
    destruct (Htx c (Wrap (Some i) q)) as [H1 H2]. by apply (effect_request _ _ _ i q).
  - destruct (Htx (client s) (Wrap None q)) as [H1 H2]. by constructor 1.
  - destruct (client_send_next_spec _ _ _ _ Hs) as (_ & ? & ? & _). by constructor 1.
  - destruct (client_send_next_spec _ _ _ _ Hs) as (_ & ? & ? & _). by constructor 1.
  - destruct (put_read PR (down s) (c_conn s) line rest) as (m & -> & Hm & _);
      [by apply Hpl|done|]. rewrite client_on_line. unfold Client.on_message.
    destruct (id m) as [i|] eqn:Hi; [|by constructor 1].
    destruct (Client.response_map (client s) !! i) as [[]|] eqn:Hmap; [|by constructor 1].
    by apply (effect_response _ _ _ i m).
  - constructor 1; try done. by eexists.
Qed.

(** *** Responses belong to requests *)

Definition asked_for (s : sys Q R) (m : WrappedMessage Q) : Prop :=
  ∀ i, id m = Some i → (i, message m) ∈ asked s.

Definition answer_of (s : sys Q R) (i : string) (r : R) : Prop :=
  ∃ q, (i, q) ∈ asked s ∧ (Wrap (Some i) q, r) ∈ answered s.

Definition answers (s : sys Q R) (m : WrappedMessage R) : Prop :=
  ∀ i, id m = Some i → answer_of s i (message m).

Record inv (s : sys Q R) : Prop := {
  inv_places : places (asked_for s) (answers s) s;
  inv_asked : NoDup (asked s).*1;
  inv_resolved : ∀ i r, (i, r) ∈ Client.resolved (client s) → answer_of s i r;
  inv_once : NoDup (Client.resolved (client s)).*1;
  inv_waiting : ∀ i, is_Some (Client.response_map (client s) !! i) →
    i ∈ (asked s).*1 ∧ i ∉ (Client.resolved (client s)).*1
}.

Lemma socket_inv_start : inv start.
Proof.
  constructor; cbn; [|constructor|by intros i r ?%elem_of_nil|constructor|].
  - constructor; cbn; try (by intros m ?%elem_of_nil).
    + intros. exists []. split; [done|]. by intros m ?%elem_of_nil.
    + intros. exists []. split; [done|]. by intros m ?%elem_of_nil.
  - intros i. rewrite lookup_empty. by intros [? ?].
Qed.

Lemma answer_of_mono s s' i r : (∀ p, p ∈ asked s → p ∈ asked s') →
  (∀ p, p ∈ answered s → p ∈ answered s') → answer_of s i r → answer_of s' i r.
Proof. intros Ha Hr (q & ? & ?). exists q. auto. Qed.

Lemma socket_inv_step s s' : inv s → step s s' → inv s'.
Proof.
  intros H Hstep. pose proof (step_effect _ _ _ _ (inv_places _ H) Hstep) as Heff.
  assert (∀ p, p ∈ asked s → p ∈ asked s') as Ha.
  { intros p Hp. destruct Heff as [_ _ -> _|i q _ _ _ -> _|i m _ _ _ _ _ -> _]; set_solver. }
  assert (∀ p, p ∈ answered s → p ∈ answered s') as Hr.
  { intros p Hp. destruct Heff as [_ _ _ [l ->]|i q _ _ _ _ ->|i m _ _ _ _ _ _ ->]; set_solver. }
  constructor.
  - apply (places_step _ _ s); [|done|..].
    + apply (places_mono (asked_for s) _ (answers s)); [| |apply H].
      * intros m Hm i Hi. auto.
      * intros m Hm i Hi. eauto using answer_of_mono.
    + intros i q Hq i' [= <-]. cbn. rewrite Hq. set_solver.
    + by intros q i Hi.
    + intros m r Hm Hans i Hi. cbn in *.
      pose proof (pl_taken _ _ _ (inv_places _ H) m Hm i Hi) as Hin. exists (message m).
      split; [by apply Ha|]. rewrite Hans, <- Hi. destruct m as [i' q]. cbn. set_solver.
    + by intros r i Hi.
  - destruct Heff as [_ _ -> _|i q Hi _ _ -> _|i m _ _ _ _ _ -> _]; try apply H.
    rewrite fmap_app. apply NoDup_app. split_and!; [apply H| |apply NoDup_singleton].
    intros i' Hi' ->%list_elem_of_singleton. done.
  - intros i r. destruct Heff as [-> _ _ _|i' q Hi -> _ _ _|i' m Hm Hi _ -> _ _ _]; intros Hin.
    + eapply answer_of_mono, H; eauto.
    + eapply answer_of_mono, H; eauto.
    + apply elem_of_app in Hin as [Hin|[= -> ->]%list_elem_of_singleton].
      * eapply answer_of_mono, H; eauto.
      * eapply answer_of_mono; eauto.
  - destruct Heff as [-> _ _ _|i' q Hi -> _ _ _|i' m Hm Hi Hmap -> _ _ _]; try apply H.
    rewrite fmap_app. apply NoDup_app. split_and!; [apply H| |apply NoDup_singleton].
    intros i Hin ->%list_elem_of_singleton.
    destruct (inv_waiting _ H i') as [_ Hnot]; [by eexists|done].
  - intros i. destruct Heff as [-> -> -> _|i' q Hi -> -> -> _|i' m Hm Hi Hmap -> -> -> _].
    + apply H.
    + intros Hin. rewrite fmap_app. destruct (decide (i = i')) as [->|Hne].
      * split; [set_solver|]. intros ([i0 r] & Heq & Hir)%list_elem_of_fmap.
        cbn in Heq. subst i0.
        destruct (inv_resolved _ H _ _ Hir) as (q' & Hq' & _). apply Hi.
        apply list_elem_of_fmap. by exists (i', q').
      * rewrite lookup_insert_ne in Hin by done. destruct (inv_waiting _ H i Hin). set_solver.
    + intros Hin. destruct (decide (i = i')) as [->|Hne].
      { rewrite lookup_delete_eq in Hin. by destruct Hin. }
      rewrite lookup_delete_ne in Hin by done. destruct (inv_waiting _ H i Hin) as [? Hnot].
      split; [done|]. rewrite fmap_app. set_solver.
Qed.

Lemma socket_reachable_inv (s : sys Q R) : reachable s → inv s.
Proof.
  intros Hr. assert (inv start) as H0 by apply socket_inv_start. unfold reachable in Hr. revert H0.
  induction Hr as [|s1 s2 s3 Hs _ IH]; eauto using socket_inv_step.
Qed.

(** C37. A request resolves at most once, and with a response that the server's program gave to
    that very request, across lost connections, dropped and late messages. *)
Theorem response_belongs (s : sys Q R) i r :
  reachable s → (i, r) ∈ Client.resolved (client s) →
  NoDup (Client.resolved (client s)).*1 ∧
  ∃ q, (i, q) ∈ asked s ∧ (∀ q', (i, q') ∈ asked s → q' = q) ∧
    (Wrap (Some i) q, r) ∈ answered s.
Proof.
  intros H%socket_reachable_inv Hin. split; [apply H|]. destruct (inv_resolved _ H _ _ Hin) as (q & Hq & Hans).
  exists q. split_and!; [done| |done]. intros q' Hq'.
  pose proof (inv_asked _ H) as Hnd.
  apply list_elem_of_lookup in Hq as [k Hk]. apply list_elem_of_lookup in Hq' as [k' Hk'].
  assert (k = k') as <-; [|congruence].
  eapply NoDup_lookup; [exact Hnd|..]; rewrite list_lookup_fmap; [rewrite Hk|rewrite Hk']; done.
Qed.

(** *** Lost requests *)

(** A request that waits while nothing under way belongs to it. *)
Record lost (i : string) (s : sys Q R) : Prop := {
  lost_places : places (λ m, id m ≠ Some i) (λ m, id m ≠ Some i) s;
  lost_waits : is_Some (Client.response_map (client s) !! i);
  lost_asked : i ∈ (asked s).*1;
  lost_unresolved : i ∉ (Client.resolved (client s)).*1
}.

Lemma lost_step i s s' : lost i s → step s s' → lost i s'.
Proof.
  intros [Hpl Hw Ha Hu] Hstep. pose proof (step_effect _ _ _ _ Hpl Hstep) as Heff.
  constructor.
  - apply (places_step _ _ s); [done|done|..]; try (by intros; cbn).
    + intros i' q Hask. cbn. intros [= ->].
      destruct Heff as [_ _ Hk _|i1 q1 Hi1 _ _ Hk _|? ? _ _ _ _ _ Hk _]; rewrite Hk in Hask.
      * apply (f_equal length) in Hask. rewrite length_app in Hask. cbn in Hask. lia.
      * apply app_inj_tail in Hask as [_ [= <- <-]]. done.
      * apply (f_equal length) in Hask. rewrite length_app in Hask. cbn in Hask. lia.
    + intros m r Hm _. cbn. by apply (pl_taken _ _ _ Hpl).
  - destruct Heff as [_ -> _ _|i1 q1 Hi1 _ -> _ _|i1 m1 Hm1 Hi1 Hmap _ -> _ _]; [done|..].
    + destruct (decide (i = i1)) as [->|]; [done|]. by rewrite lookup_insert_ne.
    + rewrite lookup_delete_ne; [done|]. intros ->. done.
  - destruct Heff as [_ _ -> _|i1 q1 Hi1 _ _ -> _|? ? _ _ _ _ _ -> _]; [done| |done].
    rewrite fmap_app. set_solver.
  - destruct Heff as [-> _ _ _|i1 q1 Hi1 -> _ _ _|i1 m1 Hm1 Hi1 Hmap -> _ _ _]; [done|done|].
    rewrite fmap_app. intros [?| ->%list_elem_of_singleton]%elem_of_app; done.
Qed.

(** A request whose message or response is dropped with a connection is never resolved:
    the client neither sends it again nor gives up. *)
Theorem lost_request_waits_forever i s s' :
  lost i s → rtc step s s' →
  is_Some (Client.response_map (client s') !! i) ∧ i ∉ (Client.resolved (client s')).*1.
Proof.
  intros H Hr. induction Hr as [s|s1 s2 s3 Hs _ IH]; [by split; apply H|].
  eauto using lost_step.
Qed.
End SocketProps.
End SocketProps.

(** ** The runtime ([drone/runtime/unix_socket/mod.rs]) *)

Module UnixSocketRuntime.
Import DockerTypes DockerRuntime DockerApi.

Inductive MessageToServer :=
| Prepare (config : DockerExecutorConfig)
| Spawn (backend : string) (executable : DockerExecutorConfig)
    (acquired_key : option Protocol.AcquiredKey) (static_token : option string)
| Terminate (backend : string) (hard : bool)
| WaitForBackend (backend : string) (address : SocketAddr).

Inductive MessageToClient :=
| PrepareResult (r : result string ())
| SpawnResult_ (r : result string SpawnResult)
| TerminateResult (r : result string bool)
| WaitForBackendResult (r : result BackendState.BackendError ())
| MetricsMessage (m : Protocol.BackendMetricsMessage)
| TerminateEvent_ (e : TerminateEvent).

Inductive Error :=
| InvalidExecutable
| NotSent
| FromServer (msg : string)
| Unexpected.

Section Runtime.
Context (json : Type) (from_value : json → option DockerExecutorConfig).

(** The answer of [TypedUnixSocketClient::send_request]; an error when the message could
    not be sent. *)
Context (send_request : MessageToServer → option MessageToClient).

Definition request {A} (m : MessageToServer) (result_of : MessageToClient → option (result string A))
    : result Error A :=
  match send_request m with
  | None => Err NotSent
  | Some response =>
      match result_of response with
      | Some (Ok a) => Ok a
      | Some (Err e) => Err (FromServer e)
      | None => Err Unexpected
      end
  end.

Definition prepare (config : json) : result Error () :=
  match from_value config with
  | None => Err InvalidExecutable
  | Some config =>
      request (Prepare config) (λ m, match m with PrepareResult r => Some r | _ => None end)
  end.

Definition spawn (backend_id : string) (executable : json)
    (acquired_key : option Protocol.AcquiredKey) (static_token : option string)
    : result Error SpawnResult :=
  match from_value executable with
  | None => Err InvalidExecutable
  | Some executable =>
      request (Spawn backend_id executable acquired_key static_token)
        (λ m, match m with SpawnResult_ r => Some r | _ => None end)
  end.

Definition terminate (backend_id : string) (hard : bool) : result Error bool :=
  request (Terminate backend_id hard)
    (λ m, match m with TerminateResult r => Some r | _ => None end).

(** [wait_for_backend]; [None] is the panic of [expect] when the request cannot be sent. *)
Definition wait_for_backend (backend : string) (address : SocketAddr)
    : option (result BackendState.BackendError ()) :=
  match send_request (WaitForBackend backend address) with
  | None => None
  | Some (WaitForBackendResult v) => Some v
  | Some _ => Some (Err (BackendState.BOther "Unexpected response from server"))
  end.

(** A subscription to the client's events ends at the first error of [recv] (such as
    having fallen behind); [None] stands for it. *)
Fixpoint received {A} (f : MessageToClient → option A) (l : list (option MessageToClient))
    : list A :=
  match l with
  | Some m :: l => match f m with Some a => a :: received f l | None => received f l end
  | _ => []
  end.

Definition events (l : list (option MessageToClient)) : list TerminateEvent :=
  received (λ m, match m with TerminateEvent_ e => Some e | _ => None end) l.

Definition metrics_callback (l : list (option MessageToClient))
    : list Protocol.BackendMetricsMessage :=
  received (λ m, match m with MetricsMessage m => Some m | _ => None end) l.

End Runtime.

End UnixSocketRuntime.

Module UnixSocketRuntimeProps.
Import DockerTypes DockerRuntime UnixSocketRuntime Wire System SocketProps.

Section RuntimeProps.
Context {json : Type} (from_value : json → option DockerExecutorConfig).
Context {JQ : Json MessageToServer} {JR : Json MessageToClient}.
Context {LQ : JsonLaws MessageToServer JQ} {LR : JsonLaws MessageToClient JR}.
Notation sys := (sys MessageToServer MessageToClient).

(** The answer that a call made with token [i] gets. *)
Definition resolution (s : sys) (i : string) : option MessageToClient :=
  (list_find (λ p, p.1 = i) (Client.resolved (client s))) ≫= λ p, Some p.2.2.

(** [spawn] over the socket reports a container only when the server's program
    answered this spawn, of this backend with this configuration, with it. *)
Theorem spawn_over_socket (s : sys) i backend executable key token r :
  reachable s →
  (∀ q, (i, q) ∈ asked s → ∃ c, from_value executable = Some c ∧ q = Spawn backend c key token) →
  spawn json from_value (λ _, resolution s i) backend executable key token = Ok r →
  ∃ c, from_value executable = Some c ∧
    (Wrap (Some i) (Spawn backend c key token), SpawnResult_ (Ok r)) ∈ answered s.
Proof.
  intros Hr Hasked. unfold spawn, request. destruct (from_value executable) as [c|] eqn:Hc; [|done].
  unfold resolution. destruct (list_find _ _) as [[k [i' m]]|] eqn:Hf; [|done].
  apply list_find_Some in Hf as (Hk & Hi & _). cbn in *. subst i'.
  destruct m; try done. destruct r0 as [a|]; [|done]. intros [= ->].
  destruct (inv_resolved _ (socket_reachable_inv s Hr) i (SpawnResult_ (Ok r))) as (q & Hq & Hans);
    [by eapply list_elem_of_lookup_2|].
  destruct (Hasked q Hq) as (c' & [= <-] & ->). eauto.
Qed.

(** A subscriber that has fallen behind once is told of no end of a backend any more: the events of
    this runtime end there, while those of the Docker runtime go on. *)
Theorem lag_ends_events (l l' : list (option MessageToClient)) (k k' : list (option TerminateEvent)) :
  UnixSocketRuntime.events (l ++ None :: l') = UnixSocketRuntime.events l ∧
  DockerRuntime.events (k ++ None :: k') = DockerRuntime.events k ++ DockerRuntime.events k'.
Proof.
  split; [|unfold DockerRuntime.events; by rewrite omap_app].
  unfold UnixSocketRuntime.events. induction l as [|[m|] l IH]; [done| |done]. cbn. destruct m; try exact IH.
  by rewrite IH.
Qed.

End RuntimeProps.

End UnixSocketRuntimeProps.

(** ** A concrete execution *)

Module UnixSocketWitness.
Import Wire System SocketProps.

(** A format of lines: the codes of the characters as two letters each. *)
Definition letter (n : N) : ascii := Ascii.ascii_of_N (97 + n).

Fixpoint enc (s : string) : string :=
  match s with
  | "" => "."
  | String a s =>
      String (letter (byte_N a / 16)) (String (letter (byte_N a mod 16)) (enc s))
  end.

Fixpoint dec (s : string) : option (string * string) :=
  match s with
  | String "." rest => Some ("", rest)
  | String a (String b s) =>
      match dec s with
      | Some (t, rest) => Some (String (Ascii.ascii_of_N ((byte_N a - 97) * 16 + (byte_N b - 97))) t, rest)
      | None => None
      end
  | _ => None
  end.

Lemma dec_enc s rest : dec (enc s +:+ rest) = Some (s, rest).
Proof.
  induction s as [|a s IH]; [done|]. cbn [enc]. rewrite !append_cons.
  destruct a as [[] [] [] [] [] [] [] []]; cbn; rewrite IH; done.
Qed.

Definition line_char (a : ascii) : bool := (33 <=? byte_N a)%N.

Lemma enc_chars s : string_forallb line_char (enc s) = true.
Proof.
  induction s as [|a s IH]; [done|]. cbn [enc string_forallb]. rewrite IH.
  by destruct a as [[] [] [] [] [] [] [] []].
Qed.

(** Messages that are strings. *)
#[local] Instance json : Json string := {
  to_string m := match id m with Some i => "+" +:+ enc i | None => "-" end +:+ enc (message m);
  from_str s :=
    match s with
    | String "+" s =>
        match dec s with
        | Some (i, s) => match dec s with Some (m, "") => Some (Wrap (Some i) m) | _ => None end
        | None => None
        end
    | String "-" s => match dec s with Some (m, "") => Some (Wrap None m) | _ => None end
    | _ => None
    end
}.

Lemma line_chars (m : WrappedMessage string) : string_forallb line_char (to_string m) = true.
Proof.
  cbn [to_string json]. rewrite string_forallb_append, enc_chars, andb_true_r.
  destruct (id m); [|done]. by rewrite string_forallb_append, enc_chars.
Qed.

Lemma line_has (a : ascii) s : line_char a = false → string_forallb line_char s = true →
  string_has a s = false.
Proof.
  intros Ha. induction s as [|b s IH]; cbn; [done|]. intros [Hb Hs]%andb_true_iff.
  apply orb_false_iff. split; [|by apply IH]. destruct (Ascii.eqb_spec b a); [congruence|done].
Qed.

#[local] Instance json_laws : JsonLaws string json.
Proof.
  split.
  - intros [[i|] m]; cbn [to_string from_str json id message].
    + rewrite append_assoc, append_cons, append_nil_l, dec_enc.
      rewrite <- (append_nil_r (enc m)), dec_enc. done.
    + rewrite append_cons, append_nil_l. rewrite <- (append_nil_r (enc m)), dec_enc. done.
  - intros m. apply line_has; [done|apply line_chars].
  - intros m. destruct (ends_with _ _) eqn:He; [|done]. exfalso.
    unfold ends_with in He. destruct (strip_suffix _ _) as [t|] eqn:Hs; [|done].
    apply strip_suffix_spec in Hs. pose proof (line_chars m) as Hl. rewrite Hs in Hl.
    rewrite string_forallb_append in Hl. apply andb_true_iff in Hl as [_ Hl]. done.
Qed.

Notation sys := (sys string string).

(** The steps as functions, with the conditions under which they are steps. *)
Definition client_writes (s : sys) : sys :=
  let '(c, bytes) := Client.send_next (client s) (up s (c_conn s)) in
  with_up (put (c_conn s) bytes (up s)) (with_client c s).
Definition server_writes (s : sys) : sys :=
  let '(x, bytes) := Server.send_next (server s) (down s (s_conn s)) in
  with_down (put (s_conn s) bytes (down s)) (with_server x s).
Definition client_reads (s : sys) : sys :=
  match next_line (down s (c_conn s)) with
  | Some (line, rest) =>
      with_down (put (c_conn s) rest (down s)) (with_client (Client.on_line line (client s)) s)
  | None => s
  end.
Definition server_reads (s : sys) : sys :=
  match next_line (up s (s_conn s)) with
  | Some (line, rest) =>
      with_up (put (s_conn s) rest (up s)) (with_server (Server.on_line line (server s)) s)
  | None => s
  end.
Definition takes (s : sys) : sys :=
  match Server.requests (server s) with
  | m :: ms =>
      with_calls (taken s ++ [m]) (asked s) (answered s)
        (with_server (Server.Mk ms (Server.events (server s)) (Server.response_rx (server s))) s)
  | [] => s
  end.

Lemma run_step (s s' : sys) : reachable s → (s' = s ∨ step s s') → reachable s'.
Proof. intros Hr [->|Hs]; [done|by eapply rtc_r]. Qed.

Lemma client_writes_step s : c_up s = true → step s (client_writes s).
Proof.
  intros Hup. unfold client_writes. destruct (Client.send_next _ _) eqn:H. by apply step_write.
Qed.
Lemma server_writes_step s : s_up s = true → step s (server_writes s).
Proof.
  intros Hup. unfold server_writes. destruct (Server.send_next _ _) eqn:H.
  by apply step_server_write.
Qed.
Lemma client_reads_step s : c_up s = true → client_reads s = s ∨ step s (client_reads s).
Proof.
  intros Hup. unfold client_reads. destruct (next_line _) as [[line rest]|] eqn:H; [|by left].
  right. by apply step_read.
Qed.
Lemma server_reads_step s : s_up s = true → server_reads s = s ∨ step s (server_reads s).
Proof.
  intros Hup. unfold server_reads. destruct (next_line _) as [[line rest]|] eqn:H; [|by left].
  right. by apply step_server_read.
Qed.
Lemma takes_step s : takes s = s ∨ step s (takes s).
Proof.
  unfold takes. destruct (Server.requests _) eqn:H; [by left|]. right. by apply step_take.
Qed.

Definition ping : WrappedMessage string := Wrap (Some "t1") "ping".
Definition w1 : sys := server_at 1 true (client_at 1 true start).
Definition w2 : sys := with_calls [] [("t1", "ping")] []
  (with_client (Client.send_request "t1" "ping" (client w1)).1 w1).
Definition w3 : sys := takes (server_reads (client_writes w2)).
Definition w4 : sys := with_calls (taken w3) (asked w3) [(ping, "pong")]
  (with_server (Server.send_response ping "pong" (server w3)) w3).
Definition w5 : sys := client_reads (server_writes w4).

Lemma w2_reachable : reachable w2.
Proof.
  apply (run_step w1); [|right; apply (step_request "t1" "ping" w1); cbn; set_solver].
  apply (run_step (client_at 1 true start)); [|right; apply (step_accept 1); [done|cbn; lia]].
  apply (run_step start); [apply rtc_refl|right; by apply step_connect].
Qed.

Lemma w3_reachable : reachable w3.
Proof.
  eapply run_step; [|apply takes_step]. eapply run_step; [|by apply server_reads_step].
  eapply run_step; [apply w2_reachable|right; by apply client_writes_step].
Qed.

Lemma exchange_reachable : reachable w5.
Proof.
  eapply run_step; [|by apply client_reads_step].
  apply (run_step w4); [|right; by apply server_writes_step].
  apply (run_step w3); [apply w3_reachable|]. right.
  apply (step_respond ping "pong" w3). vm_compute. by left.
Qed.

Lemma response_belongs_witness :
  Client.resolved (client w5) = [("t1", "pong")] ∧
  ∃ q, ("t1", q) ∈ asked w5 ∧ (Wrap (Some "t1") q, "pong") ∈ answered w5.
Proof.
  split; [vm_compute; reflexivity|].
  destruct (response_belongs w5 "t1" "pong") as [_ (q & ? & _ & ?)].
  - apply exchange_reachable.
  - vm_compute. by left.
  - by exists q.
Defined.

(** The connection is lost before the request is written. *)
Definition w6 : sys := client_at 1 false (with_client (Client.disconnected (client w2)) w2).

Lemma w6_lost : lost "t1" w6.
Proof.
  constructor; [|vm_compute; by eexists|vm_compute; by left|vm_compute; by intros ?%elem_of_nil].
  constructor; cbn; try (by intros m ?%elem_of_nil); intros; exists []; split; try done;
    by intros m ?%elem_of_nil.
Qed.

Lemma lost_request_waits_forever_witness :
  reachable w6 ∧ is_Some (Client.response_map (client (client_at 2 true w6)) !! "t1").
Proof.
  split.
  - apply (run_step w2); [apply w2_reachable|]. right. by apply (step_lost w2).
  - apply (lost_request_waits_forever "t1" w6); [apply w6_lost|].
    eapply rtc_l; [by apply (step_connect w6)|apply rtc_refl].
Defined.
End UnixSocketWitness.
