(* ===== verification/TypedSocket.v ===== *)
(** * Typed sockets ([common/src/typed_socket])

    Controllers, drones, proxies and DNS servers talk over websockets, one text frame of
    JSON for each message. A program has a [TypedSocket], two bounded channels; a task
    moves messages between them and the websocket: [Client.step] in the process that opened
    the socket, [Server.step] in the controller.

    [System] joins the two tasks by a websocket, which delivers the frames of each
    direction in order until it breaks. *)

From S2P Require Import Prelude BackendState Types Encoding Sse.

(** ** Bounded channels ([tokio::sync::mpsc]) *)

Module Mpsc.

Definition capacity : nat := 1024.

(** The items not received yet; [closed] once the receiver has been closed or dropped. *)
Record chan (A : Type) := Chan { items : list A; closed : bool }.
Arguments Chan {A} items closed.
Arguments items {A} c.
Arguments closed {A} c.

Definition empty {A} : chan A := Chan [] false.

(** [TrySendError], also [TypedSocketError]. *)
Inductive TypedSocketError := Closed | Clogged.

Definition try_send {A} (a : A) (c : chan A) : chan A * result TypedSocketError () :=
  if closed c then (c, Err Closed)
  else if decide (length (items c) < capacity) then (Chan (items c ++ [a]) false, Ok ())
  else (c, Err Clogged).

(** [Receiver::close]: what is queued can still be received. *)
Definition close {A} (c : chan A) : chan A := Chan (items c) true.

End Mpsc.

(** ** The ends of a socket ([mod.rs]) *)

Module TypedSocket.
Import Mpsc.

Inductive SocketAction (T : Type) := Send (message : T) | Close.
Arguments Send {T} message.
Arguments Close {T}.

Record PlaneVersionInfo := { version : string; git_hash : string }.

Record Handshake := { hs_version : PlaneVersionInfo; hs_name : string }.

Inductive Warning := DifferentVersions | DifferentHashes.

(** The warning that [check_compat] logs. *)
Definition check_compat (self other : Handshake) : option Warning :=
  if bool_decide (version (hs_version self) ≠ version (hs_version other))
  then Some DifferentVersions
  else if bool_decide (git_hash (hs_version self) ≠ git_hash (hs_version other))
  then Some DifferentHashes
  else None.

Section TypedSocket.
Context {T : Type}.

(** [TypedSocket::send]; every failure is [PlaneClientError::SendFailed]. *)
Definition send (m : T) (c : chan (SocketAction T)) : chan (SocketAction T) * result () () :=
  let '(c, r) := try_send (Send m) c in (c, map_err (λ _, ()) r).

(** [TypedSocketSender]: [send] and [close] through [sender(transform)]. *)
Definition sender_inner_send {A} (transform : A → T) (a : SocketAction A)
    (c : chan (SocketAction T)) : chan (SocketAction T) * result TypedSocketError () :=
  try_send (match a with Close => Close | Send m => Send (transform m) end) c.

Definition sender_send {A} (transform : A → T) (m : A) (c : chan (SocketAction T)) :=
  sender_inner_send transform (Send m) c.

Definition sender_close {A} (transform : A → T) (c : chan (SocketAction T)) :=
  sender_inner_send transform (Close : SocketAction A) c.

(** [channel_depths]: outgoing and incoming. *)
Definition channel_depths {R} (out : chan (SocketAction T)) (inc : chan R) : nat * nat :=
  (length (items out), length (items inc)).

End TypedSocket.

(** [serde_json] at a type of messages, with its round trip: a message that the program can
    make ([sendable]) is read as [carried] says, its times in whole milliseconds. *)
Class Json (A : Type) := {
  to_string : A → string;
  from_str : string → option A;
  sendable : A → Prop;
  carried : A → A
}.
Class JsonLaws (A : Type) (J : Json A) : Prop :=
  from_to_string a : sendable a → from_str (to_string a) = Some (carried a).

(** Websocket messages; [Error reset] is a failure of the socket, [reset] when it is a
    reset without a closing handshake; [Other] are binary messages, pings and pongs. *)
Inductive Message := Text (s : string) | CloseFrame (code : option Z) | Other | Error (reset : bool).

End TypedSocket.

(** ** The client's task ([client.rs]) *)

Module Client.
Import Mpsc TypedSocket.

Section Client.
Context {T R : Type} `{JT : Json T} `{JR : Json R}.

(** The receiver of the program's messages, the sender to the program, and whether the
    loop has ended. *)
Record t := Mk {
  out : chan (SocketAction T);
  inc : chan R;
  done_ : bool
}.

Inductive event :=
| Outgoing (sent : bool)
| Incoming (v : option Message).

(** Whether all senders of the program are gone; then an empty channel ends. *)
Context (dropped : bool).

(** A turn of the loop: the new state and the message written to the websocket. [sent] is
    whether that succeeds; when it does not the loop goes on. *)
Definition step (e : event) (c : t) : t * option Message :=
  if done_ c then (c, None)
  else match e with
  | Outgoing sent =>
      match items (out c) with
      | [] =>
          if closed (out c) || dropped
          then (Mk (out c) (inc c) true, if sent then Some (CloseFrame None) else None)
          else (c, None)
      | Send m :: q =>
          (Mk (Chan q (closed (out c))) (inc c) false,
           if sent then Some (Text (to_string m)) else None)
      | Close :: q => (Mk (close (Chan q (closed (out c)))) (inc c) false, None)
      end
  | Incoming (Some (Text s)) =>
      match from_str s with
      | Some m => (Mk (out c) (try_send m (inc c)).1 false, None)
      | None => (c, None)
      end
  | Incoming (Some (Error true)) | Incoming None => (Mk (out c) (inc c) true, None)
  | Incoming (Some _) => (c, None)
  end.

End Client.
Arguments t T R : clear implicits.

(** The handshake of [connect], from the answers of the websocket: the error, or the
    remote handshake and the warning. *)
Inductive ConnectError :=
| Tungstenite
| ClosedBeforeHandshake
| HandshakeNotText
| BadHandshake.

Section Connect.
Context `{JH : Json Handshake}.

Definition handshake (local : Handshake) (sent : bool) (answer : option Message)
    : result ConnectError (Handshake * option Warning) :=
  if negb sent then Err Tungstenite
  else match answer with
  | None => Err ClosedBeforeHandshake
  | Some (Error _) => Err Tungstenite
  | Some (Text s) =>
      match from_str s with
      | Some remote => Ok (remote, check_compat local remote)
      | None => Err BadHandshake
      end
  | Some _ => Err HandshakeNotText
  end.
End Connect.

(** [connect_with_retry]: one wait before every attempt; the loop ends with the first
    socket, [now] is the time of the reset that is then deferred. *)
Fixpoint connect_with_retry `{F : ExponentialBackoff.F64} {A E}
    (attempts : list (Z * result E A)) (b : ExponentialBackoff.t F)
    : list (option Z) * ExponentialBackoff.t F * option A :=
  match attempts with
  | [] => ([], b, None)
  | (now, r) :: attempts =>
      let '(d, b) := ExponentialBackoff.wait now b in
      match r with
      | Ok socket => ([d], ExponentialBackoff.defer_reset now b, Some socket)
      | Err _ =>
          let '(ds, b, o) := connect_with_retry attempts b in (d :: ds, b, o)
      end
  end.

End Client.

(** ** The controller's task ([server.rs]) *)

Module Server.
Import Mpsc TypedSocket.

Section Server.
Context {T R : Type} `{JT : Json T} `{JR : Json R}.

(** [pending] is a received message that waits for room in the channel to the program. *)
Record t := Mk {
  out : chan (SocketAction T);
  inc : chan R;
  pending : option R;
  done_ : bool
}.

(** [Room]: the channel to the program has room, or its receiver is gone. *)
Inductive event :=
| Outgoing (sent : bool)
| Incoming (v : option Message)
| Room.

Context (dropped : bool).

(** A turn of [handle_messages]. A branch whose pattern does not match is disabled: the
    [else] branch is for when both are. *)
Definition step (e : event) (s : t) : t * option Message :=
  if done_ s then (s, None)
  else match pending s, e with
  | Some m, Room =>
      match try_send m (inc s) with
      | (c, Ok _) => (Mk (out s) c None false, None)
      | (_, Err Closed) => (Mk (out s) (inc s) None true, None)
      | (_, Err Clogged) => (s, None)
      end
  | Some _, _ => (s, None)
  | None, Room => (s, None)
  | None, Outgoing sent =>
      match items (out s) with
      | [] => (s, None)
      | Send m :: q =>
          if sent
          then (Mk (Chan q (closed (out s))) (inc s) None false, Some (Text (to_string m)))
          else (Mk (Chan q (closed (out s))) (inc s) None true, None)
      | Close :: q =>
          (Mk (Chan q (closed (out s))) (inc s) None true,
           if sent then Some (CloseFrame None) else None)
      end
  | None, Incoming (Some (Text m)) =>
      match from_str m with
      | Some m => (Mk (out s) (inc s) (Some m) false, None)
      | None => (s, None)
      end
  | None, Incoming (Some (Error _)) => (Mk (out s) (inc s) None true, None)
  | None, Incoming (Some (CloseFrame (Some 1001%Z))) => (Mk (out s) (inc s) None true, None)
  | None, Incoming (Some _) => (s, None)
  | None, Incoming None =>
      match items (out s) with
      | [] => if closed (out s) || dropped then (Mk (out s) (inc s) None true, None) else (s, None)
      | _ => (s, None)
      end
  end.

End Server.
Arguments t T R : clear implicits.

Inductive Error :=
| HandshakeNotText
| SocketClosedBeforeHandshake
| ParseMessage
| SendMessage.

Section NewServer.
Context `{JH : Json Handshake}.

(** The handshake of [new_server]: the first message, and whether the answer is sent. *)
Definition new_server (local : Handshake) (first : option Message) (sent : bool)
    : result Error (Handshake * option Warning) :=
  match first with
  | None => Err SocketClosedBeforeHandshake
  | Some (TypedSocket.Error _) => Err SendMessage
  | Some (Text s) =>
      match from_str s with
      | None => Err ParseMessage
      | Some remote =>
          if sent then Ok (remote, check_compat local remote) else Err SendMessage
      end
  | Some _ => Err HandshakeNotText
  end.
End NewServer.

End Server.

(** ** Both ends *)

Module System.
Import Mpsc TypedSocket.

Section System.
Context {T R : Type} `{JT : Json T} `{JR : Json R}.

(** Messages that a turn of a loop throws away: one that the websocket does not take, and
    one that the channel to the program does not take. *)
Definition client_loses_out (e : Client.event) (c : Client.t T R) : bool :=
  match e, items (Client.out c) with Client.Outgoing false, Send _ :: _ => true | _, _ => false end.

Definition client_loses_in (e : Client.event) (c : Client.t T R) : bool :=
  match e with
  | Client.Incoming (Some (Text s)) =>
      match from_str s with
      | Some m => negb (is_ok (try_send m (Client.inc c)).2)
      | None => false
      end
  | _ => false
  end.

Definition server_loses_out (e : Server.event) (s : Server.t R T) : bool :=
  match e, items (Server.out s) with Server.Outgoing false, Send _ :: _ => true | _, _ => false end.

Definition server_loses_in (e : Server.event) (s : Server.t R T) : bool :=
  match e, Server.pending s with Server.Room, Some _ => closed (Server.inc s) | _, _ => false end.

(** [up] and [down] are the frames written and not read. For each direction: what the
    channel took from the program, what the other program received, and whether a
    message has been thrown away. *)
Record sys := Sys {
  client : Client.t T R;
  server : Server.t R T;
  up : list Message;
  down : list Message;
  accepted_up : list T;
  got_up : list T;
  lost_up : bool;
  accepted_down : list R;
  got_down : list R;
  lost_down : bool
}.

Definition start : sys :=
  Sys (Client.Mk empty empty false) (Server.Mk empty empty None false) [] [] [] [] false [] [] false.

Definition sent (o : option Message) (frames : list Message) : list Message :=
  match o with Some f => frames ++ [f] | None => frames end.

(** A turn of a loop; [rest] are the frames that stay to be read. *)
Definition client_turn (dropped : bool) (e : Client.event) (rest : list Message) (s : sys) : sys :=
  let '(c, o) := Client.step dropped e (client s) in
  Sys c (server s) (sent o (up s)) rest (accepted_up s) (got_up s)
    (lost_up s || negb (Client.done_ (client s)) && client_loses_out e (client s)) (accepted_down s) (got_down s)
    (lost_down s || negb (Client.done_ (client s)) && client_loses_in e (client s)).

Definition server_turn (dropped : bool) (e : Server.event) (rest : list Message) (s : sys) : sys :=
  let '(x, o) := Server.step dropped e (server s) in
  Sys (client s) x rest (sent o (down s)) (accepted_up s) (got_up s)
    (lost_up s || negb (Server.done_ (server s)) && server_loses_in e (server s)) (accepted_down s) (got_down s)
    (lost_down s || negb (Server.done_ (server s)) && server_loses_out e (server s)).

Definition with_client (c : Client.t T R) (accepted : list T) (got : list R) (s : sys) : sys :=
  Sys c (server s) (up s) (down s) accepted (got_up s) (lost_up s) (accepted_down s) got
    (lost_down s).
Definition with_server (x : Server.t R T) (accepted : list R) (got : list T) (s : sys) : sys :=
  Sys (client s) x (up s) (down s) (accepted_up s) got (lost_up s) accepted (got_down s)
    (lost_down s).

(** Events that no frame of the other end causes. *)
Definition no_text (v : option Message) : bool :=
  match v with Some (Text _) => false | _ => true end.

Inductive step : sys → sys → Prop :=
| step_send m c r s :
    sendable m → try_send (Send m) (Client.out (client s)) = (c, r) →
    step s (with_client (Client.Mk c (Client.inc (client s)) (Client.done_ (client s)))
              (if is_ok r then accepted_up s ++ [m] else accepted_up s) (got_down s) s)
| step_close c r s :
    try_send Close (Client.out (client s)) = (c, r) →
    step s (with_client (Client.Mk c (Client.inc (client s)) (Client.done_ (client s)))
              (accepted_up s) (got_down s) s)
| step_recv m q s :
    items (Client.inc (client s)) = m :: q →
    step s (with_client (Client.Mk (Client.out (client s))
                (Chan q (closed (Client.inc (client s)))) (Client.done_ (client s)))
              (accepted_up s) (got_down s ++ [m]) s)
| step_unsubscribe s :
    step s (with_client (Client.Mk (Client.out (client s)) (close (Client.inc (client s)))
                (Client.done_ (client s)))
              (accepted_up s) (got_down s) s)
| step_client_out dropped ok s : step s (client_turn dropped (Client.Outgoing ok) (down s) s)
| step_client_in dropped f rest s :
    Client.done_ (client s) = false → down s = f :: rest →
    step s (client_turn dropped (Client.Incoming (Some f)) rest s)
| step_client_other dropped v s :
    no_text v = true → step s (client_turn dropped (Client.Incoming v) (down s) s)
| step_server_send m c r s :
    sendable m → try_send (Send m) (Server.out (server s)) = (c, r) →
    step s (with_server (Server.Mk c (Server.inc (server s)) (Server.pending (server s))
                (Server.done_ (server s)))
              (if is_ok r then accepted_down s ++ [m] else accepted_down s) (got_up s) s)
| step_server_close c r s :
    try_send Close (Server.out (server s)) = (c, r) →
    step s (with_server (Server.Mk c (Server.inc (server s)) (Server.pending (server s))
                (Server.done_ (server s)))
              (accepted_down s) (got_up s) s)
| step_server_recv m q s :
    items (Server.inc (server s)) = m :: q →
    step s (with_server (Server.Mk (Server.out (server s))
                (Chan q (closed (Server.inc (server s)))) (Server.pending (server s))
                (Server.done_ (server s)))
              (accepted_down s) (got_up s ++ [m]) s)
| step_server_unsubscribe s :
    step s (with_server (Server.Mk (Server.out (server s)) (close (Server.inc (server s)))
                (Server.pending (server s)) (Server.done_ (server s)))
              (accepted_down s) (got_up s) s)
| step_server_out dropped ok s : step s (server_turn dropped (Server.Outgoing ok) (up s) s)
| step_server_room dropped s : step s (server_turn dropped Server.Room (up s) s)
| step_server_in dropped f rest s :
    Server.done_ (server s) = false → Server.pending (server s) = None → up s = f :: rest →
    step s (server_turn dropped (Server.Incoming (Some f)) rest s)
| step_server_other dropped v s :
    no_text v = true → step s (server_turn dropped (Server.Incoming v) (up s) s).

Definition reachable (s : sys) : Prop := rtc step start s.

(** What is on its way, oldest first, as it will be read. *)
Definition sends {A} `{J : Json A} (q : list (SocketAction A)) : list A :=
  omap (λ a, match a with Send m => Some (carried m) | Close => None end) q.

Definition texts {A} `{J : Json A} (frames : list Message) : list A :=
  omap (λ f, match f with Text s => from_str s | _ => None end) frames.

Definition way_up (s : sys) : list T :=
  items (Server.inc (server s)) ++ option_list (Server.pending (server s)) ++ texts (up s) ++
  sends (items (Client.out (client s))).

Definition way_down (s : sys) : list R :=
  items (Client.inc (client s)) ++ texts (down s) ++ sends (items (Server.out (server s))).

End System.
Arguments sys T R : clear implicits.

End System.

(** ** Theorems *)

Module SocketProps.
Import Mpsc TypedSocket System.

Section SocketProps.
Context {T R : Type} `{JT : Json T} `{JR : Json R} {LT : JsonLaws T JT} {LR : JsonLaws R JR}.

#[local] Arguments texts : simpl never.
#[local] Arguments sends : simpl never.

(** A direction: what is received and what is on its way, against what was accepted. *)
Definition flow {A} `{J : Json A} (accepted got way : list A) (lost : bool) : Prop :=
  got ++ way `sublist_of` carried <$> accepted ∧ (lost = false → got ++ way = carried <$> accepted).

(** The messages of a queue can be written. *)
Definition writable {A} `{J : Json A} (q : list (SocketAction A)) : Prop :=
  Forall (λ a, match a with Send m => sendable m | Close => True end) q.

Lemma flow_same {A} {J : Json A} (acc got got' way way' : list A) lost lost' :
  flow acc got way lost → got' ++ way' = got ++ way → (lost' = false → lost = false) →
  flow acc got' way' lost'.
Proof. unfold flow. intros [Hs He] -> Hl. auto. Qed.

Lemma flow_accept {A} {J : Json A} (acc got way way' : list A) m lost :
  flow acc got way lost → way' = way ++ [carried m] → flow (acc ++ [m]) got way' lost.
Proof.
  intros [Hs He] ->. unfold flow. rewrite (assoc_L app), fmap_app. split; [by apply sublist_app|].
  intros Hl. by rewrite He.
Qed.

Lemma flow_lose {A} {J : Json A} (acc got way way' : list A) lost :
  flow acc got way lost → way' `sublist_of` way → flow acc got way' true.
Proof.
  intros [Hs He] Hw. split; [|done]. transitivity (got ++ way); [by apply sublist_app|done].
Qed.

Lemma sends_app {A} {J : Json A} (q q' : list (SocketAction A)) : sends (q ++ q') = sends q ++ sends q'.
Proof. apply omap_app. Qed.

Lemma texts_app {A} {J : Json A} l l' : texts (A := A) (l ++ l') = texts l ++ texts l'.
Proof. apply omap_app. Qed.

Lemma texts_cons {A} {J : Json A} s l :
  texts (A := A) (Text s :: l) = match from_str s with Some m => m :: texts l | None => texts l end.
Proof. done. Qed.

Lemma try_send_items {A} (a : A) c c' r : try_send a c = (c', r) →
  items c' = if is_ok r then items c ++ [a] else items c.
Proof.
  unfold try_send. destruct (closed c); [|case_decide]; by intros [= <- <-].
Qed.

(** *** One turn of a loop *)

Lemma client_step_up dropped e (c c' : Client.t T R) o frames :
  Client.step dropped e c = (c', o) → writable (items (Client.out c)) →
  negb (Client.done_ c) && client_loses_out e c = false →
  texts (sent o frames) ++ sends (items (Client.out c')) =
    texts frames ++ sends (items (Client.out c)).
Proof.
  intros Hs Hw. revert Hs. unfold Client.step, client_loses_out.
  destruct (Client.done_ c); [by intros [= <- <-]|]. destruct e as [ok|v]; cbn [negb andb].
  - destruct (items (Client.out c)) as [|[m|] q] eqn:Hq.
    + destruct (closed _ || dropped); intros [= <- <-] _; [|by rewrite Hq].
      cbn. rewrite Hq. destruct ok; cbn; [|done]. by rewrite texts_app, app_nil_r.
    + destruct ok; [|done]. intros [= <- <-] _. cbn [sent Client.out items]. rewrite texts_app.
      apply Forall_cons in Hw as [Hm _]. unfold texts at 2, sends. cbn. rewrite from_to_string by done.
      by rewrite <- (assoc_L app).
    + by intros [= <- <-] _.
  - destruct v as [[s| | |[]]|]; try (by intros [= <- <-] _).
    destruct (from_str s); by intros [= <- <-] _.
Qed.

Lemma client_step_loses dropped e (c c' : Client.t T R) o frames :
  Client.step dropped e c = (c', o) → writable (items (Client.out c)) →
  texts (sent o frames) ++ sends (items (Client.out c')) `sublist_of`
    texts frames ++ sends (items (Client.out c)).
Proof.
  intros Hs Hw. destruct (negb (Client.done_ c) && client_loses_out e c) eqn:Hl.
  - apply andb_true_iff in Hl as [Hd Hl]. unfold Client.step, client_loses_out in *.
    destruct (Client.done_ c); [done|]. destruct e as [[]|]; try done.
    destruct (items (Client.out c)) as [|[m|] q]; try done. simplify_eq. cbn.
    apply sublist_app; [done|]. by apply sublist_cons.
  - by rewrite (client_step_up _ _ _ _ _ _ Hs Hw Hl).
Qed.

Lemma client_step_writable dropped e (c c' : Client.t T R) o :
  Client.step dropped e c = (c', o) → writable (items (Client.out c)) → writable (items (Client.out c')).
Proof.
  unfold Client.step, writable. intros Hs Hw.
  destruct (Client.done_ c), e as [ok|v], (items (Client.out c)) as [|[m|] q] eqn:Hq;
    repeat case_match; simplify_eq; cbn; rewrite ?Hq; try done; by inversion Hw.
Qed.

Lemma client_step_in dropped f rest (c c' : Client.t T R) o :
  Client.step dropped (Client.Incoming (Some f)) c = (c', o) → Client.done_ c = false →
  (client_loses_in (Client.Incoming (Some f)) c = false →
    items (Client.inc c') ++ texts rest = items (Client.inc c) ++ texts (f :: rest)) ∧
  items (Client.inc c') ++ texts rest `sublist_of` items (Client.inc c) ++ texts (f :: rest).
Proof.
  unfold Client.step, client_loses_in. intros Hs Hd. rewrite Hd in Hs.
  destruct f as [s| | |[]]; simplify_eq; try done.
  rewrite texts_cons. destruct (from_str s) as [m|]; simplify_eq; [|done]. cbn.
  destruct (try_send m (Client.inc c)) as [i r] eqn:Ht. cbn.
  rewrite (try_send_items _ _ _ _ Ht). destruct r; cbn; [rewrite <- (assoc_L app); done|].
  split; [done|]. apply sublist_app; [done|]. by apply sublist_cons.
Qed.

Lemma client_step_same dropped e (c c' : Client.t T R) o :
  Client.step dropped e c = (c', o) → match e with Client.Incoming v => no_text v = true | _ => True end →
  Client.inc c' = Client.inc c.
Proof.
  unfold Client.step. destruct (Client.done_ c); [by intros [= <- <-]|].
  destruct e as [ok|v].
  - destruct (items (Client.out c)) as [|[]]; [destruct (closed _ || dropped)|..];
      by intros [= <- <-].
  - destruct v as [[| | |[]]|]; try done; by intros [= <- <-].
Qed.

Lemma texts_snoc {A} {J : Json A} {L : JsonLaws A J} (m : A) l :
  sendable m → texts (l ++ [Text (to_string m)]) = texts l ++ [carried m].
Proof. intros Hm. by rewrite texts_app, texts_cons, from_to_string. Qed.

Lemma kept {A} (P : Prop) (l l' : list A) : l = l' → (P → l = l') ∧ l `sublist_of` l'.
Proof. by intros ->. Qed.

Lemma server_step_down dropped e (x x' : Server.t R T) o frames :
  Server.step dropped e x = (x', o) → writable (items (Server.out x)) →
  (negb (Server.done_ x) && server_loses_out e x = false →
    texts (sent o frames) ++ sends (items (Server.out x')) =
      texts frames ++ sends (items (Server.out x))) ∧
  texts (sent o frames) ++ sends (items (Server.out x')) `sublist_of`
    texts frames ++ sends (items (Server.out x)).
Proof.
  intros Hs0 Hw. revert Hs0. unfold Server.step, server_loses_out.
  destruct (Server.done_ x); [intros [= <- <-]; by apply kept|].
  destruct (Server.pending x) as [m|].
  { destruct e as [ok|v|]; [intros [= <- <-]; by apply kept..|].
    destruct (try_send _ _) as [? [|[]]]; intros [= <- <-]; by apply kept. }
  destruct e as [ok|v|]; cbn [negb andb]; [| |intros [= <- <-]; by apply kept].
  - destruct (items (Server.out x)) as [|[m|] q] eqn:Hq.
    + intros [= <- <-]. apply kept. by rewrite Hq.
    + destruct ok; intros [= <- <-]; cbn [sent Server.out items].
      * apply Forall_cons in Hw as [Hm _]. apply kept. rewrite texts_snoc by done.
        by rewrite <- (assoc_L app).
      * split; [done|]. apply sublist_app; [done|]. by apply sublist_cons.
    + intros [= <- <-]. apply kept. destruct ok; cbn [sent]; [|done].
      by rewrite texts_app, app_nil_r.
  - intros Hs. apply kept. assert (items (Server.out x') = items (Server.out x) ∧ o = None)
      as [-> ->]; [|done].
    repeat case_match; by simplify_eq/=.
Qed.

Lemma server_step_writable dropped e (x x' : Server.t R T) o :
  Server.step dropped e x = (x', o) → writable (items (Server.out x)) → writable (items (Server.out x')).
Proof.
  unfold Server.step, writable. intros Hs Hw.
  destruct (Server.done_ x), (Server.pending x), e as [ok|v|], (items (Server.out x)) as [|[m|] q] eqn:Hq;
    repeat case_match; simplify_eq; cbn; rewrite ?Hq; try done; by inversion Hw.
Qed.

(** What the server's task has read and not delivered. *)
Definition read (x : Server.t R T) : list T := items (Server.inc x) ++ option_list (Server.pending x).

Lemma server_step_in dropped f rest (x x' : Server.t R T) o :
  Server.step dropped (Server.Incoming (Some f)) x = (x', o) →
  Server.done_ x = false → Server.pending x = None →
  read x' ++ texts rest = read x ++ texts (f :: rest).
Proof.
  unfold Server.step, read. intros Hs Hd Hp. rewrite Hd, Hp in Hs. rewrite Hp.
  destruct f as [s|[[| |]|]| |].
  - rewrite texts_cons. destruct (from_str s) as [m|]; simplify_eq; cbn; [|by rewrite Hp].
    rewrite app_nil_r. by rewrite <- (assoc_L app).
  - repeat case_match; simplify_eq; cbn; by rewrite ?Hp.
  - repeat case_match; simplify_eq; cbn; by rewrite ?Hp.
  - repeat case_match; simplify_eq; cbn; by rewrite ?Hp.
  - simplify_eq. by rewrite Hp.
  - simplify_eq. by rewrite Hp.
  - simplify_eq. cbn. done.
Qed.

Lemma server_step_other dropped e (x x' : Server.t R T) o :
  Server.step dropped e x = (x', o) →
  match e with Server.Incoming v => no_text v = true | _ => True end →
  (negb (Server.done_ x) && server_loses_in e x = false → read x' = read x) ∧
  read x' `sublist_of` read x.
Proof.
  unfold Server.step, server_loses_in, read. destruct (Server.done_ x); [by intros [= <- <-]|].
  destruct (Server.pending x) as [m|] eqn:Hp; cbn [negb andb].
  - destruct e as [ok|v|]; [intros [= <- <-]; by rewrite Hp..|].
    destruct (try_send m (Server.inc x)) as [c r] eqn:Ht. intros Hs _.
    pose proof (try_send_items _ _ _ _ Ht) as Hi.
    unfold try_send in Ht. destruct (closed (Server.inc x)); simplify_eq; cbn.
    + split; [done|]. apply sublist_app; [done|apply sublist_nil_l].
    + case_decide; simplify_eq; cbn in *; [by rewrite app_nil_r|by rewrite Hp].
  - destruct e as [ok|v|]; [| |intros [= <- <-]; by rewrite Hp].
    + destruct (items (Server.out x)) as [|[]]; [|destruct ok|]; intros [= <- <-]; by rewrite ?Hp.
    + destruct v as [[s|[c|]| |]|]; intros Hs Hv; try done; repeat case_match; simplify_eq; cbn;
        by rewrite ?Hp.
Qed.

(** *** Both directions *)

Definition flows (s : sys T R) : Prop :=
  flow (accepted_up s) (got_up s) (way_up s) (lost_up s) ∧
  flow (accepted_down s) (got_down s) (way_down s) (lost_down s) ∧
  writable (items (Client.out (client s))) ∧ writable (items (Server.out (server s))).

Lemma way_up_eq (s : sys T R) :
  way_up s = read (server s) ++ texts (up s) ++ sends (items (Client.out (client s))).
Proof. unfold way_up, read. by rewrite <- (assoc_L app). Qed.

(** A turn that throws away or keeps. *)
Lemma flow_turn {A} {J : Json A} (acc got way way' : list A) lost b :
  flow acc got way lost → (b = false → way' = way) → way' `sublist_of` way →
  flow acc got way' (lost || b).
Proof.
  intros Hf He Hs. destruct b.
  - rewrite orb_true_r. by eapply flow_lose.
  - rewrite orb_false_r, He; done.
Qed.

Lemma client_turn_flows dropped e rest (s : sys T R) : flows s →
  match e with
  | Client.Incoming (Some f) =>
      Client.done_ (client s) = false ∧ down s = f :: rest ∨ no_text (Some f) = true ∧ rest = down s
  | _ => rest = down s
  end →
  flows (client_turn dropped e rest s).
Proof.
  intros (Hup & Hdown & Hwc & Hws) He. unfold client_turn.
  destruct (Client.step dropped e (client s)) as [c o] eqn:Hs.
  split; [|split; [|split; [by eapply client_step_writable|done]]]; cbn.
  - rewrite way_up_eq in *. cbn. eapply flow_turn; [done|..].
    + intros Hl. by rewrite (client_step_up _ _ _ _ _ (up s) Hs Hwc Hl).
    + apply sublist_app; [done|]. by eapply client_step_loses.
  - unfold way_down in *. cbn. rewrite (assoc_L app) in Hdown |- *.
    assert (match e with Client.Incoming v => no_text v = true | _ => True end → rest = down s →
      flow (accepted_down s) (got_down s)
        ((items (Client.inc c) ++ texts rest) ++ sends (items (Server.out (server s))))
        (lost_down s || negb (Client.done_ (client s)) && client_loses_in e (client s)))
      as Hsame.
    { intros Hv ->. rewrite (client_step_same _ _ _ _ _ Hs Hv). by eapply flow_turn. }
    destruct e as [ok|[f|]]; [by apply Hsame| |by apply Hsame].
    destruct He as [[Hd Hf]|[Hv Hr]]; [|by apply Hsame].
    destruct (client_step_in _ _ rest _ _ _ Hs Hd) as [Heq Hsub].
    rewrite Hf in Hdown. rewrite Hd. eapply flow_turn; [done|..].
    + intros Hl. by rewrite Heq.
    + by apply sublist_app.
Qed.

Lemma server_turn_flows dropped e rest (s : sys T R) : flows s →
  match e with
  | Server.Incoming (Some f) =>
      Server.done_ (server s) = false ∧ Server.pending (server s) = None ∧ up s = f :: rest ∨
      no_text (Some f) = true ∧ rest = up s
  | _ => rest = up s
  end →
  flows (server_turn dropped e rest s).
Proof.
  intros (Hup & Hdown & Hwc & Hws) He. unfold server_turn.
  destruct (Server.step dropped e (server s)) as [x o] eqn:Hs.
  split; [|split; [|split; [done|by eapply server_step_writable]]]; cbn.
  - rewrite way_up_eq in *. cbn. rewrite (assoc_L app) in Hup |- *.
    assert (match e with Server.Incoming v => no_text v = true | _ => True end → rest = up s →
      flow (accepted_up s) (got_up s)
        ((read x ++ texts rest) ++ sends (items (Client.out (client s))))
        (lost_up s || negb (Server.done_ (server s)) && server_loses_in e (server s))) as Hsame.
    { intros Hv ->. destruct (server_step_other _ _ _ _ _ Hs Hv) as [Heq Hsub].
      eapply flow_turn; [done|..]; [intros Hl; by rewrite Heq|].
      apply sublist_app; [by apply sublist_app|done]. }
    destruct e as [ok|[f|]|]; [by apply Hsame| |by apply Hsame|by apply Hsame].
    destruct He as [(Hd & Hp & Hf)|[Hv Hr]]; [|by apply Hsame].
    rewrite (server_step_in _ _ rest _ _ _ Hs Hd Hp), <- Hf. by eapply flow_turn.
  - unfold way_down in *. cbn. destruct (server_step_down _ _ _ _ _ (down s) Hs Hws) as [Heq Hsub].
    eapply flow_turn; [done|..]; [intros Hl; by rewrite Heq|]. by apply sublist_app.
Qed.

Lemma writable_sent {A} {J : Json A} (a : SocketAction A) c c' r :
  try_send a c = (c', r) → writable (items c) → match a with Send m => sendable m | Close => True end →
  writable (items c').
Proof.
  intros Ht Hw Ha. rewrite (try_send_items _ _ _ _ Ht). destruct (is_ok r); [|done].
  apply Forall_app. split; [done|]. by apply Forall_singleton.
Qed.

Lemma flows_step (s s' : sys T R) : flows s → step s s' → flows s'.
Proof.
  intros H Hstep. pose proof H as (Hup & Hdown & Hwc & Hws).
  destruct Hstep as [m c r s Hm Ht|c r s Ht|m q s Hi|s|dr ok s|dr f rest s Hd Hf|dr v s Hv
    |m c r s Hm Ht|c r s Ht|m q s Hi|s|dr ok s|dr s|dr f rest s Hd Hp Hf|dr v s Hv];
    try (apply client_turn_flows; [done|]; first [done|by left|destruct v; [by right|done]]);
    try (apply server_turn_flows; [done|]; first [done|by left|destruct v; [by right|done]]).
  - split; [|split; [done|split; [by eapply writable_sent|done]]].
    rewrite way_up_eq in *. cbn. rewrite (try_send_items _ _ _ _ Ht).
    destruct r; cbn; [|done]. eapply flow_accept; [done|]. rewrite sends_app. by rewrite !(assoc_L app).
  - split; [|split; [done|split; [by eapply writable_sent|done]]].
    rewrite way_up_eq in *. cbn. rewrite (try_send_items _ _ _ _ Ht).
    destruct r; cbn; [|done]. by rewrite sends_app, app_nil_r.
  - split; [done|]. split; [|done]. eapply flow_same; [done| |done]. unfold way_down. cbn. rewrite Hi.
    by rewrite <- (assoc_L app).
  - done.
  - split; [done|]. split; [|split; [done|by eapply writable_sent]].
    unfold way_down in *. cbn. rewrite (try_send_items _ _ _ _ Ht).
    destruct r; cbn; [|done]. eapply flow_accept; [done|]. rewrite sends_app. by rewrite !(assoc_L app).
  - split; [done|]. split; [|split; [done|by eapply writable_sent]].
    unfold way_down in *. cbn. rewrite (try_send_items _ _ _ _ Ht).
    destruct r; cbn; [|done]. by rewrite sends_app, app_nil_r.
  - split; [|done]. eapply flow_same; [done| |done]. rewrite !way_up_eq. unfold read. cbn. rewrite Hi.
    by rewrite <- (assoc_L app).
  - done.
Qed.

(** C38. Messages arrive in the order in which the channels accepted them, none twice and
    none that was not sent, as the encoding carries them; and unless a loop had to throw one
    away (a failed write, a full or dropped receiving channel), what was accepted is exactly
    what was received and what is still on its way. *)
Theorem messages_in_order (s : sys T R) : reachable s →
  got_up s ++ way_up s `sublist_of` carried <$> accepted_up s ∧
  (lost_up s = false → got_up s ++ way_up s = carried <$> accepted_up s) ∧
  got_down s ++ way_down s `sublist_of` carried <$> accepted_down s ∧
  (lost_down s = false → got_down s ++ way_down s = carried <$> accepted_down s).
Proof.
  intros Hr. assert (flows s) as ([? ?] & [? ?] & _); [|done].
  assert (flows start) as H0 by (split; [by split|split; [by split|split; constructor]]). unfold reachable in Hr. revert H0.
  induction Hr as [|s1 s2 s3 Hs _ IH]; eauto using flows_step.
Qed.
End SocketProps.
End SocketProps.

(** ** The messages of the sockets *)

Module SocketMessages.
Import TypedSocket Encoding RoundTrip.

Section SocketMessages.
Context `{Ext : Externals} `{EL : !ExternalLaws} {S : Serde} {SL : SerdeLaws S}.

(** [serde_json] at a type with its encoding. *)
Definition json_of {A} (ser : A → json) (de : json → result DeError A) (fits : A → Prop) (norm : A → A)
    : Json A := {|
  to_string := encode ser;
  from_str s := match decode de s with Ok a => Some a | Err _ => None end;
  sendable := fits; carried := norm |}.

#[global] Instance from_drone_json : Json Protocol.MessageFromDrone :=
  json_of ser_MessageFromDrone de_MessageFromDrone fits_from_drone whole_from_drone.
#[global] Instance to_drone_json : Json Protocol.MessageToDrone :=
  json_of ser_MessageToDrone de_MessageToDrone fits_to_drone whole_to_drone.
#[global] Instance from_proxy_json : Json Protocol.MessageFromProxy :=
  json_of ser_MessageFromProxy de_MessageFromProxy (λ _, True) id.
#[global] Instance to_proxy_json : Json Protocol.MessageToProxy :=
  json_of ser_MessageToProxy de_MessageToProxy (λ _, True) nonnull_to_proxy.
#[global] Instance from_dns_json : Json Protocol.MessageFromDns :=
  json_of ser_MessageFromDns de_MessageFromDns (λ _, True) id.
#[global] Instance to_dns_json : Json Protocol.MessageToDns :=
  json_of ser_MessageToDns de_MessageToDns (λ _, True) id.

Lemma json_of_laws {A} ser de (fits : A → Prop) norm :
  (∀ a, fits a → de (ser a) = Ok (norm a)) → JsonLaws A (json_of ser de fits norm).
Proof.
  intros Hr a Ha. unfold from_str, to_string, json_of.
  by rewrite (decode_encode ser de a _ (Hr a Ha)).
Qed.

#[global] Instance from_drone_laws : JsonLaws _ from_drone_json.
Proof. apply json_of_laws, from_drone_roundtrip. Qed.
#[global] Instance to_drone_laws : JsonLaws _ to_drone_json.
Proof. apply json_of_laws, to_drone_roundtrip. Qed.
#[global] Instance from_proxy_laws : JsonLaws _ from_proxy_json.
Proof. apply json_of_laws. intros m _. apply from_proxy_roundtrip. Qed.
#[global] Instance to_proxy_laws : JsonLaws _ to_proxy_json.
Proof. apply json_of_laws. intros m _. apply to_proxy_roundtrip. Qed.
#[global] Instance from_dns_laws : JsonLaws _ from_dns_json.
Proof. apply json_of_laws. intros m _. apply from_dns_roundtrip. Qed.
#[global] Instance to_dns_laws : JsonLaws _ to_dns_json.
Proof. apply json_of_laws. intros m _. apply to_dns_roundtrip. Qed.

End SocketMessages.
End SocketMessages.

(** ** A concrete execution *)

Module TypedSocketWitness.
Import Mpsc TypedSocket System SocketProps SocketMessages.
#[local] Existing Instance ExampleExternals.example_externals.
#[local] Existing Instance ExampleExternals.example_laws.
#[local] Existing Instance ExampleSerde.example_serde.
#[local] Existing Instance ExampleSerde.example_serde_laws.

(** A drone sends a heartbeat, whose time is not in whole milliseconds. *)
Notation sys := (sys Protocol.MessageFromDrone Protocol.MessageToDrone).
Definition beat (t : Z) : Protocol.MessageFromDrone := Protocol.MHeartbeat {| Protocol.hb_local_time := t |}.

Definition w1 : sys :=
  Sys (Client.Mk (Chan [Send (beat 1500)] false) empty false) (server start) [] [] [beat 1500] [] false
    [] [] false.
Definition w2 : sys := client_turn false (Client.Outgoing true) [] w1.
Definition w3 : sys := server_turn false (Server.Incoming (Some (Text (to_string (beat 1500))))) [] w2.
Definition w4 : sys := server_turn false Server.Room [] w3.
Definition w5 : sys :=
  with_server (Server.Mk (Server.out (server w4)) (Chan [] false) None false)
    (accepted_down w4) (got_up w4 ++ [beat 1000]) w4.

Lemma w5_reachable : reachable w5.
Proof.
  unfold reachable.
  apply (rtc_l _ _ w1).
  { apply (step_send (beat 1500) (Chan [Send (beat 1500)] false) (Ok ())); [|reflexivity].
    vm_compute. reflexivity. }
  apply (rtc_l _ _ w2); [apply (step_client_out false true w1)|].
  apply (rtc_l _ _ w3); [by apply (step_server_in false (Text (to_string (beat 1500))) [] w2)|].
  apply (rtc_l _ _ w4); [apply (step_server_room false w3)|].
  apply rtc_once. apply (step_server_recv (beat 1000) [] w4). vm_compute. reflexivity.
Qed.

Lemma messages_in_order_witness :
  got_up w5 = [beat 1000] ∧ lost_up w5 = false ∧ got_up w5 ++ way_up w5 = carried <$> accepted_up w5.
Proof.
  split; [vm_compute; reflexivity|]. split; [vm_compute; reflexivity|].
  apply (messages_in_order w5 w5_reachable). vm_compute. reflexivity.
Defined.

End TypedSocketWitness.
