(* ===== verification/Api.v ===== *)
(** * The HTTP interface of the controller

    The routes of the controller ([plane/src/controller/mod.rs]) with the layer that asks an
    authorization server ([controller/forward_auth.rs]), and the client that drones,
    proxies, DNS servers and operators use ([common/src/lib.rs],
    [common/src/controller_address.rs]).

    [Address] are the URLs, [PlaneClient] the requests of the client and how it reads their
    answers, [Routes] the table of routes, [ForwardAuth] the layer, and [Heartbeats] the
    task that keeps the row of a controller fresh while it serves. *)

From S2P Require Import Prelude Types Database Nodes Proxy ProxyProps.
Import Db.

(** ** URLs ([controller_address.rs]) *)

(** The [url] crate, as far as it is used. *)
Class Urls := {
  Url : Type;
  scheme : Url → string;
  set_scheme : string → Url → Url;
  username : Url → string;
  set_username : string → Url → Url;
  host_str : Url → option string;
  path : Url → string;
  query : Url → option string;
  as_str : Url → string;
  (** [Url::join] and [form_urlencoded::byte_serialize] *)
  url_join : string → Url → Url;
  byte_serialize : string → string
}.

(** Characters that [join] keeps as they are in a path. *)
Definition path_char (a : ascii) : bool :=
  let n := byte_N a in
  is_ascii_lowercase n || is_ascii_uppercase n || is_ascii_digit n ||
  Ascii.eqb a "-" || Ascii.eqb a "." || Ascii.eqb a "_" || Ascii.eqb a ":" || Ascii.eqb a "/".

Definition query_char (a : ascii) : bool :=
  path_char a || Ascii.eqb a "=" || Ascii.eqb a "+" || Ascii.eqb a "%" || Ascii.eqb a "*".

(** The laws relied on: the parts that are set or kept. *)
Class UrlLaws (U : Urls) : Prop := {
  set_username_spec x u : username (set_username x u) = x ∧ scheme (set_username x u) = scheme u ∧
    host_str (set_username x u) = host_str u;
  set_scheme_spec x u : scheme (set_scheme x u) = x ∧ host_str (set_scheme x u) = host_str u ∧
    username (set_scheme x u) = username u ∧ path (set_scheme x u) = path u ∧
    query (set_scheme x u) = query u;
  join_spec p q u : string_forallb path_char p = true → starts_with "/" p = true →
    starts_with "//" p = false →
    string_forallb query_char (default "" q) = true →
    let u' := url_join (p +:+ match q with Some q => "?" +:+ q | None => "" end) u in
    path u' = p ∧ query u' = q ∧ scheme u' = scheme u ∧
    host_str u' = host_str u ∧ username u' = username u;
  byte_serialize_chars s : string_forallb query_char (byte_serialize s) = true
}.

Module Address.
Section Address.
Context {U : Urls}.

Record AuthorizedAddress := Mk { url : Url; bearer_token : option string }.

Definition join (p : string) (a : AuthorizedAddress) : AuthorizedAddress :=
  Mk (url_join p (url a)) (bearer_token a).

Definition to_websocket_address (a : AuthorizedAddress) : AuthorizedAddress :=
  Mk (if bool_decide (scheme (url a) = "http") then set_scheme "ws" (url a)
      else if bool_decide (scheme (url a) = "https") then set_scheme "wss" (url a)
      else url a) (bearer_token a).

Definition bearer_header (a : AuthorizedAddress) : option string :=
  option_map (λ t, "Bearer " +:+ t) (bearer_token a).

Definition from (u : Url) : AuthorizedAddress :=
  Mk (set_username "" u)
    (if bool_decide (username u = "") then None else Some (username u)).

End Address.
End Address.

(** ** The client ([common/src/lib.rs]) *)

Module PlaneClient.
Import Address.

Inductive Method := GET | POST.

Section PlaneClient.
Context {U : Urls}.

(** A request: [authorization] is the header; a websocket is a GET. *)
Record request := Request {
  method : Method;
  target : Url;
  authorization : option string
}.

(** [authed_get] and [authed_post], up to the answer. *)
Definition authed_get (a : AuthorizedAddress) : request := Request GET (url a) (bearer_header a).
Definition authed_post (a : AuthorizedAddress) : request := Request POST (url a) (bearer_header a).

(** [auth_url_to_request]; [None] is the error for a URL without a host. The headers of the
    upgrade are constants and are left out. *)
Definition auth_url_to_request (a : AuthorizedAddress) : option request :=
  match host_str (url a) with
  | Some _ => Some (Request GET (url a) (bearer_header a))
  | None => None
  end.

(** [PlaneClient::new]. *)
Definition new (base_url : Url) : AuthorizedAddress := from base_url.

Context (self : AuthorizedAddress).

Definition status : request := authed_get (join "/ctrl/status" self).

Definition drone_connection (cluster pool : string) : AuthorizedAddress :=
  let base_path := "/ctrl/c/" +:+ cluster +:+ "/drone-socket" in
  to_websocket_address
    (if Types.is_default_pool pool then join base_path self
     else join (base_path +:+ "?pool=" +:+ byte_serialize pool) self).

Definition proxy_connection (cluster : string) : AuthorizedAddress :=
  to_websocket_address (join ("/ctrl/c/" +:+ cluster +:+ "/proxy-socket") self).

Definition dns_connection : AuthorizedAddress :=
  to_websocket_address (join "/ctrl/dns-socket" self).

Definition connect : request := authed_post (join "/ctrl/connect" self).

Definition drain (cluster drone : string) : request :=
  authed_post (join ("/ctrl/c/" +:+ cluster +:+ "/d/" +:+ drone +:+ "/drain") self).

Definition soft_terminate (backend_id : string) : request :=
  authed_post (join ("/ctrl/b/" +:+ backend_id +:+ "/soft-terminate") self).

Definition hard_terminate (backend_id : string) : request :=
  authed_post (join ("/ctrl/b/" +:+ backend_id +:+ "/hard-terminate") self).

Definition revoke : request := authed_post (join "/ctrl/revoke" self).

Definition backend_status_url (backend_id : string) : Url :=
  url (join ("/pub/b/" +:+ backend_id +:+ "/status") self).

Definition backend_status (backend_id : string) : request :=
  Request GET (backend_status_url backend_id) None.

Definition backend_status_stream_url (backend_id : string) : Url :=
  url (join ("/pub/b/" +:+ backend_id +:+ "/status-stream") self).

Definition backend_status_stream (backend_id : string) : request :=
  Request GET (backend_status_stream_url backend_id) None.

Definition cluster_state (cluster : string) : request :=
  authed_get (join ("/ctrl/c/" +:+ cluster +:+ "/state") self).

Definition health_check : request :=
  Request GET (url (join "/pub/health" self)) None.

End PlaneClient.

(** *** Answers *)

Inductive PlaneClientError (ApiError : Type) :=
| Http
| UrlError
| Json
| UnexpectedStatus (status : Z)
| PlaneError (e : ApiError) (status : Z)
| ConnectFailed (msg : string)
| BadConfiguration (msg : string)
| Tungstenite
| SendFailed.
Arguments Http {ApiError}.
Arguments UrlError {ApiError}.
Arguments Json {ApiError}.
Arguments UnexpectedStatus {ApiError} status.
Arguments PlaneError {ApiError} e status.
Arguments ConnectFailed {ApiError} msg.
Arguments BadConfiguration {ApiError} msg.
Arguments Tungstenite {ApiError}.
Arguments SendFailed {ApiError}.

(** [StatusCode::is_success]. *)
Definition is_success (status : Z) : bool := (200 <=? status)%Z && (status <? 300)%Z.

(** [get_response] on the status and the body; [json] and [api_error] parse the body. *)
Definition get_response {B T ApiError} (json : B → option T) (api_error : B → option ApiError)
    (status : Z) (body : B) : result (PlaneClientError ApiError) T :=
  if is_success status then
    match json body with Some t => Ok t | None => Err Http end
  else
    match api_error body with
    | Some e => Err (PlaneError e status)
    | None => Err (UnexpectedStatus status)
    end.

End PlaneClient.

(** ** Routes ([controller/mod.rs]) *)

Module Routes.
Import PlaneClient.

Inductive handler :=
| HStatus | HClusterState | HDroneSocket | HProxySocket | HDnsSocket | HConnect | HDrain
| HSoftTerminate | HHardTerminate | HRevoke | HBackendStatus | HBackendStatusStream | HHealth.

Definition control_routes : list (Method * string * handler) :=
  [ (GET, "/status", HStatus);
    (GET, "/c/:cluster/state", HClusterState);
    (GET, "/c/:cluster/drone-socket", HDroneSocket);
    (GET, "/c/:cluster/proxy-socket", HProxySocket);
    (GET, "/dns-socket", HDnsSocket);
    (POST, "/connect", HConnect);
    (POST, "/c/:cluster/d/:drone/drain", HDrain);
    (POST, "/b/:backend/soft-terminate", HSoftTerminate);
    (POST, "/b/:backend/hard-terminate", HHardTerminate);
    (POST, "/b/revoke", HRevoke) ].

Definition public_routes : list (Method * string * handler) :=
  [ (GET, "/b/:backend/status", HBackendStatus);
    (GET, "/b/:backend/status-stream", HBackendStatusStream);
    (GET, "/health", HHealth) ].

(** [nest]: a prefix for all routes of a router. *)
Definition nest (prefix : string) (routes : list (Method * string * handler)) :=
  (λ r, (r.1.1, prefix +:+ r.1.2, r.2)) <$> routes.

Definition app : list (Method * string * handler) :=
  nest "/pub" public_routes ++ nest "/ctrl" control_routes.

#[global] Instance handler_eq_dec : EqDecision handler.
Proof. solve_decision. Defined.

(** The routes behind [forward_layer] when it is enabled. *)
Definition guarded (h : handler) : bool := bool_decide (h ∈ control_routes.*2).

#[global] Instance Method_eq_dec : EqDecision Method.
Proof. solve_decision. Defined.

(** *** Matching *)

Fixpoint segments (s : string) : list string :=
  match s with
  | "" => [""]
  | String a s =>
      if Ascii.eqb a "/" then "" :: segments s
      else match segments s with [] => [String a ""] | x :: l => String a x :: l end
  end.

(** The captures of a pattern: a segment [:name] captures one that is not empty. *)
Fixpoint captures_go (pattern path : list string) : option (list string) :=
  match pattern, path with
  | [], [] => Some []
  | String ":" _ :: pattern, x :: path =>
      if bool_decide (x = "") then None else cons x <$> captures_go pattern path
  | l :: pattern, x :: path => if bool_decide (l = x) then captures_go pattern path else None
  | _, _ => None
  end.

Definition captures (pattern path : string) : option (list string) :=
  captures_go (segments pattern) (segments path).

(** The routing of [axum]: the handler and the captures, or no match. *)
Class Router := route : list (Method * string * handler) → Method → string →
  option (handler * list string).

(** Its documented behaviour when the patterns do not overlap on the path. *)
Class RouterLaws (X : Router) : Prop := {
  route_match table m p h path caps :
    (m, p, h) ∈ table → captures p path = Some caps →
    (∀ m' p' h', (m', p', h') ∈ table → is_Some (captures p' path) → (m', p', h') = (m, p, h)) →
    route table m path = Some (h, caps);
  route_no_match table m path :
    (∀ m' p' h', (m', p', h') ∈ table → captures p' path = None) → route table m path = None
}.

End Routes.

(** ** The authorization layer ([controller/forward_auth.rs]) *)

Module ForwardAuth.
Import PlaneClient Routes.

Section ForwardAuth.
Context {H : Proxy.Http} {X : Router}.

(** The parts of a request that are used. *)
Record parts := Parts { p_method : Method; p_path : string; p_headers : header_map }.

(** The copy without a body; [None] is the panic of the [expect] on the path. *)
Definition clone_request_with_empty_body (p : parts) : option parts :=
  if header_value_ok (p_path p)
  then Some (Parts (p_method p) (p_path p) (hm_insert "x-original-path" (p_path p) (p_headers p)))
  else None.

Inductive response (A : Type) := BadGateway | Unauthorized | NotFound | Handled (a : A).
Arguments BadGateway {A}.
Arguments Unauthorized {A}.
Arguments NotFound {A}.
Arguments Handled {A} a.

(** [ask] is the answer of the authorization server to the copy: its status, or [None]
    when the request failed. *)
Definition forward_layer {A} (ask : parts → option Z) (next : parts → A) (req : parts)
    : option (response A) :=
  match clone_request_with_empty_body req with
  | None => None
  | Some forward_req =>
      match ask forward_req with
      | None => Some BadGateway
      | Some status => Some (if is_success status then Handled (next req) else Unauthorized)
      end
  end.

(** The application: the layer is around the control routes when there is a server to ask;
    inside a nested router the path has lost the prefix. *)
Definition serve {A} (forward_auth : option (parts → option Z))
    (handle : handler → list string → parts → A) (req : parts) : option (response A) :=
  match route app (p_method req) (p_path req) with
  | None => Some NotFound
  | Some (h, caps) =>
      match forward_auth, guarded h with
      | Some ask, true =>
          forward_layer ask (λ _, handle h caps req)
            (Parts (p_method req) (default (p_path req) (strip_prefix "/ctrl" (p_path req)))
               (p_headers req))
      | _, _ => Some (Handled (handle h caps req))
      end
  end.

End ForwardAuth.
Arguments BadGateway {A}.
Arguments Unauthorized {A}.
Arguments NotFound {A}.
Arguments Handled {A} a.

End ForwardAuth.

(** ** Heartbeats ([HeartbeatSender]) *)

Module Heartbeats.
Import Nodes HeartbeatConsts.

Section Heartbeats.
Context (controller_id version hash : string).

Definition beat (is_online : bool) (db : DB) : DB :=
  Controllers.heartbeat controller_id is_online version hash db.

(** [start]: fails when the first heartbeat does; [ok] is whether the database answers. *)
Definition start (ok : bool) (db : DB) : DB * bool := if ok then (beat true db, true) else (db, false).

(** A turn of the loop [dt] after the last one. *)
Definition turn (dt : Z) (ok : bool) (db : DB) : DB :=
  let db := set_clock (clock db + dt)%Z db in if ok then beat true db else db.

Fixpoint turns (l : list (Z * bool)) (db : DB) : DB :=
  match l with [] => db | (dt, ok) :: l => turns l (turn dt ok db) end.

(** [terminate]. *)
Definition terminate (ok : bool) (db : DB) : DB := if ok then beat false db else db.

End Heartbeats.

End Heartbeats.

(** ** Theorems *)

Module ApiProps.
Import PlaneClient Routes Address.

(** *** Segments of paths *)

Lemma segments_cons s : segments s ≠ [].
Proof. destruct s as [|a s]; cbn; [done|]. destruct (Ascii.eqb _ _); [done|]. by destruct (segments s). Qed.

(** A name without a slash is a segment. *)
Lemma segments_name n rest : string_has "/" n = false →
  segments (n +:+ String "/" rest) = n :: segments rest.
Proof.
  induction n as [|a n IH]; [done|]. rewrite append_cons. cbn [string_has segments].
  intros [Ha Hn]%orb_false_iff. by rewrite Ha, IH.
Qed.

Lemma segments_slash s : segments (String "/" s) = "" :: segments s.
Proof. done. Qed.

Section Client.
Context {U : Urls} {UL : UrlLaws U} {X : Router} {XL : RouterLaws X}.

(** The calls of the client, with the names in their paths. *)
Inductive call :=
| Status | DroneConnection (cluster pool : string) | ProxyConnection (cluster : string)
| DnsConnection | Connect | Drain (cluster drone : string) | SoftTerminate (backend : string)
| HardTerminate (backend : string) | Revoke | BackendStatus (backend : string)
| BackendStatusStream (backend : string) | ClusterState (cluster : string) | HealthCheck.

Definition request_of (self : AuthorizedAddress) (c : call) : option request :=
  match c with
  | Status => Some (status self)
  | DroneConnection cluster pool => auth_url_to_request (drone_connection self cluster pool)
  | ProxyConnection cluster => auth_url_to_request (proxy_connection self cluster)
  | DnsConnection => auth_url_to_request (dns_connection self)
  | Connect => Some (connect self)
  | Drain cluster drone => Some (drain self cluster drone)
  | SoftTerminate b => Some (soft_terminate self b)
  | HardTerminate b => Some (hard_terminate self b)
  | Revoke => Some (revoke self)
  | BackendStatus b => Some (backend_status self b)
  | BackendStatusStream b => Some (backend_status_stream self b)
  | ClusterState cluster => Some (cluster_state self cluster)
  | HealthCheck => Some (health_check self)
  end.

(** The handler that a call is meant for, and the names that it gets. *)
Definition meant (c : call) : handler * list string :=
  match c with
  | Status => (HStatus, [])
  | DroneConnection cluster _ => (HDroneSocket, [cluster])
  | ProxyConnection cluster => (HProxySocket, [cluster])
  | DnsConnection => (HDnsSocket, [])
  | Connect => (HConnect, [])
  | Drain cluster drone => (HDrain, [cluster; drone])
  | SoftTerminate b => (HSoftTerminate, [b])
  | HardTerminate b => (HHardTerminate, [b])
  | Revoke => (HRevoke, [])
  | BackendStatus b => (HBackendStatus, [b])
  | BackendStatusStream b => (HBackendStatusStream, [b])
  | ClusterState cluster => (HClusterState, [cluster])
  | HealthCheck => (HHealth, [])
  end.

(** A segment of a path: not empty, of characters that need no escaping, no slash. *)
Definition segment (n : string) : Prop :=
  n ≠ "" ∧ string_forallb path_char n = true ∧ string_has "/" n = false.

Definition path_of (c : call) : string :=
  match c with
  | Status => "/ctrl/status"
  | DroneConnection cluster _ => "/ctrl/c/" +:+ cluster +:+ "/drone-socket"
  | ProxyConnection cluster => "/ctrl/c/" +:+ cluster +:+ "/proxy-socket"
  | DnsConnection => "/ctrl/dns-socket"
  | Connect => "/ctrl/connect"
  | Drain cluster drone => "/ctrl/c/" +:+ cluster +:+ "/d/" +:+ drone +:+ "/drain"
  | SoftTerminate b => "/ctrl/b/" +:+ b +:+ "/soft-terminate"
  | HardTerminate b => "/ctrl/b/" +:+ b +:+ "/hard-terminate"
  | Revoke => "/ctrl/revoke"
  | BackendStatus b => "/pub/b/" +:+ b +:+ "/status"
  | BackendStatusStream b => "/pub/b/" +:+ b +:+ "/status-stream"
  | ClusterState cluster => "/ctrl/c/" +:+ cluster +:+ "/state"
  | HealthCheck => "/pub/health"
  end.

Lemma join_path p u : string_forallb path_char p = true → starts_with "/" p = true →
  starts_with "//" p = false → path (url_join p u) = p ∧ host_str (url_join p u) = host_str u.
Proof.
  intros Hp H1 H2. pose proof (join_spec p None u Hp H1 H2 eq_refl) as H. cbn in H.
  rewrite append_nil_r in H. tauto.
Qed.

(** The names in the path of a call. *)
Definition names_of (c : call) : list string := (meant c).2.

Definition segs_of (c : call) : list string :=
  match c with
  | Status => [""; "ctrl"; "status"]
  | DroneConnection cluster _ => [""; "ctrl"; "c"; cluster; "drone-socket"]
  | ProxyConnection cluster => [""; "ctrl"; "c"; cluster; "proxy-socket"]
  | DnsConnection => [""; "ctrl"; "dns-socket"]
  | Connect => [""; "ctrl"; "connect"]
  | Drain cluster drone => [""; "ctrl"; "c"; cluster; "d"; drone; "drain"]
  | SoftTerminate b => [""; "ctrl"; "b"; b; "soft-terminate"]
  | HardTerminate b => [""; "ctrl"; "b"; b; "hard-terminate"]
  | Revoke => [""; "ctrl"; "revoke"]
  | BackendStatus b => [""; "pub"; "b"; b; "status"]
  | BackendStatusStream b => [""; "pub"; "b"; b; "status-stream"]
  | ClusterState cluster => [""; "ctrl"; "c"; cluster; "state"]
  | HealthCheck => [""; "pub"; "health"]
  end.

(** The method and the route of a call. *)
Definition request_method (c : call) : Method * string :=
  match c with
  | Status => (GET, "/ctrl/status")
  | DroneConnection _ _ => (GET, "/ctrl/c/:cluster/drone-socket")
  | ProxyConnection _ => (GET, "/ctrl/c/:cluster/proxy-socket")
  | DnsConnection => (GET, "/ctrl/dns-socket")
  | Connect => (POST, "/ctrl/connect")
  | Drain _ _ => (POST, "/ctrl/c/:cluster/d/:drone/drain")
  | SoftTerminate _ => (POST, "/ctrl/b/:backend/soft-terminate")
  | HardTerminate _ => (POST, "/ctrl/b/:backend/hard-terminate")
  | Revoke => (POST, "/ctrl/b/revoke")
  | BackendStatus _ => (GET, "/pub/b/:backend/status")
  | BackendStatusStream _ => (GET, "/pub/b/:backend/status-stream")
  | ClusterState _ => (GET, "/ctrl/c/:cluster/state")
  | HealthCheck => (GET, "/pub/health")
  end.

Lemma segments_prefix (a b t : string) : string_has "/" a = false → string_has "/" b = false →
  segments (String "/" (a +:+ String "/" (b +:+ String "/" t))) = "" :: a :: b :: segments t.
Proof. intros Ha Hb. by rewrite segments_slash, !segments_name. Qed.

Ltac prefixed a b t :=
  transitivity ("" :: a :: b :: segments t); [exact (segments_prefix a b t eq_refl eq_refl)|].

Lemma segments_path c : Forall segment (names_of c) → segments (path_of c) = segs_of c.
Proof.
  intros Hn.
  assert (∀ n x, segment n → string_has "/" x = false → segments (n +:+ String "/" x) = [n; x])
    as Hlast.
  { intros n x (_ & _ & Hs) Hx. rewrite segments_name by done. f_equal.
    clear Hn. induction x as [|a x IH]; [done|]. cbn in *. apply orb_false_iff in Hx as [-> Hx].
    by rewrite IH. }
  destruct c as [|cl p|cl| | |cl d|b|b| |b|b|cl|]; cbn [names_of meant snd] in Hn; try reflexivity.
  all: rewrite ?Forall_cons in Hn; destruct Hn as [Hn1 Hn2]; cbn [path_of segs_of].
  - prefixed "ctrl" "c" (cl +:+ String "/" "drone-socket"). by rewrite Hlast.
  - prefixed "ctrl" "c" (cl +:+ String "/" "proxy-socket"). by rewrite Hlast.
  - destruct Hn2 as [Hd _].
    prefixed "ctrl" "c" (cl +:+ String "/" ("d" +:+ String "/" (d +:+ String "/" "drain"))).
    rewrite segments_name by apply Hn1. rewrite segments_name by done. by rewrite Hlast.
  - prefixed "ctrl" "b" (b +:+ String "/" "soft-terminate"). by rewrite Hlast.
  - prefixed "ctrl" "b" (b +:+ String "/" "hard-terminate"). by rewrite Hlast.
  - prefixed "pub" "b" (b +:+ String "/" "status"). by rewrite Hlast.
  - prefixed "pub" "b" (b +:+ String "/" "status-stream"). by rewrite Hlast.
  - prefixed "ctrl" "c" (cl +:+ String "/" "state"). by rewrite Hlast.
Qed.

(** The routes that match a path, with their captures. *)
Definition hits (segs : list string) : list (Method * string * handler * list string) :=
  omap (λ r, (λ caps, (r, caps)) <$> captures_go (segments r.1.2) segs) app.

Lemma hits_spec segs r caps : (r, caps) ∈ hits segs ↔
  r ∈ app ∧ captures_go (segments r.1.2) segs = Some caps.
Proof.
  unfold hits. rewrite list_elem_of_omap. split.
  - intros (r' & Hr & (caps' & Hc & [= -> ->])%fmap_Some). done.
  - intros [Hr Hc]. exists r. split; [done|]. by rewrite Hc.
Qed.

Lemma route_one m p h caps pth : hits (segments pth) = [((m, p, h), caps)] →
  route app m pth = Some (h, caps).
Proof.
  intros Hh. assert ((m, p, h, caps) ∈ hits (segments pth)) as [Hin Hc]%hits_spec
    by (rewrite Hh; left).
  apply (route_match _ _ p); [done|done|]. intros m' p' h' Hin' [caps' Hc'].
  assert ((m', p', h', caps') ∈ hits (segments pth)) as Hx by (by apply hits_spec).
  rewrite Hh in Hx. apply list_elem_of_singleton in Hx. by simplify_eq.
Qed.

Lemma route_none m pth : hits (segments pth) = [] → route app m pth = None.
Proof.
  intros Hh. apply route_no_match. intros m' p' h' Hin.
  destruct (captures p' pth) as [caps|] eqn:Hc; [|done].
  assert ((m', p', h', caps) ∈ hits (segments pth)) as Hx by (by apply hits_spec).
  rewrite Hh in Hx. by apply elem_of_nil in Hx.
Qed.

(** The last route has as many segments as no call with a backend. *)
Lemma revoke_pattern b x : captures_go (segments "/ctrl/b/revoke") [""; "ctrl"; "b"; b; x] = None.
Proof. cbn. repeat case_bool_decide; done. Qed.

Definition first_routes : list (Method * string * handler) := take 12 app.

Lemma hits_split segs : captures_go (segments "/ctrl/b/revoke") segs = None →
  hits segs = omap (λ r, (λ caps, (r, caps)) <$> captures_go (segments r.1.2) segs) first_routes.
Proof.
  intros Hr. assert (app = first_routes ++ [(POST, "/ctrl/b/revoke", HRevoke)]) as Happ by done.
  unfold hits. rewrite Happ, omap_app. cbn [omap list_omap fst snd].
  rewrite Hr. apply app_nil_r.
Qed.

Lemma hits_call c : Forall segment (names_of c) →
  hits (segs_of c) = match c with
    | Revoke => []
    | _ => match request_method c with (m, p) => [((m, p, (meant c).1), (meant c).2)] end
    end.
Proof.
  intros Hn. destruct c as [|cl p|cl| | |cl d|b|b| |b|b|cl|]; try (vm_compute; reflexivity).
  all: cbn in Hn; rewrite ?Forall_cons in Hn; destruct Hn as [(Hne & _) Hn]; cbn [segs_of].
  - destruct cl; [done|]. vm_compute. reflexivity.
  - destruct cl; [done|]. vm_compute. reflexivity.
  - destruct Hn as [(Hne' & _) _]. by destruct cl, d.
  - rewrite hits_split by apply revoke_pattern. destruct b; [done|]. vm_compute. reflexivity.
  - rewrite hits_split by apply revoke_pattern. destruct b; [done|]. vm_compute. reflexivity.
  - destruct b; [done|]. vm_compute. reflexivity.
  - destruct b; [done|]. vm_compute. reflexivity.
  - destruct cl; [done|]. vm_compute. reflexivity.
Qed.

(** The path of a request. *)
Lemma path_chars_path c : Forall segment (names_of c) →
  string_forallb path_char (path_of c) = true ∧ starts_with "/" (path_of c) = true ∧
  starts_with "//" (path_of c) = false.
Proof.
  intros Hn. destruct c as [|cl p|cl| | |cl d|b|b| |b|b|cl|]; try (by vm_compute).
  all: cbn in Hn; rewrite ?Forall_cons in Hn; cbn [path_of]; rewrite !string_forallb_append.
  all: destruct Hn as ((_ & -> & _) & Hn); try (destruct Hn as ((_ & -> & _) & _)); by split_and!.
Qed.

Lemma websocket_address_spec (a : AuthorizedAddress) :
  path (url (to_websocket_address a)) = path (url a) ∧
  host_str (url (to_websocket_address a)) = host_str (url a) ∧
  bearer_header (to_websocket_address a) = bearer_header a.
Proof.
  unfold to_websocket_address, bearer_header. cbn.
  repeat case_bool_decide; [|  |done]; destruct (set_scheme_spec "ws" (url a)) as (_ & ? & _ & ? & _);
    destruct (set_scheme_spec "wss" (url a)) as (_ & ? & _ & ? & _); done.
Qed.

(** A websocket request to a path of the controller. *)
Lemma socket_request self p q h : host_str (url self) = Some h →
  string_forallb path_char p = true → starts_with "/" p = true → starts_with "//" p = false →
  string_forallb query_char (default "" q) = true →
  ∃ r, auth_url_to_request (to_websocket_address
    (join (p +:+ match q with Some q => "?" +:+ q | None => "" end) self)) = Some r ∧
    path (target r) = p ∧ method r = GET ∧ authorization r = bearer_header self.
Proof.
  intros Hh Hp H1 H2 Hq. destruct (join_spec p q (url self) Hp H1 H2 Hq) as (Hpath & _ & _ & Hhost & _).
  set (a := join _ self). destruct (websocket_address_spec a) as (Hp' & Hh' & Hb).
  unfold auth_url_to_request. rewrite Hh'. cbn [a join url] in *. rewrite Hhost, Hh.
  eexists. split; [done|]. cbn [target method authorization]. by rewrite Hp', Hb.
Qed.

Definition public (c : call) : bool :=
  match c with BackendStatus _ | BackendStatusStream _ | HealthCheck => true | _ => false end.

Lemma guarded_meant c : guarded (meant c).1 = negb (public c).
Proof. destruct c; vm_compute; reflexivity. Qed.

Lemma request_spec self c h :
  host_str (url self) = Some h → Forall segment (names_of c) →
  ∃ r, request_of self c = Some r ∧ path (target r) = path_of c ∧
    method r = (request_method c).1 ∧
    authorization r = (if guarded (meant c).1 then bearer_header self else None).
Proof.
  intros Hh Hn. destruct (path_chars_path c Hn) as (Hp & H1 & H2).
  destruct (join_path (path_of c) (url self) Hp H1 H2) as [Hpath _].
  pose proof (socket_request self (path_of c) None h Hh Hp H1 H2 eq_refl) as Hsock.
  rewrite append_nil_r in Hsock. rewrite guarded_meant.
  destruct c as [|cl p|cl| | |cl d|b|b| |b|b|cl|]; try exact Hsock;
    try (eexists; split; [reflexivity|]; split; [exact Hpath|by split]).
  cbn [request_of]. unfold drone_connection. destruct (Types.is_default_pool p); [exact Hsock|].
  apply (socket_request self (path_of (DroneConnection cl p)) (Some ("pool=" +:+ byte_serialize p))
    h Hh Hp H1 H2).
  change (string_forallb query_char ("pool=" +:+ byte_serialize p) = true).
  by rewrite string_forallb_append, byte_serialize_chars.
Qed.

(** C40. Every call of the client is routed to the handler it is meant for, with its names, by its
    method and path, and carries the bearer token unless it is public; except for [revoke],
    which no route matches. *)
Theorem client_reaches_handler self c h :
  host_str (url self) = Some h → Forall segment (names_of c) →
  ∃ r, request_of self c = Some r ∧
    authorization r = (if guarded (meant c).1 then bearer_header self else None) ∧
    route app (method r) (path (target r)) =
      match c with Revoke => None | _ => Some (meant c) end.
Proof.
  intros Hh Hn. destruct (request_spec self c h Hh Hn) as (r & Hr & Hp & Hm & Ha).
  exists r. split_and!; [done|done|]. rewrite Hp, Hm.
  pose proof (hits_call c Hn) as Hhits. rewrite <- (segments_path c Hn) in Hhits.
  destruct c; try (by apply route_none); cbn [request_method fst] in Hhits |- *;
    rewrite (route_one _ _ _ _ _ Hhits); by destruct (meant _).
Qed.

End Client.

(** *** The authorization layer *)

Section ForwardAuth.
Import ForwardAuth.
Context {H : Proxy.Http} {X : Router} {XL : RouterLaws X} {A : Type}.

(** With an authorization server, no control route is served unless the server, asked
    with the method and the headers of the request, answers with a success; public routes
    are served without asking. *)
Theorem control_routes_guarded ask (handle : handler → list string → parts → A) req a :
  serve (Some ask) handle req = Some (Handled a) →
  ∃ h caps, route app (p_method req) (p_path req) = Some (h, caps) ∧ a = handle h caps req ∧
    (guarded h = true → ∃ copy status,
      p_method copy = p_method req ∧
      p_headers copy = hm_insert "x-original-path" (p_path copy) (p_headers req) ∧
      ask copy = Some status ∧ is_success status = true).
Proof.
  unfold serve. destruct (route app (p_method req) (p_path req)) as [[h caps]|]; [|done].
  destruct (guarded h) eqn:Hg.
  - unfold forward_layer, clone_request_with_empty_body.
    destruct (header_value_ok _); [|done]. set (copy := Parts _ _ (hm_insert _ _ _)).
    destruct (ask copy) as [status|] eqn:Hask; [|done].
    destruct (is_success status) eqn:Hs; [|done]. intros [= <-].
    exists h, caps. split_and!; [done|done|]. intros _. by exists copy, status.
  - intros [= <-]. exists h, caps. split_and!; [done|done|congruence].
Qed.
End ForwardAuth.

(** *** Heartbeats *)

Section Heartbeats.
Import Nodes HeartbeatConsts Heartbeats.
Context (name version hash : string).

(** Every turn comes within [late] of its time, and of [n + 1] turns in a row one reaches
    the database. *)
Fixpoint regular (late : Z) (n failed : nat) (l : list (Z * bool)) : Prop :=
  match l with
  | [] => True
  | (dt, ok) :: l =>
      (0 ≤ dt ≤ HEARTBEAT_INTERVAL + late)%Z ∧
      if ok then regular late n 0 l else failed < n ∧ regular late n (S failed) l
  end.

Lemma turns_app l l' db : turns name version hash (l ++ l') db =
  turns name version hash l' (turns name version hash l db).
Proof. revert db. induction l as [|[dt ok] l IH]; intros db; cbn; [done|]. apply IH. Qed.

(** The age of the controller's row, when [failed] turns have failed since the last beat. *)
Definition aged (late : Z) (failed : nat) (db : DB) : Prop :=
  ∃ c, controllers db !! name = Some c ∧ c_is_online c = true ∧
    (0 ≤ clock db - c_last_heartbeat c ≤ Z.of_nat failed * (HEARTBEAT_INTERVAL + late))%Z.

Lemma turns_aged late n l : ∀ failed db,
  aged late failed db → failed ≤ n → regular late n failed l →
  ∃ failed', failed' ≤ n ∧ aged late failed' (turns name version hash l db).
Proof.
  induction l as [|[dt ok] l IH]; intros failed db Hage Hle Hreg; [by exists failed|].
  destruct Hreg as [Hdt Hreg]. cbn. destruct ok.
  - apply (IH 0); [|lia|done]. eexists. unfold beat, Controllers.heartbeat. cbn.
    rewrite lookup_insert_eq. split; [done|]. cbn. lia.
  - destruct Hreg as [Hf Hreg]. apply (IH (S failed)); [|lia|done].
    destruct Hage as (c & Hc & Hon & Hage). exists c. cbn. split; [done|]. split; [done|lia].
Qed.

(** A controller whose heartbeats run late by at most [late], and of which at most [n] in
    a row fail, is online and not stale to the queries that choose a drone, at any time until
    its next turn, as long as [n + 1] such intervals are shorter than the limit; and it is
    offline once it has said so. *)
Theorem controller_stays_fresh late n l wait_ db :
  regular late n 0 l → (0 ≤ wait_ ≤ HEARTBEAT_INTERVAL + late)%Z →
  (Z.of_nat (S n) * (HEARTBEAT_INTERVAL + late) < from_secs UNHEALTHY_SECONDS)%Z →
  let db' := turns name version hash l (start name version hash true db).1 in
  let later := set_clock (clock db' + wait_)%Z db' in
  ∃ c, controllers later !! name = Some c ∧ c_is_online c = true ∧
    Drones.fresh (clock later) (Some (c_last_heartbeat c)) = true ∧
    ∃ c', controllers (terminate name version hash true later) !! name = Some c' ∧
      c_is_online c' = false.
Proof.
  intros Hreg Hw Hlim. cbn zeta.
  destruct (turns_aged late n l 0 (start name version hash true db).1) as (failed & Hf & Hage).
  - eexists. cbn. unfold beat, Controllers.heartbeat. cbn. rewrite lookup_insert_eq.
    split; [done|]. cbn. lia.
  - lia.
  - done.
  - destruct Hage as (c & Hc & Hon & Hage). exists c. cbn. split; [done|]. split; [done|]. split.
    + apply bool_decide_eq_true. set (K := (HEARTBEAT_INTERVAL + late)%Z) in *.
      assert (Z.of_nat failed * K ≤ Z.of_nat n * K)%Z by (apply Z.mul_le_mono_nonneg_r; lia).
      rewrite Nat2Z.inj_succ, Z.mul_succ_l in Hlim.
      cbn [fst Heartbeats.start] in *. lia.
    + eexists. unfold beat, Controllers.heartbeat. cbn. by rewrite lookup_insert_eq.
Qed.
End Heartbeats.
End ApiProps.

(** ** Concrete instances and witnesses *)

Module ApiWitness.
Import PlaneClient Routes Address ApiProps.

(** *** URLs as records *)

Record url_parts := UrlParts {
  u_scheme : string; u_user : string; u_host : string; u_path : string; u_query : option string
}.

Fixpoint keep (f : ascii → bool) (s : string) : string :=
  match s with "" => "" | String a s => if f a then String a (keep f s) else keep f s end.

#[local] Instance urls : Urls := {|
  Url := url_parts;
  scheme := u_scheme;
  set_scheme x u := UrlParts x (u_user u) (u_host u) (u_path u) (u_query u);
  username := u_user;
  set_username x u := UrlParts (u_scheme u) x (u_host u) (u_path u) (u_query u);
  host_str u := Some (u_host u);
  path := u_path;
  query := u_query;
  as_str u := u_scheme u +:+ "://" +:+ u_host u +:+ u_path u;
  url_join s u :=
    match split_once "?" s with
    | Some (p, q) => UrlParts (u_scheme u) (u_user u) (u_host u) p (Some q)
    | None => UrlParts (u_scheme u) (u_user u) (u_host u) s None
    end;
  byte_serialize := keep query_char
|}.

Lemma path_no_query p : string_forallb path_char p = true → string_has "?" p = false.
Proof.
  induction p as [|a p IH]; cbn; [done|]. intros [Ha Hp]%andb_true_iff.
  rewrite (IH Hp), orb_false_r. destruct (Ascii.eqb_spec a "?"); [by subst|done].
Qed.

#[local] Instance url_laws : UrlLaws urls.
Proof.
  split; cbn; try done.
  - intros p q u Hp _ _ _. pose proof (path_no_query p Hp) as Hq. destruct q as [q|].
    + assert (split_once "?" (p +:+ "?" +:+ q) = Some (p, q)) as -> by (by apply split_once_spec).
      done.
    + rewrite append_nil_r, (proj2 (split_once_None _ _)) by done. done.
  - intros s. induction s as [|a s IH]; cbn; [done|]. destruct (query_char a) eqn:Ha; cbn; [|done].
    by rewrite Ha, IH.
Qed.

(** *** A router that takes the first match *)

#[local] Instance first_match : Router := λ table m path,
  head (omap (λ r, if decide (r.1.1 = m) then (λ caps, (r.2, caps)) <$> captures r.1.2 path
                   else None) table).

#[local] Instance first_match_laws : RouterLaws first_match.
Proof.
  split; unfold route, first_match; intros table m.
  - intros p h pth caps Hin Hc Huniq. set (l := omap _ table).
    assert ((h, caps) ∈ l) as Hl.
    { apply list_elem_of_omap. exists (m, p, h). split; [done|]. cbn [fst snd].
      by rewrite decide_True, Hc. }
    assert (∀ x, x ∈ l → x = (h, caps)) as Hall.
    { intros x (([m' p'] & h') & Hin' & Hx)%list_elem_of_omap. cbn [fst snd] in Hx.
      case_decide; [|done]. apply fmap_Some in Hx as (caps' & Hc' & ->).
      assert ((m', p', h') = (m, p, h)) as [= -> -> ->] by (apply Huniq; [done|by eexists]).
      congruence. }
    destruct l as [|x l]; [by apply elem_of_nil in Hl|]. cbn. f_equal. apply Hall. by left.
  - intros pth Hnone. destruct (omap _ table) as [|x l] eqn:Hl; [done|].
    assert (x ∈ omap (λ r, if decide (r.1.1 = m)
      then (λ caps, (r.2, caps)) <$> captures r.1.2 pth else None) table) as Hx
      by (rewrite Hl; left).
    apply list_elem_of_omap in Hx as (([m' p'] & h') & Hin' & Hx). cbn [fst snd] in Hx.
    case_decide; [|done]. by rewrite (Hnone _ _ _ Hin') in Hx.
Qed.

Definition base : AuthorizedAddress :=
  PlaneClient.new (UrlParts "https" "secret" "plane.test" "/" None).

Lemma client_reaches_handler_witness :
  (∃ r, request_of base (SoftTerminate "ba1") = Some r ∧
     authorization r = Some "Bearer secret" ∧
     route app (method r) (path (target r)) = Some (HSoftTerminate, ["ba1"])) ∧
  (∃ r, request_of base Revoke = Some r ∧ route app (method r) (path (target r)) = None).
Proof.
  split.
  - destruct (client_reaches_handler base (SoftTerminate "ba1") "plane.test") as (r & Hr & Ha & Hroute).
    + reflexivity.
    + repeat constructor; done.
    + exists r. split; [done|]. split; [|done]. rewrite Ha. vm_compute. reflexivity.
  - destruct (client_reaches_handler base Revoke "plane.test") as (r & Hr & _ & Hroute).
    + reflexivity.
    + constructor.
    + by exists r.
Defined.

(** A server that accepts one token. *)
#[local] Existing Instance ExampleProxy.list_http.

Definition ask (p : ForwardAuth.parts) : option Z :=
  Some (if bool_decide (hm_get "authorization" (ForwardAuth.p_headers p) = Some "Bearer secret")
        then 200%Z else 403%Z).

Definition terminate_request : ForwardAuth.parts :=
  ForwardAuth.Parts POST "/ctrl/b/ba1/soft-terminate" [("authorization", "Bearer secret")].

Lemma control_routes_guarded_witness :
  ∃ h caps, route app POST "/ctrl/b/ba1/soft-terminate" = Some (h, caps) ∧
    (guarded h = true → ∃ copy status, ask copy = Some status ∧ is_success status = true).
Proof.
  destruct (control_routes_guarded ask (λ _ caps _, caps) terminate_request ["ba1"])
    as (h & caps & Hr & _ & Hg); [vm_compute; reflexivity|].
  exists h, caps. split; [exact Hr|]. intros Hh. destruct (Hg Hh) as (copy & status & _ & _ & Ha & Hs).
  by exists copy, status.
Defined.

Lemma controller_stays_fresh_witness :
  ∃ c, controllers (set_clock 15000000 (Heartbeats.turns "ct" "v" "h" [(from_secs 7, true); (from_secs 8, false)]
    (Heartbeats.start "ct" "v" "h" true (empty_db 0)).1)) !! "ct" = Some c ∧ c_is_online c = true.
Proof.
  destruct (controller_stays_fresh "ct" "v" "h" (from_secs 1) 1
    [(from_secs 7, true); (from_secs 8, false)] 0 (empty_db 0)) as (c & Hc & Hon & _).
  - cbn. unfold HeartbeatConsts.HEARTBEAT_INTERVAL, from_secs. repeat split; lia.
  - cbn. unfold HeartbeatConsts.HEARTBEAT_INTERVAL, from_secs. lia.
  - unfold HeartbeatConsts.HEARTBEAT_INTERVAL, HeartbeatConsts.UNHEALTHY_SECONDS, from_secs. lia.
  - exists c. split; [exact Hc|exact Hon].
Defined.

End ApiWitness.
