(* ===== verification/Forward.v ===== *)
(** * The forwarding library ([dynamic-proxy/src])

    What is around the service of the proxy: the headers that tell a backend where a request
    came from ([Wrapped], of [server.rs]), the redirection of plain HTTP ([Redirect], of
    [https_redirect.rs]), the client for upstream requests with the upgrades of websockets
    ([Client], of [proxy.rs], [request.rs] and [upgrade.rs]), and the shutdown that lets
    connections finish ([Graceful], of [graceful_shutdown.rs] and the listening loops of
    [server.rs]). *)

From S2P Require Import Prelude Proxy ProxyProps.

(** ** Where a request came from ([server.rs]) *)

Module Wrapped.
Section Wrapped.
Context {H : Proxy.Http} (IpAddr : Type) (ip_to_string : IpAddr → string).

Definition X_FORWARDED_FOR : string := "x-forwarded-for".
Definition X_FORWARDED_PROTO : string := "x-forwarded-proto".

(** [WrappedService], without the inner service. *)
Record WrappedService := Mk { forwarded_for : IpAddr; forwarded_proto : string }.

(** [call] up to the call of the inner service: the headers that it gets; [None] is the
    panic of an [expect]. *)
Definition call (w : WrappedService) (headers : header_map) : option header_map :=
  let for_ := ip_to_string (forwarded_for w) in
  if header_value_ok for_ then
    let headers := hm_insert X_FORWARDED_FOR for_ headers in
    if header_value_ok (forwarded_proto w)
    then Some (hm_insert X_FORWARDED_PROTO (forwarded_proto w) headers)
    else None
  else None.

(** The services made by [listen_loop] and [listen_loop_tls]. *)
Definition http_service (remote_ip : IpAddr) : WrappedService := Mk remote_ip "http".
Definition https_service (remote_ip : IpAddr) : WrappedService := Mk remote_ip "https".

End Wrapped.
End Wrapped.

(** ** Redirection ([https_redirect.rs]) *)

(** [http::uri::Authority] and [Uri::from_parts] for the scheme https. *)
Class Authorities (H : Proxy.Http) := {
  authority : Type;
  authority_from_str : string → option authority;
  authority_host : authority → string;
  authority_as_str : authority → string;
  https_uri : authority → option path_and_query → option string
}.

(** The laws relied on: the host of an authority is an authority, and a URI that has a path is
    printed as its parts. *)
Class AuthorityLaws {H : Proxy.Http} (A : Authorities H) : Prop := {
  host_authority a : ∃ a', authority_from_str (authority_host a) = Some a' ∧
    authority_as_str a' = authority_host a;
  https_uri_spec a pq : https_uri a (Some pq) =
    Some ("https://" +:+ authority_as_str a +:+ pq_path pq +:+ format_query (pq_query pq))
}.

Module Redirect.
Section Redirect.
Context {H : Proxy.Http} {A : Authorities H}.

Definition BAD_REQUEST : Z := 400.
Definition MOVED_PERMANENTLY : Z := 301.

(** A response without a body: its status and its location header. *)
Record response := Response { status : Z; location : option string }.

(** [call_inner] on the headers and the path of a request; the outer [None] is a panic. *)
Definition call_inner (headers : header_map) (uri : option path_and_query)
    : option (result Z response) :=
  match hm_get "host" headers with
  | None => Some (Err BAD_REQUEST)
  | Some hostname =>
      if negb (value_to_str_ok hostname) then Some (Err BAD_REQUEST)
      else match authority_from_str hostname with
      | None => Some (Err BAD_REQUEST)
      | Some a =>
          match authority_from_str (authority_host a) with
          | None => None
          | Some a =>
              match https_uri a uri with
              | None => None
              | Some new_uri => Some (Ok (Response MOVED_PERMANENTLY (Some new_uri)))
              end
          end
      end
  end.

(** [call]. *)
Definition call (headers : header_map) (uri : option path_and_query) : option response :=
  match call_inner headers uri with
  | None => None
  | Some (Ok r) => Some r
  | Some (Err s) => Some (Response s None)
  end.

End Redirect.
End Redirect.

(** ** Upstream requests ([proxy.rs], [upgrade.rs]) *)

Module Client.

(** *** Texts of headers *)

Definition is_whitespace (a : ascii) : bool :=
  let n := byte_N a in ((9 <=? n) && (n <=? 13) || (n =? 32))%N.

Definition lower (a : ascii) : ascii :=
  if is_ascii_uppercase (byte_N a) then Ascii.ascii_of_N (byte_N a + 32) else a.

(** [str::to_lowercase] on the texts for which [to_str] succeeds, which are ASCII. *)
Fixpoint to_lowercase (s : string) : string :=
  match s with "" => "" | String a s => String (lower a) (to_lowercase s) end.

Fixpoint split_comma (s : string) : list string :=
  match s with
  | "" => [""]
  | String a s =>
      if Ascii.eqb a "," then "" :: split_comma s
      else match split_comma s with [] => [String a ""] | x :: l => String a x :: l end
  end.

Fixpoint trim_start (s : string) : string :=
  match s with String a t => if is_whitespace a then trim_start t else s | "" => "" end.

Fixpoint trim_end (s : string) : string :=
  match s with
  | "" => ""
  | String a t =>
      match trim_end t with
      | "" => if is_whitespace a then "" else String a ""
      | t => String a t
      end
  end.

Definition trim (s : string) : string := trim_end (trim_start s).

Section Client.
Context {H : Proxy.Http}.

(** [should_upgrade]. *)
Definition should_upgrade (headers : header_map) : bool :=
  match hm_get "connection" headers with
  | None => false
  | Some conn_header =>
      value_to_str_ok conn_header &&
      existsb (λ s, String.eqb (trim s) "upgrade") (split_comma (to_lowercase conn_header))
  end.

Context {Parts RespParts Body : Type} (headers_of : Parts → header_map) (empty : Body).

Record request := Request { rq_parts : Parts; rq_body : Body }.
Record response := Response { rs_parts : RespParts; rs_body : Body }.

(** [split_request], [split_response]: the parts with an empty body, and the whole. *)
Definition split_request (r : request) : request * request := (Request (rq_parts r) empty, r).
Definition split_response (r : response) : response * response := (Response (rs_parts r) empty, r).

Record UpgradeHandler := Handler { h_request : request; h_response : response }.

Inductive ProxyError := Timeout | RequestFailed | UpgradeError | IoError.

(** The answer of the client to a request; [None] is an error. *)
Context (client : request → option response).

Definition upstream_request (r : request) : result ProxyError response := ok_or (client r) RequestFailed.

Definition handle_upgrade (r : request) : result ProxyError (response * UpgradeHandler) :=
  let '(upstream, with_body) := split_request r in
  let? res := upstream_request upstream in
  let '(upstream_response, response_with_body) := split_response res in
  Ok (upstream_response, Handler with_body response_with_body).

Definition handle_request (r : request) : result ProxyError (response * option UpgradeHandler) :=
  if should_upgrade (headers_of (rq_parts r)) then
    let? p := handle_upgrade r in Ok (p.1, Some p.2)
  else
    let? res := upstream_request r in Ok (res, None).

(** [ProxyClient::request]; [status_only] builds a response of a status. *)
Context (status_only : Z → RespParts).

Definition proxy_request (r : request) : response * option UpgradeHandler :=
  match handle_request r with
  | Ok p => p
  | Err Timeout => (Response (status_only 504) empty, None)
  | Err _ => (Response (status_only 502) empty, None)
  end.

(** [UpgradeHandler::run]: both upgrades, then the copying. *)
Definition run (on_response on_request copy : bool) : result ProxyError () :=
  if negb on_response then Err UpgradeError
  else if negb on_request then Err UpgradeError
  else if negb copy then Err IoError
  else Ok ().

(** [TimeoutHttpConnector::call]: a connection that takes [took]. *)
Inductive ConnectorError := ConnectTimeout | Boxed.
Definition connect (timeout took : Z) (connected : bool) : result ConnectorError () :=
  if (took <=? timeout)%Z then (if connected then Ok () else Err Boxed) else Err ConnectTimeout.

End Client.
End Client.

(** ** Graceful shutdown ([graceful_shutdown.rs]) *)

Module Graceful.

(** A watched connection: the version of the channel it has seen, whether it was cancelled
    (and holds its receiver), and how often it was told to shut down. *)
Record conn := Conn { seen : nat; cancelled : bool; told : nat }.

(** The watch channel: its version, the connections that hold a receiver, and the loops
    that listen (with the version they have seen). *)
Record t := Mk { version : nat; conns : gmap nat conn; loops : gmap nat nat }.

Definition new : t := Mk 0 ∅ ∅.

(** [watch] of a connection. *)
Definition watch (i : nat) (s : t) : t :=
  Mk (version s) (<[i := Conn (version s) false 0]> (conns s)) (loops s).

(** [subscribe], by a listening loop. *)
Definition subscribe (l : nat) (s : t) : t :=
  Mk (version s) (conns s) (<[l := version s]> (loops s)).

(** [GracefulConnectionFuture::poll]; [ready] is whether the connection is done. *)
Definition poll (i : nat) (ready : bool) (s : t) : t :=
  match conns s !! i with
  | None => s
  | Some c =>
      let c := if negb (cancelled c) && (seen c <? version s)
               then Conn (seen c) true (S (told c)) else c in
      Mk (version s) (if ready then delete i (conns s) else <[i := c]> (conns s)) (loops s)
  end.

(** The [select] of a listening loop finds the change, and the loop ends. *)
Definition loop_turn (l : nat) (s : t) : t :=
  match loops s !! l with
  | Some v => if v <? version s then Mk (version s) (conns s) (delete l (loops s)) else s
  | None => s
  end.

(** Whether the wait of [shutdown] is over: nobody holds a receiver. *)
Definition complete (s : t) : bool :=
  bool_decide (conns s = ∅) && bool_decide (loops s = ∅).

(** The signal of [shutdown]; without a receiver, [send] fails and changes nothing. *)
Definition signal (s : t) : t :=
  if complete s then s else Mk (S (version s)) (conns s) (loops s).

(** What happens besides the signal; connections and loops have names of their own. *)
Inductive op := Watch (i : nat) | Subscribe (l : nat) | Poll (i : nat) (ready : bool) | LoopTurn (l : nat).

Definition exec (o : op) (s : t) : t :=
  match o with
  | Watch i => if decide (conns s !! i = None) then watch i s else s
  | Subscribe l => if decide (loops s !! l = None) then subscribe l s else s
  | Poll i ready => poll i ready s
  | LoopTurn l => loop_turn l s
  end.

Definition execs (os : list op) (s : t) : t := foldl (λ s o, exec o s) s os.

End Graceful.

(** ** Listening ([server.rs]) *)

Module Listen.
Section Listen.
Context {IpAddr : Type}.
#[local] Notation service := (Wrapped.WrappedService IpAddr).

(** What wakes a loop or a task that it spawned: a stream from the peer [ip] or an error, the
    change of the channel, the end of a TLS handshake, the progress of a connection. *)
Inductive event :=
  | Accepted (i : nat) (ip : IpAddr)
  | AcceptFailed
  | Changed
  | Handshake (i : nat) (ok : bool)
  | Progress (i : nat) (done : bool).

(** A listening loop: its name at the channel, the streams in a handshake and the connections
    being served, with their services. *)
Record loop := Loop {
  lp_name : nat;
  running : bool;
  graceful : Graceful.t;
  handshakes : gmap nat service;
  serving : gmap nat service
}.

Definition start (l : nat) : loop := Loop l true (Graceful.subscribe l Graceful.new) ∅ ∅.

(** [serve_connection_with_upgrades] in a watched future. *)
Definition serve (i : nat) (w : service) (s : loop) : loop :=
  Loop (lp_name s) (running s) (Graceful.watch i (graceful s)) (handshakes s) (<[i := w]> (serving s)).

(** The arm of [accept], in [listen_loop] and in [listen_loop_tls]. *)
Definition accept (tls : bool) (i : nat) (ip : IpAddr) (s : loop) : loop :=
  if tls then
    Loop (lp_name s) (running s) (graceful s)
      (<[i := Wrapped.https_service IpAddr ip]> (handshakes s)) (serving s)
  else serve i (Wrapped.http_service IpAddr ip) s.

Definition changed (s : loop) : loop :=
  let g := Graceful.loop_turn (lp_name s) (graceful s) in
  Loop (lp_name s) (bool_decide (is_Some (Graceful.loops g !! lp_name s))) g (handshakes s) (serving s).

Definition handshake (i : nat) (ok : bool) (s : loop) : loop :=
  match handshakes s !! i with
  | None => s
  | Some w =>
      let s := Loop (lp_name s) (running s) (graceful s) (delete i (handshakes s)) (serving s) in
      if ok then serve i w s else s
  end.

Definition progress (i : nat) (done : bool) (s : loop) : loop :=
  Loop (lp_name s) (running s) (Graceful.poll i done (graceful s)) (handshakes s)
    (if done then delete i (serving s) else serving s).

(** Streams have names of their own. *)
Definition turn (tls : bool) (e : event) (s : loop) : loop :=
  match e with
  | Accepted i ip =>
      if running s && bool_decide (handshakes s !! i = None) && bool_decide (serving s !! i = None)
      then accept tls i ip s else s
  | AcceptFailed => s
  | Changed => if running s then changed s else s
  | Handshake i ok => handshake i ok s
  | Progress i done => progress i done s
  end.

Definition turns (tls : bool) (es : list event) (s : loop) : loop := foldl (λ s e, turn tls e s) s es.

(** The shutdown of the server. *)
Definition shut (s : loop) : loop :=
  Loop (lp_name s) (running s) (Graceful.signal (graceful s)) (handshakes s) (serving s).

(** [ServerWithHttpRedirect::new]: the ports, whether they speak TLS, and the service. *)
Inductive handler := Proxied | Redirected.
Definition with_redirect (http_port : Z) (https_port : option Z) : list (Z * bool * handler) :=
  match https_port with
  | Some p => [(p, true, Proxied); (http_port, false, Redirected)]
  | None => [(http_port, false, Proxied)]
  end.

End Listen.
End Listen.

(** ** Theorems *)

Module ForwardProps.

Section Wrapped.
Import Wrapped.
Context {H : Proxy.Http} {HL : HttpLaws} {IpAddr : Type} (ip_to_string : IpAddr → string).

Definition named (n : string) (l : list (string * string)) : list (string * string) :=
  filter (λ p, p.1 = n) l.

Lemma named_insert n v h m :
  named m (hm_list (hm_insert n v h)) ≡ₚ
    if decide (m = n) then [(n, v)] else named m (hm_list h).
Proof.
  unfold named. rewrite hm_insert_spec, filter_app. unfold others. case_decide as Hd.
  - subst m. rewrite list_filter_filter, filter_none by (intros x _; tauto).
    rewrite filter_cons, decide_True by done. done.
  - rewrite (filter_cons_False _ (n, v)) by naive_solver. rewrite app_nil_r.
    rewrite list_filter_filter. erewrite list_filter_iff; [done|]. intros [a b]. naive_solver.
Qed.

(** Whatever headers of these names a client sends, a backend gets exactly one
    [x-forwarded-for], the address of the peer, and one [x-forwarded-proto], the protocol of
    the listener; the other headers are kept. *)
Theorem forwarded_headers_trusted w h h' :
  call IpAddr ip_to_string w h = Some h' →
  named X_FORWARDED_FOR (hm_list h') = [(X_FORWARDED_FOR, ip_to_string (forwarded_for _ w))] ∧
  named X_FORWARDED_PROTO (hm_list h') = [(X_FORWARDED_PROTO, forwarded_proto _ w)] ∧
  ∀ n, n ≠ X_FORWARDED_FOR → n ≠ X_FORWARDED_PROTO → named n (hm_list h') ≡ₚ named n (hm_list h).
Proof.
  unfold call. destruct (header_value_ok _); [|done]. destruct (header_value_ok _); [|done].
  intros [= <-]. split_and!.
  - apply Permutation_singleton_r. rewrite named_insert, decide_False by done.
    rewrite named_insert. by rewrite decide_True.
  - apply Permutation_singleton_r. rewrite named_insert. by rewrite decide_True.
  - intros n H1 H2. rewrite named_insert, decide_False by done.
    rewrite named_insert. by rewrite decide_False.
Qed.
End Wrapped.

Section Redirect.
Import Redirect.
Context {H : Proxy.Http} {A : Authorities H} {AL : AuthorityLaws A}.

(** A plain request is never served: with a valid host it is redirected permanently to
    the same path and query at that host without its port, and otherwise refused; a request
    with a path does not panic. *)
Theorem redirect_spec headers pq :
  ∃ r, call headers (Some pq) = Some r ∧
    match hm_get "host" headers with
    | Some h =>
        match authority_from_str h with
        | Some a => value_to_str_ok h = true →
            r = Response MOVED_PERMANENTLY
                  (Some ("https://" +:+ authority_host a +:+ pq_path pq +:+ format_query (pq_query pq)))
        | None => r = Response BAD_REQUEST None
        end
    | None => r = Response BAD_REQUEST None
    end.
Proof.
  unfold call, call_inner. destruct (hm_get "host" headers) as [h|]; [|by eexists].
  destruct (value_to_str_ok h) eqn:Hv; cbn [negb].
  - destruct (authority_from_str h) as [a|]; [|by eexists].
    destruct (host_authority a) as (a' & -> & Has). rewrite https_uri_spec, Has. by eexists.
  - eexists. split; [done|]. by destruct (authority_from_str h).
Qed.
End Redirect.

Section Upgrade.
Import Client.
Context {H : Proxy.Http}.

(** *** The request for an upgrade *)

#[local] Notation blank := (string_forallb is_whitespace).

Lemma trim_start_spec s : ∃ w, blank w = true ∧ s = w +:+ trim_start s ∧ 
  ∀ a t, trim_start s = String a t → is_whitespace a = false.
Proof.
  induction s as [|a s (w & Hw & Hs & Ht)]; simpl; [by exists ""|].
  destruct (is_whitespace a) eqn:Ha.
  - exists (String a w). simpl. rewrite Ha, Hw. split_and!; [done|by rewrite append_cons, <- Hs|done].
  - exists "". split_and!; [done..|]. by intros ?? [= <- <-].
Qed.

Lemma trim_end_spec s : ∃ w, blank w = true ∧ s = trim_end s +:+ w.
Proof.
  induction s as [|a s (w & Hw & Hs)]; simpl; [by exists ""|].
  destruct (trim_end s) as [|b t].
  - rewrite append_nil_l in Hs. subst w. destruct (is_whitespace a) eqn:Ha; [|by exists s].
    exists (String a s). simpl. by rewrite Ha.
  - exists w. split; [done|]. by rewrite append_cons, <- Hs.
Qed.

Lemma trim_start_blank w s : blank w = true → trim_start (w +:+ s) = trim_start s.
Proof. induction w as [|a w IH]; [done|]. rewrite append_cons. simpl. intros [-> ?]%andb_true_iff. auto. Qed.

Lemma trim_end_blank w : blank w = true → trim_end w = "".
Proof. induction w as [|a w IH]; simpl; [done|]. intros [Ha Hw]%andb_true_iff. by rewrite IH, Ha. Qed.

Lemma trim_end_app s w : blank w = true → trim_end (s +:+ w) = trim_end s.
Proof. intros Hw. induction s as [|a s IH]; [by apply trim_end_blank|].
  rewrite append_cons. simpl. by rewrite IH. Qed.

Lemma trim_upgrade s :
  trim s = "upgrade" ↔ ∃ w1 w2, blank w1 = true ∧ blank w2 = true ∧ s = w1 +:+ "upgrade" +:+ w2.
Proof.
  split.
  - unfold trim. intros Ht. destruct (trim_start_spec s) as (w1 & Hw1 & Hs & _).
    destruct (trim_end_spec (trim_start s)) as (w2 & Hw2 & Hs'). rewrite Ht in Hs'.
    exists w1, w2. split_and!; [done..|]. by rewrite <- Hs'.
  - intros (w1 & w2 & Hw1 & Hw2 & ->). unfold trim. rewrite trim_start_blank by done.
    replace (trim_start ("upgrade" +:+ w2)) with ("upgrade" +:+ w2) by reflexivity.
    by rewrite trim_end_app.
Qed.

Definition comma : ascii := ",".

Fixpoint join (l : list string) : string :=
  match l with [] => "" | [x] => x | x :: l => x +:+ String comma (join l) end.

Lemma split_comma_nonempty s : split_comma s ≠ [].
Proof. destruct s as [|a s]; simpl; [done|]. repeat case_match; done. Qed.

Lemma split_comma_join s : join (split_comma s) = s ∧ ∀ x, x ∈ split_comma s → string_has comma x = false.
Proof.
  induction s as [|a s [IHj IHc]]; simpl.
  - split; [done|]. by intros x ->%list_elem_of_singleton.
  - pose proof (split_comma_nonempty s). destruct (Ascii.eqb_spec a ",") as [->|Ha].
    + split; [destruct (split_comma s) as [|x l]; [done|];
        change ("" +:+ String comma (join (x :: l)) = String comma s); by rewrite IHj|].
      intros x [->|Hx]%elem_of_cons; [done|by apply IHc].
    + destruct (split_comma s) as [|x l]; [done|]. split.
      * cbn [join] in *. destruct l; rewrite <- IHj; [done|by rewrite append_cons].
      * intros y [->|Hy]%elem_of_cons; [|by apply IHc; right]. simpl.
        apply orb_false_iff. split; [by apply Ascii.eqb_neq|]. by apply IHc; left.
Qed.

Lemma split_comma_cons x t :
  string_has comma x = false → split_comma (x +:+ String comma t) = x :: split_comma t.
Proof.
  induction x as [|a x IH]; [done|]. rewrite append_cons. simpl. intros [Ha Hx]%orb_false_iff.
  change (Ascii.eqb a "," = false) in Ha. by rewrite Ha, IH.
Qed.

Lemma split_comma_single x : string_has comma x = false → split_comma x = [x].
Proof.
  induction x as [|a x IH]; simpl; [done|]. intros [Ha Hx]%orb_false_iff.
  change (Ascii.eqb a "," = false) in Ha. by rewrite Ha, IH.
Qed.

(** [split(',')] gives the only list of parts without a comma that joins to the text. *)
Lemma split_comma_spec s l :
  split_comma s = l ↔ l ≠ [] ∧ (∀ x, x ∈ l → string_has comma x = false) ∧ join l = s.
Proof.
  split.
  - intros <-. destruct (split_comma_join s). split_and!; [apply split_comma_nonempty|done..].
  - intros (Hn & Hc & <-). revert Hn Hc. induction l as [|x l IH]; [done|]. intros _ Hc.
    destruct l as [|y l]; [apply split_comma_single, Hc; by left|].
    cbn [join]. rewrite split_comma_cons by (apply Hc; by left).
    f_equal. apply IH; [done|]. intros z Hz. apply Hc. by right.
Qed.

(** A request is for an upgrade when its first connection header, in lower case, has
    [upgrade], possibly between blanks, as one of the items between its commas. *)
Theorem should_upgrade_spec headers :
  should_upgrade headers = true ↔
  ∃ v l w1 w2, hm_get "connection" headers = Some v ∧ value_to_str_ok v = true ∧
    to_lowercase v = join l ∧ (∀ x, x ∈ l → string_has comma x = false) ∧
    w1 +:+ "upgrade" +:+ w2 ∈ l ∧ blank w1 = true ∧ blank w2 = true.
Proof.
  unfold should_upgrade. destruct (hm_get _ headers) as [v|]; [|naive_solver].
  rewrite andb_true_iff, existsb_exists. setoid_rewrite String.eqb_eq. setoid_rewrite trim_upgrade.
  destruct (split_comma_join (to_lowercase v)) as [Hj Hc]. split.
  - intros (Hv & x & Hx & w1 & w2 & ? & ? & ->). exists v, (split_comma (to_lowercase v)), w1, w2.
    split_and!; [done..| |done|done]. by apply list_elem_of_In.
  - intros (v' & l & w1 & w2 & [= <-] & Hv & Hl & Hlc & Hw & ? & ?). split; [done|].
    exists (w1 +:+ "upgrade" +:+ w2). split; [|by eauto]. apply list_elem_of_In.
    rewrite (proj2 (split_comma_spec _ l)); [done|]. split_and!; [by intros ->; inversion Hw|done|done].
Qed.
End Upgrade.

Section Client.
Import Client.
Context {H : Proxy.Http} {Parts RespParts Body : Type} (headers_of : Parts → header_map) (empty : Body)
  (client : @request Parts Body → option (@response RespParts Body)) (status_only : Z → RespParts).

(** A failure of the client is answered with 502; the branch for 504 is never taken. *)
Lemma proxy_request_spec (r : @request Parts Body) :
  proxy_request headers_of empty client status_only r =
  match client (if should_upgrade (headers_of (rq_parts r)) then Request (rq_parts r) empty else r) with
  | None => (Response (status_only 502) empty, None)
  | Some a =>
      if should_upgrade (headers_of (rq_parts r))
      then (Response (rs_parts a) empty, Some (Handler r a)) else (a, None)
  end.
Proof.
  unfold proxy_request, handle_request, handle_upgrade, upstream_request.
  destruct (should_upgrade _); simpl; by destruct (client _).
Qed.

(** The body of a refused upgrade does not reach the client, only its headers do, with the
    length they announce. *)
Lemma refused_upgrade_loses_body (r : @request Parts Body) a :
  should_upgrade (headers_of (rq_parts r)) = true →
  client (Request (rq_parts r) empty) = Some a →
  (proxy_request headers_of empty client status_only r).1 = Response (rs_parts a) empty.
Proof. intros Hu Ha. rewrite proxy_request_spec, Hu. by rewrite Ha. Qed.
End Client.

Section Graceful.
Import Graceful.
Implicit Types (s : t) (i l : nat).

(** Before the signal nothing has been told to a connection. *)
Definition fresh s : Prop :=
  version s = 0 ∧ (∀ i c, conns s !! i = Some c → c = Conn 0 false 0) ∧
  ∀ l v, loops s !! l = Some v → v = 0.

Lemma fresh_exec o s : fresh s → fresh (exec o s).
Proof.
  intros (Hv & Hc & Hl). destruct o as [i|l|i r|l]; cbn [exec].
  - case_decide; [|done]. unfold watch. split_and!; simpl; [done| |done].
    intros j c [[<- <-]|[? ?]]%lookup_insert_Some; [by rewrite Hv|eauto].
  - case_decide; [|done]. unfold subscribe. split_and!; simpl; [done|done|].
    intros j v [[<- <-]|[? ?]]%lookup_insert_Some; eauto.
  - unfold poll. destruct (conns s !! i) as [c|] eqn:Hi; [|done].
    rewrite (Hc _ _ Hi), Hv. cbn [cancelled seen negb andb Nat.ltb Nat.leb].
    split_and!; simpl; [done| |done].
    intros j c1. destruct r.
    + intros [? ?]%lookup_delete_Some; eauto.
    + intros [[<- <-]|[? ?]]%lookup_insert_Some; eauto.
  - unfold loop_turn. destruct (loops s !! l) as [v|] eqn:Hi; [|done].
    by rewrite Hv, (Hl _ _ Hi).
Qed.

Lemma fresh_execs os s : fresh s → fresh (execs os s).
Proof. revert s. induction os as [|o os IH]; intros s Hs; [done|]. by apply IH, fresh_exec. Qed.

Lemma fresh_new : fresh new.
Proof. by split_and!. Qed.

Definition polls i (o : op) : bool := match o with Poll j _ => j =? i | _ => false end.
Definition watches i (o : op) : bool := match o with Watch j => j =? i | _ => false end.
Definition joins (o : op) : bool := match o with Watch _ | Subscribe _ => true | _ => false end.

Lemma exec_version o s : version (exec o s) = version s.
Proof. destruct o; simpl; try case_decide; unfold poll, loop_turn; simpl; repeat case_match; done. Qed.

(** A connection from before the signal, which has been told of it or not. *)
Definition early (b : bool) : conn := Conn 0 b (if b then 1 else 0).

Lemma early_exec o s i b :
  version s = 1 → watches i o = false → (∀ c, conns s !! i = Some c → c = early b) →
  ∀ c, conns (exec o s) !! i = Some c → c = early (b || polls i o).
Proof.
  intros Hv Hw Hc c. destruct o as [j|l|j r|l]; cbn [exec polls watches] in *.
  - rewrite orb_false_r. apply Nat.eqb_neq in Hw. case_decide; [|by apply Hc]. simpl.
    rewrite lookup_insert_ne by done. apply Hc.
  - rewrite orb_false_r. case_decide; apply Hc.
  - unfold poll. destruct (Nat.eqb_spec j i) as [->|Hne].
    + rewrite orb_true_r. destruct (conns s !! i) as [c0|] eqn:Hi; [|by rewrite Hi].
      rewrite (Hc c0) by done. rewrite Hv. destruct r; simpl; [by rewrite lookup_delete_eq|].
      rewrite lookup_insert_eq. destruct b; by intros [= <-].
    + rewrite orb_false_r. destruct (conns s !! j) as [c0|]; [|apply Hc].
      destruct r; simpl; [rewrite lookup_delete_ne by done|rewrite lookup_insert_ne by done]; apply Hc.
  - rewrite orb_false_r. unfold loop_turn. repeat case_match; apply Hc.
Qed.

Lemma early_execs os s i b :
  version s = 1 → existsb (watches i) os = false → (∀ c, conns s !! i = Some c → c = early b) →
  ∀ c, conns (execs os s) !! i = Some c → c = early (b || existsb (polls i) os).
Proof.
  revert s b. induction os as [|o os IH]; intros s b Hv Hw Hc; simpl in *; [by rewrite orb_false_r|].
  apply orb_false_iff in Hw as [Hw Hws]. rewrite orb_assoc.
  apply IH; [by rewrite exec_version|done|by apply early_exec].
Qed.

Lemma late_exec o s i :
  version s = 1 → (∀ c, conns s !! i = Some c → c = Conn 1 false 0) →
  ∀ c, conns (exec o s) !! i = Some c → c = Conn 1 false 0.
Proof.
  intros Hv Hc c. destruct o as [j|l|j r|l]; cbn [exec].
  - case_decide; [|by apply Hc]. simpl. rewrite Hv.
    intros [[-> <-]|[? ?]]%lookup_insert_Some; [done|by apply Hc].
  - case_decide; apply Hc.
  - unfold poll. destruct (conns s !! j) as [c0|] eqn:Hj; [|apply Hc]. destruct r; simpl.
    + intros [? ?]%lookup_delete_Some. by apply Hc.
    + intros [[-> <-]|[? ?]]%lookup_insert_Some; [|by apply Hc].
      rewrite (Hc c0) by done. by rewrite Hv.
  - unfold loop_turn. repeat case_match; apply Hc.
Qed.

Lemma late_execs os s i :
  version s = 1 → (∀ c, conns s !! i = Some c → c = Conn 1 false 0) →
  ∀ c, conns (execs os s) !! i = Some c → c = Conn 1 false 0.
Proof.
  revert s. induction os as [|o os IH]; intros s Hv Hc; simpl; [done|].
  apply IH; [by rewrite exec_version|by apply late_exec].
Qed.

(** A connection whose watch starts after the signal is never told of it: the wait of
    [shutdown] is for the peer to close it. *)
Lemma late_connection_never_told os1 os2 i c :
  let s := execs os1 new in
  complete s = false → conns s !! i = None →
  conns (execs os2 (signal s)) !! i = Some c →
  cancelled c = false ∧ told c = 0 ∧ complete (execs os2 (signal s)) = false.
Proof.
  intros s Hs Hi Hc. destruct (fresh_execs os1 new fresh_new) as (Hv & _).
  fold s in Hv.
  assert (c = Conn 1 false 0) as ->.
  { revert c Hc. apply late_execs; unfold signal; rewrite Hs; simpl; [by rewrite Hv|].
    by rewrite Hi. }
  split_and!; [done..|]. unfold complete. apply andb_false_intro1, bool_decide_eq_false_2.
  intros He. by rewrite He, lookup_empty in Hc.
Qed.

(** C29. A connection that was watched when the server is shut down is told to finish
    exactly once, at its first poll after the signal, and not before it. *)
Theorem shutdown_tells_connections os1 os2 i c :
  let s := execs os1 new in
  is_Some (conns s !! i) → existsb (watches i) os2 = false →
  conns (execs os2 (signal s)) !! i = Some c →
  told c = if existsb (polls i) os2 then 1 else 0.
Proof.
  intros s [c0 Hi] Hw Hc. destruct (fresh_execs os1 new fresh_new) as (Hv & Hf & _). fold s in Hv, Hf.
  assert (complete s = false) as Hs.
  { unfold complete. apply andb_false_intro1, bool_decide_eq_false_2.
    intros He. by rewrite He, lookup_empty in Hi. }
  unfold signal in Hc. rewrite Hs in Hc.
  apply (early_execs os2 _ i false) in Hc as ->;
    [by simpl|simpl; by rewrite Hv|done|simpl; intros c1 H1; by rewrite (Hf _ _ H1)].
Qed.

Lemma shutdown_tells_connections_witness :
  let s := execs [Watch 0; Watch 1; Poll 0 false] new in
  is_Some (conns s !! 0) ∧
  ∃ c, conns (execs [Poll 1 true; Poll 0 false; Poll 0 false] (signal s)) !! 0 = Some c ∧ told c = 1.
Proof.
  split; [by eexists|]. eexists. split; [reflexivity|].
  apply (shutdown_tells_connections [Watch 0; Watch 1; Poll 0 false]
           [Poll 1 true; Poll 0 false; Poll 0 false] 0); [by eexists|reflexivity..].
Defined.

(** What keeps the wait from being over. *)
Definition waits (o : op) s : Prop :=
  match o with Poll i _ => is_Some (conns s !! i) | LoopTurn l => is_Some (loops s !! l) | _ => False end.

Lemma waits_exec o o' s : joins o = false → waits o' (exec o s) → waits o' s.
Proof.
  intros Hj. destruct o as [j|j|j r|l]; try done; cbn [exec].
  - unfold poll. destruct (conns s !! j) as [c|] eqn:Hc; [|done].
    destruct o'; simpl; try done. intros [c' Hc']. destruct r.
    + apply lookup_delete_Some in Hc' as [? ?]. by eexists.
    + apply lookup_insert_Some in Hc' as [[-> ?]|[? ?]]; by eexists.
  - unfold loop_turn. repeat case_match; try done.
    destruct o'; simpl; try done. intros [v Hv]. apply lookup_delete_Some in Hv as [? ?]. by eexists.
Qed.

Lemma waits_execs os o' s : existsb joins os = false → waits o' (execs os s) → waits o' s.
Proof.
  revert s. induction os as [|o os IH]; intros s; simpl; [done|].
  intros [H1 H2]%orb_false_iff Hw. apply (waits_exec o); [done|]. by apply IH.
Qed.

(** The loops have not seen the signal. *)
Lemma loops_execs os s :
  existsb joins os = false → (∀ l v, loops s !! l = Some v → v < version s) →
  ∀ l v, loops (execs os s) !! l = Some v → v < version (execs os s).
Proof.
  revert s. induction os as [|o os IH]; intros s; simpl; [done|].
  intros [H1 H2]%orb_false_iff Hs. apply IH; [done|]. rewrite exec_version. intros l v Hl.
  apply (Hs l). destruct o as [j|j|j r|l']; try done; cbn [exec] in Hl.
  - unfold poll in Hl. by destruct (conns s !! j).
  - unfold loop_turn in Hl. repeat case_match; try done. simpl in Hl.
    by apply lookup_delete_Some in Hl as [? ?].
Qed.

(** The operation that ends what keeps the wait from being over. *)
Lemma finished_exec o s :
  (∀ l v, loops s !! l = Some v → v < version s) →
  match o with Poll _ r => r = true | LoopTurn _ => True | _ => False end → ¬ waits o (exec o s).
Proof.
  intros Hs Ho. destruct o as [j|j|j r|l]; try done; cbn [exec waits].
  - subst r. unfold poll. destruct (conns s !! j) as [c|] eqn:Hc; [|by rewrite Hc; intros [? ?]].
    cbn [conns]. rewrite lookup_delete_eq. by intros [? ?].
  - unfold loop_turn. destruct (loops s !! l) as [v|] eqn:Hl; [|by rewrite Hl; intros [? ?]].
    rewrite (proj2 (Nat.ltb_lt _ _)) by eauto. cbn [loops]. rewrite lookup_delete_eq. by intros [? ?].
Qed.

Lemma finished_execs os o s :
  (∀ l v, loops s !! l = Some v → v < version s) → existsb joins os = false → In o os →
  match o with Poll _ r => r = true | LoopTurn _ => True | _ => False end → ¬ waits o (execs os s).
Proof.
  intros Hs Hj (os1 & os2 & ->)%in_split Ho. rewrite existsb_app in Hj. simpl in Hj.
  apply orb_false_iff in Hj as [H1 [H2 H3]%orb_false_iff].
  unfold execs. rewrite foldl_app. simpl. fold (execs os1 s).
  intros Hw%waits_execs; [|done]. apply finished_exec in Hw; [done| |done]. by apply loops_execs.
Qed.

(** The wait of a shutdown is over once the listening loops had a turn and each
    connection that was watched is done, if no other starts in the meantime. *)
Theorem shutdown_completes os1 os2 :
  let s := execs os1 new in
  existsb joins os2 = false →
  (∀ i, is_Some (conns s !! i) → In (Poll i true) os2) →
  (∀ l, is_Some (loops s !! l) → In (LoopTurn l) os2) →
  complete (execs os2 (signal s)) = true.
Proof.
  intros s Hj Hc Hl. destruct (fresh_execs os1 new fresh_new) as (Hv & _ & Hf). fold s in Hv, Hf.
  assert (∀ l v, loops (signal s) !! l = Some v → v < version (signal s)) as Hlt.
  { unfold signal, complete. intros l v. case_match eqn:E; simpl.
    - apply andb_true_iff in E as [_ E%bool_decide_eq_true]. by rewrite E, lookup_empty.
    - intros H0%Hf. lia. }
  assert (∀ o, waits o (signal s) → waits o s) as Hw.
  { unfold signal. case_match; [done|]. by intros []. }
  unfold complete. apply andb_true_iff.
  split; apply bool_decide_eq_true_2, map_empty; intros j; apply eq_None_not_Some; intros Hj'.
  - apply (finished_execs os2 (Poll j true) (signal s)); try done.
    apply Hc, (Hw (Poll j true)), (waits_execs os2 (Poll j true)); done.
  - apply (finished_execs os2 (LoopTurn j) (signal s)); try done.
    apply Hl, (Hw (LoopTurn j)), (waits_execs os2 (LoopTurn j)); done.
Qed.

Lemma shutdown_completes_witness :
  complete (execs [Poll 1 true; LoopTurn 0; Poll 0 false; Poll 0 true]
    (signal (execs [Subscribe 0; Watch 0; Watch 1] new))) = true.
Proof.
  apply (shutdown_completes [Subscribe 0; Watch 0; Watch 1]); [reflexivity|..].
  - change (conns (execs [Subscribe 0; Watch 0; Watch 1] new))
      with (<[1 := Conn 0 false 0]> (<[0 := Conn 0 false 0]> ∅ : gmap nat conn)).
    intros i [c [[<- _]|[_ [[<- _]|[_ []%lookup_empty_Some]]%lookup_insert_Some]]%lookup_insert_Some];
      simpl; auto.
  - change (loops (execs [Subscribe 0; Watch 0; Watch 1] new)) with (<[0 := 0]> (∅ : gmap nat nat)).
    intros l [v [[<- _]|[_ []%lookup_empty_Some]]%lookup_insert_Some]; simpl; auto.
Defined.
End Graceful.

Section Listen.
Import Listen.
Context {IpAddr : Type}.
Implicit Types (s : @loop IpAddr) (e : @event IpAddr).

(** The connections being served are those that the channel waits for, and their services
    name the protocol of the listener. *)
Definition served tls s : Prop :=
  dom (Graceful.conns (graceful s)) = dom (serving s) ∧
  (∀ i w, handshakes s !! i = Some w → tls = true ∧ ∃ ip, w = Wrapped.https_service IpAddr ip) ∧
  ∀ i w, serving s !! i = Some w → ∃ ip,
    w = if tls then Wrapped.https_service IpAddr ip else Wrapped.http_service IpAddr ip.

Lemma dom_poll i ready (s : Graceful.t) :
  dom (Graceful.conns (Graceful.poll i ready s)) =
    if ready then dom (Graceful.conns s) ∖ {[i]} else dom (Graceful.conns s).
Proof.
  unfold Graceful.poll. destruct (Graceful.conns s !! i) as [c|] eqn:Hi; simpl.
  - apply elem_of_dom_2 in Hi. destruct ready; [apply dom_delete_L|]. rewrite dom_insert_L. set_solver.
  - apply not_elem_of_dom in Hi. destruct ready; set_solver.
Qed.

Lemma served_serve tls i w s :
  served tls s →
  (∃ ip, w = if tls then Wrapped.https_service IpAddr ip else Wrapped.http_service IpAddr ip) →
  served tls (serve i w s).
Proof.
  intros (Hd & Hh & Hs) Hw. split_and!; simpl; [by rewrite !dom_insert_L, Hd|done|].
  intros j w' [[<- <-]|[? ?]]%lookup_insert_Some; eauto.
Qed.

Lemma served_turn tls e s : served tls s → served tls (turn tls e s).
Proof.
  intros Hs. destruct e as [i ip| | |i ok|i ready]; cbn [turn]; [|done|..].
  - destruct (_ && _ && _); [|done]. unfold accept. destruct tls; [|apply served_serve; eauto].
    destruct Hs as (Hd & Hh & Hs). split_and!; simpl; [done| |done].
    intros j w [[<- <-]|[? ?]]%lookup_insert_Some; eauto.
  - destruct (running s); [|done]. destruct Hs as (Hd & Hh & Hs). split_and!; simpl; [|done..].
    unfold Graceful.loop_turn. repeat case_match; done.
  - unfold handshake. destruct (handshakes s !! i) as [w|] eqn:Hi; [|done].
    assert (served tls (Loop (lp_name s) (running s) (graceful s) (delete i (handshakes s)) (serving s))).
    { destruct Hs as (Hd & Hh & Hs). split_and!; simpl; [done| |done].
      intros j w' [? ?]%lookup_delete_Some. eauto. }
    destruct ok; [|done]. apply served_serve; [done|].
    destruct Hs as (_ & Hh & _). by destruct (Hh _ _ Hi) as [-> ?].
  - destruct Hs as (Hd & Hh & Hs). unfold progress. split_and!; simpl; [|done|].
    + rewrite dom_poll, Hd. destruct ready; [by rewrite dom_delete_L|done].
    + intros j w. destruct ready; [intros [? ?]%lookup_delete_Some|]; eauto.
Qed.

(** Whatever happens to a listener, before its shutdown and after it, each connection it
    serves has a service that names the listener's protocol to the backend, and the wait of
    the shutdown is for exactly the connections being served and the loop. *)
Theorem listener_names_its_protocol tls l es1 es2 :
  let s := turns tls es2 (shut (turns tls es1 (start l))) in
  (∀ i w, serving s !! i = Some w → Wrapped.forwarded_proto IpAddr w = if tls then "https" else "http") ∧
  (Graceful.complete (graceful s) = true → serving s = ∅).
Proof.
  assert (∀ es s, served tls s → served tls (turns tls es s)) as Hes.
  { induction es as [|e es IH]; intros s Hs; [done|]. by apply IH, served_turn. }
  intros s. assert (served tls s) as (Hd & _ & Hs).
  { apply Hes. assert (served tls (turns tls es1 (start l))) as (Hd & Hh & Hs);
      [|split_and!; simpl; [|done..]; unfold Graceful.signal; by destruct (Graceful.complete _)].
    apply Hes. split_and!; simpl; [by rewrite !dom_empty_L|..]; intros ?? []%lookup_empty_Some. }
  split.
  - intros i w Hi. destruct (Hs i w Hi) as [ip ->]. by destruct tls.
  - unfold Graceful.complete. intros [He%bool_decide_eq_true _]%andb_true_iff.
    rewrite He, dom_empty_L in Hd. by apply dom_empty_inv_L.
Qed.
End Listen.

Section Examples.
#[local] Existing Instance ExampleProxy.list_http.
#[local] Existing Instance ExampleProxy.list_http_laws.

Lemma forwarded_headers_trusted_witness :
  let h := [("x-forwarded-for", "10.0.0.1"); ("accept", "*")] in
  ∃ h', Wrapped.call string (λ s, s) (Wrapped.https_service string "203.0.113.9") h = Some h' ∧
  named "x-forwarded-for" (hm_list h') = [("x-forwarded-for", "203.0.113.9")].
Proof.
  eexists. split; [reflexivity|].
  exact (proj1 (forwarded_headers_trusted (λ s, s) (Wrapped.https_service string "203.0.113.9")
    [("x-forwarded-for", "10.0.0.1"); ("accept", "*")] _ eq_refl)).
Defined.

Definition colon : ascii := ":".

(** Authorities as texts, and their host before a port. *)
#[local] Instance text_authorities : Authorities ExampleProxy.list_http := {|
  authority := string;
  authority_from_str := Some;
  authority_host := λ s, default s (fst <$> split_once colon s);
  authority_as_str := λ s, s;
  https_uri := λ a pq, (λ pq : @path_and_query ExampleProxy.list_http,
    "https://" +:+ a +:+ pq_path pq +:+ format_query (pq_query pq)) <$> pq
|}.

#[local] Instance text_authority_laws : AuthorityLaws text_authorities.
Proof. by split; [eexists|]. Qed.

Lemma redirect_spec_witness :
  Redirect.call (A := text_authorities) [("host", "plane.test:8080")] (Some "/a?b=c") =
    Some (Redirect.Response 301 (Some "https://plane.test/a?b=c")).
Proof.
  destruct (redirect_spec (A := text_authorities) [("host", "plane.test:8080")] "/a?b=c")
    as (r & Hc & Hr).
  etransitivity; [exact Hc|]. by rewrite (Hr eq_refl).
Defined.
End Examples.
End ForwardProps.
