(* ===== verification/Sockets.v ===== *)
(** * The connections between the controller and its nodes

    The tasks around the handlers: [DroneSocket], [ProxySocket] and [DnsSocket] are
    [drone_socket_inner], [proxy_socket_inner] and [dns_socket_inner] of
    [plane/src/controller/{drone,proxy,dns}.rs], with their start, their loops and their ends;
    [DroneConnection] and [ProxyTask] are the loops at the other end, of
    [plane/src/drone/{mod,heartbeat}.rs] and [plane/src/proxy/proxy_connection.rs].

    A task is a state and a [turn] of it on the database, one transaction at most, so that
    anything can happen between two turns. [System] runs any number of them. The counts of
    messages, which are only logged every minute, are left out. *)

From S2P Require Import Prelude Names BackendState Types Database Keys Backends Nodes.
From S2P Require Import Connect Invariant Safety NodeProps Controller StateStore KeyManager Drone Proxy.
From S2P Require Import ConnectProps BackendProps.
Import Db.

(** The parameters of a connection. *)
Record Peer := MkPeer { pe_controller : string; pe_cluster : option string; pe_ip : string }.

(** The answer to the handshake: the name, version and hash of the node. *)
Record Shake := MkShake { sh_name : string; sh_version : string; sh_hash : string }.

Definition register_peer (p : Peer) (h : Shake) (db : DB) : DB * result SqlError Controller.NodeHandle :=
  Controller.register_node (pe_controller p) (sh_name h) (sh_version h) (sh_hash h) (pe_cluster p)
    (pe_ip p) db.

(** ** Drones, at the controller *)

Module DroneSocket.
Section DroneSocket.
Context `{Ext : Externals}.

(** Where the task is: before [new_server], [register_node], [register_drone], the first
    [process_pending_actions], in the loop, after the end. *)
Inductive phase := Accepting | Registering (h : Shake) | RegisteringDrone | Listing | Running | Ended.

(** [guard] is dropped at the end of the task; [sweeping] whether its [sweep_loop] runs. *)
Record t := Mk { ph : phase; guard : option Controller.NodeHandle; sweeping : bool }.

Definition start : t := Mk Accepting None false.

Inductive event :=
  | Handshaken (h : option Shake)
  | Proceed (send_ok : bool)
  | Tick (send_ok : bool)
  | ActionNotified (a : option Protocol.BackendActionMessage) (send_ok : bool)
  | Received (m : option Protocol.MessageFromDrone) (send_ok : bool)
  | GuardDropped.

(** An error that is propagated: the handle of the sweep loop is dropped, not aborted. *)
Definition fail (s : t) : t := Mk Ended (guard s) (sweeping s).

(** The end of the loop. *)
Definition finish (s : t) : t := Mk Ended (guard s) false.

Definition node_id (s : t) : Z := from_option Controller.nh_id 0%Z (guard s).

(** [process_pending_actions], whose error ends the task. *)
Definition resend (send_ok : bool) (s : t) (db : DB) : DB * t * list Protocol.MessageToDrone :=
  match Controller.process_pending_actions (node_id s) send_ok db with
  | Ok l => (db, Mk Running (guard s) (sweeping s), l)
  | Err _ => (db, fail s, [])
  end.

(** A turn: the new state and what is sent to the drone. *)
Definition turn (p : Peer) (pool : string) (e : event) (s : t) (db : DB)
    : DB * t * list Protocol.MessageToDrone :=
  match ph s, e with
  | Accepting, Handshaken None => (db, fail s, [])
  | Accepting, Handshaken (Some h) => (db, Mk (Registering h) (guard s) (sweeping s), [])
  | Registering h, Proceed _ =>
      match register_peer p h db with
      | (db', Ok g) => (db', Mk RegisteringDrone (Some g) true, [])
      | (db', Err _) => (db', fail s, [])
      end
  | RegisteringDrone, Proceed _ =>
      match Drones.register_drone (node_id s) true pool db with
      | (db', Ok _) => (db', Mk Listing (guard s) (sweeping s), [])
      | (db', Err _) => (db', fail s, [])
      end
  | Listing, Proceed send_ok => resend send_ok s db
  | Running, Tick send_ok => resend send_ok s db
  | Running, ActionNotified (Some a) send_ok =>
      (db, s, Controller.send_logged send_ok (Protocol.TDAction a))
  | Running, ActionNotified None _ => (db, finish s, [])
  | Running, Received (Some m) send_ok =>
      match Controller.handle_message_from_drone m (node_id s) send_ok db with
      | (db', Ok l) => (db', s, l)
      | (db', Err _) => (db', s, [])
      end
  | Running, Received None _ => (db, finish s, [])
  | Ended, GuardDropped =>
      match guard s with
      | Some g => (Controller.drop_node_handle g db, Mk Ended None (sweeping s), [])
      | None => (db, s, [])
      end
  | _, _ => (db, s, [])
  end.

End DroneSocket.
End DroneSocket.

(** ** Proxies, at the controller *)

Module ProxySocket.
Section ProxySocket.
Context `{Ext : Externals}.

(** [Routing]: what is left of the queries of a route request, in the loop. *)
Inductive phase :=
  | Accepting
  | Registering (h : Shake)
  | Running
  | Routing (token : string) (p : prog (result Controller.HandlerError Controller.RouteOutcome))
  | Ended.

(** [waiting] are the spawned tasks that wait for a backend, by a name. *)
Record t := Mk {
  ph : phase;
  guard : option Controller.NodeHandle;
  waiting : gmap nat (string * Backends.PartialRouteInfo)
}.

Definition start : t := Mk Accepting None ∅.

Inductive event :=
  | Handshaken (h : option Shake)
  | Proceed (send_ok : bool) (waiter : nat)
  | Received (m : option Protocol.MessageFromProxy) (send_ok : bool)
  | StateNotified (n : option (option string * BackendState)) (send_ok : bool)
  | WaiterNotified (waiter : nat) (st : option BackendState) (send_ok : bool)
  | GuardDropped.

Definition fail (s : t) : t := Mk Ended (guard s) (waiting s).
Definition node_id (s : t) : Z := from_option Controller.nh_id 0%Z (guard s).

Definition route_response (token : string) (r : option Protocol.RouteInfo) : Protocol.MessageToProxy :=
  Protocol.TPRouteInfoResponse {| Protocol.rir_token := token; Protocol.rir_route_info := r |}.

(** The end of [handle_route_info_request]; [waiter] is a fresh name. *)
Definition routed (token : string) (r : result Controller.HandlerError Controller.RouteOutcome)
    (send_ok : bool) (waiter : nat) (s : t) : t * list Protocol.MessageToProxy :=
  match r with
  | Err _ => (fail s, [])
  | Ok Controller.NoReply => (Mk Running (guard s) (waiting s), [])
  | Ok (Controller.Replied r) =>
      (Mk Running (guard s) (waiting s), Controller.send_logged send_ok (route_response token r))
  | Ok (Controller.Waiting p) => (Mk Running (guard s) (<[waiter := (token, p)]> (waiting s)), [])
  end.

(** A waiting task after one notification; [None] is its timeout or the end of the
    subscription. It goes on after the end of the socket's task. *)
Definition waiter_turn (waiter : nat) (st : option BackendState) (send_ok : bool) (s : t)
    : t * list Protocol.MessageToProxy :=
  match waiting s !! waiter, st with
  | None, _ => (s, [])
  | Some _, None => (Mk (ph s) (guard s) (delete waiter (waiting s)), [])
  | Some (token, p), Some st =>
      match Controller.await_ready p [st] with
      | Some r =>
          (Mk (ph s) (guard s) (delete waiter (waiting s)),
           Controller.send_logged send_ok (route_response token r))
      | None => (s, [])
      end
  end.

Definition turn (p : Peer) (e : event) (s : t) (db : DB)
    : DB * t * list Protocol.MessageToProxy :=
  match ph s, e with
  | _, WaiterNotified waiter st send_ok =>
      let '(s', l) := waiter_turn waiter st send_ok s in (db, s', l)
  | Accepting, Handshaken None => (db, fail s, [])
  | Accepting, Handshaken (Some h) => (db, Mk (Registering h) (guard s) (waiting s), [])
  | Registering h, Proceed _ _ =>
      match register_peer p h db with
      | (db', Ok g) => (db', Mk Running (Some g) (waiting s), [])
      | (db', Err _) => (db', fail s, [])
      end
  | Routing token (Ret r), Proceed send_ok waiter =>
      let '(s', l) := routed token r send_ok waiter s in (db, s', l)
  | Routing token (Step f), Proceed send_ok _ =>
      let '(db', k) := f db in (db', Mk (Routing token k) (guard s) (waiting s), [])
  | Running, Received None _ => (db, fail s, [])
  | Running, Received (Some (Protocol.PRouteInfoRequest token)) _ =>
      (db, Mk (Routing token (Controller.handle_route_info_request token)) (guard s) (waiting s), [])
  | Running, Received (Some (Protocol.PKeepAlive backend)) send_ok =>
      match Controller.handle_keepalive backend send_ok db with
      | (db', Ok l) => (db', s, l)
      | (db', Err _) => (db', fail s, [])
      end
  | Running, Received (Some (Protocol.PCertManagerRequest r)) send_ok =>
      let '(db', l) :=
        Controller.handle_cert_manager_request r (default "" (pe_cluster p)) (node_id s) send_ok db in
      (db', s, l)
  | Running, StateNotified (Some (key, st)) send_ok =>
      match Controller.forward_backend_state key st with
      | Some m => if send_ok then (db, s, [m]) else (db, fail s, [])
      | None => (db, s, [])
      end
  | Ended, GuardDropped =>
      match guard s with
      | Some g => (Controller.drop_node_handle g db, Mk Ended None (waiting s), [])
      | None => (db, s, [])
      end
  | _, _ => (db, s, [])
  end.

End ProxySocket.
End ProxySocket.

(** ** DNS servers, at the controller *)

Module DnsSocket.
Section DnsSocket.
Context `{Ext : Externals}.

Inductive phase := Accepting | Registering (h : Shake) | Running | Ended.

Record t := Mk { ph : phase; guard : option Controller.NodeHandle }.

Definition start : t := Mk Accepting None.

(** [db_ok]: the query of the record does not fail. *)
Inductive event :=
  | Handshaken (h : option Shake)
  | Proceed
  | Received (m : option Protocol.MessageFromDns) (db_ok send_ok : bool)
  | GuardDropped.

Definition turn (p : Peer) (e : event) (s : t) (db : DB) : DB * t * list Protocol.MessageToDns :=
  match ph s, e with
  | Accepting, Handshaken None => (db, Mk Ended (guard s), [])
  | Accepting, Handshaken (Some h) => (db, Mk (Registering h) (guard s), [])
  | Registering h, Proceed =>
      match register_peer p h db with
      | (db', Ok g) => (db', Mk Running (Some g), [])
      | (db', Err _) => (db', Mk Ended (guard s), [])
      end
  | Running, Received (Some m) db_ok send_ok =>
      (db, s, if db_ok then Controller.handle_message_from_dns m send_ok db else [])
  | Running, Received None _ _ => (db, Mk Ended (guard s), [])
  | Ended, GuardDropped =>
      match guard s with
      | Some g => (Controller.drop_node_handle g db, Mk Ended None, [])
      | None => (db, s, [])
      end
  | _, _ => (db, s, [])
  end.

End DnsSocket.
End DnsSocket.

(** ** The other ends *)

(** [random_reconnect_interval]; [jitter] is the random number of seconds, from -600 to 600. *)
Definition BASE_SECONDS : Z := 60 * 60.
Definition JITTER_SECONDS : Z := 10 * 60.
Definition random_reconnect_interval (jitter : Z) : Z := from_secs (BASE_SECONDS + jitter).

(** [drone_loop] and its heartbeats. *)
Module DroneConnection.

(** [connection] numbers the connections; [open] is the time of the periodic reconnection while
    there is one; [beat_at] is when the heartbeat loop sends next; [handlers] are the spawned
    calls of [handle_message], each with the connection it answers on. *)
Record t := Mk {
  drone : DroneLoop.Drone;
  connection : nat;
  open : option Z;
  beat_at : option Z;
  handlers : list (nat * Protocol.MessageToDrone)
}.

Definition start (d : DroneLoop.Drone) : t := Mk d 0 None None [].

(** [Connected]: [connect_with_retry] returns. [Handle i]: the [i]-th handler runs, with the
    answer of the runtime. [Completed] and [Exited] are what the executor does besides: the task of
    a backend gets the answer of the runtime, and a container exits. *)
Inductive event :=
  | Connected (now jitter : Z)
  | Beat (now : Z)
  | ReconnectDue (now : Z)
  | Received (m : option Protocol.MessageToDrone)
  | Handle (i : nat) (rt : result string bool) (now : Z)
  | Completed (backend : string) (ip : IpAddr) (a : BackendManager.RuntimeAnswer) (now : Z)
  | Exited (backend : string) (code : option Z) (now : Z).

(** Leaving the inner loop: the guard of the heartbeat loop is dropped. *)
Definition disconnect (s : t) : t := Mk (drone s) (connection s) None None (handlers s).

(** A pass of [HeartbeatLoop], which runs until its guard is dropped. *)
Definition beat (now : Z) (s : t) : t * list Protocol.MessageFromDrone :=
  match beat_at s with
  | Some t =>
      if (t <=? now)%Z then
        (Mk (drone s) (connection s) (open s)
           (Some (now + HeartbeatConsts.HEARTBEAT_INTERVAL)%Z) (handlers s),
         [Protocol.MHeartbeat {| Protocol.hb_local_time := now |}])
      else (s, [])
  | None => (s, [])
  end.

(** Acknowledgements of actions are sent by the handler, on the connection of its message;
    events are forwarded on the connection there is. *)
Definition not_ack (m : Protocol.MessageFromDrone) : bool :=
  match m with Protocol.MAckAction _ => false | _ => true end.

(** The listener of the connection gets the events of an executor; without a connection their
    sending fails. *)
Definition notified (r : Executor.Executor * list Protocol.BackendStateMessage) (s : t)
    : t * list Protocol.MessageFromDrone :=
  let '(d, l) := DroneLoop.forward (drone s) r.1 r.2 in
  (Mk d (connection s) (open s) (beat_at s) (handlers s), if open s then l else []).

Definition turn (e : event) (s : t) : t * list Protocol.MessageFromDrone :=
  match e with
  | Connected now jitter =>
      match open s with
      | Some _ => (s, [])
      | None =>
          let n := S (connection s) in
          match DroneLoop.connected (drone s) with
          | (d, Ok l) =>
              (Mk d n (Some (now + random_reconnect_interval jitter)%Z) (Some now) (handlers s), l)
          | (d, Err _) => (Mk d n None None (handlers s), [])
          end
      end
  | Beat now => beat now s
  | ReconnectDue now =>
      match open s with
      | Some t => if (t <=? now)%Z then (disconnect s, []) else (s, [])
      | None => (s, [])
      end
  | Received (Some m) =>
      match open s with
      | Some _ =>
          (Mk (drone s) (connection s) (open s) (beat_at s) (handlers s ++ [(connection s, m)]), [])
      | None => (s, [])
      end
  | Received None => (if open s then disconnect s else s, [])
  | Handle i rt now =>
      match handlers s !! i with
      | None => (s, [])
      | Some (n, m) =>
          let '(d, l) := DroneLoop.handle_message m rt now (drone s) in
          (Mk d (connection s) (open s) (beat_at s) (delete i (handlers s)),
           if open s then if decide (n = connection s) then l else filter (λ m, not_ack m = true) l
           else [])
      end
  | Completed backend ip a now =>
      notified (Executor.task_completed backend ip a now (DroneLoop.dr_executor (drone s))) s
  | Exited backend code now =>
      notified (Executor.container_exited backend code now (DroneLoop.dr_executor (drone s))) s
  end.

End DroneConnection.

(** [ProxyConnection::new]. *)
Module ProxyTask.
Section ProxyTask.
Context `{Lru : LruCache}.

(** [ready] is what [set_ready] sets; [certs] the responses passed to the certificate
    manager. *)
Record t := Mk {
  state : ProxyConnection.State;
  ready : bool;
  open : option Z;
  certs : list Protocol.CertManagerResponse
}.

Inductive event :=
  | Connected (now jitter : Z)
  | ReconnectDue (now : Z)
  | Received (m : option Protocol.MessageToProxy).

Definition disconnect (s : t) : t := Mk (state s) false None (certs s).

(** The second component is the woken lookups. *)
Definition turn (e : event) (s : t) : t * list nat :=
  match e, open s with
  | Connected now jitter, None =>
      (Mk (ProxyConnection.connected (state s)) true
         (Some (now + random_reconnect_interval jitter)%Z) (certs s), [])
  | ReconnectDue now, Some t => (if (t <=? now)%Z then disconnect s else s, [])
  | Received None, Some _ => (disconnect s, [])
  | Received (Some m), Some _ =>
      let '(st, woken) := ProxyConnection.handle_message m (state s) in
      (Mk st (ready s) (open s)
         (match m with Protocol.TPCertManagerResponse r => certs s ++ [r] | _ => certs s end), woken)
  | _, _ => (s, [])
  end.

End ProxyTask.
End ProxyTask.

(** ** All connections of a database *)

Module System.
Section System.
Context `{Ext : Externals}.

(** [past] are the events that were ever in the table; [sent] what was sent to drones, with the
    node of the connection. *)
Record sys := Sys {
  db : DB;
  past : list event_row;
  drones : gmap nat (Peer * string * DroneSocket.t);
  proxies : gmap nat (Peer * ProxySocket.t);
  dns : gmap nat (Peer * DnsSocket.t);
  sent : list (Z * Protocol.MessageToDrone)
}.

Definition start (now : Z) : sys := Sys (empty_db now) [] ∅ ∅ ∅ [].

Definition with_db (d : DB) (s : sys) : sys :=
  Sys d (past s ++ events d) (drones s) (proxies s) (dns s) (sent s).

(** A subscription yields payloads of events with its key. *)
Definition drone_event_ok (s : sys) (c : DroneSocket.t) (e : DroneSocket.event) : Prop :=
  match e with
  | DroneSocket.ActionNotified (Some a) _ =>
      ∃ ev, ev ∈ past s ∧ e_key ev = Some (Actions.node_key (DroneSocket.node_id c)) ∧
        e_data ev = PlAction a
  | _ => True
  end.

Definition proxy_event_ok (s : sys) (e : ProxySocket.event) : Prop :=
  match e with
  | ProxySocket.StateNotified (Some (key, st)) _ =>
      ∃ ev, ev ∈ past s ∧ e_key ev = key ∧ e_data ev = PlState st
  | _ => True
  end.

Inductive step (s : sys) : sys → Prop :=
| sys_other d : Invariant.step (db s) d → step s (with_db d s)
| sys_drone_opens i p pool : drones s !! i = None →
    step s (Sys (db s) (past s) (<[i := (p, pool, DroneSocket.start)]> (drones s)) (proxies s)
              (dns s) (sent s))
| sys_proxy_opens i p : proxies s !! i = None →
    step s (Sys (db s) (past s) (drones s) (<[i := (p, ProxySocket.start)]> (proxies s))
              (dns s) (sent s))
| sys_dns_opens i p : dns s !! i = None →
    step s (Sys (db s) (past s) (drones s) (proxies s) (<[i := (p, DnsSocket.start)]> (dns s)) (sent s))
| sys_drone i p pool c e d c' l :
    drones s !! i = Some (p, pool, c) → drone_event_ok s c e →
    DroneSocket.turn p pool e c (db s) = (d, c', l) →
    step s (Sys d (past s ++ events d) (<[i := (p, pool, c')]> (drones s)) (proxies s) (dns s)
              (sent s ++ ((λ m, (DroneSocket.node_id c, m)) <$> l)))
| sys_proxy i p c e d c' l :
    proxies s !! i = Some (p, c) → proxy_event_ok s e →
    ProxySocket.turn p e c (db s) = (d, c', l) →
    step s (Sys d (past s ++ events d) (drones s) (<[i := (p, c')]> (proxies s)) (dns s) (sent s))
| sys_dns i p c e d c' l :
    dns s !! i = Some (p, c) → DnsSocket.turn p e c (db s) = (d, c', l) →
    step s (Sys d (past s ++ events d) (drones s) (proxies s) (<[i := (p, c')]> (dns s)) (sent s)).

Definition reachable (s : sys) : Prop := ∃ now, rtc step (start now) s.

End System.
End System.
