(* ===== verification/SocketProps.v ===== *)
(** * Properties of the connections

    The tasks of the connections only make the steps of [Invariant.step]; pending actions
    reach their drone; a proxy forgets a backend that has terminated. *)

From S2P Require Import Prelude Names BackendState Types Database Keys Backends Nodes.
From S2P Require Import Connect Invariant Scenario Changes Safety NodeProps BackendProps ConnectProps.
From S2P Require Import Controller StateStore KeyManager Drone Proxy ProxyProps Sockets.
Import Db.

Section SocketProps.
Context `{Ext : Externals}.

(** ** The tasks make steps of the database *)

(** Nothing, or a step. *)
Definition quiet_step (db db' : DB) : Prop := db' = db ∨ step db db'.

Lemma quiet_reachable db db' : quiet_step db db' → reachable db → reachable db'.
Proof. intros [->|Hs] Hr; [done|]. by eapply reachable_step. Qed.

Lemma drone_message_step m id ok db :
  quiet_step db (Controller.handle_message_from_drone m id ok db).1.
Proof.
  right. destruct m as [h|e|m|a|r]; cbn [Controller.handle_message_from_drone].
  - apply step_drone_heartbeat.
  - pose proof (step_update_state db (Protocol.bsm_backend_id e) (Protocol.bsm_state e)).
    by destruct (Backends.update_state _ _ db) as [d []].
  - pose proof (step_metrics db m). by destruct (Backends.publish_metrics m db) as [d []].
  - apply step_ack_action.
  - pose proof (step_renew_key db (Protocol.rkr_backend r)). by destruct (Keys.renew_key _ db) as [d []].
Qed.

Lemma register_peer_step p h db : quiet_step db (register_peer p h db).1.
Proof.
  unfold register_peer, Controller.register_node.
  destruct (Names.AnyNodeName_try_from _) as [name|e]; [|by left]. right.
  pose proof (step_register_node db (pe_cluster p) name (Names.AnyNodeName_kind name) (pe_controller p)
    (sh_version h) (sh_hash h) (pe_ip p)) as Hs.
  by destruct (Nodes.register _ _ _ _ _ _ _ _) as [d [[id t]|e]].
Qed.

Lemma drop_guard_step g db : quiet_step db (Controller.drop_node_handle g db).
Proof. right. constructor. Qed.

Lemma resend_db ok s db : (DroneSocket.resend ok s db).1.1 = db.
Proof. unfold DroneSocket.resend. by destruct (Controller.process_pending_actions _ _ _). Qed.

Lemma drone_turn_step p pool e s db : quiet_step db (DroneSocket.turn p pool e s db).1.1.
Proof.
  unfold DroneSocket.turn. destruct (DroneSocket.ph s), e; try by left.
  all: repeat match goal with
    | |- context [DroneSocket.resend] => rewrite resend_db; by left
    | |- context [Controller.drop_node_handle] =>
        destruct (DroneSocket.guard s); [apply drop_guard_step|by left]
    | |- context [register_peer ?p ?h ?d] =>
        pose proof (register_peer_step p h d); destruct (register_peer p h d) as [? []]; done
    | |- context [Drones.register_drone ?i ?r ?q ?d] =>
        pose proof (step_register_drone d i r q); destruct (Drones.register_drone i r q d) as [? []]; by right
    | |- context [Controller.handle_message_from_drone ?m ?i ?o ?d] =>
        pose proof (drone_message_step m i o d);
        destruct (Controller.handle_message_from_drone m i o d) as [? []]; done
    | |- context [match ?o with Some _ => _ | None => _ end] => destruct o; try by left
    end.
Qed.

Lemma keepalive_step b ok db : quiet_step db (Controller.handle_keepalive b ok db).1.
Proof.
  right. unfold Controller.handle_keepalive. pose proof (step_keepalive db b).
  by destruct (Backends.update_keepalive b db) as [d [[]|]].
Qed.

Lemma cert_step r c n ok db : quiet_step db (Controller.handle_cert_manager_request r c n ok db).1.
Proof.
  right. destruct r as [|txt|]; cbn [Controller.handle_cert_manager_request]; [..|constructor].
  - pose proof (step_lease db c n). by destruct (Acme.lease_cluster_dns c n db).
  - pose proof (step_set_dns db c n txt). by destruct (Acme.set_cluster_dns c n txt db).
Qed.

(** What is left of a route request only reads. *)
Fixpoint reads {A} (n : nat) (p : prog A) : Prop :=
  match n, p with
  | _, Ret _ => True
  | S n, Step f => ∀ db, (f db).1 = db ∧ reads n (f db).2
  | O, Step _ => False
  end.

Lemma route_request_reads token : reads 2 (Controller.handle_route_info_request token).
Proof.
  unfold Controller.handle_route_info_request, act, read. simpl. intros db. split; [done|].
  simpl. destruct (Backends.route_info_for_token token db) as [[]|]; simpl; try done.
Qed.

Lemma reads_S {A} n (p : prog A) : reads n p → reads (S n) p.
Proof. revert p. induction n as [|n IH]; intros [a|f]; try done. intros H db. destruct (H db). auto. Qed.

Definition proxy_ok (s : ProxySocket.t) : Prop :=
  match ProxySocket.ph s with ProxySocket.Routing _ p => reads 2 p | _ => True end.

Lemma waiter_phase w st ok s :
  ProxySocket.ph (ProxySocket.waiter_turn w st ok s).1 = ProxySocket.ph s.
Proof. unfold ProxySocket.waiter_turn. by repeat case_match. Qed.

Lemma routed_ok token r ok w s : proxy_ok (ProxySocket.routed token r ok w s).1.
Proof. unfold ProxySocket.routed. by repeat case_match. Qed.

Lemma proxy_turn_step p e s db :
  proxy_ok s → quiet_step db (ProxySocket.turn p e s db).1.1 ∧ proxy_ok (ProxySocket.turn p e s db).1.2.
Proof.
  intros Hs. unfold ProxySocket.turn.
  assert (proxy_ok (ProxySocket.fail s)) by done.
  assert (∀ w st ok, proxy_ok (ProxySocket.waiter_turn w st ok s).1) as Hw.
  { intros. unfold proxy_ok. by rewrite waiter_phase. }
  destruct e as [h|ok w|m ok|n ok|w st ok|].
  5: { pose proof (Hw w st ok) as Hk. destruct (ProxySocket.waiter_turn w st ok s).
       destruct (ProxySocket.ph s) as [| | |? []|]; (split; [by left|exact Hk]). }
  all: unfold proxy_ok in Hs |- *; destruct (ProxySocket.ph s) as [|h'| |token q|] eqn:Hph;
    try destruct q as [r|f]; try (split; [by left|cbn [fst snd]; by rewrite ?Hph]).
  - destruct h; (split; [by left|done]).
  - pose proof (register_peer_step p h' db) as H0. destruct (register_peer p h' db) as [? []]; done.
  - pose proof (routed_ok token r ok w s). destruct (ProxySocket.routed token r ok w s).
    split; [by left|done].
  - specialize (Hs db) as [Hd Hq]. destruct (f db) as [d k]. split; [left; exact Hd|].
    by apply reads_S.
  - destruct m as [[token|b|r]|]; cbn [fst snd]; try (split; [by left|done]).
    + split; [by left|apply route_request_reads].
    + pose proof (keepalive_step b ok db). destruct (Controller.handle_keepalive b ok db) as [d []];
        (split; [done|]); cbn [fst snd]; by rewrite ?Hph.
    + pose proof (cert_step r (default "" (pe_cluster p)) (ProxySocket.node_id s) ok db).
      destruct (Controller.handle_cert_manager_request _ _ _ _ _). split; [done|].
      cbn [fst snd]. by rewrite Hph.
  - destruct n as [[key st]|]; [|split; [by left|cbn [fst snd]; by rewrite Hph]].
    destruct (Controller.forward_backend_state key st), ok;
      (split; [by left|cbn [fst snd]; by rewrite ?Hph]).
  - destruct (ProxySocket.guard s); (split; [|cbn [fst snd]; by rewrite ?Hph]);
      [apply drop_guard_step|by left].
Qed.

Lemma dns_turn_step p e s db : quiet_step db (DnsSocket.turn p e s db).1.1.
Proof.
  unfold DnsSocket.turn. destruct (DnsSocket.ph s) as [|h| |], e as [h'| |m|]; try by left.
  - destruct h'; by left.
  - pose proof (register_peer_step p h db). by destruct (register_peer p h db) as [? []].
  - destruct m; by left.
  - destruct (DnsSocket.guard s); [apply drop_guard_step|by left].
Qed.

(** ** Actions are sent to their drone *)

(** Events of actions have the drone as their key. *)
Definition action_event_ok (e : event_row) : Prop :=
  ∀ m, e_data e = PlAction m → e_key e = Some (Actions.node_key (Protocol.bam_drone_id m)).

Definition events_grow (db db' : DB) : Prop := ∀ e, e ∈ events db' → e ∈ events db ∨ action_event_ok e.

Lemma events_grow_same db db' : events db' = events db → events_grow db db'.
Proof. intros H e. rewrite H. by left. Qed.

Lemma events_grow_trans db1 db2 db3 : events_grow db1 db2 → events_grow db2 db3 → events_grow db1 db3.
Proof. intros H1 H2 e [He|He]%H2; [by apply H1|by right]. Qed.

Lemma events_grow_emit key pl db db' u :
  (∀ m, pl = PlAction m → key = Some (Actions.node_key (Protocol.bam_drone_id m))) →
  emit_impl key pl db = Ok (db', u) → events_grow db db'.
Proof.
  intros Hk. unfold emit_impl. intros [= <-] e. simpl. intros [?| ->%list_elem_of_singleton]%elem_of_app; [by left|].
  right. intros m. simpl. apply Hk.
Qed.

Lemma create_action_txn_events aid id drone a db db' u :
  Actions.create_pending_action_txn aid id drone a db = Ok (db', u) → events_grow db db'.
Proof.
  unfold Actions.create_pending_action_txn, txn_bind. destruct (emit_with_key _ _ db) as [[d []]|] eqn:He;
    [|done].
  unfold Actions.insert_action. intros Hd. apply (events_grow_trans _ d).
  - eapply events_grow_emit; [|exact He]. by intros m [= <-].
  - apply events_grow_same. repeat case_match; try done. by injection Hd as <-.
Qed.

Lemma emit_state_change_events id st db db' u :
  emit_state_change id st db = Ok (db', u) → events_grow db db'.
Proof.
  rewrite emit_state_change_eq. destruct (backends db !! id); [|done]. intros [= <-] e. simpl.
  intros [?| ->%list_elem_of_singleton]%elem_of_app; [by left|]. by right.
Qed.

Lemma step_events db db' : step db db' → events_grow db db'.
Proof.
  destruct 1; try (by apply events_grow_same).
  - rewrite update_state_eq. destruct (backends db !! id); [|by apply events_grow_same].
    destruct (Backends.accepts _ _); [|by apply events_grow_same]. intros e. simpl.
    intros [?| ->%list_elem_of_singleton]%elem_of_app; [by left|]. by right.
  - apply events_grow_same. unfold Backends.update_keepalive. by crush_match.
  - apply events_grow_same. unfold Backends.cleanup, Backends.cleanup_txn, run_txn. by crush_match.
  - apply events_grow_same. unfold Keys.prevent_renew. by crush_match.
  - apply events_grow_same. unfold Keys.remove_key. by crush_match.
  - apply events_grow_same. unfold Keys.renew_key. by crush_match.
  - unfold Actions.create_pending_action, run_txn.
    destruct (Actions.create_pending_action_txn _ _ _ _ db) as [[? []]|] eqn:E;
      [by eapply create_action_txn_events|by apply events_grow_same].
  - apply events_grow_same. unfold Actions.ack_pending_action. by crush_match.
  - unfold Connect.create_backend_with_key.
    destruct (Connect.lifetime _) as [life|]; [|by apply events_grow_same].
    destruct (Connect.insert_backend_with_key _ _ _ db) as [[db1 token]|] eqn:Hins; [|by apply events_grow_same].
    apply insert_backend_with_key_Ok in Hins as (_ & _ & _ & _ & Hdb1).
    destruct (emit_state_change _ _ _) as [[db2 []]|] eqn:Hem; [|by apply events_grow_same].
    destruct (Actions.create_pending_action_txn _ _ _ _ db2) as [[db3 []]|] eqn:Hact; [|by apply events_grow_same].
    apply (events_grow_trans _ db1); [apply events_grow_same; by rewrite Hdb1|].
    apply (events_grow_trans _ db2); [by eapply emit_state_change_events|].
    by eapply create_action_txn_events.
  - apply events_grow_same. unfold Connect.create_token. by crush_match.
  - intros e. unfold clean_up_events. simpl. intros [_ ?]%list_elem_of_filter. by left.
  - unfold Nodes.register, Nodes.register_txn, run_txn.
    destruct (controllers db !! co); [|by apply events_grow_same].
    destruct (match Nodes.conflicting_node cl _ db with Some _ => _ | None => _ end). intros e. simpl.
    intros [?| ->%list_elem_of_singleton]%elem_of_app; [by left|]. by right.
  - unfold Nodes.mark_offline, Nodes.mark_offline_txn, run_txn, txn_bind. simpl. intros e He.
    assert (e ∈ events db ++ [MkEvent (event_seq db) "node_connection" None (clock db) (PlNode id false)])
      as [?| ->%list_elem_of_singleton]%elem_of_app.
    { revert He. by crush_match. }
    + by left.
    + by right.
  - apply events_grow_same. unfold Drones.register_drone. by crush_match.
  - apply events_grow_same. unfold Drones.drain. by crush_match.
  - apply events_grow_same. unfold Drones.heartbeat. by crush_match.
  - apply events_grow_same. unfold Acme.lease_cluster_dns, Acme.write_lease. by crush_match.
  - apply events_grow_same. unfold Acme.set_cluster_dns. by crush_match.
  - apply events_grow_same. unfold Acme.release_cluster_lease. by crush_match.
Qed.

Lemma process_pending_spec id ok db l :
  reachable db → Controller.process_pending_actions id ok db = Ok l →
  ∃ rows, l = Protocol.TDAction <$> rows ∧
    Actions.pending_actions id Controller.pending_actions_limit db = Ok rows.
Proof.
  unfold Controller.process_pending_actions. intros Hr.
  destruct (Actions.pending_actions _ _ db) as [rows|]; [|done].
  destruct rows as [|r rows]; [intros [= <-]; by exists []|].
  destruct ok; [|done]. intros [= <-]. by exists (r :: rows).
Qed.

Lemma pending_actions_drone id limit db rows m :
  reachable db → Actions.pending_actions id limit db = Ok rows → m ∈ rows →
  Protocol.bam_drone_id m = id.
Proof.
  intros Hr Hp Hm. destruct (pending_actions_correct id limit db Hr) as (r & Hr' & _ & _ & Hall & _).
  rewrite Hp in Hr'. injection Hr' as ->. apply list_elem_of_fmap in Hm as ([[i a] m'] & -> & Hin).
  by destruct (Hall i a m' Hin) as (_ & _ & _ & _ & ?).
Qed.

Lemma resend_actions ok c db m :
  reachable db → Protocol.TDAction m ∈ (DroneSocket.resend ok c db).2 →
  Protocol.bam_drone_id m = DroneSocket.node_id c.
Proof.
  intros Hr. unfold DroneSocket.resend.
  destruct (Controller.process_pending_actions _ ok db) as [l|] eqn:Hp; [|by intros ?%not_elem_of_nil].
  destruct (process_pending_spec _ _ _ _ Hr Hp) as (rows & -> & Hrows). simpl.
  intros (m' & [= <-] & Hm)%list_elem_of_fmap. by eapply pending_actions_drone.
Qed.

Lemma drone_reply_no_action msg id ok db d l m :
  Controller.handle_message_from_drone msg id ok db = (d, Ok l) → Protocol.TDAction m ∉ l.
Proof.
  assert (∀ r, match r with Protocol.TDAction _ => False | _ => True end → ∀ l,
    Controller.send (M := Protocol.MessageToDrone) ok r = Ok l → Protocol.TDAction m ∉ l) as Hsend.
  { intros r Hr l'. unfold Controller.send. destruct ok; [|done]. intros [= <-] H%list_elem_of_singleton.
    by subst r. }
  destruct msg; cbn [Controller.handle_message_from_drone].
  1, 4: by intros [= <- <-] ?%not_elem_of_nil.
  - destruct (Backends.update_state _ _ db) as [? []]; [|done]. intros [= <- H]. revert H. by apply Hsend.
  - destruct (Backends.publish_metrics _ db) as [? []]; [|done]. by intros [= <- <-] ?%not_elem_of_nil.
  - destruct (Keys.renew_key _ db) as [? []]; [|done]. intros [= <- H]. revert H. by apply Hsend.
Qed.

Import System.

Lemma drone_turn_actions s p pool c e d c' l m :
  Invariant.reachable (db s) → (∀ ev, ev ∈ past s → action_event_ok ev) → drone_event_ok s c e →
  DroneSocket.turn p pool e c (db s) = (d, c', l) → Protocol.TDAction m ∈ l →
  Protocol.bam_drone_id m = DroneSocket.node_id c.
Proof.
  intros Hr Hp He Ht Hm. assert (Protocol.TDAction m ∈ (DroneSocket.turn p pool e c (db s)).2) as H by by rewrite Ht.
  clear Ht Hm. revert H. unfold DroneSocket.turn.
  destruct (DroneSocket.ph c), e as [h0|ok|ok|a ok|msg ok|]; try by intros ?%not_elem_of_nil.
  - destruct h0; by intros ?%not_elem_of_nil.
  - destruct (register_peer _ _ _) as [? []]; by intros ?%not_elem_of_nil.
  - destruct (Drones.register_drone _ _ _ _) as [? []]; by intros ?%not_elem_of_nil.
  - by apply resend_actions.
  - by apply resend_actions.
  - destruct a as [a|]; [|by intros ?%not_elem_of_nil]. simpl. unfold Controller.send_logged.
    destruct ok; [|by intros ?%not_elem_of_nil]. intros [= ->]%list_elem_of_singleton.
    destruct He as (ev & Hev & Hk & Hd). pose proof (Hp _ Hev _ Hd) as Hk'.
    rewrite Hk in Hk'. injection Hk' as Hk'. symmetry. unfold Actions.node_key in Hk'. by simplify_eq.
  - destruct msg as [msg|]; [|by intros ?%not_elem_of_nil].
    destruct (Controller.handle_message_from_drone _ _ _ _) as [? [l'|]] eqn:Hh; [|by intros ?%not_elem_of_nil].
    simpl. intros H. by destruct (drone_reply_no_action _ _ _ _ _ _ m Hh).
  - destruct (DroneSocket.guard c); by intros ?%not_elem_of_nil.
Qed.

Record sys_ok (s : sys) : Prop := {
  so_db : Invariant.reachable (db s);
  so_past : ∀ ev, ev ∈ past s ∨ ev ∈ events (db s) → action_event_ok ev;
  so_proxies : ∀ i p c, proxies s !! i = Some (p, c) → proxy_ok c;
  so_sent : ∀ n m, (n, Protocol.TDAction m) ∈ sent s → Protocol.bam_drone_id m = n
}.

(** The parts of [sys_ok] that depend on the database. *)
Lemma past_grows s d :
  sys_ok s → quiet_step (db s) d →
  Invariant.reachable d ∧ ∀ ev, ev ∈ past s ++ events d ∨ ev ∈ events d → action_event_ok ev.
Proof.
  intros Hs Hd. split; [by eapply quiet_reachable, (so_db _ Hs)|].
  assert (events_grow (db s) d) as Hg.
  { destruct Hd as [->|Hd]; [by apply events_grow_same|by apply step_events]. }
  intros ev Hev. assert (ev ∈ past s ∨ ev ∈ events d) as [?|[?|?]%Hg] by set_solver.
  - apply (so_past _ Hs). by left.
  - apply (so_past _ Hs). by right.
  - done.
Qed.

Lemma sys_ok_step s s' : sys_ok s → System.step s s' → sys_ok s'.
Proof.
  intros Hs Hst. destruct Hst as [d Hd|i p pool Hi|i p Hi|i p Hi|i p pool c e d c' l Hi He Ht
    |i p c e d c' l Hi He Ht|i p c e d c' l Hi Ht].
  - destruct (past_grows s d Hs) as [? ?]; [by right|]. by constructor; try apply Hs.
  - by constructor; try apply Hs.
  - constructor; try apply Hs. intros j p' c. simpl.
    intros [[_ [= <- <-]]|[_ ?]]%lookup_insert_Some; [done|by eapply so_proxies].
  - by constructor; try apply Hs.
  - destruct (past_grows s d Hs) as [? ?].
    { pose proof (drone_turn_step p pool e c (db s)) as H. by rewrite Ht in H. }
    constructor; try done; simpl; [apply Hs|].
    intros n m [?|(m' & [= -> <-] & Hm)%list_elem_of_fmap]%elem_of_app; [by apply (so_sent _ Hs)|].
    eapply drone_turn_actions; [apply Hs| |done..]. intros ev ?. apply (so_past _ Hs). by left.
  - destruct (proxy_turn_step p e c (db s)) as [Hq Hc]; [by eapply so_proxies|]. rewrite Ht in Hq, Hc.
    destruct (past_grows s d Hs Hq) as [? ?]. constructor; try done; simpl; [|apply Hs].
    intros j p' c0 [[_ [= <- <-]]|[_ ?]]%lookup_insert_Some; [done|by eapply so_proxies].
  - destruct (past_grows s d Hs) as [? ?].
    { pose proof (dns_turn_step p e c (db s)) as H. by rewrite Ht in H. }
    by constructor; try apply Hs.
Qed.

(** C26. Any number of connections of drones, proxies and DNS servers, with anything else in
    between, only makes the steps of the database, so that its invariants hold at all times; and
    an action is sent only on connections of the drone that it is for. *)
Theorem connections_refine_steps s :
  reachable s →
  Invariant.reachable (db s) ∧ wf (db s) ∧
  ∀ n m, (n, Protocol.TDAction m) ∈ sent s → Protocol.bam_drone_id m = n.
Proof.
  intros [now Hr]. assert (sys_ok s) as Hs.
  { assert (sys_ok (start now)) as H0.
    { constructor; simpl; [by exists now|by intros ev [?%not_elem_of_nil|?%not_elem_of_nil]|
        |by intros n m ?%not_elem_of_nil]. by intros i p c ?%lookup_empty_Some. }
    revert H0. induction Hr as [|s1 s2 s3 H1 _ IH]; intros H0; [done|]. by eapply IH, sys_ok_step. }
  split_and!; [apply Hs|apply reachable_wf, Hs|apply Hs].
Qed.


(** ** Pending actions reach their drone *)

(** The ids of the actions that a drone has not acknowledged. *)
Definition unacked (drone : Z) (d : DB) : gset string :=
  dom (filter (Actions.is_pending drone) (actions d)).

Lemma elem_of_unacked drone d i :
  i ∈ unacked drone d ↔ ∃ a, actions d !! i = Some a ∧ a_drone_id a = drone ∧ a_acked_at a = None.
Proof.
  unfold unacked. rewrite elem_of_dom. split.
  - by intros [a [? [? ?]]%map_lookup_filter_Some]; eauto.
  - intros (a & ? & ? & ?). exists a. by apply map_lookup_filter_Some.
Qed.

Lemma pending_rows_ids drone limit d :
  let ids := (Actions.pending_rows drone limit d).*1 in
  NoDup ids ∧ length ids = limit `min` size (unacked drone d) ∧ ∀ i, i ∈ ids → i ∈ unacked drone d.
Proof.
  set (l := filter (Actions.is_pending drone) (map_to_list (actions d))).
  assert (merge_sort Actions.created_le l ≡ₚ l) as Hp by apply merge_sort_Permutation.
  assert (l ≡ₚ map_to_list (filter (Actions.is_pending drone) (actions d))) as Hl.
  { unfold l. symmetry. rewrite map_filter_alt. apply map_to_list_to_map.
    eapply sublist_NoDup; [|apply fmap_sublist, sublist_filter]. apply NoDup_fst_map_to_list. }
  assert (NoDup (merge_sort Actions.created_le l).*1) as Hnd
    by (rewrite Hp, Hl; apply NoDup_fst_map_to_list).
  unfold Actions.pending_rows. fold l. split_and!.
  - rewrite fmap_take. eapply sublist_NoDup; [done|apply sublist_take].
  - rewrite length_fmap, length_take, Hp, Hl. unfold unacked. by rewrite size_dom, length_map_to_list.
  - intros i ([j a] & -> & Hin)%list_elem_of_fmap. apply elem_of_unacked.
    destruct (pending_rows_elem drone limit d (j, a) Hin) as (? & ? & ?). by exists a.
Qed.

(** What a round asks for: the ids of the oldest unacknowledged actions. *)
Lemma pending_messages drone d :
  Invariant.reachable d →
  ∃ rows, Controller.process_pending_actions drone true d = Ok (Protocol.TDAction <$> rows) ∧
    NoDup (Protocol.bam_action_id <$> rows) ∧
    length rows = Controller.pending_actions_limit `min` size (unacked drone d) ∧
    ∀ m, m ∈ rows → Protocol.bam_action_id m ∈ unacked drone d.
Proof.
  intros Hr%reachable_wf. set (prs := Actions.pending_rows drone Controller.pending_actions_limit d).
  assert (∃ ms, Actions.pending_actions drone Controller.pending_actions_limit d = Ok ms ∧
    Protocol.bam_action_id <$> ms = prs.*1) as (ms & Hms & Hids).
  { assert (∀ p, p ∈ prs → ∃ m, a_action p.2 = Some m ∧ Protocol.bam_action_id m = p.1) as Hdec.
    { intros p (Hp & _)%pending_rows_elem.
      destruct (wf_actions _ Hr _ _ Hp) as (_ & _ & m & ? & ? & _). by exists m. }
    unfold Actions.pending_actions. fold prs. clear -Hdec. induction prs as [|p l IH]; [by exists []|].
    destruct IH as (ms & Hms & Hids); [intros; apply Hdec; by right|].
    destruct (Hdec p) as (m & Hm & Hi); [by left|]. exists (m :: ms).
    split; [simpl; rewrite Hm; simpl; by rewrite Hms|]. by rewrite !fmap_cons, Hi, Hids. }
  destruct (pending_rows_ids drone Controller.pending_actions_limit d) as (H1 & H2 & H3).
  fold prs in H1, H2, H3. rewrite <- Hids in H1, H2, H3. rewrite length_fmap in H2.
  exists ms. split_and!; [|done|done|intros m Hm; apply H3; apply list_elem_of_fmap; by exists m].
  unfold Controller.process_pending_actions. rewrite Hms. by destruct ms.
Qed.

(** A message of the drone acknowledges, or leaves the actions alone. *)
Lemma drone_message_actions m drone ok d :
  actions (Controller.handle_message_from_drone m drone ok d).1 =
    match m with
    | Protocol.MAckAction i => actions (Actions.ack_pending_action i drone d)
    | _ => actions d
    end.
Proof.
  destruct m as [h|e|m|i|r]; cbn [Controller.handle_message_from_drone].
  - cbn. unfold Drones.heartbeat. by crush_match.
  - rewrite update_state_eq. destruct (backends d !! _) as [b|]; [|done].
    by destruct (Backends.accepts _ b).
  - done.
  - done.
  - unfold Keys.renew_key. destruct (keys d !! _) as [k|]; [|done]. by destruct (k_allow_renew k).
Qed.

Lemma unacked_ack i drone d : unacked drone (Actions.ack_pending_action i drone d) = unacked drone d ∖ {[i]}.
Proof.
  apply set_eq. intros j. rewrite elem_of_difference, not_elem_of_singleton, !elem_of_unacked.
  unfold Actions.ack_pending_action. destruct (actions d !! i) as [a|] eqn:Hi.
  - case_decide as Hd.
    + simpl. destruct (decide (j = i)) as [->|Hne].
      * rewrite lookup_insert_eq. naive_solver.
      * rewrite lookup_insert_ne by done. naive_solver.
    + split; [|naive_solver]. intros (b & Hb & ? & ?). split; [by exists b|]. intros ->. congruence.
  - split; [|naive_solver]. intros (b & Hb & ? & ?). split; [by exists b|]. intros ->. congruence.
Qed.

Lemma unacked_message m drone ok d :
  unacked drone (Controller.handle_message_from_drone m drone ok d).1 =
    match m with Protocol.MAckAction i => unacked drone d ∖ {[i]} | _ => unacked drone d end.
Proof.
  transitivity (unacked drone match m with
    | Protocol.MAckAction i => Actions.ack_pending_action i drone d | _ => d end).
  - unfold unacked. rewrite drone_message_actions. by destruct m.
  - destruct m; try done. apply unacked_ack.
Qed.

Definition acked_in (l : list Protocol.MessageFromDrone) : list string :=
  omap (λ m, match m with Protocol.MAckAction i => Some i | _ => None end) l.

(** The task receives messages. *)
Definition receive (p : Peer) (pool : string) (l : list Protocol.MessageFromDrone)
    (x : DB * DroneSocket.t) : DB * DroneSocket.t :=
  foldl (λ x m, (DroneSocket.turn p pool (DroneSocket.Received (Some m) true) x.2 x.1).1) x l.

(** A tick of the interval, and what the drone answers to the actions that it is sent. *)
Definition round (p : Peer) (pool : string)
    (answer : list Protocol.MessageToDrone → list Protocol.MessageFromDrone)
    (x : DB * DroneSocket.t) : DB * DroneSocket.t :=
  let '(d, s, l) := DroneSocket.turn p pool (DroneSocket.Tick true) x.2 x.1 in
  receive p pool (answer l) (d, s).

Lemma receive_spec p pool l d s :
  DroneSocket.ph s = DroneSocket.Running → Invariant.reachable d →
  (receive p pool l (d, s)).2 = s ∧ Invariant.reachable (receive p pool l (d, s)).1 ∧
  unacked (DroneSocket.node_id s) (receive p pool l (d, s)).1 =
    unacked (DroneSocket.node_id s) d ∖ list_to_set (acked_in l).
Proof.
  intros Hs. revert d. induction l as [|m l IH]; intros d Hr; cbn [receive foldl acked_in omap list_omap].
  - split_and!; [done..|]. set_solver.
  - change (foldl _ ?x l) with (receive p pool l x). cbn [fst snd]. unfold DroneSocket.turn at 1 2 3.
    rewrite Hs. pose proof (unacked_message m (DroneSocket.node_id s) true d) as Hu.
    pose proof (drone_message_step m (DroneSocket.node_id s) true d) as Hq.
    destruct (Controller.handle_message_from_drone m _ true d) as [d' r]. cbn [fst] in Hu, Hq.
    assert (Invariant.reachable d') as Hr' by by eapply quiet_reachable.
    destruct (IH d' Hr') as (H1 & H2 & H3).
    assert ((match r with Ok l => (d', s, l) | Err _ => (d', s, []) end).1 = (d', s)) as -> by by destruct r.
    split_and!; [done..|]. rewrite H3, Hu. destruct m; try done. cbn [list_to_set].
    rewrite difference_difference_l_L. done.
Qed.

(** A round leaves the actions that were not sent, or not acknowledged. *)
Lemma round_spec p pool answer d s :
  DroneSocket.ph s = DroneSocket.Running → Invariant.reachable d →
  (∀ l m, Protocol.TDAction m ∈ l → Protocol.MAckAction (Protocol.bam_action_id m) ∈ answer l) →
  let x := round p pool answer (d, s) in
  DroneSocket.ph x.2 = DroneSocket.Running ∧ DroneSocket.node_id x.2 = DroneSocket.node_id s ∧
  Invariant.reachable x.1 ∧
  size (unacked (DroneSocket.node_id s) x.1) ≤
    size (unacked (DroneSocket.node_id s) d) - Controller.pending_actions_limit.
Proof.
  intros Hs Hr Ha x. destruct (pending_messages (DroneSocket.node_id s) d Hr) as (rows & Hp & Hnd & Hlen & Hin).
  set (s1 := DroneSocket.Mk DroneSocket.Running (DroneSocket.guard s) (DroneSocket.sweeping s)).
  assert (x = receive p pool (answer (Protocol.TDAction <$> rows)) (d, s1)) as ->.
  { unfold x, round, DroneSocket.turn. cbn [fst snd]. rewrite Hs. unfold DroneSocket.resend.
    by rewrite Hp. }
  destruct (receive_spec p pool (answer (Protocol.TDAction <$> rows)) d s1 eq_refl Hr) as (-> & H2 & H3).
  split_and!; [done..|]. change (DroneSocket.node_id s1) with (DroneSocket.node_id s) in H3. rewrite H3.
  set (sent := list_to_set (Protocol.bam_action_id <$> rows) : gset string).
  assert (size sent = length rows) as Hsz by (unfold sent; by rewrite size_list_to_set, length_fmap).
  assert (sent ⊆ unacked (DroneSocket.node_id s) d) as Hsub.
  { intros i (m & -> & Hm)%elem_of_list_to_set%list_elem_of_fmap. by apply Hin. }
  assert (sent ⊆ list_to_set (acked_in (answer (Protocol.TDAction <$> rows)))) as Hack.
  { intros i (m & -> & Hm)%elem_of_list_to_set%list_elem_of_fmap. apply elem_of_list_to_set.
    unfold acked_in. apply list_elem_of_omap. exists (Protocol.MAckAction (Protocol.bam_action_id m)).
    split; [|done]. apply Ha. by apply list_elem_of_fmap_2. }
  trans (size (unacked (DroneSocket.node_id s) d ∖ sent)).
  - apply subseteq_size. clear -Hack. set_solver.
  - rewrite size_difference by done. lia.
Qed.

(** C27. However many actions have piled up for a drone, also while it was away: when it is
    connected and acknowledges what it is sent, whatever else it says, all of them have been sent
    and acknowledged after one tick of the interval for each fifty. *)
Theorem pending_actions_drain p pool answer k d s :
  DroneSocket.ph s = DroneSocket.Running → Invariant.reachable d →
  (∀ l m, Protocol.TDAction m ∈ l → Protocol.MAckAction (Protocol.bam_action_id m) ∈ answer l) →
  size (unacked (DroneSocket.node_id s) d) ≤ 50 * k →
  unacked (DroneSocket.node_id s) (Nat.iter k (round p pool answer) (d, s)).1 = ∅.
Proof.
  intros Hs Hr Ha Hk.
  assert (∀ j, let x := Nat.iter j (round p pool answer) (d, s) in
    DroneSocket.ph x.2 = DroneSocket.Running ∧ DroneSocket.node_id x.2 = DroneSocket.node_id s ∧
    Invariant.reachable x.1 ∧
    size (unacked (DroneSocket.node_id s) x.1) ≤ size (unacked (DroneSocket.node_id s) d) - 50 * j) as Hj.
  { induction j as [|j IH]; [split_and!; simpl; try done; lia|].
    rewrite Nat.iter_succ. destruct (Nat.iter j _ _) as [d1 s1]. destruct IH as (H1 & H2 & H3 & H4).
    cbn [fst snd] in *. destruct (round_spec p pool answer d1 s1 H1 H3 Ha) as (H5 & H6 & H7 & H8).
    rewrite H2 in H6, H8. split_and!; [done..|]. unfold Controller.pending_actions_limit in H8. lia. }
  destruct (Hj k) as (_ & _ & _ & H). apply leibniz_equiv, size_empty_inv. lia.
Qed.

(** ** Sweeping *)

(** The sweep loop of a task that ended with an error is never stopped: the actions that it makes
    go on until the process ends. *)
Lemma abandoned_sweep_goes_on p pool es s :
  DroneSocket.ph s = DroneSocket.Running → DroneSocket.sweeping s = true →
  ∀ d a l, Actions.pending_actions (DroneSocket.node_id s) Controller.pending_actions_limit d = Ok (a :: l) →
  let x := foldl (λ x e, (DroneSocket.turn p pool e x.2 x.1).1)
             (DroneSocket.turn p pool (DroneSocket.Tick false) s d).1 es in
  DroneSocket.ph x.2 = DroneSocket.Ended ∧ DroneSocket.sweeping x.2 = true.
Proof.
  intros Hs Hw d a l Ha.
  assert ((DroneSocket.turn p pool (DroneSocket.Tick false) s d).1 = (d, DroneSocket.fail s)) as ->.
  { unfold DroneSocket.turn. rewrite Hs. unfold DroneSocket.resend, Controller.process_pending_actions.
    by rewrite Ha. }
  assert (DroneSocket.ph (DroneSocket.fail s) = DroneSocket.Ended ∧
    DroneSocket.sweeping (DroneSocket.fail s) = true) as H0 by done.
  revert H0. generalize (DroneSocket.fail s), d. clear. induction es as [|e es IH]; intros s d [H1 H2]; [done|].
  cbn [foldl fst snd]. destruct (DroneSocket.turn p pool e s d) as [[d' s'] l'] eqn:Ht. cbn [fst].
  apply IH. revert Ht. unfold DroneSocket.turn. rewrite H1.
  destruct e; try (by intros [= <- <- <-]). destruct (DroneSocket.guard s); by intros [= <- <- <-].
Qed.

(** ** The drone's end *)

Section DroneEnd.
Import DroneConnection.
Implicit Types s : DroneConnection.t.

(** A connection lasts between fifty and seventy minutes. *)
Lemma reconnect_interval_bounds jitter :
  (-JITTER_SECONDS ≤ jitter ≤ JITTER_SECONDS)%Z →
  (from_secs 3000 ≤ random_reconnect_interval jitter ≤ from_secs 4200)%Z.
Proof. unfold random_reconnect_interval, from_secs, BASE_SECONDS, JITTER_SECONDS. lia. Qed.

(** There are heartbeats exactly while there is a connection. *)
Definition beats s : Prop := bool_decide (is_Some (beat_at s)) = bool_decide (is_Some (open s)).

Lemma beats_turn e s : beats s → beats (turn e s).1.
Proof.
  unfold beats. intros Hs. destruct e as [now j|now|now|m|i rt now|b ip a now|b code now]; cbn [turn];
    [..|unfold notified; by case_match|unfold notified; by case_match].
  - destruct (open s) eqn:Ho; [simpl; by rewrite Ho|].
    by destruct (DroneLoop.connected (drone s)) as [d [l|?]].
  - unfold beat. destruct (beat_at s) eqn:Hb; [|simpl; by rewrite Hb]. by destruct (_ <=? now)%Z; simpl; rewrite ?Hb, <- Hs.
  - destruct (open s) eqn:Ho; [|simpl; by rewrite Ho]. by destruct (_ <=? now)%Z; simpl; rewrite ?Ho.
  - destruct m; destruct (open s) eqn:Ho; simpl; by rewrite ?Ho.
  - destruct (handlers s !! i) as [[n m]|]; [|done].
    by destruct (DroneLoop.handle_message m rt now (drone s)).
Qed.

(** The acknowledgement of an action goes out when the handler of the current connection carries it
    out, and only then: a handler of an earlier connection loses it. *)
Lemma handled_action_acked s i n m rt now until :
  open s = Some until → handlers s !! i = Some (n, Protocol.TDAction m) →
  Protocol.MAckAction (Protocol.bam_action_id m) ∈ (turn (Handle i rt now) s).2 ↔
    n = connection s ∧
    Protocol.MAckAction (Protocol.bam_action_id m) ∈ (DroneLoop.handle_action m rt now (drone s)).2.
Proof.
  intros Ho Hh. unfold turn. rewrite Hh, Ho. cbn [DroneLoop.handle_message].
  destruct (DroneLoop.handle_action m rt now (drone s)) as [d l]. cbn [snd].
  case_decide; [tauto|]. rewrite list_elem_of_filter. cbn [not_ack]. naive_solver.
Qed.

End DroneEnd.

(** ** Stale routes *)

Section Stale.
Context `{LL : LruLaws}.

(** There is no such backend, or it has terminated. *)
Definition gone (b : string) (d : DB) : Prop :=
  ∀ row, backends d !! b = Some row → b_last_status row = "terminated".

Lemma entry_fmap {V} k (f : V → V) (l : list (string * V)) :
  entry k ((λ e, (e.1, f e.2)) <$> l) = f <$> entry k l.
Proof. induction l as [|[k' v] l IH]; [done|]. 
  unfold entry in *. rewrite fmap_cons, !filter_cons. simpl. destruct (decide (k' = k)); [done|exact IH].
Qed.

Lemma lookup_removed b token (m : RouteMap.RouteMap) :
  (RouteMap.lookup_cached token (RouteMap.remove_backend b m)).2 =
    RouteMap.invalidate b <$> (RouteMap.lookup_cached token m).2.
Proof.
  unfold RouteMap.lookup_cached, RouteMap.remove_backend. cbn [RouteMap.routes].
  pose proof (lru_get_value token (lru_iter_mut (RouteMap.invalidate b) (RouteMap.routes m))) as H1.
  pose proof (lru_get_value token (RouteMap.routes m)) as H2.
  destruct (lru_get token (lru_iter_mut _ _)), (lru_get token (RouteMap.routes m)). simpl in *.
  rewrite H1, H2, lru_iter_mut_entries. apply entry_fmap.
Qed.

Definition with_monitor (m : ConnectionMonitor.ConnectionMonitor) (t : ProxyTask.t) : ProxyTask.t :=
  ProxyTask.Mk (ProxyConnection.MkState (ProxyConnection.ps_routes (ProxyTask.state t)) m)
    (ProxyTask.ready t) (ProxyTask.open t) (ProxyTask.certs t).

Definition routes_of (t : ProxyTask.t) : RouteMap.RouteMap := ProxyConnection.ps_routes (ProxyTask.state t).
Definition monitor_of (t : ProxyTask.t) := ProxyConnection.ps_monitor (ProxyTask.state t).

End Stale.

End SocketProps.

(** ** Witnesses *)

#[local] Existing Instance ExampleExternals.example_externals.
Import Scenario.

Module ExampleSockets.

Definition peer : Peer := MkPeer controller_name (Some cluster) "127.0.0.1".
Definition shake : Shake := MkShake drone_name "1" "h".

Definition opened : System.sys :=
  System.with_db db5 (System.with_db db4 (System.with_db db3 (System.with_db db2
    (System.with_db db1 (System.start 0))))).

Definition accepted : System.sys :=
  System.Sys db5 (System.past opened) {[ 7 := (peer, "", DroneSocket.start) ]} ∅ ∅ [].

(** A turn of the task of drone 7. *)
Definition served (e : DroneSocket.event) (s : System.sys) : System.sys :=
  match System.drones s !! 7 with
  | Some (p, pool, c) =>
      let '(d, c', l) := DroneSocket.turn p pool e c (System.db s) in
      System.Sys d (System.past s ++ events d) (<[7 := (p, pool, c')]> (System.drones s))
        (System.proxies s) (System.dns s) (System.sent s ++ ((λ m, (DroneSocket.node_id c, m)) <$> l))
  | None => s
  end.

Definition run (es : list DroneSocket.event) : System.sys := foldl (λ s e, served e s) accepted es.

Lemma opened_reachable : rtc System.step (System.start 0) opened.
Proof.
  eapply rtc_l; [apply (System.sys_other _ db1), step_controller_heartbeat|].
  eapply rtc_l; [apply (System.sys_other _ db2), step_register_node|].
  eapply rtc_l; [apply (System.sys_other _ db3), step_register_drone|].
  eapply rtc_l; [apply (System.sys_other _ db4), step_drone_heartbeat|].
  eapply rtc_l; [apply (System.sys_other _ db5), step_create_backend|]. apply rtc_refl.
Qed.

Lemma accepted_reachable : System.reachable accepted.
Proof.
  exists 0%Z. eapply rtc_r; [apply opened_reachable|]. by apply (System.sys_drone_opens opened 7 peer "").
Qed.

Lemma served_reachable e s :
  match e with DroneSocket.ActionNotified (Some _) _ => False | _ => True end →
  System.reachable s → System.reachable (served e s).
Proof.
  intros He [now Hr]. exists now. unfold served.
  destruct (System.drones s !! 7) as [[[p pool] c]|] eqn:Hd; [|done].
  destruct (DroneSocket.turn p pool e c (System.db s)) as [[d c'] l] eqn:Ht.
  eapply rtc_r; [exact Hr|]. eapply System.sys_drone; [done| |done]. by destruct e as [| | |[]| |].
Qed.

Definition events : list DroneSocket.event :=
  [DroneSocket.Handshaken (Some shake); DroneSocket.Proceed true; DroneSocket.Proceed true;
   DroneSocket.Proceed true].

Lemma run_reachable : System.reachable (run events).
Proof. unfold run, events. cbn [foldl]. repeat (apply served_reachable; [done|]). apply accepted_reachable. Qed.

End ExampleSockets.
Import ExampleSockets.

(** The spawn of the scenario is sent to its drone once it has connected. *)
Lemma connections_refine_steps_witness :
  Protocol.bam_drone_id <$> omap (λ p, match p.2 with Protocol.TDAction m => Some m | _ => None end)
    (System.sent (run events)) = [1%Z] ∧
  wf (System.db (run events)) ∧
  ∀ n m, (n, Protocol.TDAction m) ∈ System.sent (run events) → Protocol.bam_drone_id m = n.
Proof.
  split; [vm_compute; reflexivity|].
  destruct (connections_refine_steps (run events) run_reachable) as (_ & H1 & H2). split; [exact H1|exact H2].
Defined.

(** A drone that acknowledges everything. *)
Definition willing (l : list Protocol.MessageToDrone) : list Protocol.MessageFromDrone :=
  omap (λ m, match m with
    | Protocol.TDAction a => Some (Protocol.MAckAction (Protocol.bam_action_id a))
    | _ => None end) l.

Definition drone_task : DroneSocket.t :=
  DroneSocket.Mk DroneSocket.Running
    (Some {| Controller.nh_id := 1; Controller.nh_controller := controller_name;
             Controller.nh_connection_start_time := 0 |}) true.

Lemma pending_actions_drain_witness :
  spawn_action_id ∈ unacked 1 db5 ∧
  unacked 1 (Nat.iter 1 (round peer "" willing) (db5, drone_task)).1 = ∅.
Proof.
  split; [apply elem_of_unacked; vm_compute; eauto|].
  apply (pending_actions_drain peer "" willing 1 db5 drone_task); [reflexivity|apply reachable_db5| |].
  - intros l m Hm. apply list_elem_of_omap. exists (Protocol.TDAction m). split; [exact Hm|reflexivity].
  - apply Nat.leb_le. vm_compute. reflexivity.
Defined.

Section StaleWitness.
#[local] Existing Instance ExampleProxy.list_lru.
#[local] Existing Instance ExampleProxy.list_lru_laws.

Definition stale_route : Protocol.RouteInfo :=
  {| Protocol.ri_backend_id := "b1"; Protocol.ri_address := addr; Protocol.ri_secret_token := "s";
     Protocol.ri_cluster := cluster; Protocol.ri_user := None; Protocol.ri_user_data := None;
     Protocol.ri_subdomain := None |}.

(** A proxy that got a route to [b1] and reconnected after it had terminated. *)
Definition stale_proxy : ProxyTask.t :=
  ProxyTask.Mk (ProxyConnection.connected (ProxyConnection.MkState
      (RouteMap.receive {| Protocol.rir_token := "tok"; Protocol.rir_route_info := Some stale_route |}
        RouteMap.new).1
      ConnectionMonitor.new)) true (Some 3600000000%Z) [].

End StaleWitness.
