(* ===== verification/Admin.v ===== *)
(** * The command-line tools

    [DbCli] is [plane/src/bin/db-cli.rs]: commands that run on the database itself, as programs
    of its transactions. [Admin] is [plane/src/admin.rs]: commands that call a controller, as
    programs over the calls of the API client. [Format] prints durations ([plane/src/util.rs],
    [admin.rs]). What is printed is a list of lines, without colours and wording. *)

From stdpp Require Import pretty.
From S2P Require Import Prelude Names BackendState Types Database Keys Backends Nodes.
From S2P Require Import Connect Invariant Scenario Changes Safety BackendProps ConnectProps.
From S2P Require Import Controller DockerConfig Api Forward.
From S2P Require Interaction.
Import Db.

(** ** Durations *)

Module Format.

Definition num_seconds (d : Z) : Z := Z.quot d 1000000.
Definition num_minutes (d : Z) : Z := Z.quot (num_seconds d) 60.
Definition num_hours (d : Z) : Z := Z.quot (num_seconds d) 3600.
Definition num_days (d : Z) : Z := Z.quot (num_seconds d) 86400.

(** A number and its unit. *)
Definition part : Type := Z * ascii.
Definition show (p : part) : string := pretty p.1 +:+ String p.2 "".

Definition parts (d : Z) : list part :=
  filter (λ p, (0 < p.1)%Z)
    [(num_days d, "d"%char); (Z.rem (num_hours d) 24, "h"%char);
     (Z.rem (num_minutes d) 60, "m"%char); (Z.rem (num_seconds d) 60, "s"%char)].

(** [parts.join(" ")]. *)
Fixpoint join (l : list string) : string :=
  match l with [] => "" | [x] => x | x :: l => x +:+ " " +:+ join l end.

Definition format_duration (d : Z) : string :=
  match parts d with [] => "0s" | l => join (show <$> l) end.

(** [friendly_duration] of [admin.rs]. *)
Definition friendly_duration (d : Z) : string :=
  let seconds := num_seconds d in
  let minutes := Z.quot seconds 60 in
  let hours := Z.quot minutes 60 in
  let days := Z.quot hours 24 in
  if (0 <? days)%Z then show (days, "d"%char)
  else if (0 <? hours)%Z then show (hours, "h"%char)
  else if (0 <? minutes)%Z then show (minutes, "m"%char)
  else show (seconds, "s"%char).

End Format.

(** ** Commands on the database *)

Module DbCli.
Section DbCli.
Context `{Ext : Externals}.

Inductive line :=
  | BlockedRenew (backend : string)
  | NoActiveKey (backend : string)
  | Node (n : Nodes.NodeRow)
  | Backend (b : Backends.BackendRow)
  | NotFound (backend : string)
  | AlreadyTerminated (backend : string)
  | Question (b : Backends.BackendRow)
  | NotMarked (backend : string)
  | Marked (backend : string)
  | PastExpiration (backend : string) (t : Z)
  | PastIdle (backend : string) (overage allowed : Z)
  | Candidate (c : Backends.TerminationCandidate)
  | NoSuchDrone (drone cluster : string).

Inductive CliError := CDatabase (e : SqlError) | CStdin | CArguments | CCleanup.

(** What a command prints, and its result. *)
Definition outcome : Type := list line * result CliError ().

Definition says (l : list line) (p : prog outcome) : prog outcome :=
  prog_bind p (λ o, Ret (l ++ o.1, o.2)).

(** The rest of a command after a query. *)
Definition query {A} (r : result SqlError A) (k : A → prog outcome) : prog outcome :=
  match r with Ok a => k a | Err e => Ret ([], Err (CDatabase e)) end.

Definition prevent_renew (backend : string) : prog outcome :=
  act (Keys.prevent_renew backend) (λ r, query r (λ success,
    Ret ([if success : bool then BlockedRenew backend else NoActiveKey backend], Ok ()))).

(** The loop over the nodes. *)
Definition shown_node (all : bool) (cluster : option string) (n : Nodes.NodeRow) : bool :=
  match cluster with
  | Some c => bool_decide (Nodes.nr_cluster n = Some c)
  | None => true
  end && (all || Nodes.active n).

Definition list_nodes (all : bool) (cluster : option string) : prog outcome :=
  act (read Nodes.list_nodes) (λ r, query r (λ nodes,
    Ret (Node <$> filter (λ n, shown_node all cluster n = true) nodes, Ok ()))).

Definition list_backends : prog outcome :=
  act (read Backends.list_backends) (λ r, query r (λ backends, Ret (Backend <$> backends, Ok ()))).

(** The state that a lost backend is given. *)
Definition lost (st : BackendState) : BackendState :=
  BackendState.Terminated (BackendState.status st) None (Some BackendState.Lost) None.

(** One pass of the loop of [MarkBackendLost]. [confirm] is the line read after the question
    about a backend, as ASCII text, or a failure to read it. *)
Definition mark_one (confirm : string → option string) (backend : string) : prog outcome :=
  act (read (Backends.backend backend)) (λ r, query r (λ o,
    match o with
    | None => Ret ([NotFound backend], Ok ())
    | Some row =>
        let id := Backends.br_id row in
        if decide (BackendState.status (Backends.br_state row) = BackendStatus.Terminated)
        then Ret ([AlreadyTerminated id], Ok ())
        else match confirm id with
        | None => Ret ([Question row], Err CStdin)
        | Some text =>
            if negb (String.eqb (Client.trim text) "y") then Ret ([Question row; NotMarked id], Ok ())
            else says [Question row]
              (act (Backends.update_state id (lost (Backends.br_state row))) (λ r, query r (λ _,
                 Ret ([Marked id], Ok ()))))
        end
    end)).

(** The loop; an error ends it. *)
Fixpoint mark_all (confirm : string → option string) (backends : list string) : prog outcome :=
  match backends with
  | [] => Ret ([], Ok ())
  | b :: backends =>
      prog_bind (mark_one confirm b) (λ o,
        match o.2 with
        | Err e => Ret (o.1, Err e)
        | Ok _ => says o.1 (mark_all confirm backends)
        end)
  end.

Definition mark_backend_lost (confirm : string → option string) (backends : list string)
    (drone cluster : option string) : prog outcome :=
  match drone, cluster, backends with
  | Some drone, Some cluster, [] =>
      act (read (Backends.list_alive_backends_for_drone cluster drone)) (λ r, query r (λ l,
        mark_all confirm (Backends.br_id <$> l)))
  | None, None, _ :: _ => mark_all confirm backends
  | _, _, _ => Ret ([], Err CArguments)
  end.

Definition candidate_line (c : Backends.TerminationCandidate) : line :=
  let id := Backends.tc_backend_id c in
  let idle :=
    match Backends.tc_allowed_idle_seconds c with
    | Some allowed =>
        let overage :=
          (Backends.tc_as_of c - Backends.tc_last_keepalive c - from_secs allowed)%Z in
        if (0 <? overage)%Z then PastIdle id (Format.num_seconds overage) allowed else Candidate c
    | None => Candidate c
    end in
  match Backends.tc_expiration_time c with
  | Some t => if (Backends.tc_as_of c <? t)%Z then PastExpiration id t else idle
  | None => idle
  end.

Definition termination_candidates (cluster drone : string) : prog outcome :=
  act (λ db, (db, Nodes.get_id cluster drone db)) (λ o,
    match o with
    | None => Ret ([NoSuchDrone drone cluster], Ok ())
    | Some id =>
        act (read (Backends.termination_candidates id)) (λ r, query r (λ l,
          Ret (candidate_line <$> l, Ok ())))
    end).

Definition cleanup (min_age_days cleanup_batch_size : option Z) : prog outcome :=
  prog_bind (Controller.run_cleanup min_age_days cleanup_batch_size) (λ r,
    Ret ([], match r with Ok _ => Ok () | Err _ => Err CCleanup end)).

(** [Command], without [Events], which prints the events for ever. *)
Inductive Command :=
  | ListNodes (all : bool) (cluster : option string)
  | ListBackends
  | TerminationCandidates (cluster drone : string)
  | PreventRenew (backend : string)
  | Cleanup (min_age_days cleanup_batch_size : option Z)
  | MarkBackendLost (backends : list string) (drone cluster : option string).

Definition main_inner (confirm : string → option string) (c : Command) : prog outcome :=
  match c with
  | ListNodes all cluster => list_nodes all cluster
  | ListBackends => list_backends
  | TerminationCandidates cluster drone => termination_candidates cluster drone
  | PreventRenew backend => prevent_renew backend
  | Cleanup days batch => cleanup days batch
  | MarkBackendLost backends drone cluster => mark_backend_lost confirm backends drone cluster
  end.

End DbCli.
End DbCli.

(** ** Commands that call a controller *)

Module Admin.
Import Interaction.
Open Scope prog_scope.

Record StatusResponse := { st_status : string; st_version : string; st_hash : string }.

Inductive AdminCommand :=
  | Connect (cluster : option string) (image : string) (key : option string) (immediate : bool)
      (max_idle_seconds : option Z) (id : option string) (static_token : bool) (pool : string)
      (mount : option string) (subdomain : option string)
  | Terminate (backend : string) (hard immediate : bool)
  | Drain (cluster drone : string)
  | PutDummyDns (cluster : string)
  | Status
  | ClusterState (cluster : string)
  | BackendStatus (backend : string).

Inductive line :=
  | Created (backend : string) | Reusing (backend : string)
  | Links (url status_url : string) (drone : option string)
  | StatusAt (e : BackendState.BackendStatusStreamEntry)
  | SentTermination (backend : string)
  | Draining (drone : string) | WasDraining (drone : string)
  | ServerStatus (s : StatusResponse) (same_version same_hash : bool)
  | State (s : Clusters.ClusterState)
  | Leased | LeaseFailed | SentMessage (text : string) | MessageFailed (text : string).

Section Admin.
Context {U : Urls} {ApiError : Type}.

#[local] Notation error := (PlaneClient.PlaneClientError ApiError).
#[local] Notation request := PlaneClient.request.

(** The version of the tool, and [serde_json::to_value] of its configurations. *)
Context (PLANE_VERSION PLANE_GIT_HASH : string)
  (to_value : DockerTypes.DockerExecutorConfig → json).

(** The calls of the API client with their requests, the stream and the socket that it opens, and
    the output. *)
Inductive E : Type → Type :=
  | SendConnect (r : request) (body : ConnectRequest) : E (result error ConnectResponse)
  | SendTerminate (r : request) : E (result error ())
  | SendDrain (r : request) : E (result error bool)
  | SendStatus (r : request) : E (result error StatusResponse)
  | SendClusterState (r : request) : E (result error Clusters.ClusterState)
  | OpenStream (r : request) : E (result error ())
  | NextStatus : E (option BackendState.BackendStatusStreamEntry)
  | NewProxyName : E string
  | OpenProxy (a : Address.AuthorizedAddress) (name : string) : E (result error ())
  | SendProxy (m : Protocol.MessageFromProxy) : E (result error ())
  | RecvProxy : E (option Protocol.MessageToProxy)
  | Print (l : line) : E ().

(** How a command ends; [OutOfFuel] is an artefact of the bound on the passes of a loop. *)
Inductive ending := Success | Failed (e : error) | Panicked | OutOfFuel.

(** The [?] operator. *)
Definition try {A} (p : prog E (result error A)) (k : A → prog E ending) : prog E ending :=
  bind p (λ r, match r with Ok a => k a | Err e => Ret (Failed e) end).

Fixpoint print_status_stream (fuel : nat) (until : BackendStatus.BackendStatus) : prog E ending :=
  match fuel with
  | O => Ret OutOfFuel
  | S fuel =>
      let! o := call NextStatus in
      match o with
      | None => Ret Success
      | Some e =>
          let! _ := call (Print (StatusAt e)) in
          if BackendStatus.ge (BackendState.bse_status e) until then Ret Success
          else print_status_stream fuel until
      end
  end.

Context (fuel : nat) (client : Address.AuthorizedAddress).

Definition follow (backend : string) (until : BackendStatus.BackendStatus) : prog E ending :=
  try (call (OpenStream (PlaneClient.backend_status_stream client backend))) (λ _,
    print_status_stream fuel until).

(** The request of [Connect]. *)
Definition spawn_request (cluster : option string) (image : string) (key : option string)
    (max_idle_seconds : option Z) (id : option string) (static_token : bool) (pool : string)
    (mount subdomain : option string) : ConnectRequest :=
  let executor_config := DockerTypes.from_image_with_defaults image in
  let executor_config := {|
    DockerTypes.image := DockerTypes.image executor_config;
    DockerTypes.pull_policy := DockerTypes.pull_policy executor_config;
    DockerTypes.credentials := DockerTypes.credentials executor_config;
    DockerTypes.env := DockerTypes.env executor_config;
    DockerTypes.resource_limits := DockerTypes.resource_limits executor_config;
    DockerTypes.mount := DockerTypes.MountPath <$> mount;
    DockerTypes.network_name := DockerTypes.network_name executor_config |} in
  {| Types.cr_key := (λ name, {| Types.key_name := name; Types.key_namespace := ""; Types.key_tag := "" |}) <$> key;
     Types.cr_spawn_config := Some {|
       Types.sc_id := id; Types.sc_cluster := cluster; Types.sc_pool := pool;
       Types.sc_executable := to_value executor_config; Types.sc_lifetime_limit_seconds := None;
       Types.sc_max_idle_seconds := Some (default 500%Z max_idle_seconds);
       Types.sc_use_static_token := static_token; Types.sc_subdomain := subdomain |};
     Types.cr_user := None; Types.cr_auth := [] |}.

Definition put_dummy_dns (cluster : string) : prog E ending :=
  let! proxy_name := call NewProxyName in
  try (call (OpenProxy (PlaneClient.proxy_connection client cluster) proxy_name)) (λ _,
  try (call (SendProxy (Protocol.PCertManagerRequest Protocol.CertLeaseRequest))) (λ _,
  let! response := call RecvProxy in
  match response with
  | Some (Protocol.TPCertManagerResponse (Protocol.CertLeaseResponse accepted)) =>
      let! _ := call (Print (if accepted : bool then Leased else LeaseFailed)) in
      let message := "Dummy message from " +:+ proxy_name in
      try (call (SendProxy (Protocol.PCertManagerRequest (Protocol.SetTxtRecord message)))) (λ _,
      let! response := call RecvProxy in
      match response with
      | Some (Protocol.TPCertManagerResponse (Protocol.SetTxtRecordResponse accepted)) =>
          let! _ := call (Print (if accepted : bool then SentMessage message else MessageFailed message)) in
          Ret Success
      | _ => Ret Panicked
      end)
  | _ => Ret Panicked
  end)).

Definition run_admin_command_inner (c : AdminCommand) : prog E ending :=
  match c with
  | Connect cluster image key immediate max_idle_seconds id static_token pool mount subdomain =>
      try (call (SendConnect (PlaneClient.connect client)
        (spawn_request cluster image key max_idle_seconds id static_token pool mount subdomain))) (λ resp,
      let! _ := call (Print (if Types.resp_spawned resp then Created (Types.resp_backend_id resp)
                             else Reusing (Types.resp_backend_id resp))) in
      let! _ := call (Print (Links (Types.resp_url resp) (Types.resp_status_url resp) (Types.resp_drone resp))) in
      if immediate then Ret Success else follow (Types.resp_backend_id resp) BackendStatus.Ready)
  | Terminate backend hard immediate =>
      try (call (SendTerminate (if hard then PlaneClient.hard_terminate client backend
                                else PlaneClient.soft_terminate client backend))) (λ _,
      let! _ := call (Print (SentTermination backend)) in
      if immediate then Ret Success else follow backend BackendStatus.Terminated)
  | Drain cluster drone =>
      try (call (SendDrain (PlaneClient.drain client cluster drone))) (λ updated,
      let! _ := call (Print (if updated : bool then Draining drone else WasDraining drone)) in
      Ret Success)
  | Status =>
      try (call (SendStatus (PlaneClient.status client))) (λ s,
      let! _ := call (Print (ServerStatus s (bool_decide (st_version s = PLANE_VERSION))
                               (bool_decide (st_hash s = PLANE_GIT_HASH)))) in
      Ret Success)
  | PutDummyDns cluster => put_dummy_dns cluster
  | ClusterState cluster =>
      try (call (SendClusterState (PlaneClient.cluster_state client cluster))) (λ s,
      let! _ := call (Print (State s)) in
      Ret Success)
  | BackendStatus backend => follow backend BackendStatus.Terminated
  end.

End Admin.
End Admin.

(** ** Theorems *)

Module AdminProps.

(** *** Durations *)

Section Format.
Import Format.

(** The seconds that a part stands for. *)
Definition unit_seconds (u : ascii) : Z :=
  if Ascii.eqb u "d" then 86400 else if Ascii.eqb u "h" then 3600
  else if Ascii.eqb u "m" then 60 else 1.

Fixpoint total (l : list part) : Z :=
  match l with [] => 0 | p :: l => p.1 * unit_seconds p.2 + total l end.

Lemma total_filter l : Forall (λ p, 0 ≤ p.1)%Z l → total (filter (λ p : part, (0 < p.1)%Z) l) = total l.
Proof.
  induction 1 as [|p l Hp _ IH]; [done|]. rewrite filter_cons. case_decide; simpl; [by rewrite <- IH|]. etransitivity; [exact IH|].
  assert (p.1 = 0)%Z as -> by lia. lia.
Qed.

(** The parts of a duration that is not negative add up to its whole seconds, are positive, and stay
    below the next unit. *)
Lemma format_parts d :
  (0 ≤ d)%Z →
  total (parts d) = num_seconds d ∧
  ∀ p, p ∈ parts d → (0 < p.1)%Z ∧ (p.2 ≠ "d"%char → p.1 * unit_seconds p.2 < 86400)%Z.
Proof.
  intros Hd. set (s := num_seconds d).
  assert (0 ≤ s)%Z as Hs by (unfold s, num_seconds; apply Z.quot_pos; lia).
  unfold parts, num_hours, num_minutes, num_days. fold s.
  rewrite !Z.quot_div_nonneg, !Z.rem_mod_nonneg by (apply Z.div_pos || idtac; lia).
  split.
  - rewrite total_filter.
    + cbn. pose proof (Z.div_mod s 86400). pose proof (Z.div_mod s 3600). pose proof (Z.div_mod s 60).
      assert (s / 3600 = 24 * (s / 86400) + (s / 3600) mod 24)%Z as Hh.
      { replace 86400%Z with (3600 * 24)%Z by done. rewrite <- Z.div_div by lia. apply Z.div_mod. lia. }
      assert (s / 60 = 60 * (s / 3600) + (s / 60) mod 60)%Z as Hm.
      { replace 3600%Z with (60 * 60)%Z by done. rewrite <- Z.div_div by lia. apply Z.div_mod. lia. }
      lia.
    + repeat constructor; cbn; try (apply Z.mod_pos_bound; lia). apply Z.div_pos; lia.
  - intros p [Hp Hin]%list_elem_of_filter. split; [done|]. intros Hne.
    pose proof (Z.mod_pos_bound (s / 3600) 24). pose proof (Z.mod_pos_bound (s / 60) 60).
    pose proof (Z.mod_pos_bound s 60).
    repeat (apply elem_of_cons in Hin as [->|Hin]; [cbn in *; (done || lia)|]).
    by apply not_elem_of_nil in Hin.
Qed.
End Format.

(** *** Marking backends as lost *)

Section DbCli.
Import DbCli.
Context `{Ext : Externals}.

Lemma so_query {A} (r : result SqlError A) (k : A → prog outcome) :
  (∀ a, steps_only (k a)) → steps_only (query r k).
Proof. intros Hk. destruct r; [apply Hk|constructor]. Qed.

Lemma so_says l p : steps_only p → steps_only (says l p).
Proof. intros Hp. apply so_bind; [done|constructor]. Qed.

Lemma so_mark_one confirm b : steps_only (mark_one confirm b).
Proof.
  apply so_read. intros r. apply so_query. intros [row|]; [|constructor].
  cbv zeta. case_decide; [constructor|]. destruct (confirm (Backends.br_id row)) as [text|]; [|constructor].
  destruct (negb _); [constructor|]. apply so_says, so_act; [right; constructor|].
  intros r'. apply so_query. constructor.
Qed.

Lemma so_mark_all confirm l : steps_only (mark_all confirm l).
Proof.
  induction l as [|b l IH]; [constructor|]. apply so_bind; [apply so_mark_one|].
  intros o. destruct o.2; [by apply so_says|constructor].
Qed.

Lemma so_cleanup days batch : steps_only (Controller.run_cleanup days batch).
Proof.
  unfold Controller.run_cleanup. destruct days as [days|].
  - apply so_act; [right; constructor|]. intros [|]; [|constructor].
    apply so_act; [right; constructor|]. intros _. apply so_act; [right; constructor|constructor].
  - apply so_act; [right; constructor|constructor].
Qed.

(** Every command, with whatever else is going on, makes only steps of the database. *)
Lemma cli_steps_only confirm c : steps_only (main_inner confirm c).
Proof.
  destruct c as [all cl| |cl dr|b|days batch|l dr cl]; cbn [main_inner].
  - apply so_read. intros r. apply so_query. constructor.
  - apply so_read. intros r. apply so_query. constructor.
  - apply so_act; [by left|]. intros [id|]; [|constructor]. apply so_read. intros r. apply so_query. constructor.
  - apply so_act; [right; constructor|]. intros r. apply so_query. constructor.
  - apply so_bind; [apply so_cleanup|constructor].
  - unfold mark_backend_lost. destruct dr, cl, l; try apply so_ret; try apply so_mark_all.
    apply so_read. intros r. apply so_query. intros rows. apply so_mark_all.
Qed.

(** After the update, the backend is gone or terminated, and has no key. *)
Lemma lost_update id st db :
  wf db → let db' := (Backends.update_state id (lost st) db).1 in
  keys db' !! id = None ∧ ∀ row, backends db' !! id = Some row → b_last_status row = "terminated".
Proof.
  intros Hwf db'. assert (wf db') as Hwf' by by apply wf_update_state.
  assert (∀ row, backends db' !! id = Some row → b_last_status row = "terminated") as Hrow.
  { unfold db'. rewrite update_state_eq. destruct (backends db !! id) as [b|] eqn:Hb; [|cbn [fst]; by rewrite Hb].
    destruct (Backends.accepts _ b) eqn:Ha; simpl.
    - rewrite lookup_insert_eq. by intros row [= <-].
    - rewrite Hb. intros row [= <-]. destruct (wf_rows _ Hwf _ _ Hb) as (st0 & _ & Hl & Hn & _).
      unfold Backends.accepts in Ha. rewrite Hn in Ha. case_bool_decide as Hlt; [done|].
      rewrite Hl. destruct st0; simpl in *; (done || (exfalso; apply Hlt; unfold BackendState.status_int; simpl; lia)). }
  split; [|done]. destruct (keys db' !! id) as [k|] eqn:Hk; [|done].
  destruct (wf_key_alive _ Hwf' id k Hk) as (b & ? & Hb & _).
  rewrite (terminated_no_key _ _ _ Hwf' Hb (Hrow _ Hb)) in Hk. done.
Qed.

(** Under any interference, a backend that the tool reports as marked was confirmed, and right
    after it is terminated and has lost its key; without a confirmation nothing is changed. *)
Theorem mark_lost_sound env n confirm b db :
  (∀ m d, rtc step d (env m d)) → reachable db →
  let '(db', o) := run_env env n (mark_one confirm b) db in
  (∀ id, Marked id ∈ o.1 →
     (∃ text, confirm id = Some text ∧ Client.trim text = "y") ∧ keys db' !! id = None ∧
     ∀ row, backends db' !! id = Some row → b_last_status row = "terminated") ∧
  ((∀ id, Marked id ∉ o.1) → o.2 = Ok () → db' = env n db).
Proof.
  intros Henv Hr. unfold mark_one. rewrite run_env_act. unfold read.
  cbn [fst snd].
  destruct (Backends.backend b (env n db)) as [[row|]|e]; cbn [fst snd query];
    [|by split; [intros id Hin; set_solver|]..].
  cbv zeta. case_decide; [split; [intros id Hin; set_solver|done]|].
  destruct (confirm (Backends.br_id row)) as [text|] eqn:Ht;
    [|split; [intros id Hin; set_solver|done]].
  destruct (String.eqb (Client.trim text) "y") eqn:Hy; cbn [negb];
    [|split; [intros id Hin; set_solver|done]].
  apply String.eqb_eq in Hy. set (d := env (S n) (env n db)).
  assert (reachable d) as Hd.
  { destruct Hr as [now Hr]. exists now. etrans; [exact Hr|]. etrans; apply Henv. }
  pose proof (lost_update (Backends.br_id row) (Backends.br_state row) d (reachable_wf _ Hd)) as Hl.
  unfold says, act. cbn [prog_bind run_env]. fold d.
  destruct (Backends.update_state _ _ d) as [d' [u|e]]; cbn [query] in *.
  - split; [|intros Hm; exfalso; apply (Hm (Backends.br_id row)); set_solver].
    intros id Hin. assert (id = Backends.br_id row) as -> by set_solver. split; [by exists text|done].
  - split; [intros id Hin; set_solver|done].
Qed.

(** A candidate is said to be past its expiration when that is still to come; the candidates
    that are past it are printed as idle ones or without a reason. *)
Lemma past_expiration_to_come c t :
  Backends.tc_expiration_time c = Some t →
  candidate_line c = PastExpiration (Backends.tc_backend_id c) t ↔ (Backends.tc_as_of c < t)%Z.
Proof.
  intros Ht. unfold candidate_line. rewrite Ht.
  destruct (Z.ltb_spec (Backends.tc_as_of c) t); [done|]. split; [|lia].
  intros Heq. exfalso. destruct (Backends.tc_allowed_idle_seconds c); [|done]. by case_match.
Qed.

End DbCli.

(** *** Following a backend *)

Section Follow.
Import Interaction Admin.
Context {U : Urls} {ApiError : Type} (PLANE_VERSION PLANE_GIT_HASH : string)
  (to_value : DockerTypes.DockerExecutorConfig → json) (client : Address.AuthorizedAddress).

#[local] Notation E := (E (ApiError := ApiError)).

(** The least status that is later than those received, as long as they increase. *)
Definition later (m : option nat) (e : BackendState.BackendStatusStreamEntry) : option nat :=
  let n := BackendStatus.discriminant (BackendState.bse_status e) in
  match m with
  | Some d => if decide (d ≤ n) then Some (S n) else None
  | None => None
  end.

Definition next (m : option nat) (o : obs E) : option nat :=
  match o with
  | @Obs _ X e x =>
      match e in Admin.E X return X → option nat with
      | NextStatus => λ o, match o with Some e => later m e | None => m end
      | _ => λ _, m
      end x
  end.

Definition anything (m : option nat) (e : sigT E) : Prop := True.

(** In time, or the statuses did not increase. *)
Definition in_time (r : @ending ApiError) (m : option nat) : Prop := r = OutOfFuel → m = None.

Lemma discriminant_bound st : BackendStatus.discriminant st < 8.
Proof. destruct st; simpl; lia. Qed.

Lemma print_in_time fuel until m :
  (∀ d, m = Some d → d ≤ 8 < fuel + d) → wp next anything in_time m (print_status_stream fuel until).
Proof.
  revert m. induction fuel as [|fuel IH]; intros m Hm.
  - intros _. destruct m as [d|]; [|done]. specialize (Hm d eq_refl). lia.
  - cbn [print_status_stream]. split; [done|]. intros [e|]; [|done]. cbn. split; [done|]. intros _. cbn.
    case_match; [done|]. apply IH. intros d Hd. pose proof (discriminant_bound (BackendState.bse_status e)).
    unfold later in Hd. destruct m as [d0|]; [|done]. case_decide; [|done]. injection Hd as <-.
    specialize (Hm d0 eq_refl). lia.
Qed.

Lemma follow_in_time fuel backend until :
  8 < fuel → wp next anything in_time (Some 0) (follow fuel client backend until).
Proof.
  intros Hfuel. split; [done|]. intros [u|er]; [|done]. apply print_in_time. intros d [= <-]. lia.
Qed.

#[local] Arguments follow : simpl never.

(** What is not a loop ends. *)
Lemma command_in_time fuel c :
  8 < fuel →
  wp next anything in_time (Some 0)
    (run_admin_command_inner PLANE_VERSION PLANE_GIT_HASH to_value fuel client c).
Proof.
  intros Hfuel. destruct c as [cl im k now idle id st pool mo sub|b hard now|cl dr|cl| |cl|b];
    cbn [run_admin_command_inner]; try by apply follow_in_time.
  - split; [done|]. intros [resp|er]; [|done]. do 2 (split; [done|]; intros []; cbn).
    destruct now; [done|by apply follow_in_time].
  - split; [done|]. intros [u|er]; [|done]. split; [done|]. intros []. cbn.
    destruct now; [done|by apply follow_in_time].
  - split; [done|]. intros [u|er]; [|done]. split; [done|]. by intros [].
  - unfold put_dummy_dns. split; [done|]. intros name. cbn. split; [done|]. intros [u|er]; [|done].
    split; [done|]. intros [u'|er]; [|done]. split; [done|]. intros [[r|[acc|acc]|b]|]; try done.
    split; [done|]. intros []. cbn. split; [done|]. intros [v|er]; [|done]. split; [done|].
    intros [[r|[acc'|acc']|b]|]; done.
  - split; [done|]. intros [s|er]; [|done]. split; [done|]. by intros [].
  - split; [done|]. intros [s|er]; [|done]. split; [done|]. by intros [].
Qed.

(** A command that follows a backend gets at most eight statuses when they increase, as those of a
    controller do: nine passes of its loop are enough. *)
Theorem admin_commands_end c tr :
  runs (run_admin_command_inner PLANE_VERSION PLANE_GIT_HASH to_value 9 client c) tr (Some OutOfFuel) →
  foldl next (Some 0) tr = None.
Proof.
  intros Hr. pose proof (wp_runs next anything in_time (Some 0) _ _ _ (command_in_time 9 c ltac:(lia)) Hr)
    as [_ H].
  by apply (H OutOfFuel).
Qed.

(** A controller tells every proxy of every backend that terminates; the tool does not expect it
    and panics when that comes before the answer to its request. *)
Lemma dummy_dns_panics cluster name backend :
  runs (run_admin_command_inner PLANE_VERSION PLANE_GIT_HASH to_value 9 client (PutDummyDns cluster))
    [Obs (E := E) NewProxyName name;
     Obs (E := E) (OpenProxy (PlaneClient.proxy_connection client cluster) name) (Ok ());
     Obs (E := E) (SendProxy (Protocol.PCertManagerRequest Protocol.CertLeaseRequest)) (Ok ());
     Obs (E := E) RecvProxy (Some (Protocol.TPBackendRemoved backend))] (Some Panicked).
Proof. repeat constructor. Qed.
End Follow.
End AdminProps.
