(* ===== verification/Lifecycle.v ===== *)
(** * A session comes up

    The parts together: a backend has been created for a drone, and its spawn is pending. The
    controller's task for the drone ([DroneSocket]) sends the action, the drone
    ([DroneConnection]) starts the backend and reports its states, the controller stores them
    and acknowledges the action, and a proxy that asks for the route of a token gets the address.

    Nothing is assumed of the rest of the database and of the drone; the messages are
    delivered, and the container runtime does what it is asked. *)

From S2P Require Import Prelude Names BackendState Types Database Keys Backends Nodes.
From S2P Require Import Connect Invariant Scenario Changes Safety NodeProps BackendProps ConnectProps.
From S2P Require Import Controller StateStore KeyManager Drone Proxy Sockets SocketProps.
Import Db.

Module Lifecycle.

(** The events of a drone in a row, and what it sends. *)
Fixpoint drone_run (es : list DroneConnection.event) (s : DroneConnection.t)
    : DroneConnection.t * list Protocol.MessageFromDrone :=
  match es with
  | [] => (s, [])
  | e :: es =>
      let '(s', l) := DroneConnection.turn e s in
      let '(s'', l') := drone_run es s' in (s'', l ++ l')
  end.

(** A runtime that prepares the image, starts the container at a port, and finds it answering. *)
Definition works (port : N) : BackendManager.RuntimeAnswer := {|
  BackendManager.ans_prepare := true; BackendManager.ans_spawn := Some port;
  BackendManager.ans_wait := None; BackendManager.ans_terminate := Ok false |}.

(** What happens at the drone: the action arrives, its handler runs, and the three tasks of the
    backend get their answers. *)
Definition spawning (m : Protocol.BackendActionMessage) (handler : nat) (ip : IpAddr) (port : N) (now : Z)
    : list DroneConnection.event :=
  let id := Protocol.bam_backend_id m in
  [DroneConnection.Received (Some (Protocol.TDAction m));
   DroneConnection.Handle handler (Ok true) now;
   DroneConnection.Completed id ip (works port) now;
   DroneConnection.Completed id ip (works port) now;
   DroneConnection.Completed id ip (works port) now].

End Lifecycle.

(** ** Theorems *)

Module LifecycleProps.
Import Lifecycle.

(** *** The drone *)

Section Drone.

(** The messages that report states of a backend. *)
Definition told (id : string) : list BackendState → list Protocol.MessageFromDrone → Prop :=
  Forall2 (λ st m, ∃ e, m = Protocol.MBackendEvent e ∧ Protocol.bsm_backend_id e = id ∧ Protocol.bsm_state e = st).

Lemma report_told id now l s :
  StateStore.st_listener s = true →
  StateStore.st_listener (Executor.report id now l s).1 = true ∧
  told id l (Protocol.MBackendEvent <$> (Executor.report id now l s).2).
Proof.
  revert s. induction l as [|st l IH]; intros s Hs; [by split; [|constructor]|]. cbn [Executor.report].
  unfold StateStore.register_event. rewrite Hs. cbv zeta.
  set (s1 := StateStore.MkStore _ _ _ _). destruct (IH s1 eq_refl) as [H1 H2].
  destruct (Executor.report id now l s1) as [s2 l2]. split; [done|]. constructor; [by eexists|exact H2].
Qed.

(** The listener is installed. *)
Definition listening (s : DroneConnection.t) : Prop :=
  StateStore.st_listener (Executor.ex_store (DroneLoop.dr_executor (DroneConnection.drone s))) = true.

(** A task of a backend completes, and its machine sets [l]. *)
Lemma completed_told s until id ip a now m m' l :
  DroneConnection.open s = Some until → listening s →
  Executor.ex_backends (DroneLoop.dr_executor (DroneConnection.drone s)) !! id = Some m →
  BackendManager.complete Executor.always ip a m = (m', l) →
  let '(s', out) := DroneConnection.turn (DroneConnection.Completed id ip a now) s in
  DroneConnection.open s' = Some until ∧ listening s' ∧ told id l out ∧
  Executor.ex_backends (DroneLoop.dr_executor (DroneConnection.drone s')) !! id = Some m'.
Proof.
  intros Ho Hl Hm Hc. cbn [DroneConnection.turn]. unfold DroneConnection.notified, Executor.task_completed.
  rewrite Hm, Hc. unfold Executor.with_manager.
  destruct (report_told id now l (Executor.ex_store (DroneLoop.dr_executor (DroneConnection.drone s))) Hl)
    as [H1 H2].
  destruct (Executor.report id now l _) as [st out]. cbn. rewrite Ho.
  split_and!; [done..|]. apply lookup_insert_eq.
Qed.

(** The handler of a spawn for a backend without a key. *)
Lemma spawned_told s until m exe key tok now :
  DroneConnection.open s = Some until → listening s →
  Protocol.bam_action m = Protocol.Spawn exe key tok →
  KeyManager.handles (DroneLoop.dr_keys (DroneConnection.drone s)) !! Protocol.bam_backend_id m = None →
  let s1 := (DroneConnection.turn (DroneConnection.Received (Some (Protocol.TDAction m))) s).1 in
  let '(s2, out) := DroneConnection.turn
    (DroneConnection.Handle (length (DroneConnection.handlers s)) (Ok true) now) s1 in
  DroneConnection.open s2 = Some until ∧ listening s2 ∧
  (∃ l, out = l ++ [Protocol.MAckAction (Protocol.bam_action_id m)] ∧
     told (Protocol.bam_backend_id m) [BackendState.Scheduled; BackendState.Loading] l) ∧
  Executor.ex_backends (DroneLoop.dr_executor (DroneConnection.drone s2)) !! Protocol.bam_backend_id m =
    Some (BackendManager.MkManager BackendState.Loading (Some (BackendManager.TPrepare BackendState.Loading))).
Proof.
  intros Ho Hl Ha Hk s1.
  assert (s1 = DroneConnection.Mk (DroneConnection.drone s) (DroneConnection.connection s) (Some until)
    (DroneConnection.beat_at s)
    (DroneConnection.handlers s ++ [(DroneConnection.connection s, Protocol.TDAction m)])) as ->.
  { unfold s1. cbn [DroneConnection.turn]. by rewrite Ho. }
  cbn [DroneConnection.turn DroneConnection.handlers DroneConnection.drone DroneConnection.connection
       DroneConnection.open].
  rewrite list_lookup_middle by done. cbn [DroneLoop.handle_message]. unfold DroneLoop.handle_action.
  rewrite Ha. unfold KeyManager.register_key. rewrite Hk. cbn [Executor.apply_action].
  unfold Executor.with_manager. cbn [BackendManager.new].
  set (ex := DroneLoop.dr_executor (DroneConnection.drone s)).
  destruct (report_told (Protocol.bam_backend_id m) now [BackendState.Scheduled; BackendState.Loading]
    (Executor.ex_store ex) Hl) as [H1 H2].
  change (BackendManager.new Executor.always BackendState.default_state) with
    (BackendManager.MkManager BackendState.Loading (Some (BackendManager.TPrepare BackendState.Loading)),
     [BackendState.Scheduled; BackendState.Loading]).
  cbv beta iota zeta. fold ex.
  destruct (Executor.report _ now _ (Executor.ex_store ex)) as [st out]. cbn.
  rewrite decide_True by done. split_and!; [done..|by eexists|]. apply lookup_insert_eq.
Qed.

Lemma drone_run_spawning s until m exe key tok ip port now :
  DroneConnection.open s = Some until → listening s →
  Protocol.bam_action m = Protocol.Spawn exe key tok →
  KeyManager.handles (DroneLoop.dr_keys (DroneConnection.drone s)) !! Protocol.bam_backend_id m = None →
  let a := {| sa_ip := ip; sa_port := port |} in
  ∃ l1 l2, (drone_run (spawning m (length (DroneConnection.handlers s)) ip port now) s).2 =
    l1 ++ Protocol.MAckAction (Protocol.bam_action_id m) :: l2 ∧
    told (Protocol.bam_backend_id m) [BackendState.Scheduled; BackendState.Loading] l1 ∧
    told (Protocol.bam_backend_id m)
      [BackendState.Starting; BackendState.Waiting a; BackendState.Ready a] l2.
Proof.
  intros Ho Hl Ha Hk a. pose proof (spawned_told s until m exe key tok now Ho Hl Ha Hk) as H1.
  unfold spawning. cbn [drone_run].
  assert ((DroneConnection.turn (DroneConnection.Received (Some (Protocol.TDAction m))) s).2 = []) as Hr.
  { cbn [DroneConnection.turn]. by rewrite Ho. }
  destruct (DroneConnection.turn (DroneConnection.Received _) s) as [s1 o1]. cbn [fst snd] in *. subst o1.
  destruct (DroneConnection.turn (DroneConnection.Handle _ _ _) s1) as [s2 o2].
  destruct H1 as (Ho2 & Hl2 & (l & -> & Hout) & Hm2).
  pose proof (completed_told s2 until _ ip (works port) now _ _ _ Ho2 Hl2 Hm2 eq_refl) as H3.
  destruct (DroneConnection.turn (DroneConnection.Completed _ _ _ _) s2) as [s3 o3].
  destruct H3 as (Ho3 & Hl3 & Hout3 & Hm3).
  pose proof (completed_told s3 until _ ip (works port) now _ _ _ Ho3 Hl3 Hm3 eq_refl) as H4.
  destruct (DroneConnection.turn (DroneConnection.Completed _ _ _ _) s3) as [s4 o4].
  destruct H4 as (Ho4 & Hl4 & Hout4 & Hm4).
  pose proof (completed_told s4 until _ ip (works port) now _ _ _ Ho4 Hl4 Hm4 eq_refl) as H5.
  destruct (DroneConnection.turn (DroneConnection.Completed _ _ _ _) s4) as [s5 o5].
  destruct H5 as (_ & _ & Hout5 & _).
  exists l, (o3 ++ o4 ++ o5). split_and!; [|done|].
  - cbn [snd]. by rewrite app_nil_r, app_nil_l, <- app_assoc.
  - change (told (Protocol.bam_backend_id m)
      ([BackendState.Starting] ++ [BackendState.Waiting a] ++ [BackendState.Ready a]) (o3 ++ o4 ++ o5)).
    apply Forall2_app; [exact Hout3|]. apply Forall2_app; [exact Hout4|exact Hout5].
Qed.

End Drone.

(** *** The controller *)

Section Controller.
Context `{Ext : Externals}.

(** The database after states of a backend have been stored. *)
Definition stored (id : string) (l : list BackendState) (d : DB) : DB :=
  foldl (λ d st, (Backends.update_state id st d).1) d l.

Lemma receive_told p pool id states l d s :
  DroneSocket.ph s = DroneSocket.Running → told id states l →
  receive p pool l (d, s) = (stored id states d, s).
Proof.
  intros Hs Ht. revert d. induction Ht as [|st m states l (e & -> & Hid & Hst) _ IH]; intros d; [done|].
  cbn [receive foldl stored fst snd]. unfold DroneSocket.turn at 2. rewrite Hs.
  cbn [Controller.handle_message_from_drone]. rewrite Hid, Hst. specialize (IH (Backends.update_state id st d).1).
  destruct (Backends.update_state id st d) as [d' [u|er]]; cbn [fst] in *; apply IH.
Qed.

Lemma receive_app p pool l1 l2 x : receive p pool (l1 ++ l2) x = receive p pool l2 (receive p pool l1 x).
Proof. unfold receive. by rewrite foldl_app. Qed.

(** The reports before and after an acknowledgement. *)
Lemma receive_acked p pool id i states1 states2 l1 l2 d s :
  DroneSocket.ph s = DroneSocket.Running → told id states1 l1 → told id states2 l2 →
  receive p pool (l1 ++ Protocol.MAckAction i :: l2) (d, s) =
    (stored id states2 (Actions.ack_pending_action i (DroneSocket.node_id s) (stored id states1 d)), s).
Proof.
  intros Hs H1 H2. rewrite receive_app, (receive_told p pool id _ _ d s Hs H1).
  change (Protocol.MAckAction i :: l2) with ([Protocol.MAckAction i] ++ l2).
  rewrite receive_app. cbn [receive foldl fst snd]. unfold DroneSocket.turn at 1. rewrite Hs.
  cbn [Controller.handle_message_from_drone]. cbn. by rewrite (receive_told p pool id _ _ _ s Hs H2).
Qed.

(** What the following needs of the row of a backend. *)
Definition has_row (id : string) (st : BackendState) (b : backend_row) (d : DB) : Prop :=
  ∃ b', backends d !! id = Some b' ∧ b_state b' = Some st ∧
    b_cluster b' = b_cluster b ∧ b_subdomain b' = b_subdomain b.

Lemma stored_later id st st' b d :
  reachable d → has_row id st b d → (BackendState.status_int st < BackendState.status_int st')%Z →
  let d' := (Backends.update_state id st' d).1 in
  reachable d' ∧ has_row id st' b d' ∧ tokens d' = tokens d.
Proof.
  intros Hr (b' & Hb & Hst & Hc & Hs) Hlt d'. split; [by eapply reachable_step, step_update_state|].
  unfold d'. rewrite update_state_eq, Hb.
  destruct (wf_rows _ (reachable_wf _ Hr) _ _ Hb) as (st0 & Hst0 & _ & Hn & _). simplify_eq.
  unfold Backends.accepts. rewrite Hn, bool_decide_true by done. split; [|done].
  eexists. split; [apply lookup_insert_eq|]. by split_and!.
Qed.

Lemma stored_same id st b d :
  reachable d → has_row id st b d → (Backends.update_state id st d).1 = d.
Proof.
  intros Hr (b' & Hb & Hst & _). rewrite update_state_eq, Hb.
  destruct (wf_rows _ (reachable_wf _ Hr) _ _ Hb) as (st0 & Hst0 & _ & Hn & _). simplify_eq.
  unfold Backends.accepts. rewrite Hn, bool_decide_false; [done|]. lia.
Qed.

(** The acknowledgement leaves the backends, the tokens and the keys. *)
Lemma ack_tables i drone d :
  backends (Actions.ack_pending_action i drone d) = backends d ∧
  tokens (Actions.ack_pending_action i drone d) = tokens d ∧
  keys (Actions.ack_pending_action i drone d) = keys d.
Proof. unfold Actions.ack_pending_action. by repeat case_match. Qed.

Lemma stored_unacked id l drone d : unacked drone (stored id l d) = unacked drone d.
Proof.
  revert d. induction l as [|st l IH]; intros d; [done|]. cbn [stored foldl].
  change (foldl _ ?x l) with (stored id l x). rewrite IH. unfold unacked.
  pose proof (drone_message_actions (Protocol.MBackendEvent {| Protocol.bsm_event_id := 0;
    Protocol.bsm_backend_id := id; Protocol.bsm_state := st; Protocol.bsm_timestamp := 0 |}) drone true d) as H.
  cbn [Controller.handle_message_from_drone Protocol.bsm_backend_id Protocol.bsm_state] in H.
  destruct (Backends.update_state id st d) as [d' [u|er]]; cbn [fst] in *; by rewrite H.
Qed.

(** A pending action is among those that a tick sends, when there are at most fifty. *)
Lemma tick_sends p pool d s m a :
  reachable d → DroneSocket.ph s = DroneSocket.Running →
  actions d !! Protocol.bam_action_id m = Some a → a_action a = Some m → a_acked_at a = None →
  Protocol.bam_drone_id m = DroneSocket.node_id s →
  length (filter (Actions.is_pending (DroneSocket.node_id s)) (map_to_list (actions d))) ≤ 50 →
  ∃ l, DroneSocket.turn p pool (DroneSocket.Tick true) s d =
    (d, DroneSocket.Mk DroneSocket.Running (DroneSocket.guard s) (DroneSocket.sweeping s), l) ∧
    Protocol.TDAction m ∈ l.
Proof.
  intros Hr Hs Ha Hm Hack Hd Hlen. unfold DroneSocket.turn. rewrite Hs. unfold DroneSocket.resend.
  destruct (pending_messages (DroneSocket.node_id s) d Hr) as (rows & Hp & _). rewrite Hp.
  eexists. split; [reflexivity|]. apply list_elem_of_fmap_2.
  destruct (process_pending_spec _ _ _ _ Hr Hp) as (rows' & Heq & Hrows).
  assert (Inj (=) (=) Protocol.TDAction) as Hinj by (by intros ?? [= ->]).
  apply (list_fmap_eq_inj Protocol.TDAction Hinj) in Heq as <-.
  destruct (pending_actions_correct (DroneSocket.node_id s) Controller.pending_actions_limit d Hr)
    as (l & Hl & _ & _ & Hall & Hin).
  rewrite Hrows in Hl. injection Hl as ->.
  destruct (wf_actions _ (reachable_wf _ Hr) _ _ Ha) as (_ & _ & m' & Hm' & _ & _ & Hd').
  rewrite Hm in Hm'. injection Hm' as <-.
  destruct (Hin Hlen _ a Ha) as [m' Hm']; [congruence|done|].
  destruct (Hall _ _ _ Hm') as (_ & _ & Hm'' & _). rewrite Hm in Hm''. injection Hm'' as <-.
  apply list_elem_of_fmap. by exists (Protocol.bam_action_id m, a, m).
Qed.


End Controller.
End LifecycleProps.

(** ** Witness *)

Module LifecycleWitness.
Import Lifecycle LifecycleProps Scenario ExampleSockets.
#[local] Existing Instance ExampleExternals.example_externals.
#[local] Existing Instance ExampleExternals.example_laws.

(** A client has a token for the backend of the scenario before it is started. *)
Definition waiting : DB := (Connect.create_token (rand 3) "b1" (Some "u") [] db5).1.

(** The drone has just connected. *)
Definition idle : DroneConnection.t :=
  (DroneConnection.turn (DroneConnection.Connected 0 5) (DroneConnection.start
    (DroneLoop.MkDrone (Executor.MkExecutor StateStore.new ∅) KeyManager.new))).1.

Definition spawn_message : Protocol.BackendActionMessage := {|
  Protocol.bam_action_id := spawn_action_id; Protocol.bam_backend_id := "b1"; Protocol.bam_drone_id := 1;
  Protocol.bam_action := Protocol.Spawn (JObj [])
    {| Protocol.ak_key := key;
       Protocol.ak_deadlines := {| Protocol.renew_at := 30000000; Protocol.soft_terminate_at := 40000000;
         Protocol.hard_terminate_at := 40000000 |};
       Protocol.ak_token := 0 |} None |}.

Lemma reachable_waiting : reachable waiting.
Proof. eapply reachable_step; [apply reachable_db5|apply step_create_token]. Qed.


End LifecycleWitness.
