(* ===== verification/Teardown.v ===== *)
(** * A session goes down

    The parts together once more, from the request of a client to the end of a backend: the
    handler of [controller/terminate.rs] stores the action, the controller's task for the drone
    ([DroneSocket]) sends it, the drone ([DroneConnection]) stops the backend and reports what
    becomes of it, and the controller gives up its key and its route.

    Nothing is assumed of the rest of the database and of the drone; the messages are delivered,
    and the container exits when it is asked to. *)

From S2P Require Import Prelude Names BackendState Types Database Keys Backends Nodes.
From S2P Require Import Connect Invariant Scenario Changes Safety NodeProps BackendProps ConnectProps.
From S2P Require Import Controller StateStore KeyManager Drone Proxy Sockets SocketProps Lifecycle.
Import Db.

Module Teardown.
Section Teardown.
Context `{Ext : Externals}.

(** A runtime that takes the request to terminate, and the container is still running. *)
Definition stops : BackendManager.RuntimeAnswer := {|
  BackendManager.ans_prepare := true; BackendManager.ans_spawn := None;
  BackendManager.ans_wait := None; BackendManager.ans_terminate := Ok true |}.

(** What happens at the drone: the action arrives, its handler runs, the task that terminates the
    backend gets its answer, and the container exits. *)
Definition stopping (m : Protocol.BackendActionMessage) (handler : nat) (rt : result string bool)
    (ip : IpAddr) (code : option Z) (now : Z) : list DroneConnection.event :=
  let id := Protocol.bam_backend_id m in
  [DroneConnection.Received (Some (Protocol.TDAction m));
   DroneConnection.Handle handler rt now;
   DroneConnection.Completed id ip stops now;
   DroneConnection.Exited id code now].

(** The message that the handler of a termination request stores. *)
Definition termination (rand : nat → nat) (id : string) (drone : Z) (hard : bool)
    : Protocol.BackendActionMessage := {|
  Protocol.bam_action_id := Names.new_random Names.BackendActionName rand;
  Protocol.bam_backend_id := id; Protocol.bam_drone_id := drone;
  Protocol.bam_action := Protocol.Terminate (Controller.kind_of hard) BackendState.External |}.

(** The state that it leads to, and the last one. *)
Definition asked (hard : bool) (st : BackendState) : BackendState :=
  if hard then BackendState.to_hard_terminating st BackendState.External
  else BackendState.to_terminating st BackendState.External.
Definition ended (hard : bool) (code : option Z) (st : BackendState) : BackendState :=
  BackendState.to_terminated (asked hard st) code.

End Teardown.
End Teardown.

Module TeardownProps.
Import Lifecycle LifecycleProps Teardown.

(** *** The drone *)

Section Drone.

(** The machine of the backend, and its key. *)
Definition machine (id : string) (s : DroneConnection.t) : option BackendManager.Manager :=
  Executor.ex_backends (DroneLoop.dr_executor (DroneConnection.drone s)) !! id.
Definition has_key (id : string) (s : DroneConnection.t) : Prop :=
  is_Some (KeyManager.handles (DroneLoop.dr_keys (DroneConnection.drone s)) !! id).

Lemma asked_set hard st : BackendState.is_terminated st = false →
  ∃ h, BackendManager.set_state Executor.always (asked hard st) =
    (BackendManager.MkManager (asked hard st) (Some (BackendManager.TTerminate h (asked hard st))),
     [asked hard st]).
Proof. destruct hard, st; intros; try done; by eexists. Qed.

Lemma ended_set hard code st :
  BackendManager.set_state Executor.always (ended hard code st) =
    (BackendManager.MkManager (ended hard code st) None, [ended hard code st]).
Proof. by destruct hard, st. Qed.

Lemma asked_cases hard st : BackendState.is_terminated st = false →
  (BackendState.status_int st < BackendState.status_int (asked hard st))%Z ∨ asked hard st = st.
Proof. destruct hard, st; intros; try done; by (left + right). Qed.

Lemma ended_later hard code st : BackendState.is_terminated st = false →
  (BackendState.status_int (asked hard st) < BackendState.status_int (ended hard code st))%Z.
Proof. by destruct hard, st. Qed.

(** The handler of a termination: the backend is asked to stop, and the action acknowledged. *)
Lemma terminate_told s until rand id drone hard m rt now :
  DroneConnection.open s = Some until → listening s → machine id s = Some m →
  BackendState.is_terminated (BackendManager.m_state m) = false →
  let act := termination rand id drone hard in
  let st := asked hard (BackendManager.m_state m) in
  let s1 := (DroneConnection.turn (DroneConnection.Received (Some (Protocol.TDAction act))) s).1 in
  let '(s2, out) := DroneConnection.turn
    (DroneConnection.Handle (length (DroneConnection.handlers s)) rt now) s1 in
  DroneConnection.open s2 = Some until ∧ listening s2 ∧
  (∃ l, out = l ++ [Protocol.MAckAction (Protocol.bam_action_id act)] ∧ told id [st] l) ∧
  ∃ h, machine id s2 = Some (BackendManager.MkManager st (Some (BackendManager.TTerminate h st))).
Proof.
  intros Ho Hl Hm Hst act st s1.
  assert (s1 = DroneConnection.Mk (DroneConnection.drone s) (DroneConnection.connection s) (Some until)
    (DroneConnection.beat_at s)
    (DroneConnection.handlers s ++ [(DroneConnection.connection s, Protocol.TDAction act)])) as ->.
  { unfold s1. cbn [DroneConnection.turn]. by rewrite Ho. }
  cbn [DroneConnection.turn DroneConnection.handlers DroneConnection.drone DroneConnection.connection
       DroneConnection.open].
  rewrite list_lookup_middle by done. cbn [DroneLoop.handle_message]. unfold DroneLoop.handle_action.
  unfold machine in Hm. cbn [act termination Protocol.bam_action Protocol.bam_backend_id Executor.apply_action].
  rewrite Hm. unfold BackendManager.terminate.
  assert ((match Controller.kind_of hard with
    | BackendState.Soft => BackendState.to_terminating (BackendManager.m_state m) BackendState.External
    | BackendState.Hard => BackendState.to_hard_terminating (BackendManager.m_state m) BackendState.External
    end) = st) as -> by (unfold st, asked; by destruct hard).
  destruct (asked_set hard _ Hst) as [h Hset]. fold st in Hset. rewrite Hset. unfold Executor.with_manager.
  destruct (report_told id now [st] (Executor.ex_store (DroneLoop.dr_executor (DroneConnection.drone s))) Hl)
    as [H1 H2].
  destruct (Executor.report id now [st] _) as [sto out]. cbn. rewrite decide_True by done.
  split_and!; [done..|by eexists|]. exists h. apply lookup_insert_eq.
Qed.

(** The exit of a container: its backend is reported, and forgotten with its key. *)
Lemma exited_told s until id code now m st :
  DroneConnection.open s = Some until → listening s → machine id s = Some m →
  BackendState.to_terminated (BackendManager.m_state m) code = st → BackendState.is_terminated st = true →
  BackendManager.set_state Executor.always st = (BackendManager.MkManager st None, [st]) →
  let '(s', out) := DroneConnection.turn (DroneConnection.Exited id code now) s in
  told id [st] out ∧ machine id s' = None ∧ ¬ has_key id s'.
Proof.
  intros Ho Hl Hm Hst Hterm Hset. cbn [DroneConnection.turn]. unfold DroneConnection.notified,
    Executor.container_exited. unfold machine in Hm. rewrite Hm. unfold BackendManager.mark_terminated.
  rewrite Hst, Hset. cbn [snd Executor.report]. unfold StateStore.register_event. unfold listening in Hl.
  rewrite Hl. cbn. rewrite Ho. split_and!.
  - constructor; [by eexists|constructor].
  - unfold machine. cbn. apply lookup_delete_eq.
  - unfold has_key. cbn. unfold DroneLoop.on_event. cbn. rewrite Hterm. cbn. rewrite lookup_delete_eq.
    apply is_Some_None.
Qed.

Lemma drone_run_stopping s until rand id drone hard m rt ip code now :
  DroneConnection.open s = Some until → listening s → machine id s = Some m →
  BackendState.is_terminated (BackendManager.m_state m) = false →
  let act := termination rand id drone hard in
  let '(s', out) := drone_run (stopping act (length (DroneConnection.handlers s)) rt ip code now) s in
  machine id s' = None ∧ ¬ has_key id s' ∧
  ∃ l1 l2, out = l1 ++ Protocol.MAckAction (Protocol.bam_action_id act) :: l2 ∧
    told id [asked hard (BackendManager.m_state m)] l1 ∧
    told id [ended hard code (BackendManager.m_state m)] l2.
Proof.
  intros Ho Hl Hm Hst act. pose proof (terminate_told s until rand id drone hard m rt now Ho Hl Hm Hst) as H1.
  cbv zeta in H1. fold act in H1. unfold stopping. cbn [drone_run].
  assert ((DroneConnection.turn (DroneConnection.Received (Some (Protocol.TDAction act))) s).2 = []) as Hr.
  { cbn [DroneConnection.turn]. by rewrite Ho. }
  destruct (DroneConnection.turn (DroneConnection.Received _) s) as [s1 o1]. cbn [fst snd] in *. subst o1.
  destruct (DroneConnection.turn (DroneConnection.Handle _ _ _) s1) as [s2 o2].
  destruct H1 as (Ho2 & Hl2 & (l & -> & Hout) & h & Hm2).
  pose proof (completed_told s2 until _ ip stops now _ _ _ Ho2 Hl2 Hm2 eq_refl) as H3.
  change (Protocol.bam_backend_id act) with id.
  destruct (DroneConnection.turn (DroneConnection.Completed _ _ _ _) s2) as [s3 o3].
  destruct H3 as (Ho3 & Hl3 & Hout3 & Hm3). apply Forall2_nil_inv_l in Hout3 as ->.
  pose proof (exited_told s3 until id code now _ (ended hard code (BackendManager.m_state m)) Ho3 Hl3 Hm3
    eq_refl (BackendState.to_terminated_is_terminated _ _) (ended_set _ _ _)) as H4.
  destruct (DroneConnection.turn (DroneConnection.Exited _ _ _) s3) as [s4 o4].
  destruct H4 as (Hout4 & Hm4 & Hk4). split_and!; [done..|].
  exists l, o4. split_and!; [|done..]. by rewrite app_nil_r, app_nil_l, <- app_assoc.
Qed.

End Drone.

(** *** The controller *)

Section Controller.
Context `{Ext : Externals}.

Notation action_id rand := (Names.new_random Names.BackendActionName rand).

Lemma backend_found id d b :
  reachable d → backends d !! id = Some b → is_ok (Names.try_from Names.BackendName id) = true →
  ∃ row, Backends.backend id d = Ok (Some row) ∧ Backends.br_drone_id row = b_drone_id b.
Proof.
  intros Hr Hb Hn. destruct (wf_rows _ (reachable_wf _ Hr) _ _ Hb) as (st & Hst & _).
  unfold Backends.backend, Backends.decode_row. rewrite Hb, Hst.
  destruct (Names.try_from _ id) as [nm|]; [|done]. by eexists.
Qed.

(** The request of a client stores the action. *)
Lemma termination_stored err_id rand id hard d b :
  reachable d → backends d !! id = Some b → is_ok (Names.try_from Names.BackendName id) = true →
  actions d !! action_id rand = None →
  ∃ d', run (Controller.terminate err_id rand id hard) d = (d', Ok ()) ∧ reachable d' ∧
    backends d' = backends d ∧ keys d' = keys d ∧ tokens d' = tokens d ∧
    actions d' = <[action_id rand := MkAction id (b_drone_id b)
      (Some (termination rand id (b_drone_id b) hard)) (clock d) None]> (actions d).
Proof.
  intros Hr Hb Hn Ha. pose proof (reachable_wf _ Hr) as Hwf.
  destruct (wf_backend_drone _ Hwf _ _ Hb) as [dr Hdr].
  unfold termination. remember (action_id rand) as aid eqn:Haid.
  set (kill := Protocol.Terminate (Controller.kind_of hard) BackendState.External).
  exists (Actions.create_pending_action aid id (b_drone_id b) kill d).1.
  assert (reachable (Actions.create_pending_action aid id (b_drone_id b) kill d).1)
    as Hr' by (eapply reachable_step, step_create_action; done).
  destruct (backend_found id d b Hr Hb Hn) as (row & Hrow & Hdrone).
  unfold run, Controller.terminate. rewrite run_env_act. unfold read. rewrite Hrow. cbn [fst snd].
  cbn -[act run_env Actions.create_pending_action Names.new_random].
  rewrite <- Haid, run_env_act, Hdrone. cbv beta. clear Haid. revert Hr'.
  unfold Actions.create_pending_action, run_txn, Actions.create_pending_action_txn, txn_bind,
    emit_with_key, emit_impl, Actions.insert_action. cbn. rewrite Ha, Hb, Hdr. cbn. done.
Qed.

(** The reports of the drone, as the controller stores them. *)
Lemma asked_stored id hard st b d :
  reachable d → has_row id st b d → BackendState.is_terminated st = false →
  let d' := (Backends.update_state id (asked hard st) d).1 in
  reachable d' ∧ has_row id (asked hard st) b d' ∧ tokens d' = tokens d ∧ keys d' = keys d.
Proof.
  intros Hr Hrow Hst d'. destruct (asked_cases hard st Hst) as [Hlt|Heq].
  - destruct (stored_later id st (asked hard st) b d Hr Hrow Hlt) as (? & ? & ?). split_and!; [done..|].
    unfold d'. rewrite update_state_eq. repeat case_match; [|done..]. unfold updated.
    assert (BackendState.is_terminated (asked hard st) = false) as -> by (by destruct hard, st). done.
  - unfold d'. rewrite Heq, (stored_same id st b d Hr Hrow). done.
Qed.

Lemma ended_stored id hard code st b d :
  reachable d → has_row id (asked hard st) b d → BackendState.is_terminated st = false →
  let d' := (Backends.update_state id (ended hard code st) d).1 in
  reachable d' ∧ has_row id (ended hard code st) b d' ∧ tokens d' = tokens d ∧
  keys d' = delete id (keys d).
Proof.
  intros Hr Hrow Hst d'.
  pose proof (ended_later hard code st Hst) as Hlt.
  destruct (stored_later id _ _ b d Hr Hrow Hlt) as (? & Hrow' & ?). split_and!; [done..|].
  destruct Hrow as (b0 & Hb0 & Hst0 & _).
  destruct (wf_rows _ (reachable_wf _ Hr) _ _ Hb0) as (st0 & Hst1 & _ & Hnum & _).
  assert (st0 = asked hard st) as -> by congruence.
  unfold d'. rewrite update_state_eq, Hb0. unfold Backends.accepts. rewrite Hnum, bool_decide_true by done.
  unfold updated, ended. rewrite BackendState.to_terminated_is_terminated. done.
Qed.

(** What the controller has when the messages of the drone have arrived. *)
Lemma receive_ended p pool id i hard code st b k l1 l2 d s :
  reachable d → DroneSocket.ph s = DroneSocket.Running → has_row id st b d →
  BackendState.is_terminated st = false → keys d !! id = Some k →
  told id [asked hard st] l1 → told id [ended hard code st] l2 →
  let d' := (receive p pool (l1 ++ Protocol.MAckAction i :: l2) (d, s)).1 in
  reachable d' ∧ i ∉ unacked (DroneSocket.node_id s) d' ∧ has_row id (ended hard code st) b d' ∧
  tokens d' = tokens d ∧ Keys.find_key (k_name k) (k_namespace k) d' = None.
Proof.
  intros Hr Hs Hrow Hlive Hk Hl1 Hl2. rewrite (receive_acked p pool id _ _ _ _ _ d s Hs Hl1 Hl2).
  cbn [stored foldl fst]. destruct (asked_stored id hard _ b d Hr Hrow Hlive) as (Hr2 & Hrow2 & Ht2 & Hk2).
  set (d2 := (Backends.update_state id (asked hard _) d).1) in *.
  destruct (ack_tables i (DroneSocket.node_id s) d2) as (Hb3 & Ht3 & Hk3).
  set (d3 := Actions.ack_pending_action _ _ d2) in *.
  assert (reachable d3) as Hr3 by by eapply reachable_step, step_ack_action.
  assert (has_row id (asked hard st) b d3) as Hrow3 by (unfold has_row; by rewrite Hb3).
  destruct (ended_stored id hard code _ b d3 Hr3 Hrow3 Hlive) as (Hr4 & Hrow4 & Ht4 & Hk4).
  split_and!; [done| |done|by rewrite Ht4, Ht3, Ht2|].
  - change (i ∉ unacked (DroneSocket.node_id s) (stored id [ended hard code st] d3)).
    rewrite stored_unacked. unfold d3. rewrite unacked_ack. set_solver.
  - eapply (find_key_deleted d3); [by apply reachable_wf| |exact Hk4]. by rewrite Hk3, Hk2.
Qed.


End Controller.
End TeardownProps.

(** ** Witness *)

Module TeardownWitness.
Import Lifecycle LifecycleProps LifecycleWitness Teardown TeardownProps Scenario.
#[local] Existing Instance ExampleExternals.example_externals.
#[local] Existing Instance ExampleExternals.example_laws.

(** The drone that has brought up the backend of the scenario. *)
Definition serving : DroneConnection.t :=
  (drone_run (spawning spawn_message 0 (sa_ip addr) 8080 1) idle).1.

Definition sevens : nat → nat := λ _, 7.


End TeardownWitness.
