(* ===== verification/Exclusion.v ===== *)
(** * The fleet: one holder for a key

    The controllers with their database, and any number of drones with clocks of their own, connected
    by messages that are lost, delayed, repeated and reordered. A drone is the one of [Drone], with its
    executor and its key manager; the controllers' side are the handlers of [Controller] and the steps
    of the database. The key task of a backend stops it at the hard deadline of its key
    ([KeyManager]); here it is shown that until then, and for ten seconds more, the database gives
    the key to nobody else. *)

From S2P Require Import Prelude Names BackendState Types Database Keys Backends Nodes.
From S2P Require Import Connect Invariant Scenario Changes Safety NodeProps Takeover Controller.
From S2P Require Import StateStore KeyManager Drone DroneProps.
Import Db.

Module Fleet.
Import Executor DroneLoop.

Section Fleet.
Context `{Ext : Externals}.
(** How far the clock of each drone is ahead of the database's; the clocks run at the same rate. *)
Context (offset : Z → Z).

(** [used] are the ids of the backends made so far, [picked] the drones chosen for a spawn that may
    still be made, [to_drones] and [to_controllers] all messages ever sent, with the drone they are
    for or from. *)
Record t := Mk {
  db : DB;
  used : gset string;
  drones : gmap Z Drone;
  picked : list Drones.DroneForSpawn;
  to_drones : list (Z * Protocol.MessageToDrone);
  to_controllers : list (Z * Protocol.MessageFromDrone)
}.

Definition start (now : Z) : t := Mk (empty_db now) ∅ ∅ [] [] [].

Definition local (n : Z) (s : t) : Z := clock (db s) + offset n.

Definition with_db (d : DB) (s : t) : t :=
  Mk d (used s) (drones s) (picked s) (to_drones s) (to_controllers s).
Definition with_drone (n : Z) (d : Drone) (out : list Protocol.MessageFromDrone) (s : t) : t :=
  Mk (db s) (used s) (<[n := d]> (drones s)) (picked s) (to_drones s)
    (to_controllers s ++ ((n,.) <$> out)).

Definition is_spawn (a : Protocol.BackendAction) : bool :=
  match a with Protocol.Spawn _ _ _ => true | Protocol.Terminate _ _ => false end.

(** The steps of the database that are not made for a message of a drone, and do not spawn. *)
Inductive other : DB → DB → Prop :=
| ot_clock d u : (clock d ≤ u)%Z → other d (set_clock u d)
| ot_update_state d id st : other d (Backends.update_state id st d).1
| ot_keepalive d id : other d (Backends.update_keepalive id d).1
| ot_cleanup d days batch : other d (Backends.cleanup days batch d).1
| ot_prevent_renew d id : other d (Keys.prevent_renew id d).1
| ot_remove_key d id : other d (Keys.remove_key id d).1
| ot_create_action d aid id n a : is_spawn a = false →
    other d (Actions.create_pending_action aid id n a d).1
| ot_create_token d rand id user auth : other d (Connect.create_token rand id user auth d).1
| ot_revoke d r : other d (Connect.revoke r d)
| ot_clean_up_tokens d : other d (Connect.clean_up_tokens d)
| ot_clean_up_events d days : other d (clean_up_events days d)
| ot_controller_heartbeat d name online v h : other d (Controllers.heartbeat name online v h d)
| ot_register_node d cl name kind co v h ip :
    other d (Nodes.register cl name kind co v h ip d).1
| ot_mark_offline d id co u : other d (Nodes.mark_offline id co u d).1
| ot_register_drone d id ready pool : other d (Drones.register_drone id ready pool d).1
| ot_drain d id : other d (Drones.drain id d).1
| ot_lease d cl p : other d (Acme.lease_cluster_dns cl p d).1
| ot_set_dns d cl p txt : other d (Acme.set_cluster_dns cl p txt d).1
| ot_release d cl p : other d (Acme.release_cluster_lease cl p d).

Inductive step (s : t) : t → Prop :=
| st_other d : other (db s) d → step s (with_db d s)
(** A connect request: the choice of a drone, then the transaction, whatever happens between them. Ids
    are not used twice: they are random, or chosen by a client that must see to it. *)
| st_pick shuffle cluster pool best_of p :
    (∀ l, shuffle l ≡ₚ l) →
    Drones.pick_drone_for_spawn shuffle cluster pool best_of (db s) = Ok (Some p) →
    step s (Mk (db s) (used s) (drones s) (picked s ++ [p]) (to_drones s) (to_controllers s))
| st_create rand key sc cluster p static :
    p ∈ picked s → spawn_id rand sc ∉ used s →
    step s (Mk (Connect.create_backend_with_key rand key sc cluster p static (db s)).1
              ({[spawn_id rand sc]} ∪ used s) (drones s) (picked s) (to_drones s) (to_controllers s))
(** An action of the table is sent to its drone: when it is made, and again until it is acknowledged. *)
| st_send i a m :
    actions (db s) !! i = Some a → a_action a = Some m →
    step s (Mk (db s) (used s) (drones s) (picked s)
              (to_drones s ++ [(a_drone_id a, Protocol.TDAction m)]) (to_controllers s))
(** A controller handles a message that a drone has sent at some time. *)
| st_handle n m ok d r :
    (n, m) ∈ to_controllers s →
    Controller.handle_message_from_drone m n ok (db s) = (d, r) →
    step s (Mk d (used s) (drones s) (picked s)
              (to_drones s ++ ((n,.) <$> match r with Ok l => l | Err _ => [] end)) (to_controllers s))
(** A drone starts, with what the store of an earlier process makes of its executor. *)
| st_start n ex : step s (with_drone n (MkDrone ex KeyManager.new) [] s)
| st_connect n d d' r :
    drones s !! n = Some d → connected d = (d', r) →
    step s (with_drone n d' (match r with Ok l => l | Err _ => [] end) s)
| st_deliver n d m rt d' out :
    drones s !! n = Some d → (n, m) ∈ to_drones s →
    handle_message m rt (local n s) d = (d', out) → step s (with_drone n d' out s)
| st_task n d id ip a ex l d' out :
    drones s !! n = Some d → task_completed id ip a (local n s) (dr_executor d) = (ex, l) →
    forward d ex l = (d', out) → step s (with_drone n d' out s)
| st_exited n d id code ex l d' out :
    drones s !! n = Some d → container_exited id code (local n s) (dr_executor d) = (ex, l) →
    forward d ex l = (d', out) → step s (with_drone n d' out s)
(** The task of a key terminates its backend. *)
| st_key_task n d b e kind rt ex l r d' out :
    drones s !! n = Some d → KeyManager.handles (dr_keys d) !! b = Some e →
    apply_action b (Protocol.Terminate kind BackendState.KeyExpired) rt (local n s) (dr_executor d) =
      (ex, l, r) →
    forward d ex l = (d', out) → step s (with_drone n d' out s)
(** The task of a key asks for its renewal, and the loop of heartbeats tells of the drone, with the local
    time: [u], as it was read, and as it is cut on its way. *)
| st_ask n d b e u :
    drones s !! n = Some d → KeyManager.handles (dr_keys d) !! b = Some e → (u ≤ local n s)%Z →
    step s (with_drone n d
      [Protocol.MRenewKey {| Protocol.rkr_backend := b; Protocol.rkr_local_time := u |}] s)
| st_beat n d u :
    drones s !! n = Some d → (u ≤ local n s)%Z →
    step s (with_drone n d [Protocol.MHeartbeat {| Protocol.hb_local_time := u |}] s).

Definition reachable (s : t) : Prop := ∃ now, rtc step (start now) s.

(** The time that the hard deadlines leave before the end of a lease. *)
Definition MARGIN : Z := Keys.KEY_LEASE_EXPIRATION - Keys.KEY_LEASE_HARD_TERMINATE_AFTER.

(** The drone [n] may still run [b] for the key: its key task is there, and is not late by more than
    the margin. *)
Definition may_run (n : Z) (b : string) (key : KeyConfig) (s : t) : Prop :=
  ∃ d k x, drones s !! n = Some d ∧ KeyManager.handles (dr_keys d) !! b = Some (k, x) ∧
    Protocol.ak_key k = key ∧
    (local n s ≤ Protocol.hard_terminate_at (Protocol.ak_deadlines k) + MARGIN)%Z.

(** The database has been told that [b] is over. *)
Definition over (b : string) (d : DB) : Prop :=
  ∀ r, backends d !! b = Some r → b_last_status r = "terminated".

End Fleet.
End Fleet.

(** ** Theorems *)

Module FleetProps.
Import Executor DroneLoop Fleet.

Section FleetProps.
Context `{Ext : Externals} (offset : Z → Z).

(** *** Steps of the database *)

Lemma other_step d d' : other d d' → Invariant.step d d'.
Proof. destruct 1; by constructor. Qed.

(** What the other steps leave alone: no backend is made, no spawn is stored, no local time is set. *)
Record quiet (d d' : DB) : Prop := {
  qu_backends : ∀ b, backends d !! b = None → backends d' !! b = None;
  qu_spawns : ∀ i a m, actions d' !! i = Some a → a_action a = Some m →
    is_spawn (Protocol.bam_action m) = true →
    ∃ a0, actions d !! i = Some a0 ∧ a_action a0 = Some m ∧ a_drone_id a0 = a_drone_id a;
  qu_times : ∀ n r u, Db.drones d' !! n = Some r → d_last_local_time r = Some u →
    ∃ r0, Db.drones d !! n = Some r0 ∧ d_last_local_time r0 = Some u
}.

Lemma quiet_same d d' :
  (∀ b, backends d !! b = None → backends d' !! b = None) →
  actions d' = actions d → Db.drones d' = Db.drones d → quiet d d'.
Proof.
  intros Hb Ha Hd. split; [done|rewrite Ha|rewrite Hd]; eauto.
Qed.

Lemma quiet_refl d : quiet d d.
Proof. by apply quiet_same. Qed.

Lemma insert_none {V} (m : gmap string V) i v b : is_Some (m !! i) → m !! b = None → <[i := v]> m !! b = None.
Proof. intros [x Hi] Hb. rewrite lookup_insert_ne; congruence. Qed.

Lemma quiet_update_state d id st : quiet d (Backends.update_state id st d).1.
Proof.
  rewrite update_state_eq. destruct (backends d !! id) eqn:Hb; [|apply quiet_refl].
  destruct (Backends.accepts _ _); [|apply quiet_refl]. apply quiet_same; [|done..]. cbn. intros i.
  apply insert_none. by rewrite Hb.
Qed.

Lemma quiet_ack d aid n : quiet d (Actions.ack_pending_action aid n d).
Proof.
  unfold Actions.ack_pending_action. destruct (actions d !! aid) as [a|] eqn:Ha; [|apply quiet_refl].
  case_decide; [|apply quiet_refl]. split; [done| |eauto]. cbn. intros i a' m.
  destruct (decide (i = aid)) as [->|Hne]; [rewrite lookup_insert_eq|rewrite lookup_insert_ne by done; eauto].
  intros [= <-] Hm _. by exists a.
Qed.

Lemma quiet_cleanup d days batch : wf d → quiet d (Backends.cleanup days batch d).1.
Proof.
  intros Hwf. destruct (decide (batch < 0)%Z).
  { unfold Backends.cleanup, Backends.cleanup_txn, run_txn. rewrite decide_True by done. apply quiet_refl. }
  rewrite cleanup_eq by (done || lia). split; cbn; [|intros i a m|by eauto].
  - intros b Hb. apply map_lookup_filter_None. by left.
  - intros [Ha _]%map_lookup_filter_Some Hm _. by exists a.
Qed.

Lemma quiet_create_action d aid id n a : is_spawn a = false →
  quiet d (Actions.create_pending_action aid id n a d).1.
Proof.
  intros Hs. unfold Actions.create_pending_action, run_txn, Actions.create_pending_action_txn, txn_bind,
    emit_with_key, emit_impl, Actions.insert_action. cbn.
  destruct (actions d !! aid), (backends d !! id), (Db.drones d !! n); try apply quiet_refl.
  split; cbn; [done| |by eauto]. intros i a' m [[<- <-]|[_ Hi]]%lookup_insert_Some; [|by eauto].
  cbn. intros [= <-]. cbn. congruence.
Qed.

Lemma quiet_register_drone d n ready pool : quiet d (Drones.register_drone n ready pool d).1.
Proof.
  unfold Drones.register_drone. destruct (Db.drones d !! n) as [r|] eqn:Hr; [|destruct (nodes d !! n)];
    try apply quiet_refl; (split; cbn; [done|by eauto|]);
    intros n' r' u [[<- <-]|[_ Hn]]%lookup_insert_Some; cbn; eauto. done.
Qed.

Lemma quiet_drain d n : quiet d (Drones.drain n d).1.
Proof.
  unfold Drones.drain. destruct (Db.drones d !! n) as [r|] eqn:Hr; [|apply quiet_refl].
  split; cbn; [done|by eauto|]. intros n' r' u [[<- <-]|[_ Hn]]%lookup_insert_Some; cbn; eauto.
Qed.

Lemma quiet_other d d' : other d d' → wf d → quiet d d'.
Proof.
  intros Ho Hwf. destruct Ho; try (by apply quiet_same);
    auto using quiet_update_state, quiet_cleanup, quiet_create_action, quiet_register_drone, quiet_drain.
  all: apply quiet_same; open_step; try done.
  intros i. apply insert_none. by eexists.
Qed.

(** *** Leases *)

(** A hard deadline [u] of the drone [n] lies in the lease of [b], or it has passed by more than the
    margin. *)
Definition covered (d : DB) (n : Z) (b : string) (u : Z) : Prop :=
  (u + MARGIN < clock d + offset n)%Z ∨
  ∃ k, keys d !! b = Some k ∧ (u + MARGIN ≤ k_expires_at k + offset n)%Z.

Definition named (d : DB) (b : string) (key : KeyConfig) : Prop :=
  ∀ k, keys d !! b = Some k →
    k_name k = Types.key_name key ∧ k_namespace k = Types.key_namespace key.

Lemma over_step d d' b : Invariant.step d d' → wf d →
  (backends d !! b = None → backends d' !! b = None) → over b d → over b d'.
Proof.
  intros Hs Hwf Hn Ho r Hr. pose proof (step_row d d' b Hs Hwf) as Hc. rewrite Hr in Hc.
  destruct (backends d !! b) as [r0|] eqn:Hr0; [|by rewrite Hn in Hr].
  specialize (Ho r0 Hr0). inversion Hc as [| b0 st Hacc| |  |]; subst; [done| |done].
  destruct (wf_rows _ Hwf b r0 Hr0) as (s0 & Hs0 & Hls & Hnum & _). unfold Backends.accepts in Hacc.
  rewrite Hnum in Hacc. apply bool_decide_eq_true in Hacc. rewrite Ho in Hls.
  assert (BackendState.status s0 = BackendStatus.Terminated) as Ht by (revert Hls; by destruct (BackendState.status s0)).
  unfold BackendState.status_int in Hacc. rewrite Ht in Hacc.
  pose proof (BackendState.as_int_bounds (BackendState.status st)). cbn in Hacc. lia.
Qed.

Lemma covered_step d d' n b u : Invariant.step d d' → wf d → wf d' → leases_bounded d →
  covered d n b u → covered d' n b u ∨ over b d'.
Proof.
  intros Hs Hwf Hwf' Hb Hc. pose proof (step_clock_mono _ _ Hs) as Hcl.
  destruct Hc as [Hc|(k & Hk & Hc)]; [left; left; lia|].
  pose proof (step_key d d' b Hs Hwf) as Hch. rewrite Hk in Hch. pose proof (Hb b k Hk) as Hbd.
  destruct (keys d' !! b) as [k'|] eqn:Hk'.
  - left. right. exists k'. split; [done|]. inversion Hch; subst; cbn; lia.
  - inversion Hch as [| | | |k0 Hexp|k0 r st Hr Hst Ht]; subst; [left; left; lia|]. right.
    intros r' Hr'. destruct (wf_rows _ Hwf' b r Hr) as (s0 & Hs0 & Hls & _).
    assert (r' = r ∧ s0 = st) as [-> ->] by (split; congruence). rewrite Hls. by destruct st.
Qed.

Lemma named_step d d' b key : Invariant.step d d' → wf d → wf d' →
  (backends d !! b = None → backends d' !! b = None) → named d b key → named d' b key.
Proof.
  intros Hs Hwf Hwf' Hn Hk k' Hk'. pose proof (step_key d d' b Hs Hwf) as Hch. rewrite Hk' in Hch.
  destruct (keys d !! b) as [k|] eqn:Hkd.
  - specialize (Hk k Hkd). inversion Hch; subst; done.
  - inversion Hch as [|k0 Hb| | | |]; subst. destruct (wf_key_alive _ Hwf' _ _ Hk') as (r & st & Hr & _).
    by rewrite Hn in Hr.
Qed.

(** The row of a backend says where it was placed. *)
Definition placed (d : DB) (n : Z) (b : string) : Prop :=
  ∀ r, backends d !! b = Some r → b_drone_id r = n.

Lemma placed_step d d' n b : Invariant.step d d' → wf d →
  (backends d !! b = None → backends d' !! b = None) → placed d n b → placed d' n b.
Proof.
  intros Hs Hwf Hn Hp r' Hr'. pose proof (step_row d d' b Hs Hwf) as Hch. rewrite Hr' in Hch.
  destruct (backends d !! b) as [r|] eqn:Hr; [|by rewrite Hn in Hr'].
  specialize (Hp r Hr). by inversion Hch; subst.
Qed.

(** What a drone may rely on: its deadline for a backend, the key of that backend, and that the backend
    is its own. *)
Definition grant (U : gset string) (d : DB) (n : Z) (b : string) (u : Z) : Prop :=
  b ∈ U ∧ (over b d ∨ covered d n b u).
Definition entitled (U : gset string) (d : DB) (n : Z) (b : string) (k : Protocol.AcquiredKey) : Prop :=
  grant U d n b (Protocol.hard_terminate_at (Protocol.ak_deadlines k)) ∧
  (over b d ∨ named d b (Protocol.ak_key k)) ∧ placed d n b.

(** A step of the database that makes no backend with an id that was used. *)
Record db_step (U U' : gset string) (d d' : DB) : Prop := {
  ds_step : Invariant.step d d' ∨ d' = d;
  ds_wf : Invariant.reachable d;
  ds_used : U ⊆ U';
  ds_new : ∀ b, b ∈ U → backends d !! b = None → backends d' !! b = None
}.

Lemma grant_step U U' d d' n b u : db_step U U' d d' → grant U d n b u → grant U' d' n b u.
Proof.
  intros [[Hs| ->] Hr HU Hn] [Hb Hg]; (split; [by apply HU|]); [|done].
  pose proof (reachable_wf _ Hr) as Hwf. pose proof (wf_step _ _ Hs Hwf) as Hwf'.
  destruct Hg as [Ho|Hc]; [left; eapply over_step; eauto|].
  destruct (covered_step d d' n b u); eauto using reachable_bounded.
Qed.

Lemma entitled_step U U' d d' n b k : db_step U U' d d' → entitled U d n b k → entitled U' d' n b k.
Proof.
  intros Hd (Hg & Hk & Hp). split; [by eapply grant_step|]. destruct Hg as [Hb _].
  destruct Hd as [[Hs| ->] Hr HU Hn]; [|done].
  pose proof (reachable_wf _ Hr) as Hwf. pose proof (wf_step _ _ Hs Hwf) as Hwf'.
  split; [|eapply placed_step; eauto].
  destruct Hk as [Ho|Hk]; [left; eapply over_step; eauto|right; eapply named_step; eauto].
Qed.

(** *** Drones *)

Lemma on_event_handles l keys b e :
  KeyManager.handles (foldl on_event keys l) !! b = Some e → KeyManager.handles keys !! b = Some e.
Proof.
  revert keys. induction l as [|m l IH]; intros keys; [done|]. cbn [foldl]. intros H%IH. revert H.
  unfold on_event. destruct (BackendState.is_terminated _); [|done]. cbn. by intros [_ ?]%lookup_delete_Some.
Qed.

(** What a drone reports about its backends is not for the leases. *)
Definition report (m : Protocol.MessageFromDrone) : Prop :=
  match m with Protocol.MRenewKey _ | Protocol.MHeartbeat _ => False | _ => True end.

Lemma forward_spec d ex l d' out : forward d ex l = (d', out) →
  (∀ b e, KeyManager.handles (dr_keys d') !! b = Some e → KeyManager.handles (dr_keys d) !! b = Some e) ∧
  ∀ m, m ∈ out → report m.
Proof.
  intros [= <- <-]. split; [intros b e; apply on_event_handles|]. by intros m (x & -> & _)%list_elem_of_fmap.
Qed.

(** Where the key of a backend comes from: it was there, or a spawn or a renewal brought it. *)
Inductive key_source (msg : Protocol.MessageToDrone) (keys : KeyManager.KeyManager) (b : string)
    (k : Protocol.AcquiredKey) : Prop :=
| ks_kept x : KeyManager.handles keys !! b = Some (k, x) → key_source msg keys b k
| ks_spawn m exe static : msg = Protocol.TDAction m → Protocol.bam_backend_id m = b →
    Protocol.bam_action m = Protocol.Spawn exe k static → key_source msg keys b k
| ks_renewed r dl k0 x : msg = Protocol.TDRenewKeyResponse r → Protocol.rkp_backend r = b →
    Protocol.rkp_deadlines r = Some dl → KeyManager.handles keys !! b = Some (k0, x) →
    k = KeyManager.with_deadlines dl k0 → key_source msg keys b k.

Lemma handle_message_spec msg rt now d d' out : handle_message msg rt now d = (d', out) →
  (∀ b k x, KeyManager.handles (dr_keys d') !! b = Some (k, x) → key_source msg (dr_keys d) b k) ∧
  ∀ m, m ∈ out → report m.
Proof.
  destruct msg as [m|e|r]; cbn [handle_message].
  - unfold handle_action.
    destruct (match Protocol.bam_action m with Protocol.Spawn _ _ _ => _ | _ => _ end) as [keys reg] eqn:Hk.
    assert (∀ b k x, KeyManager.handles keys !! b = Some (k, x) →
      key_source (Protocol.TDAction m) (dr_keys d) b k) as Hsrc.
    { intros b k x Hb. destruct (Protocol.bam_action m) as [exe key tok|kind reason] eqn:Ha;
        [|simplify_eq; by eapply ks_kept]. unfold KeyManager.register_key in Hk.
      destruct (KeyManager.handles (dr_keys d) !! Protocol.bam_backend_id m) eqn:Hh; simplify_eq;
        [by eapply ks_kept|]. cbn in Hb. apply lookup_insert_Some in Hb as [[<- [= <- _]]|[_ Hb]];
        [by eapply ks_spawn|by eapply ks_kept]. }
    destruct reg; [|intros [= <- <-]; split; [intros b k x; by apply ks_kept|by intros ? ?%elem_of_nil]].
    destruct (apply_action _ _ _ _ _) as [[ex l] r]. destruct (forward _ ex l) as [d1 msgs] eqn:Hf.
    apply forward_spec in Hf as [Hh Ho]. cbn in Hh.
    destruct r; intros [= <- <-]; (split; [intros b k x Hb; eapply Hsrc, Hh, Hb|]); [|done].
    intros x [Hx|Hx]%elem_of_app; [by apply Ho|]. by apply list_elem_of_singleton in Hx as ->.
  - intros [= <- <-]. split; [intros b k x; by apply ks_kept|by intros ? ?%elem_of_nil].
  - destruct (Protocol.rkp_deadlines r) as [dl|] eqn:Hdl; intros [= <- <-];
      (split; [|by intros ? ?%elem_of_nil]); intros b k x; [|by apply ks_kept].
    cbn. unfold KeyManager.update_deadlines.
    destruct (KeyManager.handles (dr_keys d) !! Protocol.rkp_backend r) as [[k0 x0]|] eqn:Hh;
      [|by apply ks_kept]. cbn.
    intros [[<- [= <- _]]|[_ Hb]]%lookup_insert_Some; [by eapply ks_renewed|by eapply ks_kept].
Qed.

(** *** The invariant *)

Definition timely (n : Z) (m : Protocol.MessageFromDrone) (s : t) : Prop :=
  match m with
  | Protocol.MRenewKey r => (Protocol.rkr_local_time r ≤ local offset n s)%Z
  | Protocol.MHeartbeat h => (Protocol.hb_local_time h ≤ local offset n s)%Z
  | _ => True
  end.

Definition spawn_ok (U : gset string) (d : DB) (n : Z) (m : Protocol.BackendActionMessage) : Prop :=
  match Protocol.bam_action m with
  | Protocol.Spawn _ k _ => entitled U d n (Protocol.bam_backend_id m) k
  | Protocol.Terminate _ _ => True
  end.

Definition sent_ok (U : gset string) (d : DB) (n : Z) (msg : Protocol.MessageToDrone) : Prop :=
  match msg with
  | Protocol.TDAction m => spawn_ok U d n m
  | Protocol.TDAckEvent _ => True
  | Protocol.TDRenewKeyResponse r =>
      ∀ dl, Protocol.rkp_deadlines r = Some dl →
        grant U d n (Protocol.rkp_backend r) (Protocol.hard_terminate_at dl)
  end.

Record sound (s : t) : Prop := {
  so_db : Invariant.reachable (db s);
  so_used : ∀ b, is_Some (backends (db s) !! b) → b ∈ used s;
  so_rows : ∀ i a m, actions (db s) !! i = Some a → a_action a = Some m →
    spawn_ok (used s) (db s) (a_drone_id a) m;
  so_sent : ∀ n msg, (n, msg) ∈ to_drones s → sent_ok (used s) (db s) n msg;
  so_keys : ∀ n d b k x, drones s !! n = Some d → KeyManager.handles (dr_keys d) !! b = Some (k, x) →
    entitled (used s) (db s) n b k;
  so_from : ∀ n m, (n, m) ∈ to_controllers s → timely n m s;
  so_times : ∀ n r u, Db.drones (db s) !! n = Some r → d_last_local_time r = Some u →
    (u ≤ local offset n s)%Z;
  so_picked : ∀ p, p ∈ picked s → (Drones.ds_last_local_time p ≤ local offset (Drones.ds_id p) s)%Z
}.

Lemma fleet_start_sound now : sound (start now).
Proof.
  split; cbn; try (intros; set_solver).
  - by exists now.
  - intros b [r Hr]. done.
Qed.

Lemma spawn_ok_step U U' d d' n m : db_step U U' d d' → spawn_ok U d n m → spawn_ok U' d' n m.
Proof. unfold spawn_ok. destruct (Protocol.bam_action m); [by apply entitled_step|done]. Qed.

Lemma sent_ok_step U U' d d' n msg : db_step U U' d d' → sent_ok U d n msg → sent_ok U' d' n msg.
Proof.
  intros Hd. destruct msg as [m| |r]; cbn; [by apply spawn_ok_step|done|].
  intros H dl Hdl. by eapply grant_step, H.
Qed.

(** A step of the database, with what it may add. *)
Lemma sound_db s U d :
  sound s → db_step (used s) U (db s) d →
  (∀ b, is_Some (backends d !! b) → b ∈ U) →
  (∀ i a m, actions d !! i = Some a → a_action a = Some m → is_spawn (Protocol.bam_action m) = true →
     (∃ a0, actions (db s) !! i = Some a0 ∧ a_action a0 = Some m ∧ a_drone_id a0 = a_drone_id a) ∨
     spawn_ok U d (a_drone_id a) m) →
  (∀ n r u, Db.drones d !! n = Some r → d_last_local_time r = Some u →
     (∃ r0, Db.drones (db s) !! n = Some r0 ∧ d_last_local_time r0 = Some u) ∨
     (u ≤ clock d + offset n)%Z) →
  sound (Mk d U (drones s) (picked s) (to_drones s) (to_controllers s)).
Proof.
  intros [Hr Hu Hrows Hsent Hkeys Hfrom Htimes Hpicked] Hd HU Ha Ht.
  assert (clock (db s) ≤ clock d)%Z as Hc by (destruct Hd as [[?%step_clock_mono| ->]]; done).
  split; cbn; [by destruct Hd as [[?| ->]]; [eapply reachable_step|]|done|..].
  - intros i a m Hi Hm. unfold spawn_ok. destruct (Protocol.bam_action m) as [exe k st|] eqn:Hs; [|done].
    destruct (Ha i a m Hi Hm) as [(a0 & Ha0 & Hm0 & Hn)|Hok]; [by rewrite Hs| |].
    + specialize (Hrows i a0 m Ha0 Hm0). unfold spawn_ok in Hrows. rewrite Hs, Hn in Hrows.
      by eapply entitled_step.
    + unfold spawn_ok in Hok. by rewrite Hs in Hok.
  - intros n msg Hm. by eapply sent_ok_step, Hsent.
  - intros n dr b k x Hn Hh. by eapply entitled_step, Hkeys.
  - intros n m Hm. specialize (Hfrom n m Hm). unfold timely, local in *. cbn. destruct m; try done; lia.
  - intros n r u Hn Hl. unfold local in *. cbn. destruct (Ht n r u Hn Hl) as [(r0 & Hr0 & Hl0)|]; [|done].
    specialize (Htimes n r0 u Hr0 Hl0). lia.
  - intros p Hp. specialize (Hpicked p Hp). unfold local in *. cbn. lia.
Qed.

Lemma sound_send s l :
  sound s → (∀ n msg, (n, msg) ∈ l → sent_ok (used s) (db s) n msg) →
  sound (Mk (db s) (used s) (drones s) (picked s) (to_drones s ++ l) (to_controllers s)).
Proof.
  intros [Hr Hu Hrows Hsent Hkeys Hfrom Htimes Hpicked] Hl. split; cbn; try done.
  intros n msg [Hm|Hm]%elem_of_app; auto.
Qed.

Lemma sound_drone s n d out :
  sound s →
  (∀ b k x, KeyManager.handles (dr_keys d) !! b = Some (k, x) → entitled (used s) (db s) n b k) →
  (∀ m, m ∈ out → timely n m s) → sound (with_drone n d out s).
Proof.
  intros [Hr Hu Hrows Hsent Hkeys Hfrom Htimes Hpicked] Hk Ho. split; cbn; try done.
  - intros n' d' b k x [[<- <-]|[_ Hn]]%lookup_insert_Some; [apply Hk|by apply Hkeys].
  - intros n' m [Hm|Hm]%elem_of_app; [by apply Hfrom|].
    apply list_elem_of_fmap in Hm as (m' & [= -> ->] & Hm). by apply Ho.
Qed.

Lemma report_timely n m s : report m → timely n m s.
Proof. by destruct m. Qed.

(** *** The invariant is kept *)

Lemma db_step_same U U' d d' :
  Invariant.reachable d → Invariant.step d d' ∨ d' = d → U ⊆ U' → quiet d d' → db_step U U' d d'.
Proof. intros Hr Hs HU Hq. split; try done. intros b _. apply (qu_backends _ _ Hq). Qed.

Lemma sound_quiet s d :
  sound s → Invariant.step (db s) d ∨ d = db s → quiet (db s) d → sound (with_db d s).
Proof.
  intros Hso Hs Hq. pose proof (so_db _ Hso) as Hr. apply sound_db; [done|by apply db_step_same| | |].
  - intros b [r Hb]. apply (so_used _ Hso). destruct (backends (db s) !! b) eqn:Hb0; [by eexists|].
    by rewrite (qu_backends _ _ Hq _ Hb0) in Hb.
  - intros i a m Hi Hm Hsp. left. by eapply (qu_spawns _ _ Hq).
  - intros n r u Hn Hl. left. by eapply (qu_times _ _ Hq).
Qed.

(** The only action that a creation stores is the spawn of its backend. *)
Lemma created_action rand key sc cluster p static d i a :
  actions (Connect.create_backend_with_key rand key sc cluster p static d).1 !! i = Some a →
  actions d !! i = Some a ∨
  ∃ token m, a_action a = Some m ∧ a_drone_id a = Drones.ds_id p ∧
    Protocol.bam_backend_id m = spawn_id rand sc ∧
    Protocol.bam_action m =
      Connect.spawn_action key token (Drones.ds_last_local_time p) sc static.
Proof.
  unfold Connect.create_backend_with_key. destruct (Connect.lifetime _) as [life|]; [|by left].
  destruct (Connect.insert_backend_with_key _ _ _ d) as [[d1 token]|] eqn:Hins; [|by left].
  apply insert_backend_with_key_Ok in Hins as (_ & _ & _ & _ & ->).
  destruct (emit_state_change _ _ _) as [[d2 []]|] eqn:Hem; [|by left].
  rewrite emit_state_change_eq in Hem. simpl in Hem. rewrite lookup_insert_eq in Hem.
  injection Hem as <-.
  unfold Actions.create_pending_action_txn, txn_bind, emit_with_key, emit_impl, Actions.insert_action.
  cbn. destruct (actions d !! _); [by left|]. rewrite lookup_insert_eq.
  destruct (Db.drones d !! _); [|by left]. cbn.
  intros [[_ <-]|[_ Hi]]%lookup_insert_Some; [right|by left]. by eexists token, _.
Qed.

Lemma sound_create s rand key sc cluster p static :
  sound s → p ∈ picked s → spawn_id rand sc ∉ used s →
  sound (Mk (Connect.create_backend_with_key rand key sc cluster p static (db s)).1
           ({[spawn_id rand sc]} ∪ used s) (drones s) (picked s) (to_drones s) (to_controllers s)).
Proof.
  intros Hso Hp Hid. pose proof (so_db _ Hso) as Hr.
  destruct (create_backend_side rand key sc cluster p static (db s)) as [_ Hdr].
  pose proof (step_create_backend (db s) rand key sc cluster p static) as Hstep.
  pose proof (λ i a, created_action rand key sc cluster p static (db s) i a) as Hact.
  destruct (create_backend_tables rand key sc cluster p static (db s))
    as [[Heq _]|(life & _ & _ & _ & _ & _ & Hb & Hk)].
  { rewrite Heq. apply sound_db; [done|apply db_step_same; [done|by right|set_solver|apply quiet_refl]|..].
    - intros b Hb%(so_used _ Hso). set_solver.
    - eauto.
    - eauto. }
  destruct (Connect.create_backend_with_key _ _ _ _ _ _ _) as [d r]. cbn in *. fold (spawn_id rand sc) in *.
  apply sound_db; [done| | | |].
  - split; [by left|done|set_solver|]. intros b Hbu Hnone. rewrite Hb, lookup_insert_ne by set_solver. done.
  - intros b. rewrite Hb. intros [<-|Hs]%lookup_insert_is_Some'; [set_solver|].
    apply (so_used _ Hso) in Hs. set_solver.
  - intros i a m Hi Hm _. destruct (Hact i a Hi) as [Hold|(token & m' & Hm' & Hn & Hbm & Ha)]; [by left; eauto|].
    right. assert (m' = m) as -> by congruence. unfold spawn_ok. rewrite Ha, Hn, Hbm. cbn.
    split_and!; [split; [set_solver|]; right|right|].
    + right. rewrite Hk. eexists. rewrite lookup_insert_eq. split; [done|].
      pose proof (so_picked _ Hso p Hp). unfold local in *. cbn.
      unfold MARGIN, Keys.KEY_LEASE_SOFT_TERMINATE_AFTER, Keys.KEY_LEASE_HARD_TERMINATE_AFTER, from_secs. lia.
    + intros k. rewrite Hk, lookup_insert_eq. by intros [= <-].
    + intros r0. rewrite Hb, lookup_insert_eq. by intros [= <-].
  - intros n r0 u. rewrite Hdr. eauto.
Qed.

Lemma quiet_metrics d m : quiet d (Backends.publish_metrics m d).1.
Proof. apply quiet_same; open_step; done. Qed.

(** A renewal that a controller confirms is one that the database has made. *)
Lemma sound_renew s n r ok :
  sound s → timely n (Protocol.MRenewKey r) s →
  let '(d, res) := Controller.handle_message_from_drone (Protocol.MRenewKey r) n ok (db s) in
  sound (Mk d (used s) (drones s) (picked s)
    (to_drones s ++ ((n,.) <$> match res with Ok l => l | Err _ => [] end)) (to_controllers s)).
Proof.
  intros Hso Ht. cbn. pose proof (so_db _ Hso) as Hr.
  pose proof (step_renew_key (db s) (Protocol.rkr_backend r)) as Hstep. revert Hstep. unfold Keys.renew_key.
  destruct (keys (db s) !! Protocol.rkr_backend r) as [k|] eqn:Hk;
    [|intros _; apply sound_send; [done|by intros ? ? ?%elem_of_nil]].
  destruct (k_allow_renew k); [|intros _; apply sound_send; [done|by intros ? ? ?%elem_of_nil]]. cbn. intros Hstep.
  set (d := set_keys _ (db s)) in *.
  apply (sound_send (with_db d s)).
  { apply sound_quiet; [done|by left|by apply quiet_same]. }
  destruct ok; cbn; [|by intros ? ? ?%elem_of_nil].
  intros n' msg [= -> ->]%list_elem_of_singleton. cbn. intros dl [= <-]. cbn.
  destruct (wf_key_alive _ (reachable_wf _ Hr) _ _ Hk) as (b & st & Hb & _).
  split; [apply (so_used _ Hso); by eexists|]. right. right.
  eexists. unfold d. cbn. rewrite lookup_insert_eq. split; [done|]. cbn.
  cbn in Ht. unfold local in Ht. unfold MARGIN. lia.
Qed.

Lemma sound_handle s n m ok :
  sound s → timely n m s →
  let '(d, res) := Controller.handle_message_from_drone m n ok (db s) in
  sound (Mk d (used s) (drones s) (picked s)
    (to_drones s ++ ((n,.) <$> match res with Ok l => l | Err _ => [] end)) (to_controllers s)).
Proof.
  intros Hso Ht. pose proof (so_db _ Hso) as Hr. destruct m as [h|e|met|aid|r]; [| | | |by apply sound_renew];
    cbn [Controller.handle_message_from_drone].
  - cbn. rewrite app_nil_r. pose proof (step_drone_heartbeat (db s) n (Protocol.hb_local_time h)) as Hstep.
    revert Hstep. unfold Drones.heartbeat.
    destruct (Db.drones (db s) !! n) as [dr|] eqn:Hd; intros Hstep; [|by destruct s].
    apply sound_db; [done|by split; [left| |done|]|apply Hso|by eauto|].
    intros n' r u Hn. cbn in Hn. apply lookup_insert_Some in Hn as [[<- <-]|[_ Hn]]; [|by eauto].
    intros [= <-]. by right.
  - pose proof (step_update_state (db s) (Protocol.bsm_backend_id e) (Protocol.bsm_state e)) as Hstep.
    pose proof (quiet_update_state (db s) (Protocol.bsm_backend_id e) (Protocol.bsm_state e)) as Hq.
    destruct (Backends.update_state _ _ _) as [d [v|err]]; cbn in *;
      (apply (sound_send (with_db d s)); [apply sound_quiet; auto|]).
    + unfold Controller.send. destruct ok; cbn; [|by intros ? ? ?%elem_of_nil].
      by intros n' msg [= -> ->]%list_elem_of_singleton.
    + by intros ? ? ?%elem_of_nil.
  - pose proof (step_metrics (db s) met) as Hstep. pose proof (quiet_metrics (db s) met) as Hq.
    destruct (Backends.publish_metrics _ _) as [d [v|err]]; cbn in *;
      (apply (sound_send (with_db d s)); [apply sound_quiet; auto|by intros ? ? ?%elem_of_nil]).
  - cbn. rewrite app_nil_r. apply (sound_quiet s); [done|left; constructor|apply quiet_ack].
Qed.

Lemma sound_pick s shuffle cluster pool best_of p :
  sound s → (∀ l, shuffle l ≡ₚ l) →
  Drones.pick_drone_for_spawn shuffle cluster pool best_of (db s) = Ok (Some p) →
  sound (Mk (db s) (used s) (drones s) (picked s ++ [p]) (to_drones s) (to_controllers s)).
Proof.
  intros Hso Hsh Hp. apply pick_drone_correct in Hp as [Hfit _]; [|done].
  destruct Hfit as (nd & dr & c & ctl & hb & _ & _ & _ & Hd & _ & _ & _ & Hl & _).
  destruct Hso as [Hr Hu Hrows Hsent Hkeys Hfrom Htimes Hpicked]. split; cbn; try done.
  intros p' [Hp|Hp]%elem_of_app; [by apply Hpicked|]. apply list_elem_of_singleton in Hp as ->.
  by eapply (Htimes (Drones.ds_id p)).
Qed.

(** What a message gives to a drone, it has been granted. *)
Lemma sound_deliver s n d m rt d' out :
  sound s → drones s !! n = Some d → (n, m) ∈ to_drones s →
  handle_message m rt (local offset n s) d = (d', out) → sound (with_drone n d' out s).
Proof.
  intros Hso Hd Hm [Hsrc Hout]%handle_message_spec. apply sound_drone; [done| |].
  - intros b k x Hb. pose proof (so_sent _ Hso n m Hm) as Hsent.
    destruct (Hsrc b k x Hb) as [x0 Hx0|m0 exe static -> <- Ha|r dl k0 x0 -> <- Hdl Hx0 ->].
    + by eapply (so_keys _ Hso).
    + cbn in Hsent. unfold spawn_ok in Hsent. by rewrite Ha in Hsent.
    + split; [by apply Hsent|]. by apply (so_keys _ Hso n d _ k0 x0 Hd Hx0).
  - intros x Hx. by apply report_timely, Hout.
Qed.

Lemma sound_connect s n d d' r :
  sound s → drones s !! n = Some d → connected d = (d', r) →
  sound (with_drone n d' (match r with Ok l => l | Err _ => [] end) s).
Proof.
  intros Hso Hd. unfold connected. destruct (register_listener _) as [ex [l|e]].
  - destruct (forward _ ex l) as [d1 msgs] eqn:Hf. apply forward_spec in Hf as [Hh Hout].
    intros [= <- <-]. apply sound_drone; [done| |].
    + intros b k x Hb%Hh. cbn in Hb. apply lookup_fmap_Some in Hb as ([k0 x0] & [= -> _] & Hb).
      by eapply (so_keys _ Hso).
    + intros m Hm. by apply report_timely, Hout.
  - intros [= <- <-]. apply sound_drone; [done| |by intros ? ?%elem_of_nil].
    intros b k x Hb. cbn in Hb. apply lookup_fmap_Some in Hb as ([k0 x0] & [= -> _] & Hb).
    by eapply (so_keys _ Hso).
Qed.

Lemma sound_ask s n d m :
  sound s → drones s !! n = Some d → timely n m s → sound (with_drone n d [m] s).
Proof.
  intros Hso Hd Hm. apply sound_drone; [done| |by intros m' ->%list_elem_of_singleton].
  intros b k x. by apply (so_keys _ Hso).
Qed.

Lemma sound_forward s n d ex l d' out :
  sound s → drones s !! n = Some d → forward d ex l = (d', out) → sound (with_drone n d' out s).
Proof.
  intros Hso Hd [Hh Hout]%forward_spec. apply sound_drone; [done| |].
  - intros b k x Hb%Hh. by eapply (so_keys _ Hso).
  - intros x Hx. by apply report_timely, Hout.
Qed.

Lemma fleet_step_sound s s' : step offset s s' → sound s → sound s'.
Proof.
  destruct 1; intros Hso; eauto using sound_pick, sound_create, sound_connect, sound_deliver, sound_forward.
  - pose proof (reachable_wf _ (so_db _ Hso)) as Hwf.
    apply sound_quiet; [done|left; by apply other_step|by apply quiet_other].
  - apply sound_send; [done|]. intros n msg [= -> ->]%list_elem_of_singleton. by eapply (so_rows _ Hso).
  - pose proof (sound_handle s n m ok Hso (so_from _ Hso n m H)) as Hh. by rewrite H0 in Hh.
  - apply sound_drone; [done|intros b k x|by intros ? ?%elem_of_nil]. cbn. by rewrite lookup_empty.
  - by eapply sound_ask.
  - by eapply sound_ask.
Qed.

Lemma fleet_reachable_sound s : Fleet.reachable offset s → sound s.
Proof.
  intros [now Hs]. revert s Hs. apply rtc_ind_r; [apply fleet_start_sound|intros; by eapply fleet_step_sound].
Qed.

(** A drone that may run a backend has it for its own and holds the lease of its key, unless the
    database knows that the backend is over. *)
Lemma may_run_holds s n b key :
  sound s → may_run offset n b key s →
  over b (db s) ∨
  placed (db s) n b ∧
  ∃ k, keys (db s) !! b = Some k ∧ (clock (db s) ≤ k_expires_at k)%Z ∧
    k_name k = Types.key_name key ∧ k_namespace k = Types.key_namespace key.
Proof.
  intros Hso (d & k & x & Hd & Hk & <- & Hin).
  destruct (so_keys _ Hso n d b k x Hd Hk) as ([_ Hg] & Hn & Hp).
  destruct Hg as [?|[Hc|(k' & Hk' & Hc)]]; [by left|unfold local in Hin; lia|].
  destruct Hn as [?|Hn]; [by left|right]. split; [done|]. exists k'. destruct (Hn k' Hk').
  unfold local in Hin. split_and!; try done. lia.
Qed.

(** C5. The lock holds across the fleet. Controllers and any number of drones work on one database,
    the drones by clocks of their own, and everything that is sent is delayed, lost, repeated and
    reordered at will: two drones that may both still run a backend for the same key run the same
    backend, and are the same drone, unless the database already knows that one of the two backends
    has ended. A drone may still run a backend until its key task is ten seconds late. *)
Theorem one_live_holder s n1 b1 key1 n2 b2 key2 :
  Fleet.reachable offset s →
  may_run offset n1 b1 key1 s → may_run offset n2 b2 key2 s →
  Types.key_name key1 = Types.key_name key2 → Types.key_namespace key1 = Types.key_namespace key2 →
  (b1 = b2 ∧ n1 = n2) ∨ over b1 (db s) ∨ over b2 (db s).
Proof.
  intros Hso%fleet_reachable_sound H1 H2 Hname Hns. pose proof (reachable_wf _ (so_db _ Hso)) as Hwf.
  apply may_run_holds in H1 as [?|(Hp1 & k1 & Hk1 & _ & Hn1 & Hs1)]; [by auto| |done].
  apply may_run_holds in H2 as [?|(Hp2 & k2 & Hk2 & _ & Hn2 & Hs2)]; [by auto| |done].
  assert (b1 = b2) as <- by (eapply wf_key_unique; eauto; congruence).
  left. split; [done|]. destruct (wf_key_alive _ Hwf _ _ Hk1) as (r & st & Hr & _).
  by rewrite <- (Hp1 r Hr), <- (Hp2 r Hr).
Qed.

End FleetProps.
End FleetProps.

(** ** A run *)

Module FleetWitness.
Import Executor DroneLoop Fleet FleetProps Scenario.
#[local] Existing Instance ExampleExternals.example_externals.

(** The clock of every drone is a second ahead. *)
Definition ahead : Z → Z := λ _, from_secs 1.

Definition beat : Protocol.MessageFromDrone :=
  Protocol.MHeartbeat {| Protocol.hb_local_time := from_secs 1 |}.

(** A controller and a drone that has started and is registered. *)
Definition f1 : Fleet.t := with_db db3 (start 0).
Definition f2 : Fleet.t :=
  with_drone 1 (MkDrone (MkExecutor StateStore.new ∅) KeyManager.new) [] f1.
(** Its heartbeat has been handled, and it has been picked. *)
Definition f3 : Fleet.t := with_drone 1 (MkDrone (MkExecutor StateStore.new ∅) KeyManager.new) [beat] f2.
Definition f4 : Fleet.t :=
  Mk (Controller.handle_message_from_drone beat 1 true (db f3)).1 ∅ (drones f3) [] [] (to_controllers f3).
Definition picked_drone : Drones.DroneForSpawn :=
  {| Drones.ds_id := 1; Drones.ds_drone := drone_name; Drones.ds_last_local_time := from_secs 1 |}.
Definition f5 : Fleet.t :=
  Mk (db f4) ∅ (drones f4) [picked_drone] [] (to_controllers f4).

(** A backend for the key: made, sent and delivered. *)
Definition create (n : nat) (sc : SpawnConfig) (s : Fleet.t) : Fleet.t :=
  Mk (Connect.create_backend_with_key (rand n) key sc cluster picked_drone None (db s)).1
    ({[spawn_id (rand n) sc]} ∪ used s) (drones s) (picked s) (to_drones s) (to_controllers s).
Definition message (n : nat) (s : Fleet.t) : option Protocol.BackendActionMessage :=
  actions (db s) !! Names.new_random Names.BackendActionName (Connect.rd_action (rand n)) ≫= a_action.
Definition send (n : nat) (s : Fleet.t) : Fleet.t :=
  match message n s with
  | Some m => Mk (db s) (used s) (drones s) (picked s) (to_drones s ++ [(1%Z, Protocol.TDAction m)])
                (to_controllers s)
  | None => s
  end.
Definition deliver (n : nat) (s : Fleet.t) : Fleet.t :=
  match message n s, drones s !! 1%Z with
  | Some m, Some d =>
      let r := handle_message (Protocol.TDAction m) (Ok true) (local ahead 1 s) d in
      with_drone 1 r.1 r.2 s
  | _, _ => s
  end.

Lemma create_step n sc s : picked_drone ∈ picked s → spawn_id (rand n) sc ∉ used s →
  step ahead s (create n sc s).
Proof. apply st_create. Qed.

Lemma send_step n s a m :
  actions (db s) !! Names.new_random Names.BackendActionName (Connect.rd_action (rand n)) = Some a →
  a_action a = Some m → a_drone_id a = 1%Z → step ahead s (send n s).
Proof.
  intros Ha Hm Hd. unfold send, message. rewrite Ha. cbn. rewrite Hm, <- Hd. by eapply st_send.
Qed.

Lemma deliver_step n s m d : message n s = Some m → drones s !! 1%Z = Some d →
  (1%Z, Protocol.TDAction m) ∈ to_drones s → step ahead s (deliver n s).
Proof.
  intros Hm Hd Hin. unfold deliver. rewrite Hm, Hd. eapply st_deliver; [done..|].
  apply surjective_pairing.
Qed.

Definition spawn_other : SpawnConfig :=
  {| Types.sc_id := Some "b2"; Types.sc_cluster := Some cluster; Types.sc_pool := "";
     Types.sc_executable := JObj []; Types.sc_lifetime_limit_seconds := Some 100%Z;
     Types.sc_max_idle_seconds := Some 10%Z; Types.sc_use_static_token := false;
     Types.sc_subdomain := None |}.

(** The first backend holds the key. *)
Definition f6 : Fleet.t := deliver 0 (send 0 (create 0 spawn_config f5)).
(** The database is told that it has ended, before its drone knows, and the key goes to a second. *)
Definition f7 : Fleet.t :=
  with_db (Backends.update_state "b1"
    (BackendState.to_terminated BackendState.Scheduled None) (db f6)).1 f6.
Definition f8 : Fleet.t := deliver 3 (send 3 (create 3 spawn_other f7)).

Lemma start_reachable : Fleet.reachable ahead f3.
Proof.
  exists 0%Z.
  eapply (rtc_l _ _ (with_db db1 (start 0))); [exact (st_other _ (start 0) db1 (ot_controller_heartbeat _ _ _ _ _))|].
  eapply (rtc_l _ _ (with_db db2 (start 0))).
  { exact (st_other _ (with_db db1 (start 0)) db2 (ot_register_node _ _ _ _ _ _ _ _)). }
  eapply (rtc_l _ _ f1).
  { exact (st_other _ (with_db db2 (start 0)) db3 (ot_register_drone _ _ _ _)). }
  eapply (rtc_l _ _ f2); [apply st_start|]. apply rtc_once. by eapply st_beat.
Qed.

Lemma reachable_next s s' : Fleet.reachable ahead s → step ahead s s' → Fleet.reachable ahead s'.
Proof. intros [now Hs] Hst. exists now. by eapply rtc_r. Qed.

Lemma f5_reachable : Fleet.reachable ahead f5.
Proof.
  eapply (reachable_next f4).
  - eapply (reachable_next f3); [apply start_reachable|]. unfold f4.
    pose proof (st_handle ahead f3 1 beat true) as Hs.
    specialize (Hs (Controller.handle_message_from_drone beat 1 true (db f3)).1 (Ok [])). apply Hs; [|done].
    vm_compute. by constructor.
  - apply (st_pick ahead f4 (λ l, l) cluster "" 2); [done|]. vm_compute. done.
Qed.

Lemma spawn_reachable n sc s a m d :
  Fleet.reachable ahead s → picked_drone ∈ picked s → spawn_id (rand n) sc ∉ used s →
  actions (db (create n sc s)) !! Names.new_random Names.BackendActionName (Connect.rd_action (rand n)) =
    Some a →
  a_action a = Some m → a_drone_id a = 1%Z → drones s !! 1%Z = Some d →
  Fleet.reachable ahead (deliver n (send n (create n sc s))).
Proof.
  intros Hr Hp Hid Ha Hm Hn Hd. apply (create_step n sc s Hp) in Hid.
  pose proof (reachable_next _ _ Hr Hid) as Hc. clear Hr Hid.
  pose proof (send_step n _ a m Ha Hm Hn) as Hs.
  pose proof (reachable_next _ _ Hc Hs) as Hr. eapply reachable_next; [exact Hr|].
  assert (message n (create n sc s) = Some m) as Hmsg by (unfold message; by rewrite Ha).
  assert (send n (create n sc s) = Mk (db (create n sc s)) (used (create n sc s)) (drones s) (picked s)
    (to_drones s ++ [(1%Z, Protocol.TDAction m)]) (to_controllers s)) as Hsend
    by (unfold send; by rewrite Hmsg).
  rewrite Hsend. eapply deliver_step; [exact Hmsg|exact Hd|]. cbn. apply elem_of_app. right.
  by apply list_elem_of_singleton.
Qed.

Lemma f6_reachable : Fleet.reachable ahead f6.
Proof.
  eapply spawn_reachable; [apply f5_reachable| | | | | |].
  - by constructor.
  - by vm_compute.
  - vm_compute. reflexivity.
  - vm_compute. reflexivity.
  - vm_compute. reflexivity.
  - vm_compute. reflexivity.
Qed.

Lemma f8_reachable : Fleet.reachable ahead f8.
Proof.
  eapply spawn_reachable.
  - eapply reachable_next; [apply f6_reachable|]. apply st_other. constructor.
  - apply (list_elem_of_singleton picked_drone picked_drone). reflexivity.
  - intros Hin. assert (bool_decide (spawn_id (rand 3) spawn_other ∈ used f7) = true) as Hb
      by (by apply bool_decide_eq_true). vm_compute in Hb. discriminate.
  - vm_compute. reflexivity.
  - vm_compute. reflexivity.
  - vm_compute. reflexivity.
  - vm_compute. reflexivity.
Qed.

(** A decision procedure for [may_run], on the key that the backend has. *)
Definition may_run_b (n : Z) (b : string) (s : Fleet.t) : bool :=
  match drones s !! n ≫= λ d, KeyManager.handles (dr_keys d) !! b with
  | Some (k, _) =>
      (local ahead n s <=? Protocol.hard_terminate_at (Protocol.ak_deadlines k) + MARGIN)%Z
        && bool_decide (Protocol.ak_key k = key)
  | None => false
  end.

Lemma may_run_b_true n b s : may_run_b n b s = true → may_run ahead n b key s.
Proof.
  unfold may_run_b, may_run. destruct (drones s !! n) as [d|] eqn:Hd; [|done]. cbn.
  destruct (KeyManager.handles (dr_keys d) !! b) as [[k x]|] eqn:Hk; [|done].
  intros [Ht Hkey%bool_decide_eq_true]%andb_true_iff. exists d, k, x. split_and!; try done. lia.
Qed.

(** Between the end of the first backend and the moment its drone hears of it, both have the key. *)
Lemma one_live_holder_witness :
  may_run ahead 1 "b1" key f8 ∧ may_run ahead 1 "b2" key f8 ∧
  (over "b1" (db f8) ∨ over "b2" (db f8)).
Proof.
  assert (may_run ahead 1 "b1" key f8) as H1 by (apply may_run_b_true; vm_compute; reflexivity).
  assert (may_run ahead 1 "b2" key f8) as H2 by (apply may_run_b_true; vm_compute; reflexivity).
  split; [exact H1|]. split; [exact H2|].
  destruct (one_live_holder ahead f8 1 "b1" key 1 "b2" key f8_reachable H1 H2 eq_refl eq_refl)
    as [[Heq _]|Hover]; [discriminate|exact Hover].
Defined.

End FleetWitness.
