(* ===== verification/ControllerProcess.v ===== *)
(** * The controller as a process

    [plane/src/controller/mod.rs]: the start of a controller (its port, its database, the cleanup
    task, the heartbeats and the server), the two health checks, and its shutdown, with the database
    that it shares with everybody else. The requests it serves are steps of the database like those
    of other processes; what matters here is the row of the controller. *)

From S2P Require Import Prelude Names Types Database Keys Backends Nodes Connect Invariant Changes.
From S2P Require Import Safety NodeProps Controller Api.
Import Db.

(** ** Health checks *)

Module Health.
(** [health_check] is [select 1]; [ok] is whether the database answers. *)
Definition health_check (ok : bool) : result () () := if ok then Ok () else Err ().

Record StatusResponse := { status : string; version : string; hash : string }.

Section Handlers.
Context (PLANE_VERSION PLANE_GIT_HASH : string).

(** The handler of [/ctrl/status]; the error is an internal one. *)
Definition get_status (ok : bool) : result () StatusResponse :=
  let? _ := health_check ok in
  Ok {| status := "ok"; version := PLANE_VERSION; hash := PLANE_GIT_HASH |}.

(** The handler of [/pub/health]: the value of its field ["status"]. *)
Definition health (ok : bool) : result () string := let? _ := health_check ok in Ok "ok".
End Handlers.
End Health.

(** ** The process *)

Module ControllerProcess.
Import Heartbeats HeartbeatConsts.

Definition TERMINATE_TIMEOUT_DURATION : Z := from_secs 2.
Definition CLEANUP_LOOP_INTERVAL_SECONDS : Z := 60 * 3.

(** A background task that sleeps between its turns. *)
Inductive task (A : Type) := Off | Sleeping (until : Z) | Busy (a : A).
Arguments Off {A}. Arguments Sleeping {A} until. Arguments Busy {A} a.

Inductive failure := BindFailed | NoAddress | NoDatabase | NoFirstBeat.

(** Where [run_controller] is. [Draining] and [Ended] keep whether the offline heartbeat was
    executed. *)
Inductive phase :=
| Binding
| Connecting
| Addressing
| Announcing
| Serving
| Leaving
| Draining (until : Z) (offline : bool)
| Ended (offline : bool)
| Failed (why : failure).

(** The online heartbeat that was in flight when its task was aborted, if there was one. Dropping a
    query does not recall it: the database executes it later, or not at all. *)
Inductive stray_beat := NoStray | InFlight | Executed.

Record t := Mk {
  at_ : phase;
  listening : bool;
  cleanup : task (prog (result Controller.HandlerError ()));
  beats : task ();
  server : bool;
  stray : stray_beat;
  db : DB
}.

Section Process.
Context (id version hash : string) (min_age_days cleanup_batch_size : option Z).

(** What the process waits for: the answers of its own calls, the ends of sleeps, the signal, and the
    end of the server. The answer to a heartbeat says whether the statement was executed and whether
    that is known. *)
Inductive event :=
| Bound (ok : bool)
| Connected (ok : bool)
| Addressed (ok : bool) (random_offset : Z)
| Answered (executed known : bool)
| CleanupDue
| CleanupStep
| BeatDue
| BeatAnswered (executed : bool)
| StrayExecuted
| Signalled
| ServerEnded
| Deadline.

Definition now (s : t) : Z := clock (db s).
Definition goes (p : phase) (s : t) : t :=
  Mk p (listening s) (cleanup s) (beats s) (server s) (stray s) (db s).
Definition with_db (d : DB) (s : t) : t :=
  Mk (at_ s) (listening s) (cleanup s) (beats s) (server s) (stray s) d.

(** The end of the process, and of a failed start: the guard of the cleanup task, the listener and
    the runtime are dropped. *)
Definition exits (p : phase) (s : t) : t := Mk p false Off Off false (stray s) (db s).

(** [HeartbeatSender::terminate] begins: the loop is aborted, the offline heartbeat is sent. *)
Definition leaves (s : t) : t :=
  Mk Leaving (listening s) (cleanup s) Off (server s)
    (match beats s with Busy _ => InFlight | _ => stray s end) (db s).

Definition cleanup_step (s : t) : t :=
  match cleanup s with
  | Busy (Step f) =>
      let '(d, p) := f (db s) in
      Mk (at_ s) (listening s)
        (match p with
         | Ret _ => Sleeping (clock d + from_secs CLEANUP_LOOP_INTERVAL_SECONDS)
         | _ => Busy p
         end) (beats s) (server s) (stray s) d
  | _ => s
  end.

Definition due {A} (k : task A) (s : t) : bool :=
  match k with Sleeping until => (until <=? now s)%Z | _ => false end.

(** [ControllerServer::run] and [run_with_listener]: the server is started after the first heartbeat. *)
Definition starting (e : event) (s : t) : t :=
  match e, at_ s with
  | Bound ok, Binding =>
      if ok then Mk Connecting true Off Off false NoStray (db s) else exits (Failed BindFailed) s
  | Connected ok, Connecting => if ok then goes Addressing s else exits (Failed NoDatabase) s
  | Addressed ok offset, Addressing =>
      if ok then
        Mk Announcing (listening s)
          (Sleeping (now s + from_secs (offset mod CLEANUP_LOOP_INTERVAL_SECONDS))%Z) Off false NoStray (db s)
      else exits (Failed NoAddress) s
  | Answered executed known, Announcing =>
      let s := if executed then with_db (beat id version hash true (db s)) s else s in
      if executed && known then
        Mk Serving (listening s) (cleanup s) (Sleeping (now s + HEARTBEAT_INTERVAL)%Z) true NoStray (db s)
      else exits (Failed NoFirstBeat) s
  | _, _ => s
  end.

(** The loop of heartbeats, and the one that it may leave behind. *)
Definition beating (e : event) (s : t) : t :=
  match e, beats s, stray s with
  | BeatDue, _, _ =>
      if due (beats s) s
      then Mk (at_ s) (listening s) (cleanup s) (Busy ()) (server s) (stray s) (db s) else s
  | BeatAnswered executed, Busy _, _ =>
      let d := if executed then beat id version hash true (db s) else db s in
      Mk (at_ s) (listening s) (cleanup s) (Sleeping (clock d + HEARTBEAT_INTERVAL)%Z) (server s)
        (stray s) d
  | StrayExecuted, _, InFlight =>
      Mk (at_ s) (listening s) (cleanup s) (beats s) (server s) Executed (beat id version hash true (db s))
  | _, _, _ => s
  end.

(** [ControllerServer::terminate]. The end of the server is noticed only here. *)
Definition terminating (e : event) (s : t) : t :=
  match e, at_ s with
  | Signalled, Serving => leaves s
  | Answered executed _, Leaving =>
      let s := if executed then with_db (beat id version hash false (db s)) s else s in
      goes (Draining (now s + TERMINATE_TIMEOUT_DURATION)%Z executed) s
  | ServerEnded, Draining _ offline => exits (Ended offline) s
  | Deadline, Draining until offline => if (until <=? now s)%Z then exits (Ended offline) s else s
  | _, _ => s
  end.

(** The task of [run_cleanup_loop]. *)
Definition cleaning (e : event) (s : t) : t :=
  match e with
  | CleanupDue =>
      if due (cleanup s) s then
        Mk (at_ s) (listening s) (Busy (Controller.run_cleanup min_age_days cleanup_batch_size))
          (beats s) (server s) (stray s) (db s)
      else s
  | CleanupStep => cleanup_step s
  | _ => s
  end.

Definition turn (e : event) (s : t) : t :=
  match e with
  | Bound _ | Connected _ | Addressed _ _ => starting e s
  | Answered _ _ => match at_ s with Leaving => terminating e s | _ => starting e s end
  | BeatDue | BeatAnswered _ | StrayExecuted => beating e s
  | CleanupDue | CleanupStep => cleaning e s
  | Signalled | ServerEnded | Deadline => terminating e s
  end.

Definition start (d : DB) : t := Mk Binding false Off Off false NoStray d.

End Process.

(** A step of somebody else, or of a request that this controller serves: only the heartbeats of a
    controller write its row ([foreign_unless_beat]), and names of controllers are not shared. *)
Definition foreign `{Ext : Externals} (id : string) (d d' : DB) : Prop :=
  step d d' ∧ controllers d' !! id = controllers d !! id.

Section Steps.
Context `{Ext : Externals}.
Context (id version hash : string) (min_age_days cleanup_batch_size : option Z).

Inductive sys_step (s : t) : t → Prop :=
| sys_turn e : sys_step s (turn id version hash min_age_days cleanup_batch_size e s)
| sys_other d : foreign id (db s) d → sys_step s (with_db d s).

Definition reachable (s : t) : Prop :=
  ∃ d, Invariant.reachable d ∧ rtc sys_step (start d) s.

End Steps.
End ControllerProcess.

(** ** Theorems *)

Module ControllerProcessProps.
Import Heartbeats ControllerProcess.

Section Frame.
Context `{Ext : Externals}.

(** Only heartbeats write the table of controllers. *)
Lemma step_controllers d d' : step d d' →
  controllers d' = controllers d ∨ ∃ name online v h, d' = Controllers.heartbeat name online v h d.
Proof. destruct 1; try (left; done); try (right; by do 4 eexists); left; by open_step. Qed.

Lemma foreign_unless_beat id d d' :
  step d d' → (∀ online v h, d' ≠ Controllers.heartbeat id online v h d) → foreign id d d'.
Proof.
  intros Hs Hn. split; [done|]. destruct (step_controllers _ _ Hs) as [->|(name & o & v & h & ->)]; [done|].
  destruct (decide (name = id)) as [->|Hne]; [by destruct (Hn o v h)|].
  unfold Controllers.heartbeat. simpl. by rewrite lookup_insert_ne.
Qed.

(** A program that makes steps which leave the table of controllers alone. *)
Inductive harmless {A} : prog A → Prop :=
| ha_ret a : harmless (Ret a)
| ha_step f : (∀ d, (f d).1 = d ∨ step d (f d).1) → (∀ d, controllers (f d).1 = controllers d) →
    (∀ d, harmless (f d).2) → harmless (Step f).

Lemma ha_act {A B} (f : DB → DB * B) (k : B → prog A) :
  (∀ d, step d (f d).1) → (∀ d, controllers (f d).1 = controllers d) → (∀ b, harmless (k b)) →
  harmless (act f k).
Proof.
  intros Hf Hc Hk. constructor; intros d; specialize (Hf d); specialize (Hc d); destruct (f d); simpl; auto.
Qed.

Lemma harmless_cleanup days batch : harmless (Controller.run_cleanup days batch).
Proof.
  assert (∀ d days, controllers (Backends.cleanup days (default Controller.DEFAULT_BATCH_SIZE batch) d).1
    = controllers d) as Hc.
  { intros d n. unfold Backends.cleanup, Backends.cleanup_txn, run_txn. by crush_match. }
  assert (harmless (act (λ d, (Connect.clean_up_tokens d, ())) (λ _, Ret (Ok (E := Controller.HandlerError) ()))))
    as Ht by (apply ha_act; [constructor|done|constructor]).
  unfold Controller.run_cleanup. destruct days as [n|]; [|done].
  apply ha_act; [constructor|intros; apply Hc|]. intros [|]; [|constructor].
  apply ha_act; [constructor|done|done].
Qed.

End Frame.

Section Process.
Context `{Ext : Externals}.
Context (id version hash : string) (min_age_days cleanup_batch_size : option Z).
#[local] Notation turn := (turn id version hash min_age_days cleanup_batch_size).
#[local] Notation sys_step := (sys_step id version hash min_age_days cleanup_batch_size).

(** The row of the controller says that it is online, or that it is not. *)
Definition says (online : bool) (d : DB) : Prop :=
  ∃ c, controllers d !! id = Some c ∧ c_is_online c = online ∧ c_plane_version c = version ∧
    c_plane_hash c = hash.
Definition known (d : DB) : Prop := is_Some (controllers d !! id).

Definition idle (s : t) : Prop := cleanup s = Off ∧ beats s = Off ∧ server s = false.

Definition at_phase (s : t) : Prop :=
  match at_ s with
  | Binding => idle s ∧ stray s = NoStray ∧ listening s = false
  | Connecting | Addressing => idle s ∧ stray s = NoStray
  | Announcing => beats s = Off ∧ server s = false ∧ stray s = NoStray
  | Serving => beats s ≠ Off ∧ stray s = NoStray ∧ says true (db s)
  | Leaving => beats s = Off ∧ known (db s)
  | Draining until offline =>
      beats s = Off ∧ known (db s) ∧ (until ≤ now s + TERMINATE_TIMEOUT_DURATION)%Z ∧
      (offline = true → stray s = NoStray → says false (db s))
  | Ended offline =>
      idle s ∧ listening s = false ∧ known (db s) ∧
      (offline = true → stray s = NoStray → says false (db s))
  | Failed _ => idle s ∧ listening s = false ∧ stray s = NoStray
  end.

Record sound (s : t) : Prop := {
  so_db : Invariant.reachable (db s);
  so_phase : at_phase s;
  so_cleanup : ∀ p, cleanup s = Busy p → harmless p
}.

Lemma says_beat online d : says online (beat id version hash online d).
Proof. eexists. unfold beat, Controllers.heartbeat. simpl. by rewrite lookup_insert_eq. Qed.

Lemma says_known online d : says online d → known d.
Proof. intros (c & H & _). by exists c. Qed.

Lemma beat_reachable online d : Invariant.reachable d → Invariant.reachable (beat id version hash online d).
Proof. intros H. eapply reachable_step; [done|constructor]. Qed.

Lemma at_phase_frame s d :
  controllers d !! id = controllers (db s) !! id → (clock (db s) ≤ clock d)%Z →
  at_phase s → at_phase (with_db d s).
Proof.
  intros Hc Hk. unfold at_phase, says, known, now. destruct s as [a l c b sv st d0]. cbn in *.
  rewrite Hc. destruct a; try done. intros (? & ? & ? & ?). split_and!; [done|done|lia|done].
Qed.

Lemma sound_other s d : sound s → foreign id (db s) d → sound (with_db d s).
Proof.
  intros [Hd Hp Hc] [Hs Hf]. split; cbn; [by eapply reachable_step| |done].
  apply at_phase_frame; [done|by apply step_clock_mono|done].
Qed.

Lemma sound_start d : Invariant.reachable d → sound (start d).
Proof. intros. split; cbn; [done| |done]. by split_and!. Qed.

Lemma sound_cleanup_step s : sound s → sound (cleanup_step s).
Proof.
  intros [Hd Hp Hc]. destruct s as [a l c b sv st d]. unfold cleanup_step. cbn in *.
  destruct c as [| |[r|f]]; try by split.
  specialize (Hc _ eq_refl). inversion Hc as [|f' Hf Hk Hr]; subst. specialize (Hf d). specialize (Hk d).
  specialize (Hr d). destruct (f d) as [d' p]. cbn in *.
  assert (Invariant.reachable d') as Hd' by (destruct Hf as [->|]; [done|by eapply reachable_step]).
  assert (clock d ≤ clock d')%Z as Hcl by (destruct Hf as [->|?%step_clock_mono]; done).
  split; cbn; [done| |by destruct p; intros ? [= <-]].
  apply (at_phase_frame _ d') in Hp; [|by cbn; rewrite Hk|done].
  unfold at_phase, idle in *. cbn in *. destruct a; naive_solver.
Qed.

Lemma sound_turn e s : sound s → sound (turn e s).
Proof.
  intros Hs. assert (e = CleanupStep ∨ e ≠ CleanupStep) as [->|He] by (destruct e; (by left) || by right).
  { destruct s as [[] ? ? ? ? ? ?]; by apply sound_cleanup_step. }
  destruct Hs as [Hd Hp Hc]. destruct s as [a l c b sv st d]. unfold at_phase, idle, now in Hp. cbn in *.
  pose proof (harmless_cleanup min_age_days cleanup_batch_size) as Hh.
  pose proof (says_beat true d). pose proof (says_beat false d).
  pose proof (beat_reachable true d Hd). pose proof (beat_reachable false d Hd).
  destruct e; try done; destruct a; cbn; repeat case_match; try (by split);
    split; cbn; try done; unfold at_phase, idle, now; cbn;
    try naive_solver eauto using says_known.
Qed.

Lemma sound_step s s' : sound s → sys_step s s' → sound s'.
Proof. intros Hs []; [by apply sound_turn|by apply sound_other]. Qed.

Lemma sound_steps s s' : sound s → rtc sys_step s s' → sound s'.
Proof. intros Hs H. revert Hs. induction H; eauto using sound_step. Qed.

Lemma reachable_sound s :
  ControllerProcess.reachable id version hash min_age_days cleanup_batch_size s → sound s.
Proof. intros (d & Hd & H). eapply sound_steps; [by apply sound_start|done]. Qed.

(** A controller serves requests only while the database knows it, so that the nodes which connect
    to it can be registered, and it is online until the process is told to stop; everything it does
    to the database are steps of the database. A process that could not start, or has ended, leaves
    no task behind. *)
Theorem controller_serves_registered s cl name kind v h ip :
  ControllerProcess.reachable id version hash min_age_days cleanup_batch_size s →
  Invariant.reachable (db s) ∧
  (server s = true → is_ok (Nodes.register cl name kind id v h ip (db s)).2 = true) ∧
  (at_ s = Serving → says true (db s)) ∧
  ((∃ why, at_ s = Failed why) ∨ (∃ o, at_ s = Ended o) → idle s ∧ listening s = false).
Proof.
  intros [Hd Hp _]%reachable_sound. split; [done|].
  unfold at_phase in Hp. split_and!.
  - intros Hsv. assert (known (db s)) as [c Hc].
    { unfold idle in Hp. destruct (at_ s); destruct_and?; first [congruence|eauto using says_known]. }
    unfold Nodes.register, Nodes.register_txn, run_txn.
    destruct (controllers (db s) !! id); [|done].
    cbv zeta. by destruct (match Nodes.conflicting_node cl _ _ with Some _ => _ | None => _ end).
  - intros Ha. rewrite Ha in Hp. naive_solver.
  - intros [[? Ha]|[? Ha]]; rewrite Ha in Hp; naive_solver.
Qed.

(** *** Leaving *)

(** The process has begun to leave, with the loop between two heartbeats. *)
Definition leaving (s : t) : Prop :=
  stray s = NoStray ∧
  match at_ s with Leaving | Draining _ _ | Ended _ => beats s = Off | _ => False end.

Lemma cleanup_step_same s : at_ (cleanup_step s) = at_ s ∧ beats (cleanup_step s) = beats s ∧
  stray (cleanup_step s) = stray s.
Proof. unfold cleanup_step. destruct (cleanup s) as [| |[|f]]; [done..|]. by destruct (f (db s)). Qed.

Lemma leaving_step s s' : sys_step s s' → leaving s → leaving s'.
Proof.
  intros [e|d Hd] [Hst Ha]; [|done]. unfold leaving.
  destruct e, (at_ s) eqn:Hat; try done; cbn; rewrite ?Hat; cbn.
  all: try (destruct (cleanup_step_same s) as (-> & -> & ->); by rewrite Hat).
  all: rewrite ?Hst, ?Ha; repeat case_match; cbn; rewrite ?Hat; done.
Qed.

Lemma leaving_steps s s' : rtc sys_step s s' → leaving s → leaving s'.
Proof. induction 1; eauto using leaving_step. Qed.

Lemma signalled_leaving s : at_ s = Serving → (∀ x, beats s ≠ Busy x) → sound s →
  leaving (turn Signalled s).
Proof.
  intros Ha Hb [_ Hp _]. unfold at_phase in Hp. rewrite Ha in Hp. destruct Hp as (_ & Hst & _).
  destruct s as [a l c b sv st d]. cbn in *. subst. cbn. split; cbn; [|done].
  destruct b; [done|done|naive_solver].
Qed.

(** C39. Told to stop between two heartbeats, a controller whose offline heartbeat is executed is offline
    in the database from then on, whatever it still serves, and no node is reported as connected to
    it. *)
Theorem controller_leaves_offline s s' :
  ControllerProcess.reachable id version hash min_age_days cleanup_batch_size s →
  at_ s = Serving → (∀ x, beats s ≠ Busy x) → rtc sys_step (turn Signalled s) s' →
  (at_ s' = Ended true ∨ ∃ until, at_ s' = Draining until true) →
  says false (db s') ∧ ∀ n, Nodes.healthy_controller (db s') n ≠ Some id.
Proof.
  intros Hs%reachable_sound Ha Hb Hss He.
  pose proof (leaving_steps _ _ Hss (signalled_leaving _ Ha Hb Hs)) as [Hst _].
  destruct (sound_steps _ _ (sound_turn Signalled _ Hs) Hss) as [_ Hp _].
  assert (says false (db s')) as Hf.
  { unfold at_phase in Hp. destruct He as [He|[? He]]; rewrite He in Hp; naive_solver. }
  split; [done|]. intros n. destruct Hf as (c & Hc & Ho & _). unfold Nodes.healthy_controller.
  destruct (n_controller n) as [co|]; [|done]. destruct (decide (co = id)) as [->|Hne].
  - by rewrite Hc, Ho.
  - repeat case_match; congruence.
Qed.

(** The shutdown ends: two seconds after the offline heartbeat the process ends, whatever the server
    still does. *)
Theorem controller_shutdown_ends s s' until offline :
  ControllerProcess.reachable id version hash min_age_days cleanup_batch_size s →
  at_ s = Draining until offline → rtc sys_step s s' →
  (until ≤ now s + TERMINATE_TIMEOUT_DURATION)%Z ∧
  ((until ≤ now s')%Z → at_ (turn Deadline s') = Ended offline).
Proof.
  intros Hs%reachable_sound Ha Hss. split.
  { destruct Hs as [_ Hp _]. unfold at_phase in Hp. rewrite Ha in Hp. naive_solver. }
  intros Hu. assert (at_ s' = Draining until offline ∨ at_ s' = Ended offline) as He.
  { clear Hu Hs. revert Ha. cut (at_ s = Draining until offline ∨ at_ s = Ended offline →
      at_ s' = Draining until offline ∨ at_ s' = Ended offline); [naive_solver|].
    induction Hss as [|x y z Hxy _ IH]; [done|]. intros Hx. apply IH. clear IH.
    destruct Hxy as [e|d _]; [|done]. destruct e, Hx as [Hx|Hx]; cbn; rewrite ?Hx; auto.
    all: try (rewrite (proj1 (cleanup_step_same x)); auto).
    all: repeat case_match; cbn; auto. }
  destruct s' as [a l c b sv st d]. cbn in *. unfold now in *. cbn in *.
  destruct He; subst a; cbn; [|done]. by rewrite (proj2 (Z.leb_le _ _) Hu).
Qed.

End Process.
End ControllerProcessProps.

(** ** Witnesses *)

Module ControllerProcessWitness.
Import ControllerProcess ControllerProcessProps.

#[local] Existing Instance ExampleExternals.example_externals.
#[local] Notation turn := (turn "co-main" "1" "h" (Some 7%Z) None).
#[local] Notation sys_step := (sys_step "co-main" "1" "h" (Some 7%Z) None).
#[local] Notation reachable := (ControllerProcess.reachable "co-main" "1" "h" (Some 7%Z) None).

Definition run (es : list event) (s : t) : t := foldl (λ s e, turn e s) s es.
Definition wait (dt : Z) (s : t) : t := with_db (set_clock (clock (db s) + dt)%Z (db s)) s.

Lemma run_steps es s : rtc sys_step s (run es s).
Proof. revert s. induction es as [|e es IH]; intros s; [done|]. eapply rtc_l; [constructor|apply IH]. Qed.
Lemma wait_step dt s : (0 ≤ dt)%Z → sys_step s (wait dt s).
Proof. intros. apply sys_other. split; [constructor; lia|done]. Qed.
Lemma reachable_steps s s' : reachable s → rtc sys_step s s' → reachable s'.
Proof. intros (d & Hd & H) Hs. exists d. split; [done|by etrans]. Qed.

Definition serving : t :=
  run [Bound true; Connected true; Addressed true 5; Answered true true] (start (empty_db 0)).
Definition draining : t := run [Signalled; Answered true true] serving.
(** A heartbeat is in flight when the signal comes, and is executed after the offline one. *)
Definition overtaken : t :=
  run [BeatDue; Signalled; Answered true true; StrayExecuted; ServerEnded] (wait (from_secs 7) serving).

Lemma serving_reachable : reachable serving.
Proof. exists (empty_db 0). split; [by exists 0%Z|apply run_steps]. Qed.

(** A heartbeat whose task was aborted while the database had not executed it yet makes the
    controller online again, after it has left. *)
Lemma aborted_beat_returns : reachable overtaken ∧ at_ overtaken = Ended true ∧
  says "co-main" "1" "h" true (db overtaken).
Proof.
  split_and!.
  - apply (reachable_steps serving); [apply serving_reachable|].
    eapply rtc_l; [by apply (wait_step (from_secs 7))|apply run_steps].
  - reflexivity.
  - eexists. split; [vm_compute; reflexivity|done].
Qed.

Lemma controller_serves_registered_witness :
  is_ok (Nodes.register None (Names.AnyDrone "dr-one") Names.Drone "co-main" "1" "h" "127.0.0.1"
    (db serving)).2 = true ∧ says "co-main" "1" "h" true (db serving).
Proof.
  destruct (controller_serves_registered "co-main" "1" "h" (Some 7%Z) None serving None
    (Names.AnyDrone "dr-one") Names.Drone "1" "h" "127.0.0.1" serving_reachable) as (_ & H & Ho & _).
  split; [by apply H|by apply Ho].
Defined.

Lemma controller_leaves_offline_witness :
  says "co-main" "1" "h" false (db draining) ∧ ∀ n, Nodes.healthy_controller (db draining) n ≠ Some "co-main".
Proof.
  apply (controller_leaves_offline "co-main" "1" "h" (Some 7%Z) None serving draining serving_reachable).
  - reflexivity.
  - intros x H. discriminate H.
  - apply (run_steps [Answered true true]).
  - right. by eexists.
Defined.

Lemma controller_shutdown_ends_witness :
  at_ (turn Deadline (wait (from_secs 2) draining)) = Ended true.
Proof.
  apply (controller_shutdown_ends "co-main" "1" "h" (Some 7%Z) None draining (wait (from_secs 2) draining)
    (from_secs 2) true).
  - apply (reachable_steps serving); [apply serving_reachable|apply (run_steps [Signalled; Answered true true])].
  - reflexivity.
  - apply rtc_once, wait_step. done.
  - done.
Defined.

End ControllerProcessWitness.
