(* ===== verification/DroneProcess.v ===== *)
(** * The drone as a process

    [Drone::run] of [plane/src/drone/mod.rs]: the choice of the runtime, the file of the state store
    and the executor, over the files of the machine; and what a new process makes of the file that an
    earlier one left. *)

From S2P Require Import Prelude Names BackendState Types StateStore KeyManager Drone DroneProps Docker.
From S2P Require Import Config.
Import StateStore.

Module DroneProcess.
Import Executor DroneLoop DroneConfig DockerRuntime.

(** A file with its permissions; the contents are those of the two tables ([create table if not
    exists] makes an empty file and empty tables the same). The listener is not in the file. *)
Record file := File { mode : Z; contents : Store }.
Notation files := (gmap string file).

Definition persisted (s : Store) : Store := MkStore (st_backends s) (st_events s) (st_seq s) false.

(** The answers of the machine: the mode that [File::create] gives, whether Docker is reached, and
    whether the operations on the file and the tables work. *)
Record machine := Machine {
  create_mode : Z;
  docker_connects : bool;
  creates : bool;
  sets_permissions : bool;
  opens : bool;
  makes_tables : bool
}.

Inductive StartError :=
| NoRuntime (e : RuntimeChoiceError)
| NoDocker
| NoFile
| NoPermissions
| NoStore
| Panicked.

(** A running process: its drone, its runtime and the path of its store. *)
Record process := Process { pr_drone : Drone; pr_runtime : ExecutorConfig; pr_path : option string }.

(** [0o600]. *)
Definition OWNER_ONLY : Z := 384.

(** The store of an opened file ([Connection::open], [StateStore::new]). *)
Definition open (m : machine) (db_path : string) (fs : files) : result StartError Store :=
  if opens m && makes_tables m then ok_or (contents <$> fs !! db_path) NoStore else Err NoStore.

Definition open_store (m : machine) (db_path : option string) (fs : files)
  : files * result StartError Store :=
  match db_path with
  | None => (fs, if opens m && makes_tables m then Ok StateStore.new else Err NoStore)
  | Some p =>
      match fs !! p with
      | Some _ => (fs, open m p fs)
      | None =>
          if creates m then
            let fs := <[p := File (create_mode m) StateStore.new]> fs in
            if sets_permissions m then
              let fs := <[p := File OWNER_ONLY StateStore.new]> fs in (fs, open m p fs)
            else (fs, Err NoPermissions)
          else (fs, Err NoFile)
      end
  end.

(** [UnixSocketRuntime::new] does not fail. *)
Definition start_runtime (m : machine) (e : ExecutorConfig) : result StartError ExecutorConfig :=
  match e with
  | ExecDocker c => let? _ := map_err (λ _, NoDocker) (Runtime.new (docker_connects m) c) in Ok e
  | ExecUnixSocket _ => Ok e
  end.

(** The file after an operation of the process: SQLite commits each transaction. *)
Definition synced (db_path : option string) (s : Store) (fs : files) : files :=
  match db_path with
  | None => fs
  | Some p => alter (λ f, File (mode f) (persisted s)) p fs
  end.

(** [Drone::run]. [Executor::new] panics when it cannot read the states of the store. *)
Definition run (m : machine) (now : Z) (config : DroneConfig.t) (fs : files)
  : files * result StartError process :=
  match let? e := map_err NoRuntime (choose_runtime config) in start_runtime m e with
  | Err e => (fs, Err e)
  | Ok runtime =>
      let '(fs, r) := open_store m (db_path config) fs in
      match r with
      | Err e => (fs, Err e)
      | Ok s =>
          match Executor.new now s with
          | None => (fs, Err Panicked)
          | Some ex =>
              (synced (db_path config) (ex_store ex) fs,
               Ok (Process (MkDrone ex KeyManager.new) runtime (db_path config)))
          end
      end
  end.

(** What the operations of the drone leave in its file when the process dies. *)
Definition crash (p : process) (fs : files) : files :=
  synced (pr_path p) (ex_store (dr_executor (pr_drone p))) fs.

(** [wait_for_shutdown_signal] ([signals.rs]): whether the wait is over, by the signals that came. *)
Definition wait_for_shutdown_signal (ctrl_c terminate : bool) : bool := ctrl_c || terminate.

Inductive outcome := Failed (e : StartError) | Serving (p : process) | Stopped.

(** [run_drone]; [life] is what the loop of the drone makes of it while the process waits.
    [Drone::terminate] aborts the loop. *)
Definition run_drone (m : machine) (now : Z) (config : DroneConfig.t) (life : process → process)
    (ctrl_c terminate : bool) (fs : files) : files * outcome :=
  match run m now config fs with
  | (fs, Err e) => (fs, Failed e)
  | (fs, Ok p) =>
      (crash (life p) fs,
       if wait_for_shutdown_signal ctrl_c terminate then Stopped else Serving (life p))
  end.

End DroneProcess.

(** ** Theorems *)

Module DroneProcessProps.
Import Executor DroneLoop DroneConfig DroneProcess DroneProps.

Lemma store_wf_persisted s : store_wf s → store_wf (persisted s).
Proof. intros []. by constructor. Qed.

Lemma open_store_spec m db_path fs fs' r : open_store m db_path fs = (fs', r) →
  (∀ q, db_path ≠ Some q → fs' !! q = fs !! q) ∧
  ∀ s p, r = Ok s → db_path = Some p → ∃ f, fs' !! p = Some f ∧ mode f = from_option mode OWNER_ONLY (fs !! p).
Proof.
  unfold open_store. destruct db_path as [p|]; [|by intros [= <- <-]].
  assert (∀ g q, Some p ≠ Some q → <[p := g]> fs !! q = fs !! q) as Hi.
  { intros g q Hq. rewrite lookup_insert_ne; congruence. }
  destruct (fs !! p) as [f|] eqn:Hf; [|].
  { intros [= <- <-]. split; [done|]. intros s q Hs Hq. simplify_eq. exists f. by rewrite Hf. }
  destruct (creates m); [|intros [= <- <-]; split; [done|intros s q Hs; simplify_eq]].
  destruct (sets_permissions m); intros [= <- <-]; (split; [|intros s' q Hs Hq; simplify_eq]).
  - intros q Hq. rewrite (lookup_insert_ne (<[p := _]> fs)) by congruence. auto.
  - rewrite lookup_insert_eq, Hf. by eexists.
  - auto.
Qed.

(** The file of a store is private to the user of the drone when the drone makes it, and keeps its
    permissions otherwise; no other file is touched, and none at all unless the configuration names
    one runtime. *)
Lemma drone_files m now config fs :
  (∀ q, db_path config ≠ Some q → (run m now config fs).1 !! q = fs !! q) ∧
  (is_ok (choose_runtime config) = false → (run m now config fs).1 = fs) ∧
  ∀ p path, (run m now config fs).2 = Ok p → db_path config = Some path →
    ∃ f, (run m now config fs).1 !! path = Some f ∧ mode f = from_option mode OWNER_ONLY (fs !! path).
Proof.
  unfold run. destruct (choose_runtime config) as [e|e]; cbn [map_err result_bind]; [|done].
  destruct (start_runtime m e) as [r|]; [|done].
  destruct (open_store m (db_path config) fs) as [fs' o] eqn:Ho.
  destruct (open_store_spec _ _ _ _ _ Ho) as [Hq Hp]. split_and!; [|done|].
  - intros q Hne. destruct o as [s|]; [|auto]. destruct (Executor.new now s) as [ex|]; [|auto]. cbn [fst].
    rewrite <- (Hq q Hne). unfold synced. destruct (db_path config); [|done]. rewrite lookup_alter_ne; congruence.
  - intros p path. destruct o as [s|]; [|done]. destruct (Executor.new now s) as [ex|]; [|done]. cbn.
    intros _ Hpath. destruct (Hp s path eq_refl Hpath) as (f & Hf & Hmode). unfold synced. rewrite Hpath.
    rewrite lookup_alter_eq, Hf. by eexists.
Qed.

(** The messages that a store replays. *)
Definition message_of (e : event_row) : Protocol.BackendStateMessage := {|
  Protocol.bsm_event_id := ev_id e; Protocol.bsm_backend_id := ev_backend_id e;
  Protocol.bsm_state := ev_state e; Protocol.bsm_timestamp := from_millis (ev_timestamp e) |}.

Lemma restart_keeps_events now s s' :
  store_wf s → terminate_preexisting_backends now s = Ok s' →
  store_wf s' ∧ ∀ e, e ∈ st_events s → e ∈ st_events s'.
Proof.
  intros Hs. unfold terminate_preexisting_backends. rewrite active_backends_eq by done. intros [= <-].
  split; [|intros e; apply terminate_all_events]. apply terminate_all_wf; [done|].
  intros [i st] [_ Hin%elem_of_map_to_list]%list_elem_of_filter. by apply (sw_backends _ Hs) in Hin.
Qed.

Lemma connected_replays s keys : store_wf s →
  ∃ msgs, (connected (MkDrone (MkExecutor s ∅) keys)).2 = Ok msgs ∧
    ∀ e, e ∈ st_events s → Protocol.MBackendEvent (message_of e) ∈ msgs.
Proof.
  intros Hs. unfold connected, register_listener, StateStore.register_listener. cbn.
  rewrite unacked_events_eq by done. cbn. eexists. split; [reflexivity|]. intros e He.
  apply list_elem_of_fmap_2, (list_elem_of_fmap_2' _ _ e); [|done]. by rewrite (merge_sort_Permutation ts_le).
Qed.

(** A process that has started ends with a signal and not before, and leaves in its file what its store
    held then; one that cannot start does not wait. *)
Lemma run_drone_ends m now config life ctrl_c terminate fs fs' o :
  run_drone m now config life ctrl_c terminate fs = (fs', o) →
  match o with
  | Failed e => (run m now config fs).2 = Err e ∧ fs' = (run m now config fs).1
  | Serving p => ctrl_c = false ∧ terminate = false
  | Stopped => (ctrl_c = true ∨ terminate = true) ∧ ∃ p, (run m now config fs).2 = Ok p ∧
      fs' = crash (life p) (run m now config fs).1
  end.
Proof.
  unfold run_drone. destruct (run m now config fs) as [fs1 [p|e]]; [|by intros [= <- <-]].
  unfold wait_for_shutdown_signal. destruct ctrl_c, terminate; intros [= <- <-]; [..|done];
    (split; [by (left + right)|by exists p]).
Qed.


End DroneProcessProps.

(** ** Witnesses *)

Module DroneProcessWitness.
Import Executor DroneLoop DroneConfig DockerRuntime DroneProcess DroneProps DroneProcessProps DroneWitness.

Definition good_machine : machine := Machine 420 true true true true true.

Definition config : DroneConfig.t := {|
  DroneConfig.name := "dr-one"; DroneConfig.docker_config := None;
  DroneConfig.executor_config := Some (ExecUnixSocket "/run/exec.sock");
  DroneConfig.controller_url := "http://controller/"; DroneConfig.cluster := "c.example";
  DroneConfig.pool := ""; DroneConfig.ip := ip; DroneConfig.db_path := Some "/var/drone.db";
  DroneConfig.auto_prune := None; DroneConfig.cleanup_min_age := None |}.

(** The first process makes the file. *)
Definition first_files : files := (run good_machine 0 config ∅).1.

Lemma first_mode : mode <$> first_files !! "/var/drone.db" = Some OWNER_ONLY.
Proof. reflexivity. Qed.


End DroneProcessWitness.
