(* ===== verification/ProxyProcess.v ===== *)
(** * The proxy and the DNS server as processes

    [run_proxy] of [plane/src/proxy/mod.rs] with the servers of [dynamic-proxy/src/server.rs], composed
    of the parts of other files: the certificate manager and its watcher, the connection to the
    controller (of which only the start of the refresh task matters here), and the listening loops
    with their graceful shutdown. [run_dns] of [plane/src/dns/mod.rs]. *)

From S2P Require Import Prelude Names Types Proxy Config CertPair CertManager Forward Interaction.

Module ProxyProcess.
Import ProxyConfig CertPair CertWatcher Listen.

Section ProxyProcess.
Context {L : CertLib} {IpAddr : Type}.

(** [SimpleHttpServer]: its port, whether it speaks TLS, the service behind it, and its loop. *)
Record server := Server {
  sv_port : Z;
  sv_tls : bool;
  sv_handler : handler;
  sv_loop : @loop IpAddr
}.

Definition endpoint_of (s : server) : Z * bool * handler := (sv_port s, sv_tls s, sv_handler s).

Inductive phase :=
| WaitingCert
| Opening (todo : list (Z * bool * handler))
| Serving
| ShuttingDown (until : Z)
| Ended
| Failed.

Record t := Mk {
  at_ : phase;
  channel : CertWatcher.channel L;
  watcher : CertWatcher.t L;
  manager : Manager.t;
  servers : list server
}.

Definition SHUTDOWN_TIMEOUT : Z := from_secs 10.

(** The servers that [ServerWithHttpRedirect::new] opens, in its order. *)
Definition wanted (config : ProxyConfig.t) : list (Z * bool * handler) :=
  with_redirect (http_port (port_config config)) (https_port (port_config config)).

(** [run_proxy] up to its first wait. *)
Definition start (config : ProxyConfig.t) (f : fs) : t :=
  let '(w, m, ch) :=
    Manager.watcher_manager_pair (cluster config) (cert_path config) (acme_config config) f in
  Mk (if https_port (port_config config) then WaitingCert else Opening (wanted config)) ch w m [].

(** What happens: the connection to the controller is made, the refresh task sends a certificate, a
    pass of [wait_for_initial_cert], the answer of [bind] for the next server, an event of a listening
    loop, the signal, and a look at the wait of the shutdown. *)
Inductive event :=
| ControllerConnected
| CertSent (c : CertificatePair L)
| WaitPass
| Bound (ok : bool)
| Loop (i : nat) (e : @Listen.event IpAddr)
| Signalled (now : Z)
| Looked (now : Z).

Definition goes (p : phase) (s : t) : t := Mk p (channel s) (watcher s) (manager s) (servers s).
Definition with_servers (l : list server) (s : t) : t :=
  Mk (at_ s) (channel s) (watcher s) (manager s) l.
(** The servers are dropped, which aborts their loops. *)
Definition exits (p : phase) (s : t) : t := Mk p (channel s) (watcher s) (manager s) [].

Definition in_loop (f : loop → loop) (sv : server) : server :=
  Server (sv_port sv) (sv_tls sv) (sv_handler sv) (f (sv_loop sv)).

(** A TLS handshake asks the watcher for the certificate, and fails without one. *)
Definition loop_event (i : nat) (e : Listen.event) (s : t) : t :=
  match servers s !! i with
  | None => s
  | Some sv =>
      let '(w, e) :=
        match e with
        | Listen.Handshake j ok =>
            let '(w, key) := resolve (channel s) (watcher s) in
            (w, Listen.Handshake j (ok && bool_decide (is_Some key)))
        | _ => (watcher s, e)
        end in
      Mk (at_ s) (channel s) w (manager s)
        (<[i := in_loop (turn (sv_tls sv) e) sv]> (servers s))
  end.

(** [graceful_shutdown_with_timeout]: the wait for one server is over. *)
Definition done_with (until now : Z) (sv : server) : bool :=
  Graceful.complete (graceful (sv_loop sv)) || (until <=? now)%Z.

Definition turn (config : ProxyConfig.t) (e : event) (s : t) : t :=
  match e, at_ s with
  | ControllerConnected, _ =>
      Mk (at_ s) (channel s) (watcher s) (Manager.set_request_sender (manager s)) (servers s)
  | CertSent c, _ =>
      match Manager.refresh_loop (manager s) with
      | Some _ => Mk (at_ s) (send c (channel s)) (watcher s) (manager s) (servers s)
      | None => s
      end
  | WaitPass, WaitingCert =>
      match wait_pass (channel s) (watcher s) with
      | Done =>
          Mk (Opening (wanted config)) (channel s) (watcher s) (manager s) (servers s)
      | Pending => s
      | Again w => Mk WaitingCert (channel s) w (manager s) (servers s)
      end
  | Bound ok, Opening ((port, tls, h) :: todo) =>
      if ok then
        let l := servers s ++ [Server port tls h (Listen.start (length (servers s)))] in
        Mk (match todo with [] => Serving | _ => Opening todo end) (channel s) (watcher s) (manager s) l
      else exits Failed s
  | Loop i e, _ => loop_event i e s
  | Signalled now, Serving =>
      Mk (ShuttingDown (now + SHUTDOWN_TIMEOUT)%Z) (channel s) (watcher s) (manager s)
        (in_loop shut <$> servers s)
  | Looked now, ShuttingDown until =>
      if forallb (done_with until now) (servers s) then exits Ended s else s
  | _, _ => s
  end.

End ProxyProcess.
End ProxyProcess.

(** ** Theorems *)

Module ProxyProcessProps.
Import ProxyConfig CertPair CertWatcher CertWatcherProps Listen ProxyProcess.

Section Props.
Context {L : CertLib} {IpAddr : Type}.
Context (config : ProxyConfig.t) (f : fs).
Implicit Types (s : @ProxyProcess.t L IpAddr) (sv : @server IpAddr).

Definition https : bool := bool_decide (is_Some (https_port (port_config config))).
Definition run (es : list event) : ProxyProcess.t :=
  foldl (λ s e, turn config e s) (ProxyProcess.start config f) es.

Definition endpoints s : list (Z * bool * handler) := endpoint_of <$> servers s.

Definition at_phase s : Prop :=
  match at_ s with
  | WaitingCert => https = true ∧ servers s = []
  | Opening todo => endpoints s ++ todo = wanted config ∧ todo ≠ []
  | Serving | ShuttingDown _ => endpoints s = wanted config
  | Ended | Failed => servers s = []
  end.

Record sound s : Prop := {
  so_fresh : fresh (channel s, watcher s) (value (channel s));
  so_phase : at_phase s;
  so_cert : https = true → at_ s ≠ WaitingCert → is_Some (value (channel s));
  so_served : ∀ sv, sv ∈ servers s → ForwardProps.served (sv_tls sv) (sv_loop sv)
}.

Lemma proxy_sound_start : sound (ProxyProcess.start config f).
Proof.
  unfold ProxyProcess.start, Manager.watcher_manager_pair, Manager.new. set (o := _ ≫= _).
  assert (fresh (match o with Some cert => send cert (MkChannel None 0) | None => MkChannel None 0 end, CertWatcher.new)
    (value (match o with Some cert => send cert (MkChannel None 0) | None => MkChannel None 0 end))) as Hf.
  { destruct o as [c|]; [exact (run_fresh [SendCert c])|exact (run_fresh [])]. }
  split; cbn; [done| |intros Hh Hw|by intros ? ?%elem_of_nil].
  - unfold at_phase, https, wanted. cbn. by destruct (https_port (port_config config)).
  - unfold https in Hh. by destruct (https_port (port_config config)).
Qed.

Lemma served_start tls l : ForwardProps.served tls (@Listen.start IpAddr l).
Proof. split_and!; cbn; [by rewrite !dom_empty_L|..]; intros ?? []%lookup_empty_Some. Qed.

Lemma served_shut tls (l : @loop IpAddr) : ForwardProps.served tls l → ForwardProps.served tls (shut l).
Proof.
  intros (Hd & Hh & Hs). split_and!; cbn; [|done..]. unfold Graceful.signal. by destruct (Graceful.complete _).
Qed.

Lemma sound_loop i e s : sound s → sound (loop_event i e s).
Proof.
  intros Hs. unfold loop_event. destruct (servers s !! i) as [sv|] eqn:Hi; [|done].
  destruct (match e with Listen.Handshake _ _ => _ | _ => _ end) as [w e'] eqn:He.
  assert (fresh (channel s, w) (value (channel s))) as Hf.
  { destruct Hs as [Hf _ _ _]. destruct e; simplify_eq; [done..| |done].
    pose proof (step_fresh Resolve _ _ Hf) as Hr. cbn in Hr.
    unfold resolve in He. by injection He as <- _. }
  destruct Hs as [_ Hp Hc Hl]. split; cbn; [done| |done|].
  - assert (endpoint_of <$> <[i := in_loop (Listen.turn (sv_tls sv) e') sv]> (servers s) = endpoints s) as He'.
    { unfold endpoints. rewrite list_fmap_insert. apply list_insert_id. by rewrite list_lookup_fmap, Hi. }
    unfold at_phase in *. cbn. rewrite ?He'. destruct (at_ s); rewrite ?He'; try done;
      [destruct Hp as [? Hp]; by rewrite Hp in Hi|by rewrite Hp in Hi..].
  - intros x Hx. apply list_elem_of_lookup in Hx as [j Hj].
    apply list_lookup_insert_Some in Hj as [(-> & <- & _)|[_ Hj]]; [|by eapply Hl, list_elem_of_lookup_2].
    cbn. by eapply ForwardProps.served_turn, Hl, list_elem_of_lookup_2.
Qed.

Lemma proxy_sound_turn e s : sound s → sound (turn config e s).
Proof.
  intros Hs. destruct e as [|c| |ok|i e|now|now]; cbn [turn]; [| | | |by apply sound_loop|..].
  - by destruct Hs.
  - destruct (Manager.refresh_loop (manager s)); [|done]. destruct Hs as [Hf Hp _ Hl].
    split; cbn; [exact (step_fresh (SendCert c) _ _ Hf)|done|by eexists|done].
  - destruct (at_ s) eqn:Ha; try done. pose proof Hs as [Hf Hp _ Hl]. unfold at_phase in Hp.
    rewrite Ha in Hp. destruct Hp as [Hh Hn]. pose proof (step_fresh CertWatcherProps.WaitPass _ _ Hf) as Hw. cbn in Hw.
    destruct (wait_pass (channel s) (watcher s)) as [| |w] eqn:Hpass; [|done|]; split; cbn; try done.
    + unfold at_phase, endpoints. cbn. rewrite Hn. split; [done|]. unfold wanted. by destruct (https_port _).
    + intros _ _. destruct Hf as [_ _ _ Hsm _]. apply Hsm. cbn. unfold wait_pass in Hpass.
      destruct (certified_key (watcher s)); [by eexists|]. by destruct (has_changed _ _).
  - destruct (at_ s) as [|[|[[port tls] h] todo]| | | |] eqn:Ha; try done. destruct Hs as [Hf Hp Hc Hl].
    unfold at_phase in Hp. rewrite Ha in Hp. destruct Hp as [Hp _].
    destruct ok; split; cbn; try done; try (intros Hh _; apply Hc; [done|by rewrite Ha]);
      [| |by intros ? ?%elem_of_nil].
    + unfold at_phase. cbn [at_]. rewrite <- Hp. unfold endpoints. cbn [servers].
      destruct todo; [by rewrite fmap_app|]. split; [|done]. by rewrite fmap_app, <- app_assoc.
    + intros x [Hx|Hx]%elem_of_app; [by apply Hl|]. apply list_elem_of_singleton in Hx as ->. apply served_start.
  - destruct (at_ s) eqn:Ha; try done. destruct Hs as [Hf Hp Hc Hl].
    unfold at_phase in Hp. rewrite Ha in Hp. split; cbn; [done| |intros Hh _; apply Hc; [done|by rewrite Ha]|].
    + unfold at_phase, endpoints in *. cbn. by rewrite <- list_fmap_compose.
    + intros x (y & -> & Hy)%list_elem_of_fmap. cbn. by apply served_shut, Hl.
  - destruct (at_ s) eqn:Ha; try done. destruct (forallb _ _); [|done]. destruct Hs as [Hf Hp Hc Hl].
    split; cbn; [done|done|intros Hh _; apply Hc; [done|by rewrite Ha]|by intros ? ?%elem_of_nil].
Qed.

Lemma run_sound es : sound (run es).
Proof.
  unfold run. pose proof proxy_sound_start as H. revert H. generalize (ProxyProcess.start (IpAddr := IpAddr) config f).
  induction es as [|e es IH]; intros s Hs; [done|]. by apply IH, proxy_sound_turn.
Qed.

(** The servers of a proxy: it opens the ports of its configuration, in their order, and no port when
    one of them cannot be opened. With HTTPS configured, no port is open before there is a
    certificate, every handshake then gets the latest one, and only requests that came over TLS are
    passed to backends. *)
Theorem proxy_servers_sound es :
  let s := run es in
  endpoints s `prefix_of` wanted config ∧
  (at_ s = Failed → servers s = []) ∧
  (https = true → servers s ≠ [] →
    ∃ c, value (channel s) = Some c ∧ (resolve (channel s) (watcher s)).2 = Some (key_of c)) ∧
  (https = true → ∀ sv i w, sv ∈ servers s → sv_handler sv = Proxied →
    serving (sv_loop sv) !! i = Some w → Wrapped.forwarded_proto IpAddr w = "https").
Proof.
  intros s. destruct (run_sound es) as [Hf Hp Hc Hl]. fold s in Hf, Hp, Hc, Hl.
  assert (endpoints s `prefix_of` wanted config) as Hpre.
  { unfold at_phase in Hp. unfold endpoints in *.
    destruct (at_ s); destruct_and?; try (by eexists); try (by rewrite Hp);
      match goal with H : servers _ = [] |- _ => rewrite H end; apply prefix_nil. }
  split_and!; [done| | |].
  - intros Ha. unfold at_phase in Hp. by rewrite Ha in Hp.
  - intros Hh Hn. destruct (Hc Hh) as [c Hv].
    { intros Ha. unfold at_phase in Hp. rewrite Ha in Hp. by destruct Hp. }
    exists c. split; [done|]. pose proof (step_fresh Resolve _ _ Hf) as Hr. cbn in Hr.
    destruct Hr as [_ _ Hk _ _]. unfold resolve in *. cbn in *. rewrite Hv in *.
    destruct (has_changed (channel s) (watcher s)) eqn:Hch; cbn in *.
    + by rewrite Hv.
    + destruct Hf as [_ _ Hk' _ _]. cbn in Hk'. rewrite Hk', Hv; [done|].
      unfold has_changed in Hch. by apply negb_false_iff, Nat.eqb_eq in Hch.
  - intros Hh sv i w Hin Hpx Hw. destruct (Hl sv Hin) as (_ & _ & Hs). destruct (Hs i w Hw) as [ip ->].
    assert (endpoint_of sv ∈ wanted config) as He.
    { eapply elem_of_prefix; [|exact Hpre]. by apply list_elem_of_fmap_2. }
    unfold wanted, with_redirect, https in *. destruct (https_port (port_config config)); [|done].
    unfold endpoint_of in He. rewrite Hpx in He.
    destruct (sv_tls sv); [done|]. by apply elem_of_cons in He as [?|[?|?%elem_of_nil]%elem_of_cons].
Qed.

(** *** Without a certificate *)

(** The certificate of the configured file, if it can be loaded. *)
Definition stored_cert : option (CertificatePair L) :=
  path ← cert_path config;
  match load path f with Ok c => Some c | Err _ => None end.

Lemma stored_start : value (channel (ProxyProcess.start (IpAddr := IpAddr) config f)) = stored_cert.
Proof.
  unfold ProxyProcess.start, Manager.watcher_manager_pair, Manager.new, stored_cert.
  destruct (cert_path config) as [path|]; [|done]. cbn. unfold load.
  destruct (f !! path); [|done]. cbn. by repeat case_match.
Qed.

(** With HTTPS, without an ACME configuration and without a certificate in the file, no event ends
    the wait of the process for its initial certificate: it never opens a port. *)
Lemma no_certificate_never_opens es :
  https = true → acme_config config = None → stored_cert = None →
  at_ (run es) = WaitingCert ∧ servers (run es) = [].
Proof.
  intros Hh Ha Hc.
  assert (at_ (run es) = WaitingCert ∧ value (channel (run es)) = None ∧
    Manager.acme (manager (run es)) = None ∧ Manager.refresh_loop (manager (run es)) = None) as (Hw & _).
  { induction es as [|e es IH] using rev_ind.
    - rewrite <- Hc, <- stored_start. unfold run. cbn. unfold https in Hh.
      destruct (https_port (port_config config)); [|done]. by rewrite Ha.
    - unfold run. rewrite foldl_app. cbn [foldl]. fold (run es). destruct IH as (Hw & Hv & Hm & Hr).
      destruct (run_sound es) as [Hf Hp _ _]. unfold at_phase in Hp. rewrite Hw in Hp. destruct Hp as [_ Hn].
      destruct e; cbn [turn]; rewrite ?Hw, ?Hr; try done.
      + cbn. by rewrite Hm.
      + unfold wait_pass. destruct (certified_key (watcher (run es))) as [k|] eqn:Hk.
        { destruct Hf as [_ _ _ Hs _]. destruct Hs as [c Hs]; [by eexists|]. cbn in Hs. congruence. }
        by destruct (has_changed _ _).
      + unfold loop_event. by rewrite Hn. }
  split; [done|]. destruct (run_sound es) as [_ Hp _ _]. unfold at_phase in Hp. rewrite Hw in Hp.
  by destruct Hp.
Qed.

(** With the certificate in the file, or without HTTPS, the answers of the system to [bind] are all
    that the process waits for. *)
Lemma certificate_opens :
  (https = true → is_Some stored_cert) →
  at_ (run ((if https then [WaitPass; WaitPass] else []) ++ replicate (length (wanted config)) (Bound true)))
    = Serving.
Proof.
  rewrite <- stored_start. unfold https, run, ProxyProcess.start, Manager.watcher_manager_pair, Manager.new, wanted.
  destruct (https_port (port_config config)) as [p|] eqn:Hp; [|done].
  set (o := _ ≫= _). intros Hc. destruct (Hc eq_refl) as [c Hv]. cbn in Hv |- *.
  destruct o as [c'|]; [|done]. cbn. unfold wanted. by rewrite Hp.
Qed.

(** *** Shutdown *)

(** Ten seconds after the signal at the latest the process ends, and at once when no connection is
    being served and the loops have noticed. *)
Lemma proxy_shutdown_ends s now later :
  at_ s = Serving → (now + SHUTDOWN_TIMEOUT ≤ later)%Z ∨
    (∀ sv, sv ∈ servers (turn config (Signalled now) s) → Graceful.complete (graceful (sv_loop sv)) = true) →
  at_ (turn config (Looked later) (turn config (Signalled now) s)) = Ended.
Proof.
  intros Ha Hd. unfold turn at 2. rewrite Ha. cbn [turn at_ servers] in *. cbn.
  rewrite (proj2 (forallb_forall _ _)); [done|]. intros sv Hsv%list_elem_of_In. unfold done_with.
  destruct Hd as [Hd|Hd]; [rewrite (proj2 (Z.leb_le _ _) Hd); by rewrite orb_true_r|].
  rewrite Hd; [done|]. cbn. by rewrite Ha.
Qed.

End Props.
End ProxyProcessProps.

(** ** The DNS server *)

(** [run_dns] and [run_dns_with_listener] as a program over the calls that it makes. *)
Module DnsProcess.
Import DnsConfig.
Section DnsProcess.
Context {Addr : Type}.

(** The error of [run_dns]; only the call that failed is kept. *)
Inductive DnsError := NoTcp | NoAddress | NoUdp | ServerPanicked | ServerError.

Inductive call_of : Type → Type :=
| BindTcp (port : Z) : call_of (result () ())
| LocalAddr : call_of (result () Addr)
| BindUdp (addr : Addr) : call_of (result () ())
| Connect (controller_url : string) : call_of ()
| RegisterSocket : call_of ()
| RegisterListener (timeout_seconds : Z) : call_of ()
| Serve : call_of ()
| WaitForShutdownSignal : call_of ()
| Shutdown : call_of ()
(** the answer of the task: a panic, or what the server returned *)
| Join : call_of (result () (result () ())).

Definition TCP_TIMEOUT_SECONDS : Z := 10.

Definition try {X} (e : call_of (result () X)) (err : DnsError) (k : X → prog call_of (result DnsError ()))
  : prog call_of (result DnsError ()) :=
  Call e (λ r, match r with Ok x => k x | Err _ => Ret (Err err) end).

Definition run_dns_with_listener (controller_url : string) : prog call_of (result DnsError ()) :=
  Call (Connect controller_url) (λ _,
  try LocalAddr NoAddress (λ addr,
  try (BindUdp addr) NoUdp (λ _,
  Call RegisterSocket (λ _,
  Call (RegisterListener TCP_TIMEOUT_SECONDS) (λ _,
  Call Serve (λ _,
  Call WaitForShutdownSignal (λ _,
  Call Shutdown (λ _,
  try Join ServerPanicked (λ r,
  match r with Ok _ => Ret (Ok ()) | Err _ => Ret (Err ServerError) end))))))))).

Definition run_dns (config : DnsConfig.t) : prog call_of (result DnsError ()) :=
  try (BindTcp (port config)) NoTcp (λ _, run_dns_with_listener (controller_url config)).

(** The server answers only over sockets of one address, both bound: that of the listener. *)
Record ghost := Ghost { tcp : bool; addr : option Addr; udp : option Addr; signalled : bool }.

Definition next (g : ghost) (o : obs call_of) : ghost :=
  match o with
  | Obs e x =>
      match e in call_of X return X → ghost with
      | BindTcp _ => λ r, Ghost (is_ok r) (addr g) (udp g) (signalled g)
      | LocalAddr => λ r, Ghost (tcp g) (match r with Ok a => Some a | Err _ => None end) (udp g) (signalled g)
      | BindUdp a => λ r, Ghost (tcp g) (addr g) (if is_ok r then Some a else None) (signalled g)
      | WaitForShutdownSignal => λ _, Ghost (tcp g) (addr g) (udp g) true
      | _ => λ _, g
      end x
  end.

Definition allowed (g : ghost) (e : sigT call_of) : Prop :=
  match projT2 e with
  | Serve => tcp g = true ∧ is_Some (addr g) ∧ udp g = addr g
  | Shutdown => signalled g = true
  | _ => True
  end.

Lemma wp_run_dns config :
  wp next allowed (λ r g, r = Ok () → signalled g = true) (Ghost false None None false) (run_dns config).
Proof.
  cbn. split; [done|]. intros [[]|[]]; [|done]. cbn. split; [done|]. intros []. split; [done|].
  intros [a|[]]; [|done]. cbn. split; [done|]. intros [[]|[]]; [|done]. cbn. do 5 (split; [done|]; intros []).
  split; [done|]. intros [[[]|[]]|[]]; done.
Qed.

(** The DNS server serves only with its TCP listener and a UDP socket at the same address, and is shut
    down only after the signal; a run that ends well has had the signal. *)
Theorem dns_serves_both config tr r :
  runs (run_dns config) tr r →
  (∀ pre x post, tr = pre ++ Obs Serve x :: post →
    let g := foldl next (Ghost false None None false) pre in
    tcp g = true ∧ is_Some (addr g) ∧ udp g = addr g) ∧
  (r = Some (Ok ()) → ∃ x, In (Obs WaitForShutdownSignal x) tr).
Proof.
  intros Hr. destruct (wp_runs next allowed _ _ _ _ _ (wp_run_dns config) Hr) as [Hall HQ]. split.
  - intros pre x post Heq. exact (Hall pre _ Serve x post Heq).
  - intros Hok. specialize (HQ (Ok ()) Hok eq_refl). clear -HQ.
    assert (∀ g, signalled g = false → signalled (foldl next g tr) = true →
      ∃ x, In (Obs WaitForShutdownSignal x) tr) as H; [|by apply (H (Ghost false None None false))].
    clear HQ. induction tr as [|[X e x] tr IH]; intros g Hg; cbn [foldl]; [cbn; congruence|].
    destruct e; try (intros [y Hy]%IH; [by exists y; right|done]). intros _. exists x. by left.
Qed.

End DnsProcess.
End DnsProcess.
